(* ===== verification/_CoqProject ===== *)
-Q . S2P
Prelude.v
Text.v
Errors.v
Sdk.v
Amounts.v
Keys.v
Slug.v
Domain.v
Calendar.v
Bars.v
WriteSet.v
Tables.v
Books.v
BooksFacts.v
BooksClient.v
BooksPersist.v
Orders.v
OrdersFacts.v
Markets.v
MarketsFacts.v
MarketsClient.v
Vaults.v
VaultsFacts.v
Rings.v
Paper.v
PaperFacts.v
PaperViews.v
Submit.v
SubmitFacts.v
Events.v
Store.v
StoreFacts.v
Persist.v
PersistFacts.v
Peer.v
Hydrate.v
StakeView.v
Params.v
Enrich.v
PaperRoutes.v
MarketRoutes.v
AccountRoutes.v
Config.v
Broadcast.v
Session.v
SessionFacts.v
Writes.v
Processor.v
Decode.v
PaperBlocks.v
ProcessorFacts.v
OrderRoutes.v
Recover.v
RecoverFacts.v
Pipeline.v
PipelineFacts.v
Supervise.v
App.v
Timing.v
TypedStore.v
TypedStoreFacts.v
TablesStore.v
TablesStoreFacts.v
IndexSqlite.v
ChainClient.v
Mempool.v
