(* ===== verification/Prelude.v ===== *)
(** * lightpool-clob-indexer: a verification development

    The program follows the blocks of a LightPool node.  It keeps order books,
    live orders, the market catalogue, vaults, candles and the paper trading
    market in memory, writes them to an index database (RocksDB) and a block and
    history log (SQLite), sends changes to websocket subscribers, answers HTTP
    queries, and gives clients that submit transactions their receipts.

    All sources named below are under src/src/, but for TypedStore, whose are
    under src/crates/.  State is passed explicitly;
    each operation of the code is one Gallina function of the same name, total
    and executable, and an operation that can fail returns [AppResult].
    Concurrency is a transition system over explicit events, with theorems that
    hold for every interleaving.

    ** How the parts interact

    A block received from the node runs through the three tasks of Pipeline:
    receive, decode (Processor.prepare_block), apply
    (Processor.process_prepared_block).  Applying it calls the handlers of
    Processor, which update Books, Orders, Markets, Vaults, Bars and Paper,
    record every change in a WriteSet, and publish messages; the write set goes
    through Persist to Tables.  Submit waits for the receipts of the block.
    Supervise runs one such session after another; Recover rebuilds the index
    from the tables, from the block log, or from a peer (Peer); App is the whole
    process from start to shutdown.  Tables sees the index database as maps;
    TablesStore is the same code over TypedStore, down to bytes.  Session is one
    websocket connection reading Broadcast channels; the Routes files are the
    HTTP handlers over the same index.

    ** Files

    - Prelude: machine integers, the tactics, and lemmas on lists and maps.
    - Text: the string functions of the standard library in use (trim, case,
      split, decimal printing and parsing), on bytes.
    - Errors (error.rs), Sdk (what comes from lightpool_sdk and uuid: a class
      with its laws and a concrete instance), Domain (domain/, persist/types.rs).
    - Amounts (chain/mod.rs, the formatters), Keys (spot_market.rs and the keys
      of index_state.rs), Slug (slug.rs).
    - Calendar, Bars (bars.rs).
    - WriteSet (persist/index_write_set.rs), Tables
      (persist/index_state_tables.rs, index_state_write.rs, checkpoint.rs).
    - Books, BooksFacts, BooksClient, BooksPersist (indexer/books.rs).
    - Orders, Markets, Vaults, Rings, Paper, PaperViews and their Facts files
      (indexer/index_state.rs).
    - Submit, SubmitFacts (submit_wait.rs, submit_queue.rs).
    - Events, Processor, Decode, Writes, PaperBlocks, ProcessorFacts
      (indexer/processor.rs).
    - Store, StoreFacts (persist/store.rs, op.rs), Persist, PersistFacts
      (persist/shared.rs, workers.rs).
    - Peer (peer/mod.rs, http/routes/peer.rs), Hydrate (book_hydrate.rs),
      StakeView (indexer/paper_stake_view.rs).
    - Recover, RecoverFacts, Supervise (indexer/mod.rs), App (app.rs, state.rs),
      Timing (persist/timing.rs), Pipeline, PipelineFacts (indexer/pipeline.rs).
    - TypedStore, TypedStoreFacts (crates/typed-store: Database, DBMap, DBBatch,
      iterators, the store in memory), TablesStore, TablesStoreFacts
      (persist/index_state_tables.rs and index_state_write.rs over it),
      IndexSqlite (the index tables of persist/store.rs).
    - ChainClient (the calls of chain/mod.rs), Mempool (mempool_client.rs).
    - Broadcast, Session, SessionFacts (ws/mod.rs, ws/process/, ws/models/).
    - Params, PaperRoutes, MarketRoutes, OrderRoutes, AccountRoutes
      (http/routes/, http/process/, http/models/), Enrich (vault_enrich.rs),
      Config (config.rs).

    ** What is proved

    - Books: the levels are positive machine integers; every event changes one
      level; subscribers that apply the deltas of order events hold the server's
      book (a rehydration publishes nothing); how the events of different
      markets interleave changes nothing of a market but the ids of its trades.
    - Orders and Markets: the three maps of the order index implement one map of
      live orders; slug, venue and name indexes are consistent.
    - Paper: open interest is the notional of the open positions; the house
      feed ends every block current.  Bars: candles are the aggregates of the
      runs of trades.  Vaults (Enrich): the equity is the cash plus the exact
      value of the holdings, and the raw deposits stay within it.
    - Blocks: decode puts each event in exactly one list; committing the write
      set of a block leaves tables that hold what is persisted of the index
      ([ProcessorFacts.persisted]: levels and holdings up to [i64::MAX], the
      sequence and last price of every book, live orders, markets other than
      spot shells, last prices, vaults; not candles and not the paper state); the
      pipeline keeps the order of blocks, keeps tables and index together, and
      drains.
    - Persistence: merging write sets is composing them; the database is always
      the replay, in order, of the write sets that were committed, which without
      a failed build or commit are a prefix of those handed over; a pending
      count of zero means that every request has been dealt with, written or
      lost in a write that failed; the logs read back.
    - Storage: a typed map is a finite map whatever its codecs, range iterators
      see exactly their range, and the index database on bytes refines the
      tables; a SQLite checkpoint reads back.
    - Restart and catch-up: tables that agree with the index load back to what
      is persisted of it; a checkpoint is complete, so that a shutdown whose last
      write is carried out, followed by a start, keeps that state and the head;
      a peer is read completely; the first session of a node that lags goes live
      with what its peer's checkpoint holds, the peer's blocks and the newest 256
      of the blocks that came meanwhile.
    - Clients: receipts reach the request of their own digest; a connection is
      sent only what it subscribed to (two feeds are open to all and carry every
      user's positions and activity), the answer of every request is determined,
      the book feed converges; HTTP and websocket agree on an account; requests are checked.
    - Where the code does not do what it means to, a theorem says so: a
      cancellation that is never published, a last fill that is not credited, a
      duplicate submission that loses both receipts, replayed blocks that are
      not persisted, a cancellation over HTTP that is forgotten, a catch-up that
      fails half-way and is not repeated, an index write that fails and is
      skipped, a stored row that does not decode and hides those behind it, a
      deletion of everything that keeps the last row.

    ** Conventions

    - [u64], [i64] and the 128-bit types are [Z]; saturation and wrap-around are
      written out ([sat_add], [as_i64] and so on).  Arithmetic that the code
      leaves unchecked wraps around, as in the release build.
    - A [DashMap] or [HashMap] is a [gmap]; where its iteration order shows, the
      model's order is that of [map_to_list] and the theorems do not depend on
      it.
    - Locks: a definition is one critical section.  The market tasks of a block
      run one after the other, which BooksFacts.interleaving_irrelevant
      justifies for the shards of the books; the ids of trades come from one
      counter and do depend on the order.
    - Writes that fail: the writer tasks and the lanes of Persist take the
      outcome of a write as part of the event; Recover.on_disk carries a request
      out, and [settles] lets it be lost.
    - A uuid is an unbounded number and [uuid_v5] is taken to be injective
      (Sdk.NoCollision), an idealisation: the code's 128-bit hashes can collide
      in principle, and no injection into 128 bits exists.
    - Fuel: digits and trimming recurse on a bound computed from their input;
      slug_loop takes one more turn than there are slugs; book_fallback one more
      than the depth it halves; a peer's download one page more than the blocks
      of its log.  A lemma next to each says that this much is enough.  The scan
      for a market by name is bounded by the code itself (64).
    - Parameters: the SDK's addresses and contracts (Sdk, RouteSdk), the event
      payload decoder (Bincode), the block codec (BlockCodec) and JSON (Json),
      the answers of the node (Chain, PaperChain, AccountChain, InfoChain; ChainClient
      gives three of them from NodeSdk), RocksDB (Rocks, with its documented laws)
      and the key and value codecs of the typed store, the network of the mempool
      client (Net), the broadcast channel with its documented laws (Broadcast), clocks, the
      process environment.  Each has a concrete instance that the witnesses use.

    ** Not modelled

    - The Axum routers, the text of JSON bodies, CORS, log lines, and the
      functions of processor.rs that only format log lines (log_tx_result,
      format_event_detail, the warnings on prices).
    - Schema migration, [vacuum_into] (no caller), the directory copy of a
      checkpoint, the HTTP client of peers (its answers are parameters).
    - Failures of the disk while a checkpoint is taken over.
    - The end of a subscription whose channel a catch-up drops
      ([IndexState::clear_all]); cancellation in the middle of a session.
    - main.rs (the command line and the log), the socket and the signals of
      app.rs; the benchmark and the examples.
    - Of src/crates/: opening and options, compaction, file checkpoints, merge
      operators and metrics of the typed store, which configure RocksDB or report
      on it; the derive macros, which generate the struct of maps the index
      database opens; the feature tide_hunter, which is off. *)
From stdpp Require Export base numbers list gmap strings sorting.
From Stdlib Require Export ZArith Lia.

#[export] Set Default Goal Selector "!".

Declare Scope clob_scope.
Delimit Scope clob_scope with clob.
#[global] Open Scope Z_scope.

(** ** Machine integers

    Rust's [u64], [i64], [u128] and [i128] are [Z] with the range stated and
    the wrap-around or saturation of each operation written out. *)

Definition u64_max : Z := 18446744073709551615.
Definition i64_max : Z := 9223372036854775807.
Definition i64_min : Z := -9223372036854775808.

Definition is_u64 (x : Z) : Prop := 0 <= x <= u64_max.
Definition is_i64 (x : Z) : Prop := i64_min <= x <= i64_max.

(** [saturating_add], [saturating_sub], [saturating_mul] on u64. *)
Definition sat_add (a b : Z) : Z := Z.min (a + b) u64_max.
Definition sat_sub (a b : Z) : Z := Z.max (a - b) 0.
Definition sat_mul (a b : Z) : Z := Z.min (a * b) u64_max.

(** [as u64], [as i64], [as i32], [as u32] and the wrap-around of release-mode
    arithmetic at a given width. *)
Definition wrap_u (w : Z) (x : Z) : Z := x mod 2 ^ w.
Definition wrap_s (w : Z) (x : Z) : Z := (x + 2 ^ (w - 1)) mod 2 ^ w - 2 ^ (w - 1).
Definition as_u64 (x : Z) : Z := wrap_u 64 x.
Definition as_i64 (x : Z) : Z := wrap_s 64 x.

(** Rust's [clamp(lo, hi)]. *)
Definition clamp (lo hi x : Z) : Z := Z.max lo (Z.min hi x).

Create HintDb clob discriminated.
Create Rewrite HintDb clob_rw.

(** Unfold the machine-integer layer and close with [lia]. *)
Ltac mach :=
  unfold sat_add, sat_sub, sat_mul, clamp, is_u64, is_i64, u64_max, i64_max, i64_min in *;
  lia.

(** Split every conjunction and close what [lia], [done] or [eauto] can. *)
Ltac crush := intros; split_and?; try done; try mach; eauto with clob.

Lemma sat_add_u64 a b : 0 <= a -> 0 <= b -> is_u64 (sat_add a b).
Proof. mach. Qed.

Lemma sat_sub_u64 a b : is_u64 a -> 0 <= b -> is_u64 (sat_sub a b).
Proof. mach. Qed.

Lemma sat_add_exact a b : a + b <= u64_max -> sat_add a b = a + b.
Proof. mach. Qed.

Lemma sat_sub_exact a b : b <= a -> sat_sub a b = a - b.
Proof. mach. Qed.

Lemma sat_sub_add a b : 0 <= a -> 0 <= b -> a + b <= u64_max -> sat_sub (sat_add a b) b = a.
Proof. mach. Qed.

#[export] Hint Resolve sat_add_u64 sat_sub_u64 : clob.

Lemma as_u64_range x : is_u64 (as_u64 x).
Proof. unfold as_u64, wrap_u, is_u64, u64_max. pose proof (Z.mod_pos_bound x (2 ^ 64)). lia. Qed.

Lemma as_i64_range x : is_i64 (as_i64 x).
Proof.
  unfold as_i64, wrap_s, is_i64, i64_min, i64_max.
  pose proof (Z.mod_pos_bound (x + 2 ^ (64 - 1)) (2 ^ 64)). lia.
Qed.

Lemma as_u64_id x : is_u64 x -> as_u64 x = x.
Proof. unfold as_u64, wrap_u, is_u64, u64_max. intros. apply Z.mod_small. lia. Qed.

Lemma as_i64_id x : is_i64 x -> as_i64 x = x.
Proof.
  unfold as_i64, wrap_s, is_i64, i64_min, i64_max. intros.
  rewrite Z.mod_small; lia.
Qed.

(** Storing a u64 as an i64 and reading it back loses nothing. *)
Lemma as_u64_as_i64 x : is_u64 x -> as_u64 (as_i64 x) = x.
Proof.
  unfold as_u64, as_i64, wrap_u, wrap_s, is_u64, u64_max. intros.
  rewrite Zminus_mod_idemp_l, Z.add_simpl_r. apply Z.mod_small. lia.
Qed.

Lemma as_i64_inj x y : is_u64 x -> is_u64 y -> as_i64 x = as_i64 y -> x = y.
Proof. intros Hx Hy H. rewrite <- (as_u64_as_i64 x), <- (as_u64_as_i64 y) by done. by rewrite H. Qed.

(** The sign test the write set applies to stored sizes. *)
Lemma as_i64_pos x : is_u64 x -> (0 < as_i64 x <-> 0 < x <= i64_max).
Proof.
  unfold as_i64, wrap_s, is_u64, u64_max, i64_max. intros Hx.
  destruct (Z.le_gt_cases x 9223372036854775807) as [H|H].
  - rewrite Z.mod_small; lia.
  - replace (x + 2 ^ (64 - 1)) with (x - 2 ^ (64 - 1) + 1 * 2 ^ 64) by lia.
    rewrite Z_mod_plus_full, Z.mod_small; lia.
Qed.

#[export] Hint Resolve as_u64_range as_i64_range : clob.
#[export] Hint Rewrite as_u64_as_i64 as_u64_id as_i64_id using done : clob_rw.

(** ** Bounded queues

    [while q.len() > limit { q.pop_front(); }] on a [VecDeque] whose front is
    the head of the list, and the mirror image with [pop_back]. *)

Fixpoint pop_front_while {A} (limit : nat) (q : list A) : list A :=
  match q with
  | [] => []
  | _ :: q' => if decide (length q <= limit)%nat then q else pop_front_while limit q'
  end.

Definition pop_back_while {A} (limit : nat) (q : list A) : list A :=
  reverse (pop_front_while limit (reverse q)).

Lemma pop_front_while_drop {A} limit (q : list A) :
  pop_front_while limit q = drop (length q - limit) q.
Proof.
  induction q as [|x q IH]; [done|]. simpl pop_front_while. case_decide as H.
  - simpl in H |- *. by replace (S (length q) - limit)%nat with 0%nat by lia.
  - rewrite IH. simpl in H |- *.
    by replace (S (length q) - limit)%nat with (S (length q - limit)) by lia.
Qed.

Lemma pop_back_while_take {A} limit (q : list A) : pop_back_while limit q = take limit q.
Proof.
  unfold pop_back_while. rewrite pop_front_while_drop, length_reverse.
  rewrite <- (take_drop limit q) at 2. rewrite reverse_app.
  destruct (Nat.le_gt_cases (length q) limit) as [H|H].
  - replace (length q - limit)%nat with 0%nat by lia.
    rewrite (drop_ge q limit), take_ge, reverse_nil, app_nil_l by lia. by rewrite drop_0, reverse_involutive.
  - rewrite drop_app_length'; [by rewrite reverse_involutive|].
    rewrite length_reverse, length_drop. done.
Qed.

Lemma pop_front_while_length {A} limit (q : list A) :
  length (pop_front_while limit q) = Nat.min (length q) limit.
Proof. rewrite pop_front_while_drop, length_drop. lia. Qed.

Lemma pop_front_while_id {A} limit (q : list A) :
  (length q <= limit)%nat -> pop_front_while limit q = q.
Proof. intros. rewrite pop_front_while_drop. by replace (length q - limit)%nat with 0%nat by lia. Qed.

#[export] Hint Rewrite @pop_front_while_length : clob_rw.

(** ** Sums over lists *)

Definition sum_with {A} (f : A -> Z) (l : list A) : Z := foldr (fun x acc => f x + acc) 0 l.

Lemma sum_with_nonneg {A} (f : A -> Z) l : Forall (fun x => 0 <= f x) l -> 0 <= sum_with f l.
Proof. induction 1; simpl; lia. Qed.

Lemma sum_with_app {A} (f : A -> Z) l k : sum_with f (l ++ k) = sum_with f l + sum_with f k.
Proof. induction l as [|x l IH]; simpl; lia. Qed.

Lemma sum_with_fmap {A B} (f : B -> Z) (g : A -> B) l : sum_with f (g <$> l) = sum_with (fun x => f (g x)) l.
Proof. induction l as [|x l IH]; [done|]. cbn. f_equal. exact IH. Qed.

Lemma sum_with_ext {A} (f g : A -> Z) l : Forall (fun x => f x = g x) l -> sum_with f l = sum_with g l.
Proof. induction 1 as [|x l Hx _ IH]; simpl; [done|]. by rewrite Hx, IH. Qed.

Lemma sum_with_elem {A} (f : A -> Z) l x : Forall (fun x => 0 <= f x) l -> x ∈ l -> f x <= sum_with f l.
Proof.
  induction 1 as [|y l Hy Hl IH]; intros Hx; [by apply not_elem_of_nil in Hx|]. simpl. pose proof (sum_with_nonneg f l Hl).
  apply elem_of_cons in Hx as [->|Hx]; [lia|]. specialize (IH Hx). lia.
Qed.

#[global] Instance sum_with_perm {A} (f : A -> Z) : Proper ((≡ₚ) ==> eq) (sum_with f).
Proof. induction 1; simpl; lia. Qed.

(** Saturating addition along a list: never more than the true sum. *)
Definition sat_sum {A} (f : A -> Z) (l : list A) : Z := foldl (fun acc x => sat_add acc (f x)) 0 l.

Lemma sat_sum_foldl {A} (f : A -> Z) l a :
  0 <= a <= u64_max -> Forall (fun x => 0 <= f x) l ->
  foldl (fun acc x => sat_add acc (f x)) a l = Z.min (a + sum_with f l) u64_max.
Proof.
  intros Ha Hl. revert a Ha. induction Hl as [|x l Hx Hl IH]; intros a Ha; simpl; [mach|].
  pose proof (sum_with_nonneg f l Hl). rewrite IH; mach.
Qed.

Lemma sat_sum_eq {A} (f : A -> Z) l :
  Forall (fun x => 0 <= f x) l -> sat_sum f l = Z.min (sum_with f l) u64_max.
Proof. intros. unfold sat_sum. rewrite sat_sum_foldl by (done || mach). mach. Qed.

(** ** Sublists *)

Lemma sublist_full {A} (l k : list A) : l `sublist_of` k -> (length k <= length l)%nat -> l = k.
Proof.
  induction 1 as [|x l k Hs IH|x l k Hs IH]; simpl; intros Hl; [done|f_equal; apply IH; lia|].
  apply sublist_length in Hs. lia.
Qed.

(** ** Filtered and sorted lists *)

Lemma filter_all {A} (P : A -> Prop) `{forall x, Decision (P x)} l : Forall P l -> filter P l = l.
Proof. induction 1 as [|x l Hx _ IH]; [done|]. rewrite filter_cons_True by done. by f_equal. Qed.

Lemma filter_none {A} (P : A -> Prop) `{forall x, Decision (P x)} l : Forall (fun x => ~ P x) l -> filter P l = [].
Proof. induction 1 as [|x l Hx _ IH]; [done|]. by rewrite filter_cons_False. Qed.

Lemma filter_sorted {A} {S : relation A} (P : A -> Prop) `{forall x, Decision (P x)} l :
  StronglySorted S l -> StronglySorted S (filter P l).
Proof.
  induction 1 as [|x l _ IH Hx]; [constructor|]. rewrite filter_cons. case_decide; [|done]. constructor; [done|].
  rewrite Forall_forall in Hx |- *. intros y [_ Hy]%list_elem_of_filter. by apply Hx.
Qed.

(** ** Deciding a computed option: only the constructor is evaluated *)

Definition some_b {A} (o : option A) : bool := match o with Some _ => true | None => false end.

Lemma some_b_true {A} (o : option A) : some_b o = true -> is_Some o.
Proof. destruct o; [by eexists|done]. Qed.

Lemma some_b_false {A} (o : option A) : some_b o = false -> o = None.
Proof. by destruct o. Qed.
