(* ===== verification/Text.v ===== *)
(** * Text: the string operations of the Rust standard library the indexer uses

    A Rust [String] is valid UTF-8; here it is the [string] of its bytes.
    [trim] strips the Unicode White_Space characters by their UTF-8 encodings
    (self-synchronising, so a byte suffix equal to an encoding is a character),
    decimal printing and zero padding follow [fmt::Display], and the number
    parsers follow [str::parse]. *)
From S2P Require Import Prelude.
From Stdlib Require Export Ascii.

Local Open Scope list_scope.

Abbreviation chars := String.list_ascii_of_string.
Abbreviation text := String.string_of_list_ascii.

(** ** Bytes *)
Definition byte_of (z : Z) : ascii := ascii_of_N (Z.to_N z).
Definition byte_val (c : ascii) : Z := Z.of_N (N_of_ascii c).

(** ** Whitespace and trimming *)

(** UTF-8 encodings of the characters for which [char::is_whitespace] holds. *)
Definition ws_seqs : list (list ascii) :=
  ((fun b => [byte_of b]) <$> [9; 10; 11; 12; 13; 32]) ++
  ((fun p => [byte_of 194; byte_of p]) <$> [133; 160]) ++
  [[byte_of 225; byte_of 154; byte_of 128]] ++
  ((fun p => [byte_of 226; byte_of 128; byte_of p]) <$>
     [128; 129; 130; 131; 132; 133; 134; 135; 136; 137; 138; 168; 169; 175]) ++
  [[byte_of 226; byte_of 129; byte_of 159]; [byte_of 227; byte_of 128; byte_of 128]].

Fixpoint strip_prefix (p l : list ascii) : option (list ascii) :=
  match p, l with
  | [], _ => Some l
  | a :: p', b :: l' => if decide (a = b) then strip_prefix p' l' else None
  | _ :: _, [] => None
  end.

Fixpoint strip_one (seqs : list (list ascii)) (l : list ascii) : option (list ascii) :=
  match seqs with
  | [] => None
  | s :: seqs' => match strip_prefix s l with Some r => Some r | None => strip_one seqs' l end
  end.

Fixpoint strip_all (fuel : nat) (seqs : list (list ascii)) (l : list ascii) : list ascii :=
  match fuel with
  | O => l
  | S fuel' => match strip_one seqs l with Some r => strip_all fuel' seqs r | None => l end
  end.

(** Every stripped character shortens the list, so its length is enough fuel. *)
Definition strip (seqs : list (list ascii)) (l : list ascii) : list ascii :=
  strip_all (length l) seqs l.

Definition strip_end (seqs : list (list ascii)) (l : list ascii) : list ascii :=
  reverse (strip (reverse <$> seqs) (reverse l)).

Definition trim_l (l : list ascii) : list ascii := strip_end ws_seqs (strip ws_seqs l).

(** [str::trim]. *)
Definition trim (s : string) : string := text (trim_l (chars s)).

(** [s.trim().is_empty()]. *)
Definition is_blank (s : string) : bool := bool_decide (trim s = ""%string).

Lemma strip_prefix_Some p l r : strip_prefix p l = Some r <-> l = p ++ r.
Proof.
  revert l. induction p as [|a p IH]; intros [|b l]; simpl; try (split; [congruence|done]).
  - split; [by intros [= ->]|by intros ->].
  - split; [by intros [= ->]|by intros ->].
  - case_decide as H; [rewrite IH; subst; split; [by intros ->|congruence]|].
    split; congruence.
Qed.

Lemma strip_one_Some seqs l r :
  strip_one seqs l = Some r -> exists s, s ∈ seqs /\ l = s ++ r.
Proof.
  induction seqs as [|s seqs IH]; simpl; [done|].
  destruct (strip_prefix s l) eqn:E.
  - intros [= ->]. apply strip_prefix_Some in E. exists s. split; [set_solver|done].
  - intros H. destruct (IH H) as (s' & ? & ?). exists s'. split; [set_solver|done].
Qed.

Lemma strip_one_None seqs l :
  strip_one seqs l = None <-> forall s r, s ∈ seqs -> l <> s ++ r.
Proof.
  induction seqs as [|s seqs IH]; simpl; [set_solver|].
  destruct (strip_prefix s l) as [r|] eqn:E.
  - split; [done|]. intros H. apply strip_prefix_Some in E. destruct (H s r); [set_solver|done].
  - rewrite IH. split.
    + intros H s' r Hs ->. apply elem_of_cons in Hs as [->|Hs]; [|by destruct (H s' r)].
      by rewrite (proj2 (strip_prefix_Some s (s ++ r) r)) in E.
    + intros H s' r Hs. apply H. set_solver.
Qed.

Lemma strip_all_spec fuel seqs l :
  (forall s, s ∈ seqs -> s <> []) -> (length l <= fuel)%nat ->
  strip_one seqs (strip_all fuel seqs l) = None /\
  exists w, l = w ++ strip_all fuel seqs l.
Proof.
  intros Hne. revert l. induction fuel as [|fuel IH]; intros l Hl; simpl.
  - destruct l; [|simpl in Hl; lia]. split; [|by exists []].
    apply strip_one_None. intros s r Hs H. symmetry in H. apply app_eq_nil in H as [-> _].
    by apply (Hne []).
  - destruct (strip_one seqs l) as [r|] eqn:E; [|split; [done|by exists []]].
    apply strip_one_Some in E as (s & Hs & ->).
    destruct (IH r) as (H1 & w & H2).
    { rewrite length_app in Hl. destruct s; [by destruct (Hne [])|simpl in Hl; lia]. }
    split; [done|]. exists (s ++ w). by rewrite <- app_assoc, <- H2.
Qed.

Lemma strip_spec seqs l :
  (forall s, s ∈ seqs -> s <> []) ->
  strip_one seqs (strip seqs l) = None /\ exists w, l = w ++ strip seqs l.
Proof. intros. apply strip_all_spec; [done|lia]. Qed.

Lemma strip_stuck seqs l : strip_one seqs l = None -> strip seqs l = l.
Proof. intros H. unfold strip. destruct (length l); simpl; [done|by rewrite H]. Qed.

Lemma strip_end_spec seqs l :
  (forall s, s ∈ seqs -> s <> []) ->
  strip_one (reverse <$> seqs) (reverse (strip_end seqs l)) = None /\
  exists w, l = strip_end seqs l ++ w.
Proof.
  intros Hne. unfold strip_end. rewrite reverse_involutive.
  destruct (strip_spec (reverse <$> seqs) (reverse l)) as (H1 & w & H2).
  { intros s (s' & -> & Hs)%list_elem_of_fmap. intros E. apply (Hne s' Hs).
    by rewrite <- (reverse_involutive s'), E. }
  split; [done|]. exists (reverse w).
  by rewrite <- reverse_app, <- H2, reverse_involutive.
Qed.

Lemma strip_one_app_None seqs l k : strip_one seqs (l ++ k) = None -> strip_one seqs l = None.
Proof.
  rewrite !strip_one_None. intros H s r Hs ->. apply (H s (r ++ k)); [done|by rewrite app_assoc].
Qed.

(** Both ends of a stripped list are stuck, so stripping again does nothing. *)
Lemma strip_both_idemp seqs l :
  (forall s, s ∈ seqs -> s <> []) ->
  let t := strip_end seqs (strip seqs l) in strip_end seqs (strip seqs t) = t.
Proof.
  intros Hne t. destruct (strip_end_spec seqs (strip seqs l) Hne) as (H1 & w & H2).
  destruct (strip_spec seqs l Hne) as (H3 & _). fold t in H1, H2.
  rewrite H2 in H3. apply strip_one_app_None in H3.
  rewrite (strip_stuck seqs t) by done. unfold strip_end at 1.
  rewrite (strip_stuck _ _ H1). apply reverse_involutive.
Qed.

Lemma ws_seqs_nonempty s : s ∈ ws_seqs -> s <> [].
Proof.
  intros H ->. assert (Forall (fun s => s <> []) ws_seqs) as HF; [by repeat constructor|].
  by apply (proj1 (Forall_forall _ _) HF) in H.
Qed.

Lemma chars_text l : chars (text l) = l.
Proof. apply String.list_ascii_of_string_of_list_ascii. Qed.

Lemma text_chars s : text (chars s) = s.
Proof. apply String.string_of_list_ascii_of_string. Qed.

#[export] Hint Rewrite chars_text text_chars : clob_rw.

Lemma trim_idemp s : trim (trim s) = trim s.
Proof. unfold trim. rewrite chars_text. f_equal. apply (strip_both_idemp _ _ ws_seqs_nonempty). Qed.

Lemma text_app l k : text (l ++ k) = (text l +:+ text k)%string.
Proof. induction l as [|a l IH]; simpl; [done|]. by rewrite IH. Qed.

Lemma chars_app s t : chars (s +:+ t) = chars s ++ chars t.
Proof. induction s as [|a s IH]; simpl; [done|]. by rewrite IH. Qed.

#[global] Instance text_inj : Inj (=) (=) String.string_of_list_ascii.
Proof. intros l k H. by rewrite <- (chars_text l), <- (chars_text k), H. Qed.

#[global] Instance chars_inj : Inj (=) (=) String.list_ascii_of_string.
Proof. intros l k H. by rewrite <- (text_chars l), <- (text_chars k), H. Qed.

#[export] Hint Rewrite chars_app text_app : clob_rw.

(** [trim_matches(c)] and [trim_end_matches(c)] for one ASCII character. *)
Definition trim_matches (c : ascii) (l : list ascii) : list ascii := strip_end [[c]] (strip [[c]] l).
Definition trim_end_matches (c : ascii) (l : list ascii) : list ascii := strip_end [[c]] l.

Lemma single_nonempty (c : ascii) s : s ∈ [[c]] -> s <> [].
Proof. intros ->%list_elem_of_singleton. done. Qed.

(** ** ASCII case *)

Definition in_range (lo hi : Z) (c : ascii) : bool :=
  bool_decide (lo <= byte_val c) && bool_decide (byte_val c <= hi).
Definition is_digit := in_range 48 57.
Definition is_upper := in_range 65 90.
Definition is_lower := in_range 97 122.
Definition is_ascii_alphanumeric (c : ascii) : bool := is_digit c || is_upper c || is_lower c.

Definition lower_byte (c : ascii) : ascii := if is_upper c then byte_of (byte_val c + 32) else c.
Definition upper_byte (c : ascii) : ascii := if is_lower c then byte_of (byte_val c - 32) else c.

Definition to_ascii_lowercase (s : string) : string := text (lower_byte <$> chars s).
Definition to_ascii_uppercase (s : string) : string := text (upper_byte <$> chars s).

(** ** Changing case keeps a string trimmed: no white space has letters *)

Lemma trim_l_stuck l :
  strip_one ws_seqs (trim_l l) = None /\ strip_one (reverse <$> ws_seqs) (reverse (trim_l l)) = None.
Proof.
  unfold trim_l. destruct (strip_end_spec ws_seqs (strip ws_seqs l) ws_seqs_nonempty) as (H1 & w & H2).
  destruct (strip_spec ws_seqs l ws_seqs_nonempty) as (H3 & _). split; [|done].
  rewrite H2 in H3. by apply strip_one_app_None in H3.
Qed.

Lemma trim_l_id l :
  strip_one ws_seqs l = None -> strip_one (reverse <$> ws_seqs) (reverse l) = None -> trim_l l = l.
Proof.
  intros H1 H2. unfold trim_l. rewrite (strip_stuck _ l) by done. unfold strip_end.
  rewrite strip_stuck by done. apply reverse_involutive.
Qed.

Lemma strip_one_map f seqs l :
  (forall w b c, w ∈ seqs -> b ∈ w -> f c = b -> c = b) -> strip_one seqs l = None -> strip_one seqs (f <$> l) = None.
Proof.
  rewrite !strip_one_None. intros Hf H w r Hw E. apply fmap_app_inv in E as (w' & r' & E1 & _ & ->).
  apply (H w r' Hw). f_equal. assert (forall b, b ∈ w -> forall c, f c = b -> c = b) as Hb by (intros; by eapply Hf).
  clear -E1 Hb. revert w E1 Hb. induction w' as [|c w' IH]; intros [|b w] E1 Hb; try done.
  csimpl in E1. injection E1 as Ec Ew. f_equal; [apply Hb; [set_solver|done]|].
  apply IH; [done|]. intros x Hx. apply Hb. set_solver.
Qed.

Lemma trim_map f s :
  (forall b c, b ∈ concat ws_seqs -> f c = b -> c = b) -> trim (text (f <$> chars (trim s))) = text (f <$> chars (trim s)).
Proof.
  intros Hf. unfold trim at 1. rewrite chars_text. f_equal.
  assert (forall w b, w ∈ ws_seqs -> b ∈ w -> b ∈ concat ws_seqs) as Hc.
  { intros w b Hw1 Hb. apply list_elem_of_In, in_concat. exists w. by rewrite <- !list_elem_of_In. }
  unfold trim. rewrite chars_text. destruct (trim_l_stuck (chars s)) as [H1 H2]. apply trim_l_id.
  - apply strip_one_map; [|done]. intros w b c H3 H4. apply Hf. by eapply Hc.
  - rewrite <- fmap_reverse. apply strip_one_map; [|done]. intros w b c (w' & -> & H3)%list_elem_of_fmap H4. apply Hf.
    apply (Hc w'); [done|]. by apply elem_of_reverse.
Qed.

Definition all_bytes : list ascii := ascii_of_N ∘ N.of_nat <$> seq 0 256.

Lemma ws_no_letters :
  forallb (fun b => forallb (fun c => implb (bool_decide (upper_byte c = b) || bool_decide (lower_byte c = b)) (bool_decide (c = b)))
                      all_bytes) (concat ws_seqs) = true.
Proof. vm_compute. reflexivity. Qed.

Lemma ws_byte_case b c :
  b ∈ concat ws_seqs -> upper_byte c = b \/ lower_byte c = b -> c = b.
Proof.
  intros Hb Hc. pose proof ws_no_letters as HF. rewrite forallb_forall in HF.
  apply list_elem_of_In, HF in Hb. rewrite forallb_forall in Hb.
  assert (In c all_bytes) as Hin.
  { apply list_elem_of_In, list_elem_of_fmap. exists (N.to_nat (N_of_ascii c)). unfold compose.
    rewrite N2Nat.id, ascii_N_embedding. split; [done|]. apply elem_of_seq. pose proof (N_ascii_bounded c) as Hb'. change 256%N with (N.of_nat 256) in Hb'. lia. }
  apply Hb in Hin. destruct (decide (c = b)) as [|Hne]; [done|]. exfalso. rewrite (bool_decide_false (c = b)) in Hin by done.
  destruct Hc as [Hc|Hc]; rewrite (bool_decide_true _ Hc) in Hin; [done|]. by rewrite orb_true_r in Hin.
Qed.

Lemma trim_upper s : trim (to_ascii_uppercase (trim s)) = to_ascii_uppercase (trim s).
Proof. apply trim_map. intros b c Hb E. apply ws_byte_case; auto. Qed.

Lemma trim_lower s : trim (to_ascii_lowercase (trim s)) = to_ascii_lowercase (trim s).
Proof. apply trim_map. intros b c Hb E. apply ws_byte_case; auto. Qed.

Lemma to_ascii_uppercase_empty s : to_ascii_uppercase s = ""%string -> s = ""%string.
Proof. destruct s; [done|]. intros E. apply (f_equal chars) in E. unfold to_ascii_uppercase in E. rewrite chars_text in E. done. Qed.

(** [str::eq_ignore_ascii_case]. *)
Definition eq_ignore_ascii_case (s t : string) : bool :=
  bool_decide (to_ascii_lowercase s = to_ascii_lowercase t).

Lemma lower_byte_idemp c : lower_byte (lower_byte c) = lower_byte c.
Proof. destruct c as [[] [] [] [] [] [] [] []]; vm_compute; reflexivity. Qed.

Lemma to_ascii_lowercase_idemp s : to_ascii_lowercase (to_ascii_lowercase s) = to_ascii_lowercase s.
Proof.
  unfold to_ascii_lowercase. rewrite chars_text. f_equal. rewrite <- list_fmap_compose.
  apply list_fmap_ext. intros i c _. apply lower_byte_idemp.
Qed.

Lemma eq_ignore_ascii_case_refl s : eq_ignore_ascii_case s s = true.
Proof. by apply bool_decide_eq_true. Qed.

Lemma eq_ignore_ascii_case_sym s t : eq_ignore_ascii_case s t = eq_ignore_ascii_case t s.
Proof. by apply bool_decide_ext. Qed.

(** ** Ordering: [str::cmp], byte by byte *)

Lemma string_compare_lt_trans s t u :
  String.compare s t = Lt -> String.compare t u = Lt -> String.compare s u = Lt.
Proof.
  revert t u. induction s as [|a s IH]; intros [|b t] [|c u]; simpl; try done.
  unfold Ascii.compare.
  destruct (N.compare_spec (N_of_ascii a) (N_of_ascii b)) as [E1|E1|E1]; try done;
    destruct (N.compare_spec (N_of_ascii b) (N_of_ascii c)) as [E2|E2|E2]; try done; intros H1 H2.
  - rewrite E1, E2, N.compare_refl. by eapply IH.
  - rewrite (proj2 (N.compare_lt_iff _ _)) by lia. done.
  - rewrite (proj2 (N.compare_lt_iff _ _)) by lia. done.
  - rewrite (proj2 (N.compare_lt_iff _ _)) by lia. done.
Qed.

Lemma string_compare_refl s : String.compare s s = Eq.
Proof. pose proof (String.compare_antisym s s) as H. by destruct (String.compare s s). Qed.

(** A comparison that orders: reversed when swapped, and transitive. *)
Record ordering {A} (cmp : A -> A -> comparison) : Prop := {
  cmp_swap x y : cmp y x = CompOpp (cmp x y);
  cmp_eq x y z : cmp x y = Eq -> cmp x z = cmp y z;
  cmp_lt x y z : cmp x y = Lt -> cmp y z = Lt -> cmp x z = Lt
}.

Lemma ordering_string : ordering String.compare.
Proof.
  split.
  - intros x y. apply String.compare_antisym.
  - by intros x y z ->%String.compare_eq_iff.
  - apply string_compare_lt_trans.
Qed.

Lemma ordering_Z : ordering Z.compare.
Proof.
  split.
  - intros x y. apply Z.compare_antisym.
  - by intros x y z ->%Z.compare_eq_iff.
  - intros x y z. rewrite !Z.compare_lt_iff. lia.
Qed.

Lemma ordering_on {A B} (f : A -> B) cmp : ordering cmp -> ordering (fun x y => cmp (f x) (f y)).
Proof. intros [H1 H2 H3]. split; intros *; [apply H1|apply H2|apply H3]. Qed.

(** [cmp(..).then_with(..)]. *)
Definition then_with {A} (c1 c2 : A -> A -> comparison) (x y : A) : comparison :=
  match c1 x y with Eq => c2 x y | c => c end.

Lemma ordering_then {A} (c1 c2 : A -> A -> comparison) : ordering c1 -> ordering c2 -> ordering (then_with c1 c2).
Proof.
  intros O1 O2. unfold then_with. split.
  - intros x y. rewrite (cmp_swap c1 O1 x y). destruct (c1 x y); simpl; [apply O2|done|done].
  - intros x y z. destruct (c1 x y) eqn:E; [|done|done]. rewrite (cmp_eq c1 O1 x y z E). destruct (c1 y z); [|done|done].
    apply (cmp_eq c2 O2).
  - intros x y z. destruct (c1 x y) eqn:E1; [| |done]; destruct (c1 y z) eqn:E2; try done.
    + rewrite (cmp_eq c1 O1 x y z E1), E2. apply (cmp_lt c2 O2).
    + by rewrite (cmp_eq c1 O1 x y z E1), E2.
    + intros _ _. assert (c1 z y = Eq) as E3 by (by rewrite (cmp_swap c1 O1 y z), E2).
      rewrite (cmp_swap c1 O1 z x), (cmp_eq c1 O1 z y x E3), (cmp_swap c1 O1 x y), E1. done.
    + by rewrite (cmp_lt c1 O1 x y z E1 E2).
Qed.

Definition le_of {A} (cmp : A -> A -> comparison) (x y : A) : Prop := cmp x y <> Gt.

#[global] Instance le_of_dec {A} (cmp : A -> A -> comparison) x y : Decision (le_of cmp x y).
Proof. unfold le_of. destruct (cmp x y); [left|left|right]; congruence. Defined.

Lemma le_of_total {A} (cmp : A -> A -> comparison) : ordering cmp -> Total (le_of cmp).
Proof. intros O x y. unfold le_of. rewrite (cmp_swap cmp O x y). destruct (cmp x y); [left|left|right]; done. Qed.

Lemma le_of_trans {A} (cmp : A -> A -> comparison) : ordering cmp -> Transitive (le_of cmp).
Proof.
  intros O x y z. unfold le_of. destruct (cmp x y) eqn:E1; [| |done].
  - by rewrite (cmp_eq cmp O x y z E1).
  - intros _. destruct (cmp y z) eqn:E2; [| |done].
    + assert (cmp z y = Eq) as E3 by (by rewrite (cmp_swap cmp O y z), E2).
      by rewrite (cmp_swap cmp O z x), (cmp_eq cmp O z y x E3), (cmp_swap cmp O x y), E1.
    + by rewrite (cmp_lt cmp O x y z E1 E2).
Qed.

Lemma ordering_flip {A} (cmp : A -> A -> comparison) : ordering cmp -> ordering (fun x y => cmp y x).
Proof.
  intros O. split.
  - intros x y. apply (cmp_swap cmp O).
  - intros x y z E. assert (cmp x y = Eq) as E' by (by rewrite (cmp_swap cmp O y x), E).
    by rewrite (cmp_swap cmp O x z), (cmp_eq cmp O x y z E'), (cmp_swap cmp O y z).
  - intros x y z H1 H2. by apply (cmp_lt cmp O z y x).
Qed.

(** ** Decimal numbers *)

Fixpoint digits (fuel : nat) (n : Z) : list Z :=
  match fuel with
  | O => []
  | S fuel' => if decide (n < 10) then [n] else digits fuel' (n / 10) ++ [n mod 10]
  end.

(** One more than the binary length of [n] is more than its decimal length. *)
Definition digits_of (n : Z) : list Z := digits (S (Z.to_nat (Z.log2 n))) n.

Definition digit_char (d : Z) : ascii := byte_of (48 + d).
Definition char_digit (c : ascii) : option Z := if is_digit c then Some (byte_val c - 48) else None.

Definition dec_l (n : Z) : list ascii := digit_char <$> digits_of n.

(** [n.to_string()] for an unsigned and for a signed integer. *)
Definition dec (n : Z) : string := text (dec_l n).
Definition dec_signed (n : Z) : string := if decide (n < 0) then ("-" +:+ dec (- n))%string else dec n.

Definition value (l : list Z) : Z := foldl (fun a d => 10 * a + d) 0 l.

(** [{n:0w$}]: left padding with zeros up to the width. *)
Definition pad0_l (w : nat) (l : list ascii) : list ascii :=
  replicate (w - length l) (digit_char 0) ++ l.
Definition dec0_l (w : nat) (n : Z) : list ascii := pad0_l w (dec_l n).

Definition parse_digits (l : list ascii) : option Z := value <$> mapM char_digit l.

(** [str::parse] for an unsigned integer type: an optional plus sign, at least
    one digit, an error on overflow. *)
Definition parse_uint_l (max : Z) (l : list ascii) : option Z :=
  let body := match l with c :: l' => if decide (c = "+"%char) then l' else l | [] => [] end in
  match body with
  | [] => None
  | _ => n ← parse_digits body; if decide (n <= max) then Some n else None
  end.

Definition parse_u64 (s : string) : option Z := parse_uint_l u64_max (chars s).
Definition parse_u32 (s : string) : option Z := parse_uint_l 4294967295 (chars s).

Lemma value_foldl a l : foldl (fun a d => 10 * a + d) a l = a * 10 ^ Z.of_nat (length l) + value l.
Proof.
  revert a. unfold value. induction l as [|d l IH]; intros a; cbn [foldl length]; [lia|].
  rewrite (IH (10 * a + d)), (IH (10 * 0 + d)), Nat2Z.inj_succ, Z.pow_succ_r by lia. lia.
Qed.

Lemma value_app l k : value (l ++ k) = value l * 10 ^ Z.of_nat (length k) + value k.
Proof. unfold value at 1. rewrite foldl_app, value_foldl. done. Qed.

Lemma value_cons d l : value (d :: l) = d * 10 ^ Z.of_nat (length l) + value l.
Proof. unfold value at 1. cbn [foldl]. by rewrite value_foldl. Qed.

Lemma value_replicate0 n l : value (replicate n 0 ++ l) = value l.
Proof. induction n as [|n IH]; simpl; [done|]. rewrite value_cons. lia. Qed.

Lemma digits_spec fuel n :
  0 <= n -> n < 2 ^ Z.of_nat fuel ->
  (n = 0 -> (0 < fuel)%nat) ->
  value (digits fuel n) = n /\ Forall (fun d => 0 <= d <= 9) (digits fuel n) /\ digits fuel n <> [].
Proof.
  revert n. induction fuel as [|fuel IH]; intros n Hn Hlt H0.
  { simpl in Hlt. assert (n = 0) by lia. lia. }
  simpl digits. rewrite Nat2Z.inj_succ, Z.pow_succ_r in Hlt by lia.
  case_decide.
  - split_and!; [done| |done]. constructor; [lia|constructor].
  - pose proof (Z.div_mod n 10 ltac:(lia)). pose proof (Z.mod_pos_bound n 10 ltac:(lia)).
    destruct (IH (n / 10)) as (HV & HF & HN); [lia|lia|lia|].
    split_and!.
    + rewrite value_app, HV. unfold value. cbn [foldl length Z.of_nat]. lia.
    + apply Forall_app. split; [done|]. constructor; [lia|constructor].
    + by destruct (digits fuel (n / 10)).
Qed.

Lemma digits_of_spec n :
  0 <= n ->
  value (digits_of n) = n /\ Forall (fun d => 0 <= d <= 9) (digits_of n) /\ digits_of n <> [].
Proof.
  intros Hn. apply digits_spec; [done| |lia].
  rewrite Nat2Z.inj_succ, Z2Nat.id by apply Z.log2_nonneg.
  destruct (decide (n = 0)) as [->|]; [done|]. apply Z.log2_spec. lia.
Qed.

Lemma digits_length fuel n k :
  0 <= n < 10 ^ Z.of_nat (S k) -> (length (digits fuel n) <= S k)%nat.
Proof.
  revert n k. induction fuel as [|fuel IH]; intros n k Hn; simpl; [lia|].
  case_decide; [simpl; lia|]. rewrite length_app. simpl.
  destruct k as [|k]; [simpl in Hn; lia|].
  specialize (IH (n / 10) k). rewrite Nat2Z.inj_succ, Z.pow_succ_r in Hn by lia.
  assert (length (digits fuel (n / 10)) <= S k)%nat; [|lia].
  apply IH. split; [apply Z.div_pos; lia|]. apply Z.div_lt_upper_bound; lia.
Qed.

Lemma char_digit_char d : 0 <= d <= 9 -> char_digit (digit_char d) = Some d.
Proof.
  intros. assert (d = 0 \/ d = 1 \/ d = 2 \/ d = 3 \/ d = 4 \/ d = 5 \/ d = 6 \/ d = 7 \/ d = 8 \/ d = 9)
    as Hd by lia.
  by repeat (destruct Hd as [-> | Hd] || subst d).
Qed.

Lemma is_digit_char d : 0 <= d <= 9 -> is_digit (digit_char d) = true.
Proof.
  intros H%char_digit_char. unfold char_digit in H. by destruct (is_digit _).
Qed.

Lemma mapM_digit_chars l :
  Forall (fun d => 0 <= d <= 9) l -> mapM char_digit (digit_char <$> l) = Some l.
Proof.
  induction 1 as [|d l Hd Hl IH]; [done|]. rewrite fmap_cons. simpl.
  rewrite char_digit_char by done. simpl. by rewrite IH.
Qed.

Lemma parse_digits_dec n : 0 <= n -> parse_digits (dec_l n) = Some n.
Proof.
  intros Hn. destruct (digits_of_spec n Hn) as (H1 & H2 & _).
  unfold parse_digits, dec_l. rewrite mapM_digit_chars by done. simpl. by rewrite H1.
Qed.

Lemma dec_l_digits n : 0 <= n -> Forall (fun c => is_digit c = true) (dec_l n).
Proof.
  intros Hn. destruct (digits_of_spec n Hn) as (_ & H2 & _). unfold dec_l.
  apply Forall_fmap. eapply Forall_impl; [exact H2|]. intros d. apply is_digit_char.
Qed.

Lemma dec_l_nonempty n : 0 <= n -> dec_l n <> [].
Proof.
  intros Hn. destruct (digits_of_spec n Hn) as (_ & _ & H3). unfold dec_l. by destruct (digits_of n).
Qed.

Lemma dec_l_length n k : 0 <= n < 10 ^ Z.of_nat (S k) -> (length (dec_l n) <= S k)%nat.
Proof. intros. unfold dec_l. rewrite length_fmap. by apply digits_length. Qed.

Lemma dec_inj n m : 0 <= n -> 0 <= m -> dec n = dec m -> n = m.
Proof.
  intros Hn Hm E. unfold dec in E. apply (inj text) in E. apply (f_equal parse_digits) in E.
  rewrite !parse_digits_dec in E by done. congruence.
Qed.

Lemma parse_uint_dec max n : 0 <= n <= max -> parse_uint_l max (dec_l n) = Some n.
Proof.
  intros Hn. pose proof (parse_digits_dec n ltac:(lia)) as HP.
  pose proof (dec_l_digits n ltac:(lia)) as HD. pose proof (dec_l_nonempty n ltac:(lia)) as HN.
  unfold parse_uint_l. destruct (dec_l n) as [|c l]; [done|].
  rewrite decide_False.
  - rewrite HP. cbn. by rewrite decide_True by lia.
  - intros ->. by apply Forall_inv in HD.
Qed.

Lemma parse_u64_dec n : is_u64 n -> parse_u64 (dec n) = Some n.
Proof. intros. unfold parse_u64, dec. rewrite chars_text. by apply parse_uint_dec. Qed.

(** Padding changes the width, not the value. *)
Lemma dec0_l_spec w n :
  0 <= n < 10 ^ Z.of_nat (S w) ->
  length (dec0_l (S w) n) = S w /\ parse_digits (dec0_l (S w) n) = Some n /\
  Forall (fun c => is_digit c = true) (dec0_l (S w) n).
Proof.
  intros Hn. pose proof (dec_l_length n w Hn). unfold dec0_l, pad0_l.
  destruct (digits_of_spec n ltac:(lia)) as (H1 & H2 & _). split; [|split].
  - rewrite length_app, length_replicate. lia.
  - unfold parse_digits, dec_l. rewrite <- (fmap_replicate digit_char), <- fmap_app.
    rewrite mapM_digit_chars; [|apply Forall_app; split; [|done]].
    + simpl. by rewrite value_replicate0, H1.
    + apply Forall_replicate. lia.
  - apply Forall_app. split; [by apply Forall_replicate|apply dec_l_digits; lia].
Qed.

(** ** Splitting *)

(** [split_once(c)]: around the first occurrence. *)
Fixpoint split_once (c : ascii) (l : list ascii) : option (list ascii * list ascii) :=
  match l with
  | [] => None
  | a :: l' => if decide (a = c) then Some ([], l')
              else p ← split_once c l'; Some (a :: p.1, p.2)
  end.

(** [rsplit_once(c)]: around the last occurrence. *)
Definition rsplit_once (c : ascii) (l : list ascii) : option (list ascii * list ascii) :=
  p ← split_once c (reverse l); Some (reverse p.2, reverse p.1).

(** [split(c)]: always at least one piece. *)
Fixpoint split_on (c : ascii) (l : list ascii) : list (list ascii) :=
  match l with
  | [] => [[]]
  | a :: l' =>
      if decide (a = c) then [] :: split_on c l'
      else match split_on c l' with p :: ps => (a :: p) :: ps | [] => [[a]] end
  end.

Lemma split_once_app c l k : c ∉ l -> split_once c (l ++ c :: k) = Some (l, k).
Proof.
  induction l as [|a l IH]; intros H; simpl.
  - by rewrite decide_True.
  - rewrite decide_False by set_solver. rewrite IH by set_solver. done.
Qed.

Lemma split_once_None c l : c ∉ l -> split_once c l = None.
Proof.
  induction l as [|a l IH]; intros H; simpl; [done|].
  rewrite decide_False by set_solver. by rewrite IH by set_solver.
Qed.

Lemma split_once_Some c l p : split_once c l = Some p -> l = p.1 ++ c :: p.2 /\ c ∉ p.1.
Proof.
  revert p. induction l as [|a l IH]; intros p H; simpl in H; [done|].
  case_decide as E.
  - simplify_eq. simpl. split; [done|set_solver].
  - destruct (split_once c l) as [q|] eqn:Eq; [|done]. simplify_eq/=.
    destruct (IH q eq_refl) as [-> Hq]. split; [done|]. set_solver.
Qed.

Lemma rsplit_once_app c l k : c ∉ k -> rsplit_once c (l ++ c :: k) = Some (l, k).
Proof.
  intros H. unfold rsplit_once. rewrite reverse_app, reverse_cons, <- app_assoc. simpl.
  rewrite split_once_app by (by rewrite elem_of_reverse). simpl. by rewrite !reverse_involutive.
Qed.
