(* ===== verification/Errors.v ===== *)
(** * Errors: [error.rs], the application error type and its result monad *)
From S2P Require Import Prelude Text.

(** [AppError] of [error.rs]; every variant carries its message. *)
Inductive AppError :=
| NotFound (msg : string)
| BadRequest (msg : string)
| Internal (msg : string)
| ServiceUnavailable (msg : string)
| Timeout (msg : string).

#[global] Instance AppError_eq_dec : EqDecision AppError.
Proof. solve_decision. Defined.

(** [AppResult<T>]. *)
Inductive AppResult (A : Type) :=
| Ok (a : A)
| Err (e : AppError).
Arguments Ok {A} _.
Arguments Err {A} _.

#[global] Instance AppResult_ret : MRet AppResult := fun A => Ok.
#[global] Instance AppResult_bind : MBind AppResult := fun A B f r =>
  match r with Ok a => f a | Err e => Err e end.
#[global] Instance AppResult_fmap : FMap AppResult := fun A B f r =>
  match r with Ok a => Ok (f a) | Err e => Err e end.

(** [ok_or_else(...)?]. *)
Definition ok_or {A} (e : AppError) (o : option A) : AppResult A :=
  match o with Some a => Ok a | None => Err e end.

(** [Result::ok]. *)
Definition ok {A} (r : AppResult A) : option A := match r with Ok a => Some a | Err _ => None end.

(** The HTTP status [IntoResponse] answers with. *)
Definition into_response (e : AppError) : Z * string :=
  match e with
  | NotFound msg => (404, msg)
  | BadRequest msg => (400, msg)
  | Internal msg => (500, msg)
  | ServiceUnavailable msg => (503, msg)
  | Timeout msg => (504, msg)
  end.

Lemma into_response_inj e1 e2 : into_response e1 = into_response e2 -> e1 = e2.
Proof. destruct e1, e2; simpl; congruence. Qed.

(** [to_string], from the [#[error]] attributes. *)
Definition error_to_string (e : AppError) : string :=
  match e with
  | NotFound msg => "not found: " +:+ msg
  | BadRequest msg => "bad request: " +:+ msg
  | Internal msg => "internal error: " +:+ msg
  | ServiceUnavailable msg => "service unavailable: " +:+ msg
  | Timeout msg => "submit timeout: " +:+ msg
  end%string.

(** Deciding a computed result. *)
Definition is_ok {A} (r : AppResult A) : bool := match r with Ok _ => true | Err _ => false end.
