(* ===== verification/Sdk.v ===== *)
(** * Sdk: what the indexer takes from [lightpool_sdk] and [uuid]

    The SDK is not part of the repository.  The class [Sdk] lists the functions
    the sources call, as parameters of every definition that uses them;
    [SdkLaws] states the documented behaviour the theorems rely on; [DemoSdk]
    is a concrete instance the witnesses evaluate on. *)
From S2P Require Import Prelude Text.

(** A [uuid::Uuid], of 128 bits in the code, as an unbounded number, so that
    [NoCollision] can hold. *)
Definition Uuid := N.

Class Sdk := {
  TOKEN_SCALE : Z;
  Address : Type;
  ContractAddress : Type;
  OrderId : Type;
  ContractAddress_eq_dec :: EqDecision ContractAddress;
  CONTRACT_ADDRESS_LENGTH : nat;
  parse_token_contract : string -> option ContractAddress;
  parse_token_contract_error : string -> string;
  contract_to_string : ContractAddress -> string;
  contract_from_bytes : list Z -> ContractAddress;
  address_from_str : string -> option Address;
  address_to_string : Address -> string;
  address_as_bytes : Address -> list Z;
  address_zero : Address;
  vault_account : ContractAddress -> Address;
  order_id_to_string : OrderId -> string;
  uuid_v5 : string -> Uuid;
  uuid_to_string : Uuid -> string;
  uuid_parse : string -> option Uuid;
  uuid_parse_error : string -> string
}.

(** Amounts have six decimals; a contract address prints to a trimmed,
    non-empty key that parses back to it; identifiers print injectively. *)
Class SdkLaws `{!Sdk} : Prop := {
  token_scale_six : TOKEN_SCALE = 1000000;
  parse_contract_to_string c : parse_token_contract (contract_to_string c) = Some c;
  contract_to_string_trimmed c : trim (contract_to_string c) = contract_to_string c;
  contract_to_string_nonempty c : contract_to_string c <> ""%string;
  uuid_parse_to_string u : uuid_parse (uuid_to_string u) = Some u
}.
#[export] Hint Rewrite @parse_contract_to_string @contract_to_string_trimmed : clob_rw.

#[global] Instance uuid_to_string_inj `{SdkLaws} : Inj (=) (=) uuid_to_string.
Proof. intros u v E. apply (f_equal uuid_parse) in E. rewrite !uuid_parse_to_string in E. congruence. Qed.

(** Name-based identifiers are hashes: a theorem that needs two distinct names
    to have distinct identifiers asks for the absence of collisions. *)
Class NoCollision `{!Sdk} : Prop := { uuid_v5_inj : Inj (=) (=) uuid_v5 }.

(** ** A concrete instance: numbers printed behind a letter *)

Definition tagged (c : ascii) (n : N) : string := text (c :: dec_l (Z.of_N n)).
Definition untag (c : ascii) (s : string) : option N :=
  match chars s with
  | a :: l => if decide (a = c) then Z.to_N <$> parse_uint_l u64_max l else None
  | [] => None
  end.

(** Contract numbers are u64, so that every printed one parses back. *)
Definition demo_contract := { n : N | bool_decide (Z.of_N n <= u64_max) = true }.

Definition demo_contract_of (n : N) : demo_contract :=
  match decide (bool_decide (Z.of_N n <= u64_max) = true) with
  | left H => n ↾ H
  | right _ => 0%N ↾ eq_refl
  end.

#[global] Instance demo_contract_eq_dec : EqDecision demo_contract.
Proof.
  intros [n Hn] [m Hm]. destruct (decide (n = m)) as [->|H].
  - left. f_equal. apply proof_irrel.
  - right. congruence.
Defined.

Definition DemoSdk : Sdk := {|
  TOKEN_SCALE := 1000000;
  Address := N;
  ContractAddress := demo_contract;
  OrderId := N;
  CONTRACT_ADDRESS_LENGTH := 1;
  parse_token_contract s := demo_contract_of <$> untag "c" s;
  parse_token_contract_error s := "bad contract";
  contract_to_string c := tagged "c" (`c);
  contract_from_bytes l := demo_contract_of (Z.to_N (default 0 (head l)));
  address_from_str s := untag "a" s;
  address_to_string a := tagged "a" a;
  address_as_bytes a := [Z.of_N a mod 256; 0];
  address_zero := 0%N;
  vault_account c := `c;
  order_id_to_string o := tagged "o" o;
  uuid_v5 s := foldl (fun a c => a * 256 + N_of_ascii c)%N 1%N (chars s);
  uuid_to_string u := dec (Z.of_N u);
  uuid_parse s := Z.to_N <$> parse_digits (chars s);
  uuid_parse_error s := "invalid character"
|}.

(** No white-space encoding starts or ends with a letter or a digit. *)
Definition edge_ok (s : list ascii) : bool :=
  match s, reverse s with
  | a :: _, b :: _ => negb (is_ascii_alphanumeric a) && negb (is_ascii_alphanumeric b)
  | _, _ => false
  end.

Lemma ws_seqs_edges : forallb edge_ok ws_seqs = true.
Proof. vm_compute. reflexivity. Qed.

Lemma ws_edge s : s ∈ ws_seqs -> edge_ok s = true.
Proof. intros Hs. apply (proj1 (forallb_forall _ _) ws_seqs_edges). by apply list_elem_of_In. Qed.

(** A string of ASCII letters and digits has no surrounding whitespace. *)
Lemma trim_alphanumeric s :
  Forall (fun c => is_ascii_alphanumeric c = true) (chars s) -> trim s = s.
Proof.
  intros HF. unfold trim, trim_l. rewrite (strip_stuck ws_seqs (chars s)).
  - unfold strip_end. rewrite strip_stuck; [by rewrite reverse_involutive, text_chars|].
    apply strip_one_None. intros w r (w' & -> & Hw%ws_edge)%list_elem_of_fmap E.
    unfold edge_ok in Hw. destruct w'; [done|]. destruct (reverse (a :: w')) as [|b w'']; [done|].
    apply Forall_reverse in HF. rewrite E in HF. apply Forall_inv in HF.
    by rewrite HF, andb_false_r in Hw.
  - apply strip_one_None. intros w r Hw%ws_edge E. rewrite E in HF.
    unfold edge_ok in Hw. destruct w; [done|]. apply Forall_inv in HF. rewrite HF in Hw.
    by destruct (reverse (a :: w)).
Qed.

Lemma digit_alphanumeric c : is_digit c = true -> is_ascii_alphanumeric c = true.
Proof. intros H. unfold is_ascii_alphanumeric. by rewrite H. Qed.

Lemma untag_tagged c n : Z.of_N n <= u64_max -> untag c (tagged c n) = Some n.
Proof.
  intros Hn. unfold untag, tagged. rewrite chars_text. rewrite decide_True by done.
  rewrite parse_uint_dec by lia. simpl. by rewrite N2Z.id.
Qed.

#[global] Instance DemoSdk_laws : SdkLaws (H := DemoSdk).
Proof.
  split.
  - done.
  - intros [n Hn]. cbn [contract_to_string parse_token_contract DemoSdk proj1_sig].
    rewrite untag_tagged by by apply bool_decide_eq_true in Hn. simpl. f_equal.
    unfold demo_contract_of. destruct (decide _) as [H|H]; [|done]. f_equal. apply proof_irrel.
  - intros [n Hn]. apply trim_alphanumeric. cbn. unfold tagged. rewrite chars_text.
    constructor; [done|]. eapply Forall_impl; [apply dec_l_digits; lia|]. apply digit_alphanumeric.
  - done.
  - intros u. change (Z.to_N <$> parse_digits (chars (dec (Z.of_N u))) = Some u). unfold dec. rewrite chars_text, parse_digits_dec by lia. simpl. by rewrite N2Z.id.
Qed.

#[global] Instance DemoSdk_no_collision : NoCollision (H := DemoSdk).
Proof.
  split. intros s t. cbn [uuid_v5 DemoSdk]. intros E. apply (inj chars). revert E.
  assert (forall l, 1 <= foldl (fun a c => a * 256 + N_of_ascii c) 1 l)%N as Hpos.
  { intros l. induction l as [|c l IH] using rev_ind; [done|]. rewrite foldl_app. cbn. lia. }
  generalize (chars t). induction (chars s) as [|c l IH] using rev_ind; intros k;
    destruct k as [|d k _] using rev_ind; rewrite ?foldl_app; cbn [foldl]; intros E.
  - done.
  - specialize (Hpos k). lia.
  - specialize (Hpos l). lia.
  - pose proof (N_ascii_bounded c). pose proof (N_ascii_bounded d).
    assert (N_of_ascii c = N_of_ascii d) as Ec by lia. rewrite (IH k) by lia.
    apply (f_equal ascii_of_N) in Ec. rewrite !ascii_N_embedding in Ec. by rewrite Ec.
Qed.
