(* ===== verification/Amounts.v ===== *)
(** * Amounts: fixed-point amounts, prices and ratios as the API prints them

    [chain/mod.rs] (format functions), the numeric part of [vault_enrich.rs]
    and of [indexer/paper_stake_view.rs], and the signed variants of
    [indexer/index_state.rs], [indexer/processor.rs] and
    [http/routes/paper.rs].  The reference is [read_decimal], which reads a
    decimal back as a number of units of its last digit. *)
From S2P Require Import Prelude Text Sdk.

Local Open Scope list_scope.
Local Open Scope char_scope.
Local Open Scope Z_scope.

(** ** Reading a printed decimal back (reference, not code of the program) *)

Definition read_decimal (s : string) : option (Z * nat) :=
  match split_once "." (chars s) with
  | Some (w, f) => wv ← parse_digits w; fv ← parse_digits f; Some (wv * 10 ^ Z.of_nat (length f) + fv, length f)
  | None => v ← parse_digits (chars s); Some (v, O)
  end.

(** [s] is a decimal whose value is exactly [num / den]. *)
Definition denotes (s : string) (num den : Z) : Prop :=
  exists v k, read_decimal s = Some (v, k) /\ v * den = num * 10 ^ Z.of_nat k.

Section Amounts.
Context {S : Sdk}.

(** ** [chain/mod.rs] *)

Definition format_token_amount (raw : Z) : string :=
  let whole := raw / TOKEN_SCALE in
  let frac := raw mod TOKEN_SCALE in
  if decide (frac = 0) then dec whole
  else text (dec_l whole ++ "." :: dec0_l 6 frac).

(** The body [format_price_pieces] and [format_oracle_human] share. *)
Definition format_trimmed (numerator : Z) : string :=
  let whole := numerator / TOKEN_SCALE in
  let frac := numerator mod TOKEN_SCALE in
  if decide (frac = 0) then dec whole
  else text (dec_l whole ++ "." :: trim_end_matches "0" (dec0_l 6 frac)).

Definition format_price_pieces (raw : Z) : string := format_trimmed (sat_mul raw 100).
Definition format_oracle_human (raw : Z) : string := format_trimmed raw.

(** ** Signed amounts *)

Definition sign_l (raw : Z) : list ascii := if decide (raw < 0) then ["-"] else [].

(** [format_i128_token] (index_state.rs), [format_i128_amount] (paper_stake_view.rs,
    routes/paper.rs): the same text. *)
Definition format_i128_token (raw : Z) : string :=
  let abs := Z.abs raw in
  let whole := abs / TOKEN_SCALE in
  let frac := abs mod TOKEN_SCALE in
  if decide (frac = 0) then text (sign_l raw ++ dec_l whole)
  else text (sign_l raw ++ dec_l whole ++ "." :: dec0_l 6 frac).

(** [format_i64_token] (processor.rs) and [format_i64_amount] (routes/paper.rs). *)
Definition format_i64_token (raw : Z) : string :=
  (text (sign_l raw) +:+ format_token_amount (Z.abs raw))%string.

(** ** [vault_enrich.rs] *)

Definition mul_quote (amount price : Z) : Z := as_u64 (wrap_u 128 (amount * price) / TOKEN_SCALE).

Definition mul_div (a b d : Z) : Z :=
  if decide (d = 0) then 0 else as_u64 (wrap_u 128 (a * b) / d).

Definition format_amount_2dp (raw : Z) : string :=
  let cents := sat_add raw 5000 / 10000 in
  text (dec_l (cents / 100) ++ "." :: dec0_l 2 (cents mod 100)).

(** ** [paper_stake_view.rs] *)

Definition format_bps (bps : Z) : string :=
  let frac := bps mod 100 in
  if decide (frac = 0) then dec (bps / 100)
  else text (dec_l (bps / 100) ++ "." :: dec0_l 2 frac).

(** [saturating_mul(10_000)] on u128. *)
Definition sat_mul128 (a b : Z) : Z := Z.min (a * b) (2 ^ 128 - 1).

Definition stake_share_pct (staked total_staked : Z) : string :=
  if decide (total_staked = 0 \/ staked = 0) then "0"%string
  else format_bps (sat_mul128 staked 10000 / total_staked).

Definition stake_ratio_pct (staked_supply total_supply : Z) : string :=
  if decide (total_supply = 0 \/ staked_supply = 0) then "0"%string
  else format_bps (sat_mul128 staked_supply 10000 / total_supply).

(** [None] is the panic of a division by a denominator that wrapped to zero. *)
Definition mint_rate_ppm (tracked_lp tail_hwm flat_threshold flat_rate_ppm tail_decay_scale : Z) : option Z :=
  if decide (tracked_lp < flat_threshold) then Some flat_rate_ppm
  else
    let s := tail_decay_scale in
    let h := tail_hwm in
    if decide (s = 0) then Some 0
    else
      let num := wrap_u 128 (wrap_u 128 (flat_rate_ppm * s) * s) in
      let den := wrap_u 128 (wrap_u 128 (s + h) * wrap_u 128 (s + h)) in
      if decide (den = 0) then None else Some (as_u64 (num / den)).

Definition reward_rate_label (tracked_lp tail_hwm flat_threshold flat_rate_ppm tail_decay_scale : Z) : option string :=
  if decide (flat_rate_ppm = 0) then Some "0% / 0% / 99%"%string
  else
    rate ← mint_rate_ppm tracked_lp tail_hwm flat_threshold flat_rate_ppm tail_decay_scale;
    let pct := as_u64 (Z.min (wrap_u 128 (rate * 100) / flat_rate_ppm) 99) in
    Some ("0% / " +:+ dec pct +:+ "% / 99%")%string.

End Amounts.

(** ** Lemmas on printed decimals *)

Lemma digits_no_dot l : Forall (fun c => is_digit c = true) l -> "." ∉ l.
Proof. intros HF Hin. rewrite Forall_forall in HF. apply HF in Hin. vm_compute in Hin. discriminate. Qed.

Lemma read_decimal_whole n : 0 <= n -> read_decimal (dec n) = Some (n, O).
Proof.
  intros Hn. unfold read_decimal, dec. rewrite chars_text, split_once_None.
  - by rewrite parse_digits_dec.
  - by apply digits_no_dot, dec_l_digits.
Qed.

Lemma read_decimal_frac w f fv :
  0 <= w -> parse_digits f = Some fv ->
  read_decimal (text (dec_l w ++ "." :: f)) = Some (w * 10 ^ Z.of_nat (length f) + fv, length f).
Proof.
  intros Hw Hf. unfold read_decimal. rewrite chars_text, split_once_app.
  - by rewrite parse_digits_dec, Hf by done.
  - by apply digits_no_dot, dec_l_digits.
Qed.

Lemma mapM_app_Some {A B} (f : A -> option B) l k bs :
  mapM f (l ++ k) = Some bs ->
  exists b1 b2, mapM f l = Some b1 /\ mapM f k = Some b2 /\ bs = b1 ++ b2.
Proof.
  revert bs. induction l as [|a l IH]; intros bs H; simpl in *.
  - by exists [], bs.
  - destruct (f a) as [b|]; simpl in *; [|done].
    destruct (mapM f (l ++ k)) as [cs|]; simpl in *; [|done]. injection H as <-.
    destruct (IH cs eq_refl) as (b1 & b2 & Hl & Hk & ->). exists (b :: b1), b2. simpl. by rewrite Hl.
Qed.

Lemma strip_all_single fuel c l : exists n, l = replicate n c ++ strip_all fuel [[c]] l.
Proof.
  revert l. induction fuel as [|fuel IH]; intros l; simpl; [by exists O|].
  destruct l as [|b l]; [by exists O|]. case_decide as E; [subst b|by exists O].
  destruct (IH l) as (n & Hn). exists (S n). simpl. congruence.
Qed.

Lemma trim_end_matches_app c l : exists n, l = trim_end_matches c l ++ replicate n c.
Proof.
  unfold trim_end_matches, strip_end, strip.
  destruct (strip_all_single (length (reverse l)) c (reverse l)) as (n & Hn).
  exists n. replace (reverse <$> [[c]]) with [[c]] by done.
  apply (f_equal reverse) in Hn. rewrite reverse_involutive, reverse_app, reverse_replicate in Hn. done.
Qed.

Lemma parse_digits_trim_zeros l v :
  parse_digits l = Some v -> 
  exists n v', length l = (length (trim_end_matches "0" l) + n)%nat /\
    parse_digits (trim_end_matches "0" l) = Some v' /\ v = v' * 10 ^ Z.of_nat n.
Proof.
  intros Hp. destruct (trim_end_matches_app "0" l) as (n & Hn).
  set (t := trim_end_matches "0" l) in *. rewrite Hn in Hp. unfold parse_digits in *.
  apply fmap_Some in Hp as (ds & Hm & ->).
  apply mapM_app_Some in Hm as (b1 & b2 & H1 & H2 & ->).
  assert (b2 = replicate n 0) as ->.
  { clear -H2. revert b2 H2. induction n as [|n IH]; intros b2 H2; simpl in *; [by injection H2 as <-|].
    destruct (mapM char_digit (replicate n "0")) as [r|]; [|done].
    simpl in H2. injection H2 as <-. by rewrite (IH r eq_refl). }
  exists n, (value b1). split_and!.
  - rewrite Hn at 1. by rewrite length_app, length_replicate.
  - by rewrite H1.
  - rewrite value_app, length_replicate. rewrite <- (app_nil_r (replicate n 0)), value_replicate0.
    unfold value at 2. cbn [foldl]. lia.
Qed.

Lemma denotes_inj s n1 n2 den : 0 < den -> denotes s n1 den -> denotes s n2 den -> n1 = n2.
Proof.
  intros Hden (v1 & k1 & H1 & E1) (v2 & k2 & H2 & E2). rewrite H1 in H2. simplify_eq.
  pose proof (Z.pow_pos_nonneg 10 (Z.of_nat k2)). nia.
Qed.

Lemma fixed_point_eq raw : raw / 1000000 * 10 ^ 6 + raw mod 1000000 = raw.
Proof. pose proof (Z.div_mod raw 1000000). lia. Qed.

Section Facts.
Context {SD : Sdk} {L : SdkLaws}.
Implicit Types raw : Z.

Lemma format_trimmed_denotes num : 0 <= num -> denotes (format_trimmed num) num TOKEN_SCALE.
Proof.
  intros Hn. unfold format_trimmed. rewrite token_scale_six.
  pose proof (Z.mod_pos_bound num 1000000). pose proof (Z.div_pos num 1000000).
  pose proof (fixed_point_eq num). case_decide as E.
  - exists (num / 1000000), O. rewrite read_decimal_whole by lia. split; [done|lia].
  - destruct (dec0_l_spec 5 (num mod 1000000)) as (Hl & Hp & _); [simpl; lia|].
    destruct (parse_digits_trim_zeros _ _ Hp) as (n & v' & Hlen & Hv & Hval).
    exists (num / 1000000 * 10 ^ Z.of_nat (length (trim_end_matches "0" (dec0_l 6 (num mod 1000000)))) + v').
    eexists. rewrite (read_decimal_frac _ _ v') by (done || lia). split; [done|].
    rewrite Hl in Hlen. set (k := length (trim_end_matches "0" _)) in *.
    assert (1000000 = 10 ^ Z.of_nat k * 10 ^ Z.of_nat n) as E6.
    { rewrite <- Z.pow_add_r by lia. by replace (Z.of_nat k + Z.of_nat n) with 6 by lia. }
    pose proof (Z.div_mod num 1000000). nia.
Qed.

Lemma format_token_amount_denotes raw :
  is_u64 raw -> denotes (format_token_amount raw) raw TOKEN_SCALE.
Proof.
  intros Hr. unfold format_token_amount. rewrite token_scale_six.
  unfold is_u64 in Hr. pose proof (Z.mod_pos_bound raw 1000000).
  pose proof (Z.div_pos raw 1000000). pose proof (fixed_point_eq raw). case_decide as E.
  - exists (raw / 1000000), O. rewrite read_decimal_whole by lia. split; [done|lia].
  - destruct (dec0_l_spec 5 (raw mod 1000000)) as (Hl & Hp & _); [simpl; lia|].
    eexists _, _. rewrite (read_decimal_frac _ _ _) by (exact Hp || lia). rewrite Hl. split; [done|].
    change (10 ^ Z.of_nat 6) with (10 ^ 6). rewrite fixed_point_eq. lia.
Qed.
(** Claim:  [format_token_amount] prints exactly [raw / TOKEN_SCALE]: the printed
    decimal reads back to the raw amount, for every u64. *)
Theorem format_token_amount_exact raw :
  is_u64 raw -> denotes (format_token_amount raw) raw TOKEN_SCALE.
Proof. apply format_token_amount_denotes. Qed.

(** Below the saturation point [u64::MAX / 100] a printed price reads back
    to exactly [raw * 100 / TOKEN_SCALE]. *)
Theorem format_price_pieces_exact raw :
  0 <= raw <= u64_max / 100 -> denotes (format_price_pieces raw) (raw * 100) TOKEN_SCALE.
Proof.
  intros Hr. unfold format_price_pieces. pose proof (Z.mul_div_le u64_max 100).
  replace (sat_mul raw 100) with (raw * 100) by mach. apply format_trimmed_denotes. lia.
Qed.

(** Above it, every price prints as the same text. *)
Lemma format_price_pieces_saturates r1 r2 :
  u64_max / 100 < r1 -> u64_max / 100 < r2 -> format_price_pieces r1 = format_price_pieces r2.
Proof.
  assert (u64_max / 100 = 184467440737095516) as E by reflexivity. rewrite E.
  intros. unfold format_price_pieces. f_equal. mach.
Qed.

Lemma format_oracle_human_exact raw :
  is_u64 raw -> denotes (format_oracle_human raw) raw TOKEN_SCALE.
Proof. intros [? _]. by apply format_trimmed_denotes. Qed.

(** Two u64 amounts with the same text are the same amount. *)
Lemma format_token_amount_inj r1 r2 :
  is_u64 r1 -> is_u64 r2 -> format_token_amount r1 = format_token_amount r2 -> r1 = r2.
Proof.
  intros H1%format_token_amount_denotes H2%format_token_amount_denotes E. rewrite E in H1.
  eapply denotes_inj; [|exact H1|exact H2]. by rewrite token_scale_six.
Qed.

(** The two-decimal display rounds half a cent up: the printed number of
    cents differs from the amount by at most half a cent. *)
Theorem format_amount_2dp_rounds raw :
  0 <= raw <= u64_max - 5000 ->
  exists v, read_decimal (format_amount_2dp raw) = Some (v, 2%nat) /\
    v * 10000 - 5000 <= raw < v * 10000 + 5000.
Proof.
  intros Hr. unfold format_amount_2dp. rewrite sat_add_exact by lia.
  pose proof (Z.div_mod (raw + 5000) 10000). pose proof (Z.mod_pos_bound (raw + 5000) 10000).
  set (c := (raw + 5000) / 10000) in *.
  pose proof (Z.div_mod c 100). pose proof (Z.mod_pos_bound c 100).
  destruct (dec0_l_spec 1 (c mod 100)) as (Hl & Hp & _); [simpl; lia|].
  eexists. rewrite (read_decimal_frac _ _ _) by (exact Hp || lia). rewrite Hl. split; [done|].
  change (10 ^ Z.of_nat 2) with 100. lia.
Qed.

(** ** Quote values and pro-rata shares *)

Lemma wrap_u128_small x : 0 <= x < 2 ^ 128 -> wrap_u 128 x = x.
Proof. intros. unfold wrap_u. by rewrite Z.mod_small. Qed.

Lemma mul_u64_u128 a b : is_u64 a -> is_u64 b -> 0 <= a * b < 2 ^ 128.
Proof. unfold is_u64, u64_max. intros. change (2 ^ 128) with (2 ^ 64 * 2 ^ 64). nia. Qed.

Lemma mul_div_floor a b d :
  is_u64 a -> is_u64 b -> 0 < d -> a * b / d <= u64_max -> mul_div a b d = a * b / d.
Proof.
  intros Ha Hb Hd Hle. unfold mul_div. rewrite decide_False by lia.
  pose proof (mul_u64_u128 a b Ha Hb). rewrite wrap_u128_small by lia.
  apply as_u64_id. split; [apply Z.div_pos; lia|done].
Qed.

Lemma mul_quote_floor a p :
  is_u64 a -> is_u64 p -> a * p / TOKEN_SCALE <= u64_max -> mul_quote a p = a * p / TOKEN_SCALE.
Proof.
  intros Ha Hp Hle. unfold mul_quote. pose proof (mul_u64_u128 a p Ha Hp).
  rewrite wrap_u128_small by lia. apply as_u64_id. split; [|done].
  rewrite token_scale_six. apply Z.div_pos; lia.
Qed.

(** Pro-rata deposits never exceed the vault's equity: whatever the split
    of the supply among holders, the values shown to them add up to at most
    the equity, and nothing wraps. *)
Theorem mul_div_pro_rata shares equity supply :
  Forall is_u64 shares -> is_u64 equity -> 0 < supply -> sum_with (fun s => s) shares <= supply ->
  Forall (fun s => mul_div s equity supply <= equity) shares /\
  sum_with (fun s => mul_div s equity supply) shares <= equity.
Proof.
  intros Hs He Hsup.
  assert (forall l, Forall is_u64 l -> 0 <= sum_with (fun s => s) l) as Hpos.
  { induction 1 as [|x l Hx Hl IH]; simpl; [lia|]. mach. }
  assert (forall s, is_u64 s -> s <= supply -> mul_div s equity supply = s * equity / supply) as Hfl.
  { intros s Hs' Hle. apply mul_div_floor; [done..|].
    unfold is_u64 in *. apply Z.div_le_upper_bound; nia. }
  intros Hsum.
  assert (Forall (fun s => mul_div s equity supply <= equity) shares /\
    sum_with (fun s => mul_div s equity supply) shares * supply <= sum_with (fun s => s) shares * equity) as [H1 H2].
  { clear -Hs He Hsup Hsum Hpos Hfl. induction Hs as [|s l Hx Hl IH]; simpl in *; [split; [constructor|lia]|].
    pose proof (Hpos l Hl).
    assert (0 <= s) by (unfold is_u64 in Hx; lia).
    destruct IH as [IH1 IH2]; [lia|]. rewrite Hfl by (done || lia). split.
    - constructor; [|done]. rewrite Hfl by (done || lia).
      unfold is_u64 in *. apply Z.div_le_upper_bound; nia.
    - pose proof (Z.mul_div_le (s * equity) supply Hsup). lia. }
  split; [done|]. unfold is_u64 in He. nia.
Qed.

(** ** The mint curve *)

(** Without u128 overflow the mint rate never exceeds the flat rate, equals
    it below the threshold and at a zero high-water mark, and decreases as the
    high-water mark grows. *)
Theorem mint_rate_ppm_curve lp h1 h2 thr flat s :
  is_u64 flat -> 0 < s -> 0 <= h1 <= h2 -> flat * s * s < 2 ^ 128 -> (s + h2) * (s + h2) < 2 ^ 128 ->
  exists r1 r2,
    mint_rate_ppm lp h1 thr flat s = Some r1 /\ mint_rate_ppm lp h2 thr flat s = Some r2 /\
    0 <= r2 <= r1 /\ r1 <= flat /\ (lp < thr -> r1 = flat) /\ (h1 = 0 -> r1 = flat).
Proof.
  intros Hf Hs Hh Hov1 Hov2. unfold mint_rate_ppm, is_u64 in *. case_decide as E.
  { exists flat, flat. split_and!; try done; lia. }
  rewrite !(decide_False (P := s = 0)) by lia.
  assert (0 <= flat * s) by nia. assert (flat * s < 2 ^ 128) by nia.
  assert (0 < (s + h1) * (s + h1) <= (s + h2) * (s + h2)) by nia.
  assert (0 <= s + h2 < 2 ^ 128) by nia.
  assert (0 <= flat * s * s) by nia.
  rewrite !(wrap_u128_small (s + _)), !(wrap_u128_small (flat * s)) by lia.
  rewrite !wrap_u128_small by nia. rewrite !decide_False by nia.
  assert (flat * s * s / ((s + h1) * (s + h1)) <= flat) by (apply Z.div_le_upper_bound; nia).
  assert (flat * s * s / ((s + h2) * (s + h2)) <= flat * s * s / ((s + h1) * (s + h1)))
    by (apply Z.div_le_compat_l; lia).
  assert (0 <= flat * s * s / ((s + h2) * (s + h2))) by (apply Z.div_pos; nia).
  eexists _, _. split; [done|]. split; [done|]. rewrite !as_u64_id by (unfold is_u64; lia).
  split_and!; try lia. intros ->. rewrite Z.add_0_r, <- Z.mul_assoc. apply Z.div_mul. nia.
Qed.

(** The denominator can wrap to zero, and the division then panics. *)
Lemma mint_rate_ppm_panics :
  mint_rate_ppm 0 (2 ^ 63) 0 1 (2 ^ 63) = None.
Proof. vm_compute. reflexivity. Qed.

End Facts.

(** ** Witnesses *)

Lemma format_token_amount_exact_witness :
  denotes (format_token_amount (S := DemoSdk) 1050000) 1050000 1000000.
Proof. apply (format_token_amount_exact (SD := DemoSdk) 1050000). split; vm_compute; congruence. Defined.

Lemma format_price_pieces_exact_witness :
  format_price_pieces (S := DemoSdk) 5250 = "0.525"%string /\
  denotes (format_price_pieces (S := DemoSdk) 5250) 525000 1000000.
Proof.
  split; [vm_compute; reflexivity|].
  apply (format_price_pieces_exact (SD := DemoSdk) 5250). split; vm_compute; congruence.
Defined.

Lemma format_amount_2dp_rounds_witness :
  exists v, read_decimal (format_amount_2dp 1234999) = Some (v, 2%nat) /\
    v * 10000 - 5000 <= 1234999 < v * 10000 + 5000.
Proof. apply (format_amount_2dp_rounds 1234999). split; vm_compute; congruence. Defined.

Lemma mul_div_pro_rata_witness :
  Forall (fun s => mul_div s 1000 7 <= 1000) [3; 4] /\
  sum_with (fun s => mul_div s 1000 7) [3; 4] <= 1000.
Proof.
  apply (mul_div_pro_rata [3; 4] 1000 7).
  - repeat constructor; vm_compute; congruence.
  - split; vm_compute; congruence.
  - lia.
  - vm_compute. congruence.
Defined.

Lemma mint_rate_ppm_curve_witness :
  exists r1 r2,
    mint_rate_ppm 10 5 7 1000 20 = Some r1 /\ mint_rate_ppm 10 9 7 1000 20 = Some r2 /\
    0 <= r2 <= r1 /\ r1 <= 1000 /\ (10 < 7 -> r1 = 1000) /\ (5 = 0 -> r1 = 1000).
Proof.
  apply (mint_rate_ppm_curve 10 5 9 7 1000 20); try lia. split; vm_compute; congruence.
Defined.
