(* ===== verification/Keys.v ===== *)
(** * Keys: the string keys under which the index stores everything

    [spot_market.rs], and the key builders of [indexer/index_state.rs]. *)
From S2P Require Import Prelude Text Sdk.

Local Open Scope list_scope.

Section Keys.
Context {S : Sdk}.

(** [normalize_spot_market_key]: a token contract prints canonically, an account
    address becomes the contract of its leading bytes, anything else is trimmed. *)
Definition normalize_spot_market_key (value : string) : string :=
  let trimmed := trim value in
  match parse_token_contract trimmed with
  | Some contract => contract_to_string contract
  | None =>
      match address_from_str trimmed with
      | Some address => contract_to_string (contract_from_bytes (take CONTRACT_ADDRESS_LENGTH (address_as_bytes address)))
      | None => trimmed
      end
  end.

Definition onchain_order_id (spot_market chain_order_id : string) : string :=
  (normalize_spot_market_key spot_market +:+ ":" +:+ chain_order_id)%string.

Definition split_onchain_order_id (id : string) : option (string * string) :=
  p ← rsplit_once ":" (chars id); Some (text p.1, text p.2).

(** ** Keys of [index_state.rs] *)

Definition user_key (user_address : string) : string := to_ascii_lowercase (trim user_address).
Definition addr_key (address : string) : string := to_ascii_lowercase (trim address).

Definition paper_instr_key (market : string) (instrument : Z) : string :=
  (addr_key market +:+ ":" +:+ dec instrument)%string.
Definition paper_rewards_claimed_key (market user : string) : string :=
  (addr_key market +:+ ":" +:+ addr_key user)%string.
Definition paper_position_key (market : string) (position : Z) : string :=
  (addr_key market +:+ ":" +:+ dec position)%string.
Definition paper_queue_key (market : string) (index : Z) : string :=
  (addr_key market +:+ ":" +:+ dec index)%string.

Definition market_uuid (market_address : string) : Uuid := uuid_v5 market_address.
Definition vault_uuid (vault_address : string) : Uuid := uuid_v5 ("vault:" +:+ vault_address)%string.

End Keys.

Section Facts.
Context {SD : Sdk} {L : SdkLaws}.

Lemma normalize_idemp value :
  normalize_spot_market_key (normalize_spot_market_key value) = normalize_spot_market_key value.
Proof.
  assert (forall c, normalize_spot_market_key (contract_to_string c) = contract_to_string c) as Hc.
  { intros c. unfold normalize_spot_market_key. by autorewrite with clob_rw. }
  unfold normalize_spot_market_key at 2 3.
  destruct (parse_token_contract (trim value)) eqn:E1; [done|].
  destruct (address_from_str (trim value)) eqn:E2; [done|].
  unfold normalize_spot_market_key. by rewrite trim_idemp, E1, E2.
Qed.

(** Normalising a market key twice is normalising it once, so the keys kept
    in the index are fixed points and every spelling of a market meets them. *)
Theorem normalize_spot_market_key_idemp value :
  normalize_spot_market_key (normalize_spot_market_key value) = normalize_spot_market_key value.
Proof. apply normalize_idemp. Qed.

Lemma normalize_trim value : normalize_spot_market_key (trim value) = normalize_spot_market_key value.
Proof. unfold normalize_spot_market_key. by rewrite trim_idemp. Qed.

Lemma onchain_order_id_normalize m c :
  onchain_order_id (normalize_spot_market_key m) c = onchain_order_id m c.
Proof. unfold onchain_order_id. by rewrite normalize_idemp. Qed.

Lemma split_onchain_order_id_eq m c :
  ":"%char ∉ chars c ->
  split_onchain_order_id (onchain_order_id m c) = Some (normalize_spot_market_key m, c).
Proof.
  intros Hc. unfold split_onchain_order_id, onchain_order_id. rewrite !chars_app.
  change (chars ":" ++ chars c) with (":"%char :: chars c).
  rewrite rsplit_once_app by done. simpl. by rewrite !text_chars.
Qed.

(** Order ids round trip: splitting a composite id gives back the
    normalised market and the chain order id, so two orders share a composite
    id only if they are the same order of the same market. *)
Theorem onchain_order_id_roundtrip m1 c1 m2 c2 :
  ":"%char ∉ chars c1 -> ":"%char ∉ chars c2 ->
  split_onchain_order_id (onchain_order_id m1 c1) = Some (normalize_spot_market_key m1, c1) /\
  (onchain_order_id m1 c1 = onchain_order_id m2 c2 ->
   normalize_spot_market_key m1 = normalize_spot_market_key m2 /\ c1 = c2).
Proof.
  intros H1 H2. split; [by apply split_onchain_order_id_eq|]. intros E.
  pose proof (split_onchain_order_id_eq m1 c1 H1) as E1. rewrite E, split_onchain_order_id_eq in E1 by done.
  by simplify_eq.
Qed.

End Facts.

Lemma normalize_spot_market_key_idemp_witness :
  normalize_spot_market_key (S := DemoSdk) (normalize_spot_market_key (S := DemoSdk) " c007 ") =
  normalize_spot_market_key (S := DemoSdk) " c007 ".
Proof. apply (normalize_spot_market_key_idemp (SD := DemoSdk) " c007 "). Defined.

Lemma onchain_order_id_roundtrip_witness :
  split_onchain_order_id (onchain_order_id (S := DemoSdk) " c7 " "o12") = Some ("c7", "o12") /\
  (onchain_order_id (S := DemoSdk) " c7 " "o12" = onchain_order_id (S := DemoSdk) "c7" "o12" ->
   normalize_spot_market_key (S := DemoSdk) " c7 " = normalize_spot_market_key (S := DemoSdk) "c7" /\ "o12"%string = "o12"%string).
Proof.
  apply (onchain_order_id_roundtrip (SD := DemoSdk) " c7 " "o12" "c7" "o12"); by vm_compute; set_solver.
Defined.

(** ** Key lemmas *)

Lemma string_app_inv_r (a b c : string) : (a +:+ c = b +:+ c)%string -> a = b.
Proof.
  intros E. apply (f_equal chars) in E. rewrite !chars_app in E.
  apply app_inv_tail in E. by apply (inj chars) in E.
Qed.

Lemma keyed_number_inj a b n m :
  0 <= n -> 0 <= m -> (a +:+ ":" +:+ dec n = b +:+ ":" +:+ dec m)%string -> a = b /\ n = m.
Proof.
  intros Hn Hm E. apply (f_equal (fun s => rsplit_once ":" (chars s))) in E.
  rewrite !chars_app in E.
  change (chars ":" ++ chars (dec n)) with (":"%char :: chars (dec n)) in E.
  change (chars ":" ++ chars (dec m)) with (":"%char :: chars (dec m)) in E.
  assert (forall k, 0 <= k -> ":"%char ∉ chars (dec k)) as Hd.
  { intros k Hk Hin. unfold dec in Hin. rewrite chars_text in Hin.
    pose proof (dec_l_digits k Hk) as HF. rewrite Forall_forall in HF.
    apply HF in Hin. vm_compute in Hin. discriminate. }
  rewrite !rsplit_once_app in E by auto. injection E as E1 E2.
  apply (inj chars) in E1. apply (inj chars) in E2. by apply dec_inj in E2.
Qed.
