(* ===== verification/Slug.v ===== *)
(** * Slug: [slug.rs], URL slugs for event questions *)
From S2P Require Import Prelude Text.

Local Open Scope list_scope.

(** [str::to_lowercase] as far as the slug can tell: ASCII letters are lowered,
    U+212A (KELVIN SIGN) becomes [k], U+0130 becomes [i] and a combining dot;
    every other non-ASCII character lowers to non-ASCII characters, and the
    loop treats all of those alike, byte by byte. *)
Fixpoint to_lowercase_l (l : list ascii) : list ascii :=
  match l with
  | [] => []
  | a :: l' =>
      match l' with
      | b :: l'' =>
          if decide (a = byte_of 196 /\ b = byte_of 176)
          then "i"%char :: byte_of 204 :: byte_of 135 :: to_lowercase_l l''
          else match l'' with
               | c :: l''' =>
                   if decide (a = byte_of 226 /\ b = byte_of 132 /\ c = byte_of 170)
                   then "k"%char :: to_lowercase_l l'''
                   else lower_byte a :: to_lowercase_l l'
               | [] => lower_byte a :: to_lowercase_l l'
               end
      | [] => [lower_byte a]
      end
  end.

(** One turn of the loop; the state is the slug so far and [last_hyphen]. *)
Definition slug_step (st : list ascii * bool) (c : ascii) : list ascii * bool :=
  let '(slug, last_hyphen) := st in
  if is_ascii_alphanumeric c then (slug ++ [c], false)
  else if negb last_hyphen then (slug ++ ["-"%char], true)
  else (slug, last_hyphen).

Definition slug_from_question_l (question : string) : list ascii :=
  let slug := (foldl slug_step ([], false) (to_lowercase_l (chars (trim question)))).1 in
  trim_matches "-" slug.

Definition slug_from_question (question : string) : string :=
  match slug_from_question_l question with
  | [] => "event"
  | l => text l
  end.

(** [format!("{base}-{suffix}")]. *)
Definition slug_candidate (base : string) (suffix : Z) : string := (base +:+ "-" +:+ dec suffix)%string.

(** The [while existing.iter().any(...)] loop; [None] when the fuel runs out. *)
Fixpoint slug_loop (fuel : nat) (existing : list string) (base slug : string) (suffix : Z) : option string :=
  match fuel with
  | O => None
  | S fuel' =>
      if decide (slug ∈ existing)
      then slug_loop fuel' existing base (slug_candidate base suffix) (suffix + 1)
      else Some slug
  end.

Definition allocate_unique_slug_fuel (fuel : nat) (existing : list string) (question : string) : option string :=
  let base := slug_from_question question in slug_loop fuel existing base base 2.

(** One more turn than there are slugs in use is enough. *)
Definition allocate_unique_slug (existing : list string) (question : string) : option string :=
  allocate_unique_slug_fuel (S (length existing)) existing question.

(** ** What a slug looks like *)

Definition slug_char (c : ascii) : bool := is_digit c || is_lower c || bool_decide (c = "-"%char).

Definition no_double (l : list ascii) : Prop :=
  forall i, ~ (l !! i = Some "-"%char /\ l !! S i = Some "-"%char).

Record slug_wf (l : list ascii) : Prop := {
  slug_nonempty : l <> [];
  slug_chars : Forall (fun c => slug_char c = true) l;
  slug_head : head l <> Some "-"%char;
  slug_last : last l <> Some "-"%char;
  slug_no_double : no_double l
}.

Lemma no_double_infix a l b : no_double (a ++ l ++ b) -> no_double l.
Proof.
  intros H i [H1 H2]. apply (H (length a + i)%nat).
  assert (forall j, l !! j = Some "-"%char -> (a ++ l ++ b) !! (length a + j)%nat = Some "-"%char) as Hj.
  { intros j Hj. rewrite lookup_app_r by lia.
    replace (length a + j - length a)%nat with j by lia. by apply lookup_app_l_Some. }
  rewrite <- Nat.add_succ_r. auto.
Qed.

Lemma no_double_snoc l c :
  no_double l -> (c = "-"%char -> last l <> Some "-"%char) -> no_double (l ++ [c]).
Proof.
  intros H Hc i [H1 H2]. apply lookup_app_Some in H2 as [H2|[H2 H3]].
  - apply (H i). split; [|done]. apply lookup_lt_Some in H2.
    rewrite lookup_app_l in H1 by lia. done.
  - apply list_lookup_singleton_Some in H3 as [H3 ->].
    assert (S i = length l) as E by lia. rewrite lookup_app_l in H1 by lia.
    apply Hc; [done|]. rewrite last_lookup, <- E. done.
Qed.

Lemma no_hyphen_is_alnum : is_ascii_alphanumeric "-" = false.
Proof. reflexivity. Qed.

Definition lowered (c : ascii) : Prop := is_upper c = false.

Lemma lower_byte_lowered c : lowered (lower_byte c).
Proof. destruct c as [[] [] [] [] [] [] [] []]; vm_compute; reflexivity. Qed.

Lemma to_lowercase_l_lowered l : Forall lowered (to_lowercase_l l).
Proof.
  remember (length l) as n eqn:En. assert (length l <= n)%nat as Hn by lia. clear En.
  revert l Hn. induction n as [|n IH]; intros l Hn.
  { destruct l; [constructor|simpl in Hn; lia]. }
  destruct l as [|a [|b [|c l]]]; cbn [to_lowercase_l].
  - constructor.
  - constructor; [apply lower_byte_lowered|constructor].
  - simpl in Hn. case_decide.
    + repeat constructor.
    + constructor; [apply lower_byte_lowered|]. apply (IH [b]). simpl; lia.
  - simpl in Hn. case_decide; [|case_decide].
    + do 3 (constructor; [done|]). apply (IH (c :: l)). simpl; lia.
    + constructor; [done|]. apply IH. lia.
    + constructor; [apply lower_byte_lowered|]. apply (IH (b :: c :: l)). simpl; lia.
Qed.

Definition slug_inv (st : list ascii * bool) : Prop :=
  Forall (fun c => slug_char c = true) st.1 /\ no_double st.1 /\
  (last st.1 = Some "-"%char <-> st.2 = true).

Lemma slug_step_inv st c : lowered c -> slug_inv st -> slug_inv (slug_step st c).
Proof.
  destruct st as [slug lh]. unfold slug_inv. simpl. intros Hc (H1 & H2 & H3).
  destruct (is_ascii_alphanumeric c) eqn:Ec; [|destruct lh; simpl].
  - assert (c <> "-"%char) as Hne by (intros ->; by rewrite no_hyphen_is_alnum in Ec).
    split_and!; simpl.
    + apply Forall_app. split; [done|]. constructor; [|constructor].
      unfold is_ascii_alphanumeric, slug_char in *. unfold lowered in Hc. rewrite Hc, orb_false_r in Ec. by rewrite Ec.
    + by apply no_double_snoc.
    + rewrite last_snoc. split; congruence.
  - done.
  - split_and!.
    + apply Forall_app. split; [done|]. by constructor.
    + apply no_double_snoc; [done|]. intros _ H%H3. done.
    + rewrite last_snoc. done.
Qed.

Lemma slug_fold_inv l st : Forall lowered l -> slug_inv st -> slug_inv (foldl slug_step st l).
Proof.
  intros Hl. revert st. induction Hl; intros st Hst; simpl; [done|]. eauto using slug_step_inv.
Qed.

Lemma strip_one_hyphen l : strip_one [["-"%char]] l = None -> head l <> Some "-"%char.
Proof. intros H. destruct l as [|c l]; [done|]. simpl in *. case_decide; [done|]. congruence. Qed.

Lemma slug_from_question_spec question : slug_wf (chars (slug_from_question question)).
Proof.
  unfold slug_from_question. set (l := slug_from_question_l question).
  assert (l <> [] -> slug_wf l) as Hl.
  - unfold l, slug_from_question_l, trim_matches.
    set (t := to_lowercase_l _).
    destruct (slug_fold_inv t ([], false)) as (H1 & H2 & _).
    { apply to_lowercase_l_lowered. }
    { unfold slug_inv, no_double. simpl. split_and!; [constructor|intros i [? _]; done|done]. }
    set (s := (foldl slug_step ([], false) t).1) in *.
    destruct (strip_spec [["-"%char]] s) as (_ & a & Ha); [apply single_nonempty|].
    destruct (strip_end_spec [["-"%char]] (strip [["-"%char]] s)) as (He & b & Hb); [apply single_nonempty|].
    destruct (strip_spec [["-"%char]] s) as (Hs & _); [apply single_nonempty|].
    set (r := strip_end _ _) in *. rewrite Hb in Ha, Hs. intros Hne. split.
    + done.
    + rewrite Ha in H1. by apply Forall_app in H1 as [_ [H1 _]%Forall_app].
    + by apply strip_one_hyphen, (strip_one_app_None _ _ _ Hs).
    + rewrite <- head_reverse. by apply strip_one_hyphen.
    + rewrite Ha in H2. by apply no_double_infix in H2.
  - destruct l as [|c l'].
    + split; [done|repeat constructor|done|done|].
      intros i [H _]. do 5 (destruct i as [|i]; [done|]). done.
    + rewrite chars_text. by apply Hl.
Qed.

(** A slug is never empty, has only lower-case letters, digits and hyphens,
    never starts or ends with a hyphen and never has two in a row, whatever the
    question. *)
Theorem slug_from_question_wf question : slug_wf (chars (slug_from_question question)).
Proof. apply slug_from_question_spec. Qed.

(** ** Allocation *)

(** The [j]-th slug the loop tries. *)
Definition nth_candidate (base : string) (j : nat) : string :=
  match j with O => base | _ => slug_candidate base (Z.of_nat j + 1) end.

Lemma nth_candidate_S base j : nth_candidate base (S j) = slug_candidate base (Z.of_nat j + 2).
Proof. unfold nth_candidate. f_equal. lia. Qed.

Lemma nth_candidate_inj base i j : nth_candidate base i = nth_candidate base j -> i = j.
Proof.
  assert (forall n, base <> slug_candidate base n) as Hne.
  { intros n E. apply (f_equal (fun s => length (chars s))) in E.
    unfold slug_candidate in E. rewrite !chars_app, !length_app in E. simpl in E. lia. }
  destruct i as [|i], j as [|j]; [done| | |]; rewrite ?nth_candidate_S; intros E.
  - by apply Hne in E.
  - symmetry in E. by apply Hne in E.
  - unfold slug_candidate in E. apply (f_equal chars) in E. rewrite !chars_app in E.
    do 2 apply app_inv_head in E. apply (inj chars) in E. apply dec_inj in E; lia.
Qed.

Lemma slug_loop_spec fuel existing base j :
  match slug_loop fuel existing base (nth_candidate base j) (Z.of_nat j + 2) with
  | Some s => exists m, (m < fuel)%nat /\ s = nth_candidate base (j + m) /\ s ∉ existing /\
                forall i, (i < m)%nat -> nth_candidate base (j + i) ∈ existing
  | None => forall i, (i < fuel)%nat -> nth_candidate base (j + i) ∈ existing
  end.
Proof.
  revert j. induction fuel as [|fuel IH]; intros j; simpl; [intros; lia|]. case_decide as Hin.
  - specialize (IH (S j)). rewrite nth_candidate_S in IH.
    replace (Z.of_nat (S j) + 2) with (Z.of_nat j + 2 + 1) in IH by lia.
    destruct (slug_loop _ _ _ _ _) as [s|].
    + destruct IH as (m & Hm & -> & Hs & Hlt). exists (S m). split_and!; [lia|f_equal; lia|done|].
      intros [|i] Hi; [by rewrite Nat.add_0_r|]. replace (j + S i)%nat with (S j + i)%nat by lia. apply Hlt. lia.
    + intros [|i] Hi; [by rewrite Nat.add_0_r|]. replace (j + S i)%nat with (S j + i)%nat by lia. apply IH. lia.
  - exists O. rewrite Nat.add_0_r. split_and!; [lia|done|done|]. intros; lia.
Qed.

(** Pigeonhole: more candidates than slugs in use cannot all be in use. *)
Lemma candidates_not_all_used existing base :
  ~ forall i, (i < S (length existing))%nat -> nth_candidate base i ∈ existing.
Proof.
  intros H. set (cs := nth_candidate base <$> seq 0 (S (length existing))).
  assert (NoDup cs) as Hnd.
  { apply NoDup_fmap_2_strong; [|apply NoDup_seq]. intros i j _ _. apply nth_candidate_inj. }
  assert (cs ⊆+ existing) as Hsub.
  { apply NoDup_submseteq; [done|]. intros s (i & -> & [_ Hi]%elem_of_seq)%list_elem_of_fmap. apply H. lia. }
  apply submseteq_length in Hsub. unfold cs in Hsub. rewrite length_fmap, length_seq in Hsub. lia.
Qed.

Lemma allocate_unique_slug_spec existing question :
  exists s j, allocate_unique_slug existing question = Some s /\ s ∉ existing /\
    s = nth_candidate (slug_from_question question) j /\ (j <= length existing)%nat /\
    forall i, (i < j)%nat -> nth_candidate (slug_from_question question) i ∈ existing.
Proof.
  unfold allocate_unique_slug, allocate_unique_slug_fuel. set (base := slug_from_question question).
  pose proof (slug_loop_spec (S (length existing)) existing base 0) as H. simpl (nth_candidate base 0) in H.
  change (Z.of_nat 0 + 2) with 2 in H.
  destruct (slug_loop _ _ _ _ _) as [s|]; [|by destruct (candidates_not_all_used existing base)].
  destruct H as (m & Hm & -> & Hs & Hlt). exists (nth_candidate base m), m. split_and!; try done. lia.
Qed.

Lemma nth_candidate_nonempty question j : nth_candidate (slug_from_question question) j <> ""%string.
Proof.
  pose proof (slug_from_question_spec question) as [Hne _ _ _ _]. intros E. apply Hne.
  destruct j as [|j]; simpl in E; [by rewrite E|]. unfold slug_candidate in E.
  apply (f_equal chars) in E. rewrite !chars_app in E. by apply app_eq_nil in E as [-> _].
Qed.

(** Slug allocation terminates and returns a slug not in use: the base slug
    if it is free, otherwise the first free [base-n], [n] counting from 2. *)
Theorem allocate_unique_slug_fresh existing question :
  exists s j, allocate_unique_slug existing question = Some s /\ s ∉ existing /\
    s = nth_candidate (slug_from_question question) j /\ (j <= length existing)%nat /\
    forall i, (i < j)%nat -> nth_candidate (slug_from_question question) i ∈ existing.
Proof. apply allocate_unique_slug_spec. Qed.

Example slug_example :
  slug_from_question "  Will BTC hit $100k -- in 2025? " = "will-btc-hit-100k-in-2025"%string.
Proof. vm_compute. reflexivity. Qed.

Example slug_collision_example :
  allocate_unique_slug ["a-b"; "a-b-2"]%string "A b" = Some "a-b-3"%string.
Proof. vm_compute. reflexivity. Qed.
