(* ===== verification/Domain.v ===== *)
(** * Domain: the data model of [domain/] and of [persist/types.rs]

    Field names carry a prefix per structure ([ord_], [vlt_], ...), since Rocq
    projections share one name space. *)
From S2P Require Import Prelude Text Sdk.

(** ** [domain/order.rs] *)

Record Order := {
  ord_id : Uuid;
  ord_market_id : Uuid;
  ord_market_slug : string;
  ord_question : string;
  ord_outcome : string;
  ord_side : string;
  ord_price : string;
  ord_size : string;
  ord_status : string;
  ord_cloid : option string
}.

#[global] Instance Order_eq_dec : EqDecision Order.
Proof. solve_decision. Defined.

Definition set_ord_status (status : string) (o : Order) : Order :=
  {| ord_id := ord_id o; ord_market_id := ord_market_id o; ord_market_slug := ord_market_slug o;
     ord_question := ord_question o; ord_outcome := ord_outcome o; ord_side := ord_side o;
     ord_price := ord_price o; ord_size := ord_size o; ord_status := status; ord_cloid := ord_cloid o |}.

Definition set_ord_size (size : string) (o : Order) : Order :=
  {| ord_id := ord_id o; ord_market_id := ord_market_id o; ord_market_slug := ord_market_slug o;
     ord_question := ord_question o; ord_outcome := ord_outcome o; ord_side := ord_side o;
     ord_price := ord_price o; ord_size := size; ord_status := ord_status o; ord_cloid := ord_cloid o |}.

(** ** [domain/vault.rs] *)

Record VaultAsset := {
  va_market : string;
  va_amount : string;
  va_last_price : option string;
  va_quote_value : option string
}.

#[global] Instance VaultAsset_eq_dec : EqDecision VaultAsset.
Proof. solve_decision. Defined.

Record Vault := {
  vlt_id : Uuid;
  vlt_name : string;
  vlt_vault_address : string;
  vlt_vault_account : string;
  vlt_manager : string;
  vlt_quote_token : string;
  vlt_share_token : string;
  vlt_equity : string;
  vlt_user_deposit : string;
  vlt_portfolio : list VaultAsset;
  vlt_allow_deposit : bool;
  vlt_is_closed : bool
}.

#[global] Instance Vault_eq_dec : EqDecision Vault.
Proof. solve_decision. Defined.

Definition DEFAULT_VAULTS_PAGE_LIMIT : Z := 100.
Definition MAX_VAULTS_PAGE_LIMIT : Z := 100.

Record VaultQuery := {
  vq_limit : Z;
  vq_offset : Z;
  vq_manager : option string;
  vq_vault_addresses : list string
}.

(** ** [domain/book.rs] *)

Record BookLevel := { lvl_price : string; lvl_size : string }.

#[global] Instance BookLevel_eq_dec : EqDecision BookLevel.
Proof. solve_decision. Defined.

Record BookSnapshot := {
  snap_sequence : Z;
  snap_bids : list BookLevel;
  snap_asks : list BookLevel;
  snap_last_trade_price : option string
}.

#[global] Instance BookSnapshot_eq_dec : EqDecision BookSnapshot.
Proof. solve_decision. Defined.

(** ** [domain/market.rs] *)

Inductive MarketCategory := CSpot | CEvent | CPerp.

#[global] Instance MarketCategory_eq_dec : EqDecision MarketCategory.
Proof. solve_decision. Defined.

Module MarketCategoryOps.
Definition parse (value : string) : option MarketCategory :=
  let v := to_ascii_lowercase (trim value) in
  if decide (v = "spot"%string) then Some CSpot
  else if decide (v = "event"%string \/ v = "event_contract"%string) then Some CEvent
  else if decide (v = "perp"%string \/ v = "perpetual"%string) then Some CPerp
  else None.

Definition as_str (c : MarketCategory) : string :=
  match c with CSpot => "spot" | CEvent => "event" | CPerp => "perp" end.

Lemma parse_as_str c : parse (as_str c) = Some c.
Proof. destruct c; vm_compute; reflexivity. Qed.
End MarketCategoryOps.

Inductive Market :=
| Spot (id : Uuid) (name : string) (icon_url : option string) (market_address state deployer : string)
    (base_token quote_token : string)
| Event (id : Uuid) (slug question : string) (icon_url : option string) (market_address : string)
    (collateral_token yes_token no_token yes_spot_market no_spot_market state : string)
    (resolution_deadline : Z) (deployer : string)
| Perp (id : Uuid) (name : string) (icon_url : option string) (market_address state deployer : string)
    (underlying : string).

#[global] Instance Market_eq_dec : EqDecision Market.
Proof. solve_decision. Defined.

Module MarketOps.
Definition category (m : Market) : MarketCategory :=
  match m with Spot _ _ _ _ _ _ _ _ => CSpot | Event _ _ _ _ _ _ _ _ _ _ _ _ _ => CEvent | Perp _ _ _ _ _ _ _ => CPerp end.

Definition id (m : Market) : Uuid :=
  match m with Spot i _ _ _ _ _ _ _ => i | Event i _ _ _ _ _ _ _ _ _ _ _ _ => i | Perp i _ _ _ _ _ _ => i end.

Definition name (m : Market) : string :=
  match m with Spot _ n _ _ _ _ _ _ => n | Event _ _ _ _ _ _ _ _ _ _ _ _ _ => "" | Perp _ n _ _ _ _ _ => n end.

(** [name_mut]: [None] for an event, otherwise the market with its name set. *)
Definition name_mut (m : Market) (v : string) : option Market :=
  match m with
  | Spot i _ ic a s d b q => Some (Spot i v ic a s d b q)
  | Event _ _ _ _ _ _ _ _ _ _ _ _ _ => None
  | Perp i _ ic a s d u => Some (Perp i v ic a s d u)
  end.

Definition slug (m : Market) : string :=
  match m with Event _ sl _ _ _ _ _ _ _ _ _ _ _ => sl | _ => "" end.

Definition slug_mut (m : Market) (v : string) : option Market :=
  match m with
  | Event i _ q ic a c y n ys ns s r d => Some (Event i v q ic a c y n ys ns s r d)
  | _ => None
  end.

Definition question (m : Market) : string :=
  match m with Event _ _ q _ _ _ _ _ _ _ _ _ _ => q | _ => "" end.

Definition label (m : Market) : string :=
  match m with Event _ _ q _ _ _ _ _ _ _ _ _ _ => q | Spot _ n _ _ _ _ _ _ => n | Perp _ n _ _ _ _ _ => n end.

Definition icon_url (m : Market) : option string :=
  match m with Spot _ _ ic _ _ _ _ _ => ic | Event _ _ _ ic _ _ _ _ _ _ _ _ _ => ic | Perp _ _ ic _ _ _ _ => ic end.

Definition set_icon_url_if_empty (m : Market) (value : option string) : Market :=
  match icon_url m with
  | Some _ => m
  | None =>
      match m with
      | Spot i n _ a s d b q => Spot i n value a s d b q
      | Event i sl q _ a c y n ys ns s r d => Event i sl q value a c y n ys ns s r d
      | Perp i n _ a s d u => Perp i n value a s d u
      end
  end.

Definition market_address (m : Market) : string :=
  match m with Spot _ _ _ a _ _ _ _ => a | Event _ _ _ _ a _ _ _ _ _ _ _ _ => a | Perp _ _ _ a _ _ _ => a end.

Definition state (m : Market) : string :=
  match m with Spot _ _ _ _ s _ _ _ => s | Event _ _ _ _ _ _ _ _ _ _ s _ _ => s | Perp _ _ _ _ s _ _ => s end.

Definition state_mut (m : Market) (v : string) : Market :=
  match m with
  | Spot i n ic a _ d b q => Spot i n ic a v d b q
  | Event i sl q ic a c y n ys ns _ r d => Event i sl q ic a c y n ys ns v r d
  | Perp i n ic a _ d u => Perp i n ic a v d u
  end.

Definition deployer (m : Market) : string :=
  match m with Spot _ _ _ _ _ d _ _ => d | Event _ _ _ _ _ _ _ _ _ _ _ _ d => d | Perp _ _ _ _ _ d _ => d end.

Definition resolution_deadline (m : Market) : Z :=
  match m with Event _ _ _ _ _ _ _ _ _ _ _ r _ => r | _ => 0 end.

Definition yes_token (m : Market) : string :=
  match m with Event _ _ _ _ _ _ y _ _ _ _ _ _ => y | _ => "" end.

Definition no_token (m : Market) : string :=
  match m with Event _ _ _ _ _ _ _ n _ _ _ _ _ => n | _ => "" end.

Definition yes_spot_market (m : Market) : string :=
  match m with Event _ _ _ _ _ _ _ _ ys _ _ _ _ => ys | Spot _ _ _ a _ _ _ _ => a | Perp _ _ _ a _ _ _ => a end.

Definition no_spot_market (m : Market) : string :=
  match m with Event _ _ _ _ _ _ _ _ _ ns _ _ _ => ns | Spot _ _ _ a _ _ _ _ => a | Perp _ _ _ a _ _ _ => a end.

Definition yes_spot_market_mut (m : Market) (v : string) : option Market :=
  match m with
  | Event i sl q ic a c y n _ ns s r d => Some (Event i sl q ic a c y n v ns s r d)
  | _ => None
  end.

Definition no_spot_market_mut (m : Market) (v : string) : option Market :=
  match m with
  | Event i sl q ic a c y n ys _ s r d => Some (Event i sl q ic a c y n ys v s r d)
  | _ => None
  end.
End MarketOps.

(** The flat structure of older checkpoints; reading it from JSON is serde's. *)
Record Flat := {
  flat_id : Uuid;
  flat_slug : string;
  flat_question : string;
  flat_name : string;
  flat_icon_url : option string;
  flat_market_address : string;
  flat_collateral_token : string;
  flat_yes_token : string;
  flat_no_token : string;
  flat_yes_spot_market : string;
  flat_no_spot_market : string;
  flat_state : string;
  flat_resolution_deadline : Z;
  flat_category : option string;
  flat_deployer : string
}.

Definition legacy_category (flat : Flat) : MarketCategory :=
  match flat_category flat ≫= MarketCategoryOps.parse with
  | Some c => c
  | None =>
      let distinct_legs :=
        bool_decide (flat_yes_spot_market flat <> flat_no_spot_market flat) &&
        bool_decide (flat_yes_spot_market flat <> ""%string) &&
        bool_decide (flat_no_spot_market flat <> ""%string) in
      let has_outcome_tokens :=
        bool_decide (flat_yes_token flat <> ""%string) || bool_decide (flat_no_token flat <> ""%string) in
      if distinct_legs || has_outcome_tokens then CEvent else CSpot
  end.

Definition from_legacy_flat (flat : Flat) : Market :=
  let spot_name :=
    if decide (flat_name flat <> ""%string) then flat_name flat
    else if decide (flat_question flat <> ""%string) then flat_question flat
    else flat_slug flat in
  match legacy_category flat with
  | CEvent =>
      Event (flat_id flat) (flat_slug flat) (flat_question flat) (flat_icon_url flat)
        (flat_market_address flat) (flat_collateral_token flat) (flat_yes_token flat) (flat_no_token flat)
        (flat_yes_spot_market flat) (flat_no_spot_market flat) (flat_state flat)
        (flat_resolution_deadline flat) (flat_deployer flat)
  | CPerp =>
      Perp (flat_id flat) spot_name (flat_icon_url flat) (flat_market_address flat) (flat_state flat)
        (flat_deployer flat) ""
  | CSpot =>
      Spot (flat_id flat) spot_name (flat_icon_url flat) (flat_market_address flat) (flat_state flat)
        (flat_deployer flat) "" ""
  end.

Definition DEFAULT_MARKETS_PAGE_LIMIT : Z := 100.
Definition MAX_MARKETS_PAGE_LIMIT : Z := 100.
Definition MAX_MARKETS_SLUG_BATCH : nat := 100.
Definition MAX_MARKETS_ID_BATCH : nat := 100.

Inductive MarketSortOrder := SortResolutionDeadline | SortSlug | SortQuestion.

#[global] Instance MarketSortOrder_eq_dec : EqDecision MarketSortOrder.
Proof. solve_decision. Defined.

Definition parse_sort_order (value : option string) : MarketSortOrder :=
  match value with
  | Some v =>
      let v := trim v in
      if decide (v = "slug"%string \/ v = "name"%string) then SortSlug
      else if decide (v = "question"%string \/ v = "label"%string) then SortQuestion
      else SortResolutionDeadline
  | None => SortResolutionDeadline
  end.

Record MarketQuery := {
  mq_limit : Z;
  mq_offset : Z;
  mq_slug : option string;
  mq_slugs : list string;
  mq_market_ids : list Uuid;
  mq_market_addresses : list string;
  mq_state : option string;
  mq_category : option MarketCategory;
  mq_deployer : option string;
  mq_order : MarketSortOrder;
  mq_ascending : bool
}.

(** ** [persist/types.rs] *)

Definition ORDER_HISTORY_LIMIT : nat := 2000.
Definition BAR_HISTORY_LIMIT : nat := Z.to_nat 5000.
Definition PAPER_HOUSE_HISTORY_LIMIT : nat := Z.to_nat 3600.
Definition SECONDARY_PENDING_LIMIT : Z := 128.

Record ClosedBarRow := {
  cb_spot_market : string;
  cb_interval : string;
  cb_start_ts : Z;
  cb_open_raw : Z;
  cb_high_raw : Z;
  cb_low_raw : Z;
  cb_close_raw : Z;
  cb_volume_raw : Z;
  cb_trade_count : Z
}.

#[global] Instance ClosedBarRow_eq_dec : EqDecision ClosedBarRow.
Proof. solve_decision. Defined.

Record PaperHouseHistoryRow := {
  phr_market : string;
  phr_ts_ms : Z;
  phr_house_funds_raw : Z;
  phr_lp_balance_raw : Z;
  phr_open_house_pnl_raw : Z;
  phr_queue_debt_raw : Z
}.

#[global] Instance PaperHouseHistoryRow_eq_dec : EqDecision PaperHouseHistoryRow.
Proof. solve_decision. Defined.

Record PersistMeta := { pm_block_num : Z; pm_digest : string }.

Record PersistOrderRow := {
  por_order : Order;
  por_user_address : string;
  por_chain_order_id : string;
  por_spot_market : string;
  por_size_raw : Z;
  por_filled_raw : Z;
  por_status_ts_ms : Z
}.

#[global] Instance PersistOrderRow_eq_dec : EqDecision PersistOrderRow.
Proof. solve_decision. Defined.

Record PersistBookLevel := { pbl_spot_market : string; pbl_side : string; pbl_price_raw : Z; pbl_size_raw : Z }.

#[global] Instance PersistBookLevel_eq_dec : EqDecision PersistBookLevel.
Proof. solve_decision. Defined.

Record PersistBookMeta := { pbm_spot_market : string; pbm_sequence : Z; pbm_last_trade_price : option Z }.

#[global] Instance PersistBookMeta_eq_dec : EqDecision PersistBookMeta.
Proof. solve_decision. Defined.

Record PersistVaultPortfolioRow := { pvp_vault_id : string; pvp_spot_market : string; pvp_amount_raw : Z }.

(** ** Laws of the market accessors and mutators *)

Lemma market_name_mut m v m' :
  MarketOps.name_mut m v = Some m' ->
  MarketOps.name m' = v /\ MarketOps.id m' = MarketOps.id m /\ MarketOps.category m' = MarketOps.category m.
Proof. destruct m; simpl; intros; simplify_eq; done. Qed.

Lemma market_slug_mut m v m' :
  MarketOps.slug_mut m v = Some m' ->
  MarketOps.slug m' = v /\ MarketOps.id m' = MarketOps.id m /\ MarketOps.category m' = MarketOps.category m.
Proof. destruct m; simpl; intros; simplify_eq; done. Qed.

Lemma market_icon_id m v :
  MarketOps.id (MarketOps.set_icon_url_if_empty m v) = MarketOps.id m /\
  MarketOps.category (MarketOps.set_icon_url_if_empty m v) = MarketOps.category m /\
  MarketOps.slug (MarketOps.set_icon_url_if_empty m v) = MarketOps.slug m.
Proof. destruct m; unfold MarketOps.set_icon_url_if_empty; simpl; destruct icon_url; done. Qed.
