(* ===== verification/Calendar.v ===== *)
(** * Calendar: the civil-calendar arithmetic of [bars.rs]

    [civil_from_days], [days_from_civil] and [calendar_month_start_utc],
    against a reference calendar that steps one day at a time with the
    Gregorian leap-year rule. *)
From S2P Require Import Prelude Text.

#[local] Ltac Zify.zify_post_hook ::= Z.to_euclidean_division_equations.

Definition as_i32 (x : Z) : Z := wrap_s 32 x.
Definition as_u32 (x : Z) : Z := wrap_u 32 x.

(** Rust's [/] on a signed integer truncates: [Z.quot]. *)
Definition civil_from_days (z0 : Z) : Z * Z * Z :=
  let z := as_i64 (z0 + 719468) in
  let era := (if decide (0 <= z) then z else as_i64 (z - 146096)) `quot` 146097 in
  let doe := as_u64 (z - as_i64 (era * 146097)) in
  let yoe := (doe - doe / 1460 + doe / 36524 - doe / 146096) / 365 in
  let y := as_i64 (yoe + as_i64 (era * 400)) in
  let doy := doe - (365 * yoe + yoe / 4 - yoe / 100) in
  let mp := (5 * doy + 2) / 153 in
  let d := doy - (153 * mp + 2) / 5 + 1 in
  let m := if decide (mp < 10) then mp + 3 else mp - 9 in
  let y := if decide (m <= 2) then y + 1 else y in
  (as_i32 y, as_u32 m, as_u32 d).

Definition days_from_civil (year month day : Z) : option Z :=
  if negb (bool_decide (1 <= month <= 12)) || negb (bool_decide (1 <= day <= 31)) then None
  else
    let y := if decide (month <= 2) then as_i32 (year - 1) else year in
    let era := (if decide (0 <= y) then y else y - 399) `quot` 400 in
    let yoe := as_u64 (y - era * 400) in
    let m := month in
    let doy := as_u64 ((153 * (if decide (2 < m) then m - 3 else m + 9) + 2) `quot` 5) + day - 1 in
    let doe := yoe * 365 + yoe / 4 - yoe / 100 + doy in
    Some (era * 146097 + doe - 719468).

Definition calendar_month_start_utc (ts : Z) : option Z :=
  let days := as_i64 (ts / 86400) in
  let '(year, month, _) := civil_from_days days in
  month_start_days ← days_from_civil year month 1;
  Some (sat_mul (as_u64 month_start_days) 86400).

(** ** Reference calendar *)

Definition is_leap (y : Z) : bool :=
  bool_decide (y mod 4 = 0) && (negb (bool_decide (y mod 100 = 0)) || bool_decide (y mod 400 = 0)).

Definition days_in_month (y m : Z) : Z :=
  if decide (m = 2) then (if is_leap y then 29 else 28)
  else if decide (m = 4 \/ m = 6 \/ m = 9 \/ m = 11) then 30 else 31.

Definition next_day (d : Z * Z * Z) : Z * Z * Z :=
  let '(y, m, d) := d in
  if decide (d < days_in_month y m) then (y, m, d + 1)
  else if decide (m < 12) then (y, m + 1, 1)
  else (y + 1, 1, 1).

(** The date [n] days after 1 January 1970. *)
Definition civil_ref (n : nat) : Z * Z * Z := Nat.iter n next_day (1970, 1, 1).

(** ** The same arithmetic without machine widths *)

Definition yoe_of (doe : Z) : Z := (doe - doe / 1460 + doe / 36524 - doe / 146096) / 365.
Definition doy_of (doe : Z) : Z := doe - (365 * yoe_of doe + yoe_of doe / 4 - yoe_of doe / 100).
Definition mp_of (doy : Z) : Z := (5 * doy + 2) / 153.

Definition civil (n : Z) : Z * Z * Z :=
  let z := n + 719468 in
  let era := z / 146097 in
  let doe := z mod 146097 in
  let mp := mp_of (doy_of doe) in
  let d := doy_of doe - (153 * mp + 2) / 5 + 1 in
  let m := if decide (mp < 10) then mp + 3 else mp - 9 in
  let y := yoe_of doe + era * 400 in
  (if decide (m <= 2) then y + 1 else y, m, d).

Lemma yoe_bounds doe : 0 <= doe < 146097 ->
  0 <= yoe_of doe < 400 /\ 0 <= doy_of doe <= 365.
Proof. unfold doy_of, yoe_of. intros. lia. Qed.

Lemma mp_bounds doy : 0 <= doy <= 365 -> 0 <= mp_of doy <= 11 /\ 1 <= doy - (153 * mp_of doy + 2) / 5 + 1 <= 31.
Proof. unfold mp_of. intros. lia. Qed.

Lemma as_i32_id x : -2147483648 <= x <= 2147483647 -> as_i32 x = x.
Proof. unfold as_i32, wrap_s. intros. rewrite Z.mod_small; lia. Qed.

Lemma as_u32_id x : 0 <= x <= 4294967295 -> as_u32 x = x.
Proof. unfold as_u32, wrap_u. intros. apply Z.mod_small. lia. Qed.

(** Days for which the year fits an i32: up to the year 1,140,000,000. *)
Definition day_ok (n : Z) : Prop := 0 <= n <= 416999999999.

Lemma civil_from_days_eq n : day_ok n -> civil_from_days n = civil n.
Proof.
  unfold day_ok. intros Hn. unfold civil_from_days.
  rewrite (as_i64_id (n + 719468)) by mach. rewrite (decide_True (P := 0 <= n + 719468)) by lia.
  rewrite Z.quot_div_nonneg by lia. set (z := n + 719468).
  assert (0 <= z / 146097 <= 2854272) by lia.
  rewrite (as_i64_id (z / 146097 * 146097)), (as_i64_id (z / 146097 * 400)) by (unfold is_i64, i64_min, i64_max; lia).
  rewrite as_u64_id by (unfold is_u64, u64_max; lia).
  replace (z - z / 146097 * 146097) with (z mod 146097) by lia.
  assert (0 <= z mod 146097 < 146097) as Hdoe by lia.
  unfold civil. fold z. set (doe := z mod 146097) in *. fold (yoe_of doe). fold (doy_of doe). fold (mp_of (doy_of doe)).
  destruct (yoe_bounds doe Hdoe) as [Hy Hd]. destruct (mp_bounds (doy_of doe) Hd) as [Hm Hdd].
  rewrite as_i64_id by (unfold is_i64, i64_min, i64_max; lia).
  rewrite (as_u32_id (doy_of doe - _ + 1)) by lia.
  assert (1 <= (if decide (mp_of (doy_of doe) < 10) then mp_of (doy_of doe) + 3 else mp_of (doy_of doe) - 9) <= 12)
    by (case_decide; lia).
  rewrite as_u32_id by lia. rewrite as_i32_id; [done|repeat case_decide; lia].
Qed.

(** *** One day later in the arithmetic is one day later in the calendar *)

Definition year_start (y : Z) : Z := 365 * y + y / 4 - y / 100.
Definition leap_day (y : Z) : Z := if is_leap y then 1 else 0.

Lemma year_start_next y : 0 <= y < 399 -> year_start (y + 1) = year_start y + 365 + leap_day (y + 1).
Proof.
  intros Hy. unfold leap_day, is_leap. assert ((y + 1) mod 400 <> 0) by lia.
  rewrite (bool_decide_eq_false_2 ((y + 1) mod 400 = 0)) by done.
  repeat case_bool_decide; unfold year_start; simpl; lia.
Qed.

Lemma yoe_char doe : 0 <= doe < 146097 ->
  year_start (yoe_of doe) <= doe <= year_start (yoe_of doe) + 364 + leap_day (yoe_of doe + 1).
Proof.
  intros Hdoe. destruct (yoe_bounds doe Hdoe) as [Hy Hd].
  assert (yoe_of doe = 399 \/ yoe_of doe < 399) as [E|Hlt] by lia.
  - rewrite E. change (leap_day (399 + 1)) with 1. change (year_start 399) with 145731.
    unfold doy_of in Hd. rewrite E in Hd. change (365 * 399 + 399 / 4 - 399 / 100) with 145731 in Hd. lia.
  - assert (doe < year_start (yoe_of doe + 1)) as Hup.
    { unfold year_start, yoe_of in *. lia. }
    rewrite year_start_next in Hup by lia. unfold doy_of in Hd. unfold year_start in *. lia.
Qed.

Lemma year_start_mono y1 y2 : 0 <= y1 < y2 -> y2 < 400 -> year_start y1 + 365 + leap_day (y1 + 1) <= year_start y2.
Proof. intros. rewrite <- year_start_next by lia. unfold year_start. lia. Qed.

Lemma yoe_unique doe y : 0 <= doe < 146097 -> 0 <= y < 400 ->
  year_start y <= doe <= year_start y + 364 + leap_day (y + 1) -> yoe_of doe = y.
Proof.
  intros Hd Hy H. pose proof (yoe_char doe Hd). destruct (yoe_bounds doe Hd) as [Hb _].
  destruct (Z.lt_trichotomy (yoe_of doe) y) as [Hlt|[Heq|Hgt]]; [|done|].
  - pose proof (year_start_mono (yoe_of doe) y). lia.
  - pose proof (year_start_mono y (yoe_of doe)). lia.
Qed.

Lemma doy_of_eq doe : doy_of doe = doe - year_start (yoe_of doe).
Proof. unfold doy_of, year_start. lia. Qed.

Lemma doe_next doe : 0 <= doe -> doe + 1 < 146097 ->
  (yoe_of (doe + 1) = yoe_of doe /\ doy_of (doe + 1) = doy_of doe + 1 /\
   doy_of doe + 1 <= 364 + leap_day (yoe_of doe + 1)) \/
  (yoe_of (doe + 1) = yoe_of doe + 1 /\ doy_of (doe + 1) = 0 /\
   doy_of doe = 364 + leap_day (yoe_of doe + 1)).
Proof.
  intros H0 H1. pose proof (yoe_char doe ltac:(lia)) as Hc.
  destruct (yoe_bounds doe ltac:(lia)) as [Hb _]. rewrite !doy_of_eq.
  assert (0 <= leap_day (yoe_of doe + 1 + 1) <= 1) by (unfold leap_day; case_match; lia).
  destruct (Z.le_gt_cases (doe + 1) (year_start (yoe_of doe) + 364 + leap_day (yoe_of doe + 1))) as [Hle|Hgt].
  - left. rewrite (yoe_unique (doe + 1) (yoe_of doe)) by lia. lia.
  - right. assert (yoe_of doe <> 399) as Hne.
    { intros E. rewrite E in *. change (year_start 399) with 145731 in *. change (leap_day (399 + 1)) with 1 in *. lia. }
    pose proof (year_start_next (yoe_of doe) ltac:(lia)) as Hn.
    rewrite (yoe_unique (doe + 1) (yoe_of doe + 1)) by lia. lia.
Qed.

Definition day_of (doy : Z) : Z := doy - (153 * mp_of doy + 2) / 5 + 1.
Definition month_of (mp : Z) : Z := if decide (mp < 10) then mp + 3 else mp - 9.
(** Length of the [mp]-th month from March, February without its leap day. *)
Definition mp_length (mp : Z) : Z := days_in_month 1 (month_of mp).

Definition month_step_ok (doy : Z) : bool :=
  let mp := mp_of doy in
  bool_decide (mp_of (doy + 1) = mp /\ day_of (doy + 1) = day_of doy + 1 /\ day_of doy < mp_length mp) ||
  bool_decide (mp < 11 /\ mp_of (doy + 1) = mp + 1 /\ day_of (doy + 1) = 1 /\ day_of doy = mp_length mp).

Lemma month_step_all : forallb (fun n => month_step_ok (Z.of_nat n)) (seq 0 364) = true.
Proof. vm_compute. reflexivity. Qed.

Lemma month_step doy : 0 <= doy < 364 ->
  (mp_of (doy + 1) = mp_of doy /\ day_of (doy + 1) = day_of doy + 1 /\ day_of doy < mp_length (mp_of doy)) \/
  (mp_of doy < 11 /\ mp_of (doy + 1) = mp_of doy + 1 /\ day_of (doy + 1) = 1 /\ day_of doy = mp_length (mp_of doy)).
Proof.
  intros H. pose proof (proj1 (forallb_forall _ _) month_step_all (Z.to_nat doy)) as HF.
  cbn beta in HF. rewrite Z2Nat.id in HF by lia.
  assert (month_step_ok doy = true) as Hok by (apply HF, in_seq; lia).
  unfold month_step_ok in Hok. apply orb_true_iff in Hok as [E|E]; apply bool_decide_eq_true in E; auto.
Qed.

Lemma is_leap_400 y k : is_leap (y + k * 400) = is_leap y.
Proof.
  unfold is_leap. replace ((y + k * 400) mod 4) with (y mod 4) by lia.
  replace ((y + k * 400) mod 100) with (y mod 100) by lia.
  by replace ((y + k * 400) mod 400) with (y mod 400) by lia.
Qed.

Lemma days_in_month_other y m : m <> 2 -> days_in_month y m = days_in_month 1 m.
Proof. intros. unfold days_in_month. by rewrite !(decide_False (P := m = 2)). Qed.

Lemma days_in_feb y : days_in_month y 2 = 28 + leap_day y.
Proof. unfold days_in_month, leap_day. simpl. by case_match. Qed.

(** A date as the arithmetic builds it: March-based year, month and day of year. *)
Definition date_of (era yoe doy : Z) : Z * Z * Z :=
  let m := month_of (mp_of doy) in
  let y := yoe + era * 400 in
  (if decide (m <= 2) then y + 1 else y, m, day_of doy).

Lemma civil_date_of n :
  civil n = date_of ((n + 719468) / 146097) (yoe_of ((n + 719468) mod 146097)) (doy_of ((n + 719468) mod 146097)).
Proof. reflexivity. Qed.

Lemma month_of_range mp : 0 <= mp <= 11 -> 1 <= month_of mp <= 12 /\ (month_of mp = 2 <-> mp = 11).
Proof. unfold month_of. intros. case_decide; lia. Qed.

Lemma month_of_succ mp : 0 <= mp < 11 ->
  (month_of mp < 12 /\ month_of (mp + 1) = month_of mp + 1 /\ mp <> 9) \/
  (mp = 9 /\ month_of mp = 12 /\ month_of (mp + 1) = 1).
Proof. unfold month_of. intros. repeat case_decide; lia. Qed.

Lemma date_of_start era yoe : date_of era yoe 0 = (yoe + era * 400, 3, 1).
Proof. reflexivity. Qed.

Lemma leap_day_era yoe era : leap_day (yoe + era * 400 + 1) = leap_day (yoe + 1).
Proof. unfold leap_day. by replace (yoe + era * 400 + 1) with (yoe + 1 + era * 400) by lia; rewrite is_leap_400. Qed.

Lemma date_next_in_year era yoe doy :
  0 <= doy -> doy + 1 <= 364 + leap_day (yoe + 1) ->
  next_day (date_of era yoe doy) = date_of era yoe (doy + 1).
Proof.
  intros H0 H1. assert (0 <= leap_day (yoe + 1) <= 1) by (unfold leap_day; case_match; lia).
  assert (doy < 364 \/ doy = 364) as [Hlt|E] by lia.
  - destruct (mp_bounds doy) as [Hmp _]; [lia|].
    destruct (month_of_range (mp_of doy) Hmp) as [Hr H2]. unfold date_of.
    destruct (month_step doy) as [(E1 & E2 & E3)|(Hm & E1 & E2 & E3)]; [lia| |]; rewrite E1, E2; unfold next_day.
    + rewrite decide_True; [done|]. unfold mp_length in E3.
      destruct (decide (month_of (mp_of doy) = 2)) as [E|E].
      * rewrite E in E3 |- *. rewrite days_in_feb in *.
        change (leap_day 1) with 0 in E3. unfold leap_day. case_match; lia.
      * by rewrite days_in_month_other.
    + assert (month_of (mp_of doy) <> 2) by lia. rewrite decide_False.
      2:{ rewrite days_in_month_other by done. unfold mp_length in E3. lia. }
      destruct (month_of_succ (mp_of doy)) as [(F1 & F2 & F3)|(F1 & F2 & F3)]; [lia| |].
      * rewrite decide_True by lia. rewrite F2. do 2 f_equal.
        destruct (month_of_range (mp_of doy + 1)) as [? ?]; [lia|]. 
        repeat case_decide; lia.
      * rewrite F2, F3. simpl. done.
  - subst doy. assert (leap_day (yoe + 1) = 1) as Hl by lia.
    unfold date_of. change (mp_of 364) with 11. change (month_of 11) with 2. simpl.
    change (day_of 364) with 28. rewrite decide_True; [done|].
    rewrite days_in_feb, leap_day_era. lia.
Qed.

Lemma date_next_year era yoe doy :
  doy = 364 + leap_day (yoe + 1) -> next_day (date_of era yoe doy) = (yoe + era * 400 + 1, 3, 1).
Proof.
  intros E. assert (mp_of doy = 11 /\ day_of doy = 28 + leap_day (yoe + 1)) as [E1 E2].
  { unfold leap_day in *. destruct (is_leap (yoe + 1)); subst doy; split; reflexivity. }
  unfold date_of. rewrite E1, E2. change (month_of 11) with 2. unfold next_day.
  rewrite (decide_True (P := 2 <= 2)) by lia. rewrite decide_False; [done|].
  rewrite days_in_feb, leap_day_era. lia.
Qed.

Lemma civil_next n : 0 <= n -> civil (n + 1) = next_day (civil n).
Proof.
  intros Hn. rewrite !civil_date_of. replace (n + 1 + 719468) with (n + 719468 + 1) by lia.
  set (z := n + 719468). pose proof (Z.mod_pos_bound z 146097 ltac:(lia)) as Hd.
  pose proof (Z.div_mod z 146097 ltac:(lia)) as Hz.
  set (doe := z mod 146097) in *. set (era := z / 146097) in *.
  destruct (yoe_bounds doe Hd) as [Hb Hdoy].
  assert (doe + 1 < 146097 \/ doe = 146096) as [Hlt|E] by lia.
  - assert ((z + 1) / 146097 = era /\ (z + 1) mod 146097 = doe + 1) as [-> ->].
    { split; symmetry; [apply (Z.div_unique _ _ _ (doe + 1))|apply (Z.mod_unique _ _ era)]; lia. }
    destruct (doe_next doe) as [(-> & -> & Hl)|(-> & -> & Hl)]; [lia..| |].
    + symmetry. apply date_next_in_year; lia.
    + rewrite (date_next_year _ _ _ Hl), date_of_start. do 2 f_equal. lia.
  - assert ((z + 1) / 146097 = era + 1 /\ (z + 1) mod 146097 = 0) as [-> ->].
    { split; symmetry; [apply (Z.div_unique _ _ _ 0)|apply (Z.mod_unique _ _ (era + 1))]; lia. }
    rewrite E. change (yoe_of 146096) with 399. change (doy_of 146096) with 365.
    rewrite date_next_year by reflexivity. change (yoe_of 0) with 0. change (doy_of 0) with 0.
    rewrite date_of_start. do 2 f_equal. lia.
Qed.

Lemma civil_iter n : civil (Z.of_nat n) = civil_ref n.
Proof.
  induction n as [|n IH]; [reflexivity|]. unfold civil_ref in *. simpl. rewrite <- IH, <- civil_next by lia.
  f_equal. lia.
Qed.

(** The closed-form date conversion is the Gregorian calendar: the date it
    computes for day [n] is the one reached from 1 January 1970 by [n] single
    steps of the calendar with its leap-year rule. *)
Theorem civil_from_days_calendar n :
  day_ok (Z.of_nat n) -> civil_from_days (Z.of_nat n) = civil_ref n.
Proof. intros. by rewrite civil_from_days_eq, civil_iter. Qed.

Lemma civil_from_days_calendar_witness : civil_from_days 365 = civil_ref 365 /\ civil_ref 365 = (1971, 1, 1).
Proof. split; [apply (civil_from_days_calendar 365); split; vm_compute; congruence|vm_compute; reflexivity]. Defined.

(** ** Back from dates to days, and the start of the month *)

Definition month_start_doy (mp : Z) : Z := (153 * mp + 2) / 5.

Lemma day_of_month_start doy : doy = month_start_doy (mp_of doy) + day_of doy - 1.
Proof. unfold day_of, month_start_doy. lia. Qed.

Lemma month_start_doy_ok mp : 0 <= mp <= 11 ->
  mp_of (month_start_doy mp) = mp /\ day_of (month_start_doy mp) = 1 /\ 0 <= month_start_doy mp.
Proof. unfold day_of, mp_of, month_start_doy. intros. lia. Qed.

(** Splitting a day number into era, year of era and day of year. *)
Lemma day_split n : 0 <= n ->
  exists era yoe doy, n = era * 146097 + year_start yoe + doy - 719468 /\ civil n = date_of era yoe doy /\
    0 <= era /\ 0 <= yoe < 400 /\ 0 <= doy <= 364 + leap_day (yoe + 1) /\ doy <= 365.
Proof.
  intros Hn. set (z := n + 719468). pose proof (Z.mod_pos_bound z 146097 ltac:(lia)) as Hd.
  pose proof (Z.div_mod z 146097 ltac:(lia)) as Hz. destruct (yoe_bounds _ Hd) as [Hb Hdoy].
  pose proof (yoe_char _ Hd). pose proof (doy_of_eq (z mod 146097)).
  exists (z / 146097), (yoe_of (z mod 146097)), (doy_of (z mod 146097)).
  rewrite civil_date_of. fold z. split_and!; try done; try lia.
Qed.

(** Conversely, such a triple is the split of its day. *)
Lemma civil_of_split era yoe doy :
  0 <= yoe < 400 -> 0 <= doy <= 364 + leap_day (yoe + 1) ->
  civil (era * 146097 + year_start yoe + doy - 719468) = date_of era yoe doy.
Proof.
  intros Hy Hd. rewrite civil_date_of.
  replace (era * 146097 + year_start yoe + doy - 719468 + 719468) with (era * 146097 + (year_start yoe + doy)) by lia.
  assert (0 <= year_start yoe + doy < 146097) as Hb.
  { assert (yoe = 399 \/ yoe < 399) as [->|Hlt] by lia.
    - change (year_start 399) with 145731. change (leap_day (399 + 1)) with 1 in Hd. lia.
    - pose proof (year_start_next yoe ltac:(lia)) as Hn. unfold year_start in *. lia. }
  assert ((era * 146097 + (year_start yoe + doy)) / 146097 = era /\
    (era * 146097 + (year_start yoe + doy)) mod 146097 = year_start yoe + doy) as [-> ->].
  { split; symmetry; [apply (Z.div_unique _ _ _ (year_start yoe + doy))|apply (Z.mod_unique _ _ era)]; lia. }
  rewrite doy_of_eq, (yoe_unique _ yoe) by lia. f_equal. lia.
Qed.

Lemma days_from_civil_date_of era yoe doy k :
  0 <= era <= 2854272 -> 0 <= yoe < 400 -> 0 <= doy <= 365 -> 1 <= k <= 31 ->
  (let '(y, m, _) := date_of era yoe doy in days_from_civil y m k) =
  Some (era * 146097 + year_start yoe + month_start_doy (mp_of doy) + k - 1 - 719468).
Proof.
  intros He Hy Hd Hk. destruct (mp_bounds doy Hd) as [Hmp _].
  destruct (month_of_range _ Hmp) as [Hm _]. unfold date_of, days_from_civil.
  rewrite (bool_decide_eq_true_2 (1 <= month_of (mp_of doy) <= 12)), (bool_decide_eq_true_2 (1 <= k <= 31)) by lia.
  simpl negb. cbn [orb]. set (y' := if decide (month_of (mp_of doy) <= 2) then _ else _).
  assert (y' = yoe + era * 400) as ->.
  { unfold y'. destruct (decide (month_of (mp_of doy) <= 2)); [|done]. rewrite as_i32_id; lia. }
  rewrite (decide_True (P := 0 <= yoe + era * 400)) by lia.
  rewrite Z.quot_div_nonneg by lia. replace ((yoe + era * 400) / 400) with era by lia.
  replace (yoe + era * 400 - era * 400) with yoe by lia. rewrite as_u64_id by mach.
  assert ((if decide (2 < month_of (mp_of doy)) then month_of (mp_of doy) - 3 else month_of (mp_of doy) + 9) = mp_of doy) as ->.
  { unfold month_of. repeat case_decide; lia. }
  rewrite Z.quot_div_nonneg by lia. fold (month_start_doy (mp_of doy)).
  destruct (month_start_doy_ok _ Hmp) as (_ & _ & Hs0).
  rewrite as_u64_id by (unfold month_start_doy in *; unfold is_u64, u64_max; lia).
  f_equal. unfold year_start. lia.
Qed.

(** The two conversions are inverse: the date of a day number converts back
    to that day number. *)
Theorem days_from_civil_roundtrip n :
  day_ok n -> (let '(y, m, d) := civil_from_days n in days_from_civil y m d) = Some n.
Proof.
  intros Hn. rewrite civil_from_days_eq by done. unfold day_ok in Hn.
  destruct (day_split n) as (era & yoe & doy & E & -> & H1 & H2 & H3 & H4); [lia|].
  destruct (mp_bounds doy ltac:(lia)) as [_ Hday]. fold (day_of doy) in Hday.
  assert (era <= 2854272) by (unfold year_start in E; lia).
  pose proof (days_from_civil_date_of era yoe doy (day_of doy) ltac:(lia) H2 ltac:(lia) Hday) as HF.
  unfold date_of in *. rewrite HF. f_equal. pose proof (day_of_month_start doy). lia.
Qed.

Lemma days_from_civil_roundtrip_witness :
  (let '(y, m, d) := civil_from_days 19782 in days_from_civil y m d) = Some 19782.
Proof. apply (days_from_civil_roundtrip 19782). split; vm_compute; congruence. Defined.

Lemma first_month n : 0 <= n < 30 -> civil n = (1970, 1, n + 1).
Proof.
  intros H. assert (forallb (fun k => bool_decide (civil (Z.of_nat k) = (1970, 1, Z.of_nat k + 1))) (seq 0 30) = true)
    as HF by (vm_compute; reflexivity).
  pose proof (proj1 (forallb_forall _ _) HF (Z.to_nat n)) as Hk. cbn beta in Hk. rewrite Z2Nat.id in Hk by lia.
  eapply bool_decide_eq_true_1, Hk, in_seq. lia.
Qed.

Lemma calendar_month_start_ok ts y m d :
  day_ok (ts / 86400) -> civil_from_days (ts / 86400) = (y, m, d) ->
  exists s, calendar_month_start_utc ts = Some s /\ 0 <= s <= ts /\ s mod 86400 = 0 /\
    civil_from_days (s / 86400) = (y, m, 1).
Proof.
  intros Hok Hcd. unfold calendar_month_start_utc. set (n := ts / 86400) in *.
  rewrite as_i64_id by (unfold day_ok in Hok; mach). rewrite Hcd.
  rewrite civil_from_days_eq in Hcd by done. assert (0 <= n <= 416999999999) as Hn by exact Hok.
  destruct (day_split n) as (era & yoe & doy & E & Ec & H1 & H2 & H3 & H4); [lia|].
  assert (era <= 2854272) by (unfold year_start in E; lia).
  destruct (mp_bounds doy ltac:(lia)) as [Hmp Hday]. fold (day_of doy) in Hday.
  pose proof (days_from_civil_date_of era yoe doy 1 ltac:(lia) H2 ltac:(lia) ltac:(lia)) as HF.
  rewrite <- Ec, Hcd in HF. rewrite HF. simpl.
  pose proof (day_of_month_start doy). destruct (month_start_doy_ok _ Hmp) as (M1 & M2 & M3).
  set (n0 := era * 146097 + year_start yoe + month_start_doy (mp_of doy) + 1 - 1 - 719468).
  assert (n0 = n - (day_of doy - 1)) as En0 by (unfold n0; lia).
  assert (d = day_of doy) as Ed by (rewrite Ec in Hcd; unfold date_of in Hcd; congruence).
  assert (0 <= n0) as Hpos.
  { destruct (decide (n < 30)); [|lia]. rewrite first_month in Hcd by lia. injection Hcd as <- <- <-. lia. }
  rewrite as_u64_id by mach. replace (sat_mul n0 86400) with (n0 * 86400) by mach.
  exists (n0 * 86400). split; [done|]. assert (n * 86400 <= ts) by lia.
  rewrite Z_div_mult, Z_mod_mult by lia. split_and!; [lia|lia|done|].
  rewrite civil_from_days_eq by (unfold day_ok; lia).
  unfold n0. replace (era * 146097 + year_start yoe + month_start_doy (mp_of doy) + 1 - 1 - 719468)
    with (era * 146097 + year_start yoe + month_start_doy (mp_of doy) - 719468) by lia.
  rewrite civil_of_split by lia. rewrite Ec in Hcd. unfold date_of in *. rewrite M1, M2. congruence.
Qed.

(** The start of the monthly bucket is the first day, at midnight, of the
    very month that contains the timestamp, and never after it. *)
Theorem calendar_month_start_utc_spec ts y m d :
  day_ok (ts / 86400) -> civil_from_days (ts / 86400) = (y, m, d) ->
  exists s, calendar_month_start_utc ts = Some s /\ 0 <= s <= ts /\ s mod 86400 = 0 /\
    civil_from_days (s / 86400) = (y, m, 1).
Proof. apply calendar_month_start_ok. Qed.

Lemma calendar_month_start_utc_spec_witness :
  exists s, calendar_month_start_utc 1709164800 = Some s /\ 0 <= s <= 1709164800 /\ s mod 86400 = 0 /\
    civil_from_days (s / 86400) = (2024, 2, 1).
Proof.
  apply (calendar_month_start_utc_spec 1709164800 2024 2 29).
  - split; vm_compute; congruence.
  - vm_compute. reflexivity.
Defined.
