(* ===== verification/Bars.v ===== *)
(** * Bars: [bars.rs], OHLC candles per spot market and interval

    The state maps a normalised market to its forming bars (one per interval)
    and to its broadcast channel, modelled by the log of the messages sent;
    closed bars are appended to the persistence queue, when there is one. *)
From S2P Require Import Prelude Text Sdk Keys Amounts Domain Calendar Errors.

Local Open Scope list_scope.

Definition INTERVAL_1M : string := "1m".
Definition BAR_SECONDS_1M : Z := 60.

Definition BAR_INTERVALS : list string :=
  ["1m"; "3m"; "5m"; "15m"; "30m"; "1h"; "2h"; "4h"; "8h"; "12h"; "1d"; "3d"; "1w"; "1M"]%string.

Record Bar := {
  bar_spot_market : string;
  bar_interval : string;
  bar_start_ts : Z;
  bar_open_raw : Z;
  bar_high_raw : Z;
  bar_low_raw : Z;
  bar_close_raw : Z;
  bar_volume_raw : Z;
  bar_trade_count : Z;
  bar_closed : bool
}.

#[global] Instance Bar_eq_dec : EqDecision Bar.
Proof. solve_decision. Defined.

Record BarWsMessage := {
  bw_msg_type : string;
  bw_spot_market : string;
  bw_interval : string;
  bw_start_ts : Z;
  bw_open : string;
  bw_high : string;
  bw_low : string;
  bw_close : string;
  bw_volume : string;
  bw_trade_count : Z;
  bw_closed : bool
}.

Record BarsSnapshot := {
  bs_msg_type : string;
  bs_spot_market : string;
  bs_interval : string;
  bs_bars : list BarWsMessage;
  bs_forming : option BarWsMessage
}.

Definition to_closed_row (b : Bar) : ClosedBarRow :=
  {| cb_spot_market := bar_spot_market b; cb_interval := bar_interval b; cb_start_ts := bar_start_ts b;
     cb_open_raw := bar_open_raw b; cb_high_raw := bar_high_raw b; cb_low_raw := bar_low_raw b;
     cb_close_raw := bar_close_raw b; cb_volume_raw := bar_volume_raw b; cb_trade_count := bar_trade_count b |}.

Definition interval_secs (interval : string) : option Z :=
  if decide (interval = "1m"%string) then Some 60
  else if decide (interval = "3m"%string) then Some 180
  else if decide (interval = "5m"%string) then Some 300
  else if decide (interval = "15m"%string) then Some 900
  else if decide (interval = "30m"%string) then Some 1800
  else if decide (interval = "1h"%string) then Some 3600
  else if decide (interval = "2h"%string) then Some 7200
  else if decide (interval = "4h"%string) then Some 14400
  else if decide (interval = "8h"%string) then Some 28800
  else if decide (interval = "12h"%string) then Some 43200
  else if decide (interval = "1d"%string) then Some 86400
  else if decide (interval = "3d"%string) then Some 259200
  else if decide (interval = "1w"%string) then Some 604800
  else None.

Definition bucket_start (ts : Z) (interval : string) : option Z :=
  if decide (interval = "1M"%string) then calendar_month_start_utc ts
  else secs ← interval_secs interval; Some (ts / secs * secs).

Definition is_supported_interval (interval : string) : bool := bool_decide (interval ∈ BAR_INTERVALS).

Definition minute_start (ts : Z) : Z := ts / BAR_SECONDS_1M * BAR_SECONDS_1M.

Section Bars.
Context {S : Sdk}.

Definition to_ws_message (b : Bar) (msg_type : string) : BarWsMessage :=
  {| bw_msg_type := msg_type; bw_spot_market := bar_spot_market b; bw_interval := bar_interval b;
     bw_start_ts := bar_start_ts b; bw_open := format_price_pieces (bar_open_raw b);
     bw_high := format_price_pieces (bar_high_raw b); bw_low := format_price_pieces (bar_low_raw b);
     bw_close := format_price_pieces (bar_close_raw b); bw_volume := format_token_amount (bar_volume_raw b);
     bw_trade_count := bar_trade_count b; bw_closed := bar_closed b |}.

(** [SpotBars]: forming candle per interval, and the channel once created. *)
Record SpotBars := { sb_forming : gmap string Bar; sb_publisher : option (list BarWsMessage) }.
Definition SpotBars_empty : SpotBars := {| sb_forming := ∅; sb_publisher := None |}.

(** [Bars]: the markets, and the rows handed to the persistence queue ([None]
    when the indexer runs without a database). *)
Record Bars := { by_spot : gmap string SpotBars; bars_persist : option (list ClosedBarRow) }.

Definition Bars_new (persist : bool) : Bars :=
  {| by_spot := ∅; bars_persist := if persist then Some [] else None |}.
Definition Bars_clear (b : Bars) : Bars := {| by_spot := ∅; bars_persist := bars_persist b |}.

Definition spot_entry (m : gmap string SpotBars) (key : string) : SpotBars := default SpotBars_empty (m !! key).

(** [publisher(...)] followed by [send] of each message. *)
Definition send_all (b : Bars) (spot_market : string) (msgs : list BarWsMessage) : Bars :=
  let key := normalize_spot_market_key spot_market in
  let entry := spot_entry (by_spot b) key in
  {| by_spot := <[key := {| sb_forming := sb_forming entry;
                            sb_publisher := Some (default [] (sb_publisher entry) ++ msgs) |}]> (by_spot b);
     bars_persist := bars_persist b |}.

(** [subscribe]: creates the channel when there is none. *)
Definition bars_subscribe (b : Bars) (spot_market : string) : Bars := send_all b spot_market [].

Definition forming_interval (b : Bars) (spot_market interval : string) : option Bar :=
  s ← by_spot b !! normalize_spot_market_key spot_market; sb_forming s !! interval.

Definition forming (b : Bars) (spot_market : string) : option Bar := forming_interval b spot_market INTERVAL_1M.

Definition persist_closed (b : Bars) (bar : Bar) : Bars :=
  {| by_spot := by_spot b; bars_persist := (fun q => q ++ [to_closed_row bar]) <$> bars_persist b |}.

(** ** [on_trade] *)

Definition close_bar (b : Bar) : Bar :=
  {| bar_spot_market := bar_spot_market b; bar_interval := bar_interval b; bar_start_ts := bar_start_ts b;
     bar_open_raw := bar_open_raw b; bar_high_raw := bar_high_raw b; bar_low_raw := bar_low_raw b;
     bar_close_raw := bar_close_raw b; bar_volume_raw := bar_volume_raw b;
     bar_trade_count := bar_trade_count b; bar_closed := true |}.

Definition update_bar (b : Bar) (price_raw volume_raw : Z) : Bar :=
  {| bar_spot_market := bar_spot_market b; bar_interval := bar_interval b; bar_start_ts := bar_start_ts b;
     bar_open_raw := bar_open_raw b; bar_high_raw := Z.max (bar_high_raw b) price_raw;
     bar_low_raw := Z.min (bar_low_raw b) price_raw; bar_close_raw := price_raw;
     bar_volume_raw := sat_add (bar_volume_raw b) volume_raw;
     bar_trade_count := sat_add (bar_trade_count b) 1; bar_closed := bar_closed b |}.

Definition open_bar (key interval : string) (start_ts price_raw volume_raw : Z) : Bar :=
  {| bar_spot_market := key; bar_interval := interval; bar_start_ts := start_ts;
     bar_open_raw := price_raw; bar_high_raw := price_raw; bar_low_raw := price_raw;
     bar_close_raw := price_raw; bar_volume_raw := volume_raw; bar_trade_count := 1; bar_closed := false |}.

(** Locals of the loop over [BAR_INTERVALS]. *)
Record TradeLoop := { tl_forming : gmap string Bar; tl_closed : list Bar; tl_msgs : list BarWsMessage }.

(** One turn of the loop. *)
Definition on_trade_interval (key : string) (price_raw volume_raw ts : Z) (st : TradeLoop) (interval : string) : TradeLoop :=
  match bucket_start ts interval with
  | None => st
  | Some start_ts =>
      let st1 :=
        match tl_forming st !! interval with
        | Some forming =>
            if decide (bar_start_ts forming <> start_ts) then
              let closed := close_bar forming in
              {| tl_forming := delete interval (tl_forming st);
                 tl_closed := tl_closed st ++ [closed];
                 tl_msgs := tl_msgs st ++
                   (if decide (interval = INTERVAL_1M) then [to_ws_message closed "bar_closed"] else []) |}
            else st
        | None => st
        end in
      let bar :=
        match tl_forming st1 !! interval with
        | Some bar => update_bar bar price_raw volume_raw
        | None => open_bar key interval start_ts price_raw volume_raw
        end in
      {| tl_forming := <[interval := bar]> (tl_forming st1);
         tl_closed := tl_closed st1;
         tl_msgs := tl_msgs st1 ++ (if decide (interval = INTERVAL_1M) then [to_ws_message bar "bar"] else []) |}
  end.

Definition on_trade (b : Bars) (spot_market : string) (price_raw volume_raw ts : Z) : Bars :=
  if decide (volume_raw = 0) then b
  else
    let key := normalize_spot_market_key spot_market in
    let entry := spot_entry (by_spot b) key in
    let st := foldl (on_trade_interval key price_raw volume_raw ts)
                {| tl_forming := sb_forming entry; tl_closed := []; tl_msgs := [] |} BAR_INTERVALS in
    let b1 := {| by_spot := <[key := {| sb_forming := tl_forming st; sb_publisher := sb_publisher entry |}]> (by_spot b);
                 bars_persist := bars_persist b |} in
    let b2 := foldl persist_closed b1 (tl_closed st) in
    match tl_msgs st with [] => b2 | msgs => send_all b2 key msgs end.

(** ** [close_expired] *)

Definition bar_expired (now_ts : Z) (interval : string) (bar : Bar) : Prop :=
  match bucket_start now_ts interval with Some cur => bar_start_ts bar < cur | None => False end.
#[global] Instance bar_expired_dec now_ts interval bar : Decision (bar_expired now_ts interval bar).
Proof. unfold bar_expired. destruct (bucket_start _ _); apply _. Defined.

(** The bars one market's map loses; the iteration order of the maps is left
    open by the code, here it is [map_to_list]'s. *)
Definition expired_bars (now_ts : Z) (entry : SpotBars) : list Bar :=
  (fun p => close_bar p.2) <$> filter (fun p => bar_expired now_ts p.1 p.2) (map_to_list (sb_forming entry)).

Definition drop_expired (now_ts : Z) (entry : SpotBars) : SpotBars :=
  {| sb_forming := filter (fun p => ~ bar_expired now_ts p.1 p.2) (sb_forming entry);
     sb_publisher := sb_publisher entry |}.

Definition publish_closed (b : Bars) (closed : Bar) : Bars :=
  let b1 := persist_closed b closed in
  if decide (bar_interval closed = INTERVAL_1M)
  then send_all b1 (bar_spot_market closed) [to_ws_message closed "bar_closed"]
  else b1.

Definition close_expired (b : Bars) (now_ts : Z) : Bars :=
  let closed_bars := map_to_list (by_spot b) ≫= (fun p => expired_bars now_ts p.2) in
  foldl publish_closed {| by_spot := drop_expired now_ts <$> by_spot b; bars_persist := bars_persist b |} closed_bars.

(** ** [load_history] and [snapshot_ws]; the database query is an argument *)

Definition row_to_bar (row : ClosedBarRow) : Bar :=
  {| bar_spot_market := cb_spot_market row; bar_interval := cb_interval row; bar_start_ts := cb_start_ts row;
     bar_open_raw := cb_open_raw row; bar_high_raw := cb_high_raw row; bar_low_raw := cb_low_raw row;
     bar_close_raw := cb_close_raw row; bar_volume_raw := cb_volume_raw row;
     bar_trade_count := cb_trade_count row; bar_closed := true |}.

Definition load_history
    (load_closed_bars : string -> string -> option Z -> option Z -> nat -> AppResult (list ClosedBarRow))
    (b : Bars) (spot_market interval : string) (from_ts to_ts : option Z) (limit : nat) : list Bar :=
  let key := normalize_spot_market_key spot_market in
  let interval := if decide (interval = ""%string) then INTERVAL_1M else interval in
  if negb (is_supported_interval interval) then []
  else match bars_persist b with
       | None => []
       | Some _ =>
           let limit := Nat.min (Nat.max limit 1) BAR_HISTORY_LIMIT in
           match load_closed_bars key interval from_ts to_ts limit with
           | Ok rows => row_to_bar <$> rows
           | Err _ => []
           end
       end.

Definition snapshot_ws load_closed_bars (b : Bars) (spot_market : string) (history_limit : nat) : BarsSnapshot :=
  let key := normalize_spot_market_key spot_market in
  {| bs_msg_type := "bars_snapshot"; bs_spot_market := key; bs_interval := INTERVAL_1M;
     bs_bars := (fun bar => to_ws_message bar "bar_closed") <$> load_history load_closed_bars b key INTERVAL_1M None None history_limit;
     bs_forming := (fun bar => to_ws_message bar "bar") <$> forming b key |}.

End Bars.

(** ** Reference: candles as aggregates of runs of trades *)

Record Trade := { tr_price : Z; tr_volume : Z; tr_ts : Z }.

(** The candle of a bucket that saw exactly these trades, in order. *)
Definition aggregate (key interval : string) (start_ts : Z) (run : list Trade) : Bar :=
  {| bar_spot_market := key; bar_interval := interval; bar_start_ts := start_ts;
     bar_open_raw := default 0 (tr_price <$> head run);
     bar_high_raw := match run with [] => 0 | t :: ts => foldl (fun a t => Z.max a (tr_price t)) (tr_price t) ts end;
     bar_low_raw := match run with [] => 0 | t :: ts => foldl (fun a t => Z.min a (tr_price t)) (tr_price t) ts end;
     bar_close_raw := default 0 (tr_price <$> last run);
     bar_volume_raw := sat_sum tr_volume run;
     bar_trade_count := sat_sum (fun _ => 1) run;
     bar_closed := false |}.

(** Maximal runs of consecutive trades in one bucket, oldest first. *)
Fixpoint runs (bucket : Trade -> Z) (trades : list Trade) : list (Z * list Trade) :=
  match trades with
  | [] => []
  | t :: ts =>
      match runs bucket ts with
      | (b, r) :: rs => if decide (b = bucket t) then (b, t :: r) :: rs else (bucket t, [t]) :: (b, r) :: rs
      | [] => [(bucket t, [t])]
      end
  end.

(** ** Lemmas on runs *)

Fixpoint add_run (bucket : Trade -> Z) (rs : list (Z * list Trade)) (t : Trade) : list (Z * list Trade) :=
  match rs with
  | [] => [(bucket t, [t])]
  | [(b, r)] => if decide (b = bucket t) then [(b, r ++ [t])] else [(b, r); (bucket t, [t])]
  | x :: rs' => x :: add_run bucket rs' t
  end.

Lemma runs_snoc bucket ts t : runs bucket (ts ++ [t]) = add_run bucket (runs bucket ts) t.
Proof.
  induction ts as [|t' ts IH]; [done|]. simpl. rewrite IH.
  destruct (runs bucket ts) as [|[b r] rs]; simpl.
  - repeat case_decide; congruence.
  - destruct rs as [|x rs']; simpl; repeat (case_decide; simpl); congruence.
Qed.

(** The runs are a partition of the trades into non-empty, single-bucket pieces,
    and neighbouring pieces have different buckets. *)
Lemma runs_spec bucket ts :
  mjoin (snd <$> runs bucket ts) = ts /\
  Forall (fun p => p.2 <> [] /\ Forall (fun t => bucket t = p.1) p.2) (runs bucket ts) /\
  (forall i p q, runs bucket ts !! i = Some p -> runs bucket ts !! S i = Some q -> p.1 <> q.1).
Proof.
  induction ts as [|t ts (IH1 & IH2 & IH3)]; [done|]. simpl.
  destruct (runs bucket ts) as [|[b r] rs]; simpl in *.
  - subst ts. split_and!; [done| |]; [repeat constructor; done|]. by intros [|i].
  - apply Forall_cons in IH2 as [[Hne Hr] IH2]. simpl in *. case_decide as E; simpl.
    + split_and!; [congruence| |].
      * constructor; [|done]. simpl. split; [done|]. by constructor.
      * intros [|i] p q Hp Hq; simpl in *; [|by apply (IH3 (S i) p q)].
        simplify_eq. simpl. by apply (IH3 O (bucket t, r) q).
    + split_and!; [congruence| |].
      * constructor; [|by constructor]. simpl. split; [done|]. by repeat constructor.
      * intros [|i] p q Hp Hq; simpl in *; [|by apply (IH3 i p q)]. simplify_eq. simpl. congruence.
Qed.

Lemma aggregate_snoc key i st run t :
  run <> [] -> aggregate key i st (run ++ [t]) = update_bar (aggregate key i st run) (tr_price t) (tr_volume t).
Proof.
  intros Hne. destruct run as [|t0 run]; [done|]. unfold aggregate, update_bar, sat_sum. simpl.
  rewrite !foldl_app. simpl.
  change (t0 :: run ++ [t]) with ((t0 :: run) ++ [t]). rewrite last_snoc. done.
Qed.

Lemma foldl_max_spec l a :
  a <= foldl (fun a t => Z.max a (tr_price t)) a l /\
  Forall (fun t => tr_price t <= foldl (fun a t => Z.max a (tr_price t)) a l) l /\
  (foldl (fun a t => Z.max a (tr_price t)) a l = a \/ exists t, t ∈ l /\ foldl (fun a t => Z.max a (tr_price t)) a l = tr_price t).
Proof.
  revert a. induction l as [|t l IH]; intros a; simpl; [split_and!; [lia|constructor|by left]|].
  destruct (IH (Z.max a (tr_price t))) as (H1 & H2 & H3). split_and!; [lia| |].
  - constructor; [lia|done].
  - destruct H3 as [->|(t' & ? & ->)]; [|right; exists t'; set_solver].
    destruct (Z.max_spec a (tr_price t)) as [[_ ->]|[_ ->]]; [|by left]. right. exists t. set_solver.
Qed.

Lemma foldl_min_spec l a :
  foldl (fun a t => Z.min a (tr_price t)) a l <= a /\
  Forall (fun t => foldl (fun a t => Z.min a (tr_price t)) a l <= tr_price t) l /\
  (foldl (fun a t => Z.min a (tr_price t)) a l = a \/ exists t, t ∈ l /\ foldl (fun a t => Z.min a (tr_price t)) a l = tr_price t).
Proof.
  revert a. induction l as [|t l IH]; intros a; simpl; [split_and!; [lia|constructor|by left]|].
  destruct (IH (Z.min a (tr_price t))) as (H1 & H2 & H3). split_and!; [lia| |].
  - constructor; [lia|done].
  - destruct H3 as [->|(t' & ? & ->)]; [|right; exists t'; set_solver].
    destruct (Z.min_spec a (tr_price t)) as [[_ ->]|[_ ->]]; [by left|]. right. exists t. set_solver.
Qed.

(** An aggregate is a candle: low and high are prices that traded, and bound
    every price that traded, the open and the close included. *)
Lemma aggregate_ohlc key i st run :
  run <> [] ->
  let b := aggregate key i st run in
  Forall (fun t => bar_low_raw b <= tr_price t <= bar_high_raw b) run /\
  bar_low_raw b <= bar_open_raw b <= bar_high_raw b /\ bar_low_raw b <= bar_close_raw b <= bar_high_raw b /\
  (exists t, t ∈ run /\ bar_high_raw b = tr_price t) /\ (exists t, t ∈ run /\ bar_low_raw b = tr_price t).
Proof.
  intros Hne b. destruct run as [|t0 run]; [done|].
  destruct (foldl_max_spec run (tr_price t0)) as (M1 & M2 & M3).
  destruct (foldl_min_spec run (tr_price t0)) as (N1 & N2 & N3).
  assert (Forall (fun t => bar_low_raw b <= tr_price t <= bar_high_raw b) (t0 :: run)) as HF.
  { constructor; [simpl; lia|]. rewrite Forall_forall in M2, N2 |- *. intros t Ht. simpl. split; auto. }
  split; [done|]. split; [simpl; lia|]. split; [|split].
  - destruct (last (t0 :: run)) as [t|] eqn:Ht; [|by apply last_None in Ht].
    assert (bar_close_raw b = tr_price t) as Ec by (unfold b; cbn [aggregate bar_close_raw]; by rewrite Ht).
    apply last_Some_elem_of in Ht. rewrite Forall_forall in HF. apply HF in Ht. lia.
  - destruct M3 as [E|(t & Ht & E)]; [exists t0|exists t]; (split; [set_solver|exact E]).
  - destruct N3 as [E|(t & Ht & E)]; [exists t0|exists t]; (split; [set_solver|exact E]).
Qed.

(** ** Simulation: the engine computes the aggregates of the runs *)

Section Simulation.
Context {SD : Sdk}.
#[local] Opaque BAR_INTERVALS bucket_start.

(** The forming bar and the persisted rows of one market and interval. *)
Definition forming_at (b : Bars) (key i : string) : option Bar :=
  s ← by_spot b !! key; sb_forming s !! i.

Definition row_of (key i : string) (r : ClosedBarRow) : Prop := cb_spot_market r = key /\ cb_interval r = i.
#[global] Instance row_of_dec key i r : Decision (row_of key i r).
Proof. unfold row_of. apply _. Defined.

Definition rows_at (b : Bars) (key i : string) : list ClosedBarRow :=
  filter (row_of key i) (default [] (bars_persist b)).

Definition bars_wf (b : Bars) : Prop := forall key i x,
  forming_at b key i = Some x -> bar_spot_market x = key /\ bar_interval x = i.

Lemma forming_at_entry b key i : forming_at b key i = sb_forming (spot_entry (by_spot b) key) !! i.
Proof. unfold forming_at, spot_entry. by destruct (by_spot b !! key). Qed.

Lemma send_all_forming b s msgs key i : forming_at (send_all b s msgs) key i = forming_at b key i.
Proof.
  rewrite !forming_at_entry. unfold send_all, spot_entry at 1. simpl.
  destruct (decide (normalize_spot_market_key s = key)) as [<-|H].
  - by rewrite lookup_insert_eq.
  - by rewrite lookup_insert_ne.
Qed.

Lemma persist_closed_fold b l :
  by_spot (foldl persist_closed b l) = by_spot b /\
  bars_persist (foldl persist_closed b l) = (fun q => q ++ (to_closed_row <$> l)) <$> bars_persist b.
Proof.
  revert b. induction l as [|x l IH]; intros b; simpl.
  - split; [done|]. destruct (bars_persist b); simpl; [by rewrite app_nil_r|done].
  - destruct (IH (persist_closed b x)) as [-> ->]. split; [done|].
    simpl. destruct (bars_persist b); simpl; [|done]. by rewrite <- app_assoc.
Qed.

(** What a trade does to one interval. *)
Definition istep (key i : string) (p v ts : Z) (o : option Bar) : option Bar * list Bar :=
  match bucket_start ts i with
  | None => (o, [])
  | Some st =>
      match o with
      | Some x => if decide (bar_start_ts x = st) then (Some (update_bar x p v), [])
                  else (Some (open_bar key i st p v), [close_bar x])
      | None => (Some (open_bar key i st p v), [])
      end
  end.

Lemma on_trade_interval_eq key p v ts st i :
  (forall j, tl_forming (on_trade_interval key p v ts st i) !! j =
    if decide (j = i) then (istep key i p v ts (tl_forming st !! i)).1 else tl_forming st !! j) /\
  tl_closed (on_trade_interval key p v ts st i) = tl_closed st ++ (istep key i p v ts (tl_forming st !! i)).2.
Proof.
  unfold on_trade_interval, istep. destruct (bucket_start ts i) as [s|].
  2:{ simpl. split; [|by rewrite app_nil_r]. intros j. by case_decide; subst. }
  destruct (tl_forming st !! i) as [x|] eqn:E.
  - destruct (decide (bar_start_ts x = s)) as [Es|Es].
    + rewrite decide_False by (by intros []). rewrite E. simpl. split; [|by rewrite app_nil_r].
      intros j. case_decide; subst; [by rewrite lookup_insert_eq|by rewrite lookup_insert_ne].
    + rewrite decide_True by done. simpl. rewrite lookup_delete_eq. split; [|done].
      intros j. case_decide; subst; [by rewrite lookup_insert_eq|].
      by rewrite lookup_insert_ne, lookup_delete_ne.
  - rewrite E. simpl. split; [|by rewrite app_nil_r].
    intros j. case_decide; subst; [by rewrite lookup_insert_eq|by rewrite lookup_insert_ne].
Qed.

Lemma istep_wf key i p v ts o :
  (forall x, o = Some x -> bar_spot_market x = key /\ bar_interval x = i) ->
  (forall x, (istep key i p v ts o).1 = Some x -> bar_spot_market x = key /\ bar_interval x = i) /\
  Forall (fun x => bar_spot_market x = key /\ bar_interval x = i) (istep key i p v ts o).2.
Proof.
  intros Ho. unfold istep. destruct (bucket_start ts i) as [s|]; [|split; [done|constructor]].
  destruct o as [x|]; [destruct (Ho x eq_refl); case_decide|]; simpl; split; intros; simplify_eq/=; auto.
Qed.

Lemma filter_all_or_nothing key j i (l : list Bar) :
  Forall (fun x => bar_spot_market x = key /\ bar_interval x = i) l ->
  filter (row_of key j) (to_closed_row <$> l) = if decide (j = i) then to_closed_row <$> l else [].
Proof.
  induction 1 as [|x l [H1 H2] Hl IH]; [by case_decide|]. rewrite fmap_cons.
  destruct (decide (j = i)) as [->|Hne].
  - rewrite filter_cons_True by done. by rewrite IH.
  - rewrite filter_cons_False; [done|]. intros [_ ?]. simpl in *. congruence.
Qed.

Lemma trade_loop_eq key p v ts l st :
  NoDup l ->
  (forall j x, tl_forming st !! j = Some x -> bar_spot_market x = key /\ bar_interval x = j) ->
  let st' := foldl (on_trade_interval key p v ts) st l in
  (forall j, tl_forming st' !! j =
    if decide (j ∈ l) then (istep key j p v ts (tl_forming st !! j)).1 else tl_forming st !! j) /\
  (exists closed, tl_closed st' = tl_closed st ++ closed /\
    Forall (fun x => bar_spot_market x = key) closed /\
    forall j, filter (row_of key j) (to_closed_row <$> closed) =
      if decide (j ∈ l) then to_closed_row <$> (istep key j p v ts (tl_forming st !! j)).2 else []).
Proof.
  intros Hnd. revert st. induction Hnd as [|i l Hi Hnd IH]; intros st Hwf; cbn [foldl].
  - split; [intros j; by rewrite decide_False by set_solver|].
    exists []. split_and!; [by rewrite app_nil_r|constructor|]. intros j. by rewrite decide_False by set_solver.
  - destruct (on_trade_interval_eq key p v ts st i) as [E1 E2].
    destruct (istep_wf key i p v ts (tl_forming st !! i) (Hwf i)) as [W1 W2].
    destruct (IH (on_trade_interval key p v ts st i)) as [F1 (closed & F2 & F3 & F4)].
    { intros j x. rewrite E1. case_decide as Ej; [subst j; apply W1|apply Hwf]. }
    split.
    + intros j. rewrite F1, E1.
      destruct (decide (j = i)) as [->|Hj].
      * rewrite (decide_False (P := i ∈ l)) by done. by rewrite decide_True by set_solver.
      * destruct (decide (j ∈ l)); [by rewrite decide_True by set_solver|by rewrite decide_False by set_solver].
    + exists ((istep key i p v ts (tl_forming st !! i)).2 ++ closed). split_and!.
      * by rewrite F2, E2, app_assoc.
      * apply Forall_app. split; [|done]. eapply Forall_impl; [exact W2|]. by intros x [? _].
      * intros j. rewrite fmap_app, filter_app, F4, E1, (filter_all_or_nothing key j i) by done.
        destruct (decide (j = i)) as [->|Hj].
        -- rewrite (decide_False (P := i ∈ l)) by done. rewrite app_nil_r. by rewrite decide_True by set_solver.
        -- simpl. destruct (decide (j ∈ l)); [by rewrite decide_True by set_solver|by rewrite decide_False by set_solver].
Qed.

Lemma BAR_INTERVALS_NoDup : NoDup BAR_INTERVALS.
Proof. apply (bool_decide_eq_true_1 (NoDup BAR_INTERVALS)). vm_compute. reflexivity. Qed.

Lemma on_trade_step b spot p v ts key i :
  bars_wf b -> v <> 0 -> i ∈ BAR_INTERVALS ->
  let r := istep key i p v ts (forming_at b key i) in
  forming_at (on_trade b spot p v ts) key i =
    (if decide (key = normalize_spot_market_key spot) then r.1 else forming_at b key i) /\
  (is_Some (bars_persist b) -> rows_at (on_trade b spot p v ts) key i = rows_at b key i ++
    (if decide (key = normalize_spot_market_key spot) then to_closed_row <$> r.2 else [])) /\
  (is_Some (bars_persist b) -> is_Some (bars_persist (on_trade b spot p v ts))).
Proof.
  intros Hwf Hv Hi r. unfold on_trade. rewrite decide_False by done.
  set (k := normalize_spot_market_key spot). set (entry := spot_entry (by_spot b) k).
  set (st0 := {| tl_forming := sb_forming entry; tl_closed := []; tl_msgs := [] |}).
  destruct (trade_loop_eq k p v ts BAR_INTERVALS st0 BAR_INTERVALS_NoDup) as [F1 (closed & F2 & F3 & F4)].
  { intros j x Hx. apply (Hwf k j). by rewrite forming_at_entry. }
  set (st := foldl _ st0 _) in *. simpl in F2.
  set (b1 := {| by_spot := _; bars_persist := _ |}).
  destruct (persist_closed_fold b1 (tl_closed st)) as [G1 G2].
  set (b2 := foldl persist_closed b1 (tl_closed st)) in *.
  assert (forall key i, forming_at (match tl_msgs st with [] => b2 | _ :: _ => send_all b2 k (tl_msgs st) end) key i
                        = forming_at b1 key i) as HF.
  { intros key' i'. assert (forming_at b2 key' i' = forming_at b1 key' i') as <- by (unfold forming_at; by rewrite G1).
    destruct (tl_msgs st); [done|apply send_all_forming]. }
  assert (bars_persist (match tl_msgs st with [] => b2 | _ :: _ => send_all b2 k (tl_msgs st) end) = bars_persist b2) as HP
    by by destruct (tl_msgs st).
  assert (forming_at b k i = tl_forming st0 !! i) as Ek by by rewrite forming_at_entry.
  replace (match tl_msgs st with [] => b2 | msgs => send_all b2 k msgs end)
    with (match tl_msgs st with [] => b2 | _ :: _ => send_all b2 k (tl_msgs st) end) by by destruct (tl_msgs st).
  split_and!.
  - rewrite HF. unfold forming_at at 1. unfold b1. simpl. case_decide as E.
    + subst key. rewrite lookup_insert_eq. simpl. rewrite F1, decide_True by done. unfold r. by rewrite Ek.
    + by rewrite lookup_insert_ne.
  - intros [q Hq]. unfold rows_at. rewrite HP, G2. unfold b1. simpl. rewrite Hq, F2. simpl.
    rewrite filter_app. f_equal. case_decide as E.
    + subst key. rewrite F4, decide_True by done. unfold r. by rewrite Ek.
    + clear -F3 E. induction F3 as [|x l Hx Hl IH]; [done|]. rewrite fmap_cons, filter_cons_False; [done|].
      intros [? _]. simpl in *. congruence.
  - intros [q Hq]. rewrite HP, G2. unfold b1. simpl. by rewrite Hq.
Qed.

Lemma on_trade_wf b spot p v ts : bars_wf b -> bars_wf (on_trade b spot p v ts).
Proof.
  intros Hwf. destruct (decide (v = 0)) as [->|Hv]; [done|].
  intros key i x. destruct (decide (i ∈ BAR_INTERVALS)) as [Hi|Hi].
  - destruct (on_trade_step b spot p v ts key i Hwf Hv Hi) as [-> _]. case_decide.
    + apply istep_wf. intros y. apply Hwf.
    + apply Hwf.
  - intros Hx. apply (Hwf key i x). rewrite <- Hx. symmetry. unfold on_trade. rewrite decide_False by done.
    set (k := normalize_spot_market_key spot). set (entry := spot_entry (by_spot b) k).
    set (st0 := {| tl_forming := sb_forming entry; tl_closed := []; tl_msgs := [] |}).
    destruct (trade_loop_eq k p v ts BAR_INTERVALS st0 BAR_INTERVALS_NoDup) as [F1 _].
    { intros j y Hy. apply (Hwf k j). by rewrite forming_at_entry. }
    set (st := foldl _ st0 _) in *. set (b1 := {| by_spot := _; bars_persist := _ |}).
    destruct (persist_closed_fold b1 (tl_closed st)) as [G1 _].
    assert (forming_at (foldl persist_closed b1 (tl_closed st)) key i = forming_at b key i) as HB.
    { unfold forming_at at 1. rewrite G1. unfold b1. simpl.
      destruct (decide (key = k)) as [->|Hk].
      - rewrite lookup_insert_eq. simpl. rewrite F1, decide_False by done. by rewrite forming_at_entry.
      - by rewrite lookup_insert_ne. }
    destruct (tl_msgs st); [exact HB|]. by rewrite send_all_forming.
Qed.

(** ** The engine over a whole stream of trades *)

Definition feed (b : Bars) (evs : list (string * Trade)) : Bars :=
  foldl (fun b e => on_trade b e.1 (tr_price e.2) (tr_volume e.2) (tr_ts e.2)) b evs.

(** The trades of one market that count: those with a volume. *)
Definition counts_for (key : string) (e : string * Trade) : Prop :=
  key = normalize_spot_market_key e.1 /\ tr_volume e.2 <> 0.
#[global] Instance counts_for_dec key e : Decision (counts_for key e).
Proof. unfold counts_for. apply _. Defined.

Definition trades_for (key : string) (evs : list (string * Trade)) : list Trade :=
  snd <$> filter (counts_for key) evs.

Definition bucket_of (i : string) (t : Trade) : Z := default 0 (bucket_start (tr_ts t) i).

Lemma add_run_last bucket rs s r t :
  add_run bucket (rs ++ [(s, r)]) t =
  if decide (s = bucket t) then rs ++ [(s, r ++ [t])] else rs ++ [(s, r); (bucket t, [t])].
Proof.
  induction rs as [|[b l] rs IH]; [done|]. change (((b, l) :: rs) ++ [(s, r)]) with ((b, l) :: (rs ++ [(s, r)])).
  assert (add_run bucket ((b, l) :: (rs ++ [(s, r)])) t = (b, l) :: add_run bucket (rs ++ [(s, r)]) t) as ->.
  { destruct (rs ++ [(s, r)]) eqn:E; [by destruct rs|done]. }
  rewrite IH. by case_decide.
Qed.

Lemma feed_wf evs b : bars_wf b -> bars_wf (feed b evs).
Proof. revert b. induction evs as [|e evs IH]; intros b Hb; simpl; [done|]. by apply IH, on_trade_wf. Qed.

Lemma bars_new_wf p : bars_wf (Bars_new p).
Proof. intros key i x. unfold forming_at, Bars_new. simpl. by rewrite lookup_empty. Qed.

Lemma aggregate_single key i s t :
  is_u64 (tr_volume t) -> aggregate key i s [t] = open_bar key i s (tr_price t) (tr_volume t).
Proof.
  intros Hv. unfold aggregate, open_bar, sat_sum. simpl.
  replace (sat_add 0 (tr_volume t)) with (tr_volume t) by mach. done.
Qed.

Lemma istep_run key i s r t :
  r <> [] -> is_u64 (tr_volume t) -> bucket_start (tr_ts t) i = Some (bucket_of i t) ->
  istep key i (tr_price t) (tr_volume t) (tr_ts t) (Some (aggregate key i s r)) =
  if decide (s = bucket_of i t) then (Some (aggregate key i s (r ++ [t])), [])
  else (Some (aggregate key i (bucket_of i t) [t]), [close_bar (aggregate key i s r)]).
Proof.
  intros Hr Hv Hb. unfold istep. rewrite Hb. simpl (bar_start_ts _). case_decide.
  - by rewrite aggregate_snoc.
  - by rewrite aggregate_single.
Qed.

(** What the engine shows for a market and an interval after the runs [rs]. *)
Definition shows (b : Bars) (key i : string) (rs : list (Z * list Trade)) : Prop :=
  forming_at b key i = (fun p => aggregate key i p.1 p.2) <$> last rs /\
  rows_at b key i = (fun p => to_closed_row (aggregate key i p.1 p.2)) <$> removelast rs /\
  is_Some (bars_persist b).

Lemma on_trade_shows b spot t key i rs :
  bars_wf b -> i ∈ BAR_INTERVALS -> is_u64 (tr_volume t) ->
  bucket_start (tr_ts t) i = Some (bucket_of i t) ->
  Forall (fun p => p.2 <> []) rs -> shows b key i rs ->
  shows (on_trade b spot (tr_price t) (tr_volume t) (tr_ts t)) key i
    (if decide (counts_for key (spot, t)) then add_run (bucket_of i) rs t else rs).
Proof.
  intros Hwf Hi Hv Hb Hne (S1 & S2 & S3).
  destruct (decide (tr_volume t = 0)) as [E0|E0].
  { rewrite decide_False by (by intros []). unfold on_trade. by rewrite decide_True. }
  destruct (on_trade_step b spot (tr_price t) (tr_volume t) (tr_ts t) key i Hwf E0 Hi) as (T1 & T2 & T3).
  unfold shows. rewrite T1, T2 by done. rewrite S1, S2.
  destruct (decide (key = normalize_spot_market_key spot)) as [Ek|Ek].
  2:{ rewrite decide_False by (by intros []). rewrite app_nil_r. auto. }
  rewrite (decide_True (P := counts_for key (spot, t))) by done. destruct rs as [|[s r] rs' _] using rev_ind.
  - simpl. unfold istep. rewrite Hb. simpl. rewrite aggregate_single by done. auto.
  - apply Forall_app in Hne as [_ Hr]. apply Forall_inv in Hr. simpl in Hr.
    rewrite last_snoc. simpl. rewrite istep_run by done. rewrite add_run_last.
    case_decide; simpl.
    + rewrite last_snoc, !removelast_last, app_nil_r by done. auto.
    + change [(s, r); (bucket_of i t, [t])] with ([(s, r)] ++ [(bucket_of i t, [t])]).
      rewrite app_assoc, last_snoc, !removelast_last, fmap_app. auto.
Qed.

Lemma bucket_start_some i ts : i ∈ BAR_INTERVALS -> day_ok (ts / 86400) -> is_Some (bucket_start ts i).
Proof.
  #[local] Transparent BAR_INTERVALS bucket_start.
  intros Hi Hts. unfold BAR_INTERVALS in Hi.
  destruct (decide (i = "1M"%string)) as [->|Hne].
  - unfold bucket_start. simpl. destruct (civil_from_days (ts / 86400)) as [[y m] d] eqn:E.
    destruct (calendar_month_start_ok ts y m d Hts E) as (s & -> & _). done.
  - repeat (apply elem_of_cons in Hi as [->|Hi]; [unfold bucket_start; simpl; apply (mk_is_Some _ _ eq_refl)|]).
    by apply list_elem_of_singleton in Hi.
Qed.
#[local] Opaque BAR_INTERVALS bucket_start.

Lemma feed_shows evs key i :
  i ∈ BAR_INTERVALS ->
  Forall (fun e => is_u64 (tr_volume e.2) /\ day_ok (tr_ts e.2 / 86400)) evs ->
  shows (feed (Bars_new true) evs) key i (runs (bucket_of i) (trades_for key evs)).
Proof.
  intros Hi HF. induction evs as [|[spot t] evs IH] using rev_ind.
  - split_and!; [|done|done]. unfold forming_at. simpl. by rewrite lookup_empty.
  - apply Forall_app in HF as [HF [[Hv Hd] _]%Forall_cons]. simpl in Hv, Hd.
    unfold feed. rewrite foldl_app. simpl. fold (feed (Bars_new true) evs).
    destruct (runs_spec (bucket_of i) (trades_for key evs)) as (_ & Hr & _).
    destruct (bucket_start_some i (tr_ts t) Hi Hd) as [s Hs].
    pose proof (on_trade_shows (feed (Bars_new true) evs) spot t key i (runs (bucket_of i) (trades_for key evs))) as HT.
    assert (runs (bucket_of i) (trades_for key (evs ++ [(spot, t)])) =
      if decide (counts_for key (spot, t)) then add_run (bucket_of i) (runs (bucket_of i) (trades_for key evs)) t
      else runs (bucket_of i) (trades_for key evs)) as ->.
    { unfold trades_for. rewrite filter_app, fmap_app, filter_cons.
      case_decide; [apply runs_snoc|]. by rewrite app_nil_r. }
    apply HT; [by apply feed_wf, bars_new_wf|done|done| | |by apply IH].
    + unfold bucket_of. by rewrite Hs.
    + eapply Forall_impl; [exact Hr|]. by intros p [? _].
Qed.

(** C24: the candle engine is the aggregation of runs of trades.  After any
    interleaved stream of trades on any markets, the forming bar of a market
    and interval is the open/high/low/close/volume/count aggregate of the last
    maximal run of that market's trades in one bucket, and the closed bars
    handed to the database are the aggregates of all earlier runs, in order. *)
Theorem bars_are_runs evs key i :
  i ∈ BAR_INTERVALS ->
  Forall (fun e => is_u64 (tr_volume e.2) /\ day_ok (tr_ts e.2 / 86400)) evs ->
  let rs := runs (bucket_of i) (trades_for key evs) in
  forming_at (feed (Bars_new true) evs) key i = (fun p => aggregate key i p.1 p.2) <$> last rs /\
  rows_at (feed (Bars_new true) evs) key i = (fun p => to_closed_row (aggregate key i p.1 p.2)) <$> removelast rs.
Proof. intros Hi HF rs. by destruct (feed_shows evs key i Hi HF) as (? & ? & _). Qed.

(** Every forming candle is well formed: its trades are the latest ones of
    its market and all lie in its bucket; the low and the high bound all their
    prices, the open and the close included; the volume is their sum,
    saturating at [u64::MAX]. *)
Theorem candles_ohlc evs key i b :
  i ∈ BAR_INTERVALS ->
  Forall (fun e => is_u64 (tr_volume e.2) /\ day_ok (tr_ts e.2 / 86400)) evs ->
  forming_at (feed (Bars_new true) evs) key i = Some b ->
  exists run, run <> [] /\ run `suffix_of` trades_for key evs /\
    Forall (fun t => bucket_of i t = bar_start_ts b) run /\
    Forall (fun t => bar_low_raw b <= tr_price t <= bar_high_raw b) run /\
    bar_low_raw b <= bar_open_raw b <= bar_high_raw b /\
    bar_low_raw b <= bar_close_raw b <= bar_high_raw b /\
    bar_volume_raw b = Z.min (sum_with tr_volume run) u64_max.
Proof.
  intros Hi HF Hb. destruct (feed_shows evs key i Hi HF) as (S1 & _ & _). rewrite S1 in Hb.
  destruct (runs_spec (bucket_of i) (trades_for key evs)) as (Hj & Hr & _).
  destruct (runs (bucket_of i) (trades_for key evs)) as [|[s r] rs _] using rev_ind; [done|].
  rewrite last_snoc in Hb. simpl in Hb. simplify_eq.
  apply Forall_app in Hr as [_ [[Hne Hr] _]%Forall_cons]. simpl in Hne, Hr.
  assert (r `suffix_of` trades_for key evs) as Hsuf.
  { exists (mjoin (snd <$> rs)). rewrite <- Hj, fmap_app, join_app. simpl. by rewrite app_nil_r. }
  destruct (aggregate_ohlc key i s r Hne) as (A1 & A2 & A3 & _).
  exists r. split_and!; try done; try lia.
  apply sat_sum_eq. destruct Hsuf as [l El].
  assert (Forall (fun t => 0 <= tr_volume t) (trades_for key evs)) as HV.
  { apply Forall_forall. intros t (e & -> & [_ He]%list_elem_of_filter)%list_elem_of_fmap.
    rewrite Forall_forall in HF. by destruct (HF e He) as [[? _] _]. }
  rewrite El in HV. by apply Forall_app in HV as [_ ?].
Qed.
End Simulation.

(** ** Witnesses: two markets interleaved, a minute boundary crossed *)

Definition demo_trades : list (string * Trade) :=
  [("c7", {| tr_price := 50; tr_volume := 3; tr_ts := 120 |}); ("c8", {| tr_price := 9; tr_volume := 1; tr_ts := 121 |});
   (" c7", {| tr_price := 40; tr_volume := 2; tr_ts := 150 |}); ("c7", {| tr_price := 60; tr_volume := 5; tr_ts := 185 |})]%string.

Lemma demo_trades_ok : Forall (fun e => is_u64 (tr_volume e.2) /\ day_ok (tr_ts e.2 / 86400)) demo_trades.
Proof. unfold demo_trades. repeat constructor; vm_compute; congruence. Qed.

Lemma bars_are_runs_witness :
  let rs := runs (bucket_of "1m") (trades_for (SD := DemoSdk) "c7" demo_trades) in
  length rs = 2%nat /\
  forming_at (feed (SD := DemoSdk) (Bars_new true) demo_trades) "c7" "1m" = (fun p => aggregate "c7" "1m" p.1 p.2) <$> last rs /\
  rows_at (feed (SD := DemoSdk) (Bars_new true) demo_trades) "c7" "1m" =
    (fun p => to_closed_row (aggregate "c7" "1m" p.1 p.2)) <$> removelast rs.
Proof.
  intros rs. split; [vm_compute; reflexivity|].
  apply (bars_are_runs (SD := DemoSdk) demo_trades "c7" "1m").
  - unfold BAR_INTERVALS. set_solver.
  - exact demo_trades_ok.
Defined.

Lemma candles_ohlc_witness :
  exists b run, forming_at (feed (SD := DemoSdk) (Bars_new true) demo_trades) "c7" "3m" = Some b /\ run <> [] /\
    run `suffix_of` trades_for (SD := DemoSdk) "c7" demo_trades /\ bar_low_raw b <= bar_open_raw b <= bar_high_raw b.
Proof.
  eexists. destruct (candles_ohlc (SD := DemoSdk) demo_trades "c7" "3m" (aggregate "c7" "3m" 180 [{| tr_price := 60; tr_volume := 5; tr_ts := 185 |}]))
    as (run & H1 & H2 & _ & _ & H3 & _).
  - unfold BAR_INTERVALS. set_solver.
  - exact demo_trades_ok.
  - vm_compute. reflexivity.
  - exists run. split; [vm_compute; reflexivity|]. done.
Defined.
