(* ===== verification/WriteSet.v ===== *)
(** * WriteSet: [persist/index_write_set.rs], the deltas of one block

    Each pair of fields [x_to_store] / [x_to_delete] of [IndexWriteSet] is one
    [Delta]; the operations on the pair are those of the source's methods. *)
From S2P Require Import Prelude Text Sdk Keys Domain.
From stdpp Require Import fin_map_dom.

Local Open Scope list_scope.
Local Open Scope Z_scope.

(** ** One column family's pair of store map and delete set *)

Section Delta.
Context {K V : Type} `{Countable K}.
Implicit Types (d o : gmap K V * gset K) (m : gmap K V).

Definition Delta : Type := gmap K V * gset K.
Definition to_store (d : Delta) : gmap K V := d.1.
Definition to_delete (d : Delta) : gset K := d.2.
Definition delta_empty : Delta := (∅, ∅).

(** [to_delete.remove(&k); to_store.insert(k, v)]. *)
Definition delta_store (d : Delta) (k : K) (v : V) : Delta := (<[k := v]> (to_store d), to_delete d ∖ {[k]}).

(** [to_store.remove(&k); to_delete.insert(k)]. *)
Definition delta_delete (d : Delta) (k : K) : Delta := (delete k (to_store d), {[k]} ∪ to_delete d).

(** The two loops of [merge] for one pair. *)
Definition delta_merge (d o : Delta) : Delta :=
  foldl delta_delete (foldl (fun d p => delta_store d p.1 p.2) d (map_to_list (to_store o))) (elements (to_delete o)).

Definition delta_is_empty (d : Delta) : bool :=
  bool_decide (to_store d = ∅) && bool_decide (to_delete d = ∅).

(** What a delta does to a table: its deletions, then its insertions. *)
Definition delta_apply (d : Delta) (m : gmap K V) : gmap K V :=
  to_store d ∪ filter (fun p => p.1 ∉ to_delete d) m.

Definition delta_wf (d : Delta) : Prop := dom (to_store d) ## to_delete d.

Lemma delta_apply_lookup d m k :
  delta_apply d m !! k =
  match to_store d !! k with
  | Some v => Some v
  | None => if decide (k ∈ to_delete d) then None else m !! k
  end.
Proof.
  unfold delta_apply. destruct (to_store d !! k) as [v|] eqn:E.
  - by apply lookup_union_Some_l.
  - rewrite lookup_union_r by done. case_decide as Hk.
    + apply map_lookup_filter_None. right. intros x _ Hn. by apply Hn.
    + destruct (m !! k) as [x|] eqn:Em.
      * by apply map_lookup_filter_Some.
      * apply map_lookup_filter_None. by left.
Qed.

Lemma delta_empty_wf : delta_wf delta_empty.
Proof. unfold delta_wf, to_store, delta_empty. simpl. set_solver. Qed.

Lemma delta_store_wf d k v : delta_wf d -> delta_wf (delta_store d k v).
Proof. unfold delta_wf, delta_store, to_store, to_delete. simpl. intros Hd. rewrite dom_insert. set_solver. Qed.

Lemma delta_delete_wf d k : delta_wf d -> delta_wf (delta_delete d k).
Proof. unfold delta_wf, delta_delete, to_store, to_delete. simpl. intros Hd. rewrite dom_delete. set_solver. Qed.

Lemma delta_store_apply d k v m : delta_apply (delta_store d k v) m = <[k := v]> (delta_apply d m).
Proof.
  apply map_eq. intros i. rewrite delta_apply_lookup. unfold delta_store, to_store, to_delete. simpl.
  destruct (decide (i = k)) as [->|Hi]; [by rewrite !lookup_insert_eq|].
  rewrite !lookup_insert_ne by done. rewrite delta_apply_lookup. unfold to_store, to_delete.
  destruct (d.1 !! i); [done|]. by repeat case_decide; set_solver.
Qed.

Lemma delta_delete_apply d k m : delta_apply (delta_delete d k) m = delete k (delta_apply d m).
Proof.
  apply map_eq. intros i. rewrite delta_apply_lookup. unfold delta_delete, to_store, to_delete. simpl.
  destruct (decide (i = k)) as [->|Hi].
  - rewrite !lookup_delete_eq. by rewrite decide_True by set_solver.
  - rewrite !lookup_delete_ne by done. rewrite delta_apply_lookup. unfold to_store, to_delete.
    destruct (d.1 !! i); [done|]. by repeat case_decide; set_solver.
Qed.

Lemma delta_empty_apply m : delta_apply delta_empty m = m.
Proof. apply map_eq. intros i. rewrite delta_apply_lookup. unfold delta_empty, to_store, to_delete. simpl. by rewrite lookup_empty, decide_False by set_solver. Qed.

Lemma delta_store_fold l d m :
  delta_apply (foldl (fun d p => delta_store d p.1 p.2) d l) m = foldl (fun m p => <[p.1 := p.2]> m) (delta_apply d m) l.
Proof. revert d. induction l as [|p l IH]; intros d; simpl; [done|]. by rewrite IH, delta_store_apply. Qed.

Lemma delta_delete_fold l d m :
  delta_apply (foldl delta_delete d l) m = foldl (fun m k => delete k m) (delta_apply d m) l.
Proof. revert d. induction l as [|p l IH]; intros d; simpl; [done|]. by rewrite IH, delta_delete_apply. Qed.

Lemma insert_fold_lookup (l : list (K * V)) m i :
  NoDup l.*1 ->
  foldl (fun m p => <[p.1 := p.2]> m) m l !! i = match (list_to_map l : gmap K V) !! i with Some v => Some v | None => m !! i end.
Proof.
  revert m. induction l as [|[k v] l IH]; intros m Hnd; simpl; [by rewrite lookup_empty|].
  apply NoDup_cons in Hnd as [Hk Hnd]. rewrite IH by done.
  destruct (decide (i = k)) as [->|Hi].
  - rewrite !lookup_insert_eq. by rewrite (not_elem_of_list_to_map_1 l k Hk).
  - by rewrite !lookup_insert_ne.
Qed.

Lemma delete_fold_lookup (l : list K) m i :
  foldl (fun m k => delete k m) m l !! i = if decide (i ∈ l) then None else m !! i.
Proof.
  revert m. induction l as [|k l IH]; intros m; cbn [foldl]; [by rewrite decide_False by set_solver|].
  rewrite IH. destruct (decide (i ∈ l)) as [Hi|Hi]; [by rewrite decide_True by set_solver|].
  destruct (decide (i = k)) as [->|Hk].
  - rewrite lookup_delete_eq. by rewrite decide_True by set_solver.
  - rewrite lookup_delete_ne by done. by rewrite decide_False by set_solver.
Qed.

Lemma delta_merge_wf d o : delta_wf d -> delta_wf (delta_merge d o).
Proof.
  intros Hd. unfold delta_merge.
  assert (delta_wf (foldl (fun d p => delta_store d p.1 p.2) d (map_to_list (to_store o)))) as H1.
  { revert d Hd. induction (map_to_list (to_store o)) as [|p l IH]; intros d Hd; simpl; [done|].
    by apply IH, delta_store_wf. }
  revert H1. generalize (foldl (fun d p => delta_store d p.1 p.2) d (map_to_list (to_store o))).
  induction (elements (to_delete o)) as [|k l IH]; intros e He; simpl; [done|]. by apply IH, delta_delete_wf.
Qed.

(** Merging is composition: first [d], then [o]. *)
Lemma delta_merge_apply d o m :
  delta_wf o -> delta_apply (delta_merge d o) m = delta_apply o (delta_apply d m).
Proof.
  intros Ho. unfold delta_merge. rewrite delta_delete_fold, delta_store_fold.
  apply map_eq. intros i. rewrite delete_fold_lookup, insert_fold_lookup by apply NoDup_fst_map_to_list.
  rewrite list_to_map_to_list, (delta_apply_lookup o).
  destruct (decide (i ∈ elements (to_delete o))) as [Hi|Hi]; rewrite elem_of_elements in Hi.
  - rewrite (decide_True (P := i ∈ to_delete o)) by done.
    destruct (to_store o !! i) eqn:E; [|done]. apply elem_of_dom_2 in E. unfold delta_wf in Ho. set_solver.
  - by rewrite (decide_False (P := i ∈ to_delete o)).
Qed.

End Delta.

Arguments Delta K V {_ _}.

(** ** The write set of a block *)

(** [OrderRow] and [BookMetaRow] of [index_state_tables.rs]. *)
Record OrderRow := {
  or_id : string;
  or_user_address : string;
  or_chain_order_id : string;
  or_spot_market : string;
  or_size_raw : Z;
  or_filled_raw : Z;
  or_status : string;
  or_order : Order
}.

Record BookMetaRow := { bm_sequence : Z; bm_last_trade_price : option Z }.

#[global] Instance OrderRow_eq_dec : EqDecision OrderRow.
Proof. solve_decision. Defined.
#[global] Instance BookMetaRow_eq_dec : EqDecision BookMetaRow.
Proof. solve_decision. Defined.

(** Key of a book level: market, side, price as i64. *)
Definition LevelKey : Type := string * string * Z.

Record IndexWriteSet := {
  ws_block_num : Z;
  ws_digest : string;
  ws_full_replace : bool;
  ws_markets : Delta string Market;
  ws_orders : Delta string OrderRow;
  ws_book_levels : Delta LevelKey Z;
  ws_book_meta : Delta string BookMetaRow;
  ws_last_trades : Delta string Z;
  ws_vaults : Delta string Vault;
  ws_vault_portfolio : Delta (string * string) Z
}.

Definition ws_default (block_num : Z) (digest : string) (full_replace : bool) : IndexWriteSet :=
  {| ws_block_num := block_num; ws_digest := digest; ws_full_replace := full_replace;
     ws_markets := delta_empty; ws_orders := delta_empty; ws_book_levels := delta_empty;
     ws_book_meta := delta_empty; ws_last_trades := delta_empty; ws_vaults := delta_empty;
     ws_vault_portfolio := delta_empty |}.

Definition with_markets (f : Delta string Market -> Delta string Market) (ws : IndexWriteSet) : IndexWriteSet :=
  {| ws_block_num := ws_block_num ws; ws_digest := ws_digest ws; ws_full_replace := ws_full_replace ws;
     ws_markets := f (ws_markets ws); ws_orders := ws_orders ws; ws_book_levels := ws_book_levels ws;
     ws_book_meta := ws_book_meta ws; ws_last_trades := ws_last_trades ws; ws_vaults := ws_vaults ws;
     ws_vault_portfolio := ws_vault_portfolio ws |}.
Definition with_orders (f : Delta string OrderRow -> Delta string OrderRow) (ws : IndexWriteSet) : IndexWriteSet :=
  {| ws_block_num := ws_block_num ws; ws_digest := ws_digest ws; ws_full_replace := ws_full_replace ws;
     ws_markets := ws_markets ws; ws_orders := f (ws_orders ws); ws_book_levels := ws_book_levels ws;
     ws_book_meta := ws_book_meta ws; ws_last_trades := ws_last_trades ws; ws_vaults := ws_vaults ws;
     ws_vault_portfolio := ws_vault_portfolio ws |}.
Definition with_book_levels (f : Delta LevelKey Z -> Delta LevelKey Z) (ws : IndexWriteSet) : IndexWriteSet :=
  {| ws_block_num := ws_block_num ws; ws_digest := ws_digest ws; ws_full_replace := ws_full_replace ws;
     ws_markets := ws_markets ws; ws_orders := ws_orders ws; ws_book_levels := f (ws_book_levels ws);
     ws_book_meta := ws_book_meta ws; ws_last_trades := ws_last_trades ws; ws_vaults := ws_vaults ws;
     ws_vault_portfolio := ws_vault_portfolio ws |}.
Definition with_book_meta (f : Delta string BookMetaRow -> Delta string BookMetaRow) (ws : IndexWriteSet) : IndexWriteSet :=
  {| ws_block_num := ws_block_num ws; ws_digest := ws_digest ws; ws_full_replace := ws_full_replace ws;
     ws_markets := ws_markets ws; ws_orders := ws_orders ws; ws_book_levels := ws_book_levels ws;
     ws_book_meta := f (ws_book_meta ws); ws_last_trades := ws_last_trades ws; ws_vaults := ws_vaults ws;
     ws_vault_portfolio := ws_vault_portfolio ws |}.
Definition with_last_trades (f : Delta string Z -> Delta string Z) (ws : IndexWriteSet) : IndexWriteSet :=
  {| ws_block_num := ws_block_num ws; ws_digest := ws_digest ws; ws_full_replace := ws_full_replace ws;
     ws_markets := ws_markets ws; ws_orders := ws_orders ws; ws_book_levels := ws_book_levels ws;
     ws_book_meta := ws_book_meta ws; ws_last_trades := f (ws_last_trades ws); ws_vaults := ws_vaults ws;
     ws_vault_portfolio := ws_vault_portfolio ws |}.
Definition with_vaults (f : Delta string Vault -> Delta string Vault) (ws : IndexWriteSet) : IndexWriteSet :=
  {| ws_block_num := ws_block_num ws; ws_digest := ws_digest ws; ws_full_replace := ws_full_replace ws;
     ws_markets := ws_markets ws; ws_orders := ws_orders ws; ws_book_levels := ws_book_levels ws;
     ws_book_meta := ws_book_meta ws; ws_last_trades := ws_last_trades ws; ws_vaults := f (ws_vaults ws);
     ws_vault_portfolio := ws_vault_portfolio ws |}.
Definition with_vault_portfolio (f : Delta (string * string) Z -> Delta (string * string) Z) (ws : IndexWriteSet) : IndexWriteSet :=
  {| ws_block_num := ws_block_num ws; ws_digest := ws_digest ws; ws_full_replace := ws_full_replace ws;
     ws_markets := ws_markets ws; ws_orders := ws_orders ws; ws_book_levels := ws_book_levels ws;
     ws_book_meta := ws_book_meta ws; ws_last_trades := ws_last_trades ws; ws_vaults := ws_vaults ws;
     ws_vault_portfolio := f (ws_vault_portfolio ws) |}.

(** [merge]: the block number and the digest of the first set are kept. *)
Definition merge (ws other : IndexWriteSet) : IndexWriteSet :=
  {| ws_block_num := ws_block_num ws;
     ws_digest := ws_digest ws;
     ws_full_replace := if ws_full_replace other then true else ws_full_replace ws;
     ws_markets := delta_merge (ws_markets ws) (ws_markets other);
     ws_orders := delta_merge (ws_orders ws) (ws_orders other);
     ws_book_levels := delta_merge (ws_book_levels ws) (ws_book_levels other);
     ws_book_meta := delta_merge (ws_book_meta ws) (ws_book_meta other);
     ws_last_trades := delta_merge (ws_last_trades ws) (ws_last_trades other);
     ws_vaults := delta_merge (ws_vaults ws) (ws_vaults other);
     ws_vault_portfolio := delta_merge (ws_vault_portfolio ws) (ws_vault_portfolio other) |}.

Definition is_empty (ws : IndexWriteSet) : bool :=
  negb (ws_full_replace ws) && delta_is_empty (ws_markets ws) && delta_is_empty (ws_orders ws) &&
  delta_is_empty (ws_book_levels ws) && delta_is_empty (ws_book_meta ws) &&
  delta_is_empty (ws_last_trades ws) && delta_is_empty (ws_vaults ws) && delta_is_empty (ws_vault_portfolio ws).

Section Ops.
Context {S : Sdk}.

Definition store_market (ws : IndexWriteSet) (market : Market) : IndexWriteSet :=
  with_markets (fun d => delta_store d (uuid_to_string (MarketOps.id market)) market) ws.

Definition delete_market (ws : IndexWriteSet) (market_id : string) : IndexWriteSet :=
  with_markets (fun d => delta_delete d market_id) ws.

Definition store_order (ws : IndexWriteSet) (row : OrderRow) : IndexWriteSet :=
  with_orders (fun d => delta_store d (or_id row) row) ws.

Definition delete_order (ws : IndexWriteSet) (order_id : string) : IndexWriteSet :=
  with_orders (fun d => delta_delete d order_id) ws.

Definition store_book_level (ws : IndexWriteSet) (spot side : string) (price_raw size_raw : Z) : IndexWriteSet :=
  let key := (normalize_spot_market_key spot, side, price_raw) in
  if decide (size_raw <= 0) then with_book_levels (fun d => delta_delete d key) ws
  else with_book_levels (fun d => delta_store d key size_raw) ws.

Definition delete_book_level (ws : IndexWriteSet) (spot side : string) (price_raw : Z) : IndexWriteSet :=
  with_book_levels (fun d => delta_delete d (normalize_spot_market_key spot, side, price_raw)) ws.

Definition store_book_meta (ws : IndexWriteSet) (spot : string) (meta : BookMetaRow) : IndexWriteSet :=
  with_book_meta (fun d => delta_store d (normalize_spot_market_key spot) meta) ws.

Definition store_last_trade (ws : IndexWriteSet) (spot : string) (price : Z) : IndexWriteSet :=
  with_last_trades (fun d => delta_store d (normalize_spot_market_key spot) price) ws.

(** [vault.portfolio.clear()]. *)
Definition clear_portfolio (v : Vault) : Vault :=
  {| vlt_id := vlt_id v; vlt_name := vlt_name v; vlt_vault_address := vlt_vault_address v;
     vlt_vault_account := vlt_vault_account v; vlt_manager := vlt_manager v;
     vlt_quote_token := vlt_quote_token v; vlt_share_token := vlt_share_token v;
     vlt_equity := vlt_equity v; vlt_user_deposit := vlt_user_deposit v; vlt_portfolio := [];
     vlt_allow_deposit := vlt_allow_deposit v; vlt_is_closed := vlt_is_closed v |}.

Definition store_vault (ws : IndexWriteSet) (vault : Vault) : IndexWriteSet :=
  with_vaults (fun d => delta_store d (uuid_to_string (vlt_id vault)) (clear_portfolio vault)) ws.

Definition store_vault_portfolio (ws : IndexWriteSet) (vault_id spot : string) (amount : Z) : IndexWriteSet :=
  let key := (vault_id, normalize_spot_market_key spot) in
  if decide (amount <= 0) then with_vault_portfolio (fun d => delta_delete d key) ws
  else with_vault_portfolio (fun d => delta_store d key amount) ws.

Definition order_row_from_parts (order : Order) (user_address chain_order_id spot_market : string)
    (size_raw filled_raw : Z) : OrderRow :=
  {| or_id := uuid_to_string (ord_id order); or_user_address := user_address;
     or_chain_order_id := chain_order_id; or_spot_market := normalize_spot_market_key spot_market;
     or_size_raw := as_i64 size_raw; or_filled_raw := as_i64 filled_raw;
     or_status := ord_status order; or_order := order |}.

End Ops.

(** ** What a stored size leaves in the table *)

(** A u64 size becomes an i64: beyond [i64::MAX] it turns negative, and a row
    with a size that is not positive is deleted. *)
Definition persistable (size : Z) : option Z := if decide (as_i64 size <= 0) then None else Some (as_i64 size).

Lemma persistable_exact n : 0 < n <= i64_max -> persistable n = Some n.
Proof.
  intros Hn. unfold persistable. rewrite as_i64_id by (unfold is_i64, i64_min, i64_max in *; lia). by rewrite decide_False by lia.
Qed.

Section Lookup.
Context {SD : Sdk}.

Lemma store_level_lookup w spot side p n m k :
  delta_apply (ws_book_levels (store_book_level w spot side p (as_i64 n))) m !! k =
    if decide (k = (normalize_spot_market_key spot, side, p)) then persistable n else delta_apply (ws_book_levels w) m !! k.
Proof.
  unfold store_book_level, persistable. case_decide; cbn [ws_book_levels with_book_levels];
    rewrite ?delta_delete_apply, ?delta_store_apply; (destruct (decide (k = _)) as [->|Hk];
    [by rewrite ?lookup_delete_eq, ?lookup_insert_eq|by rewrite ?lookup_delete_ne, ?lookup_insert_ne by done]).
Qed.

Lemma delete_level_lookup w spot side p m k :
  delta_apply (ws_book_levels (delete_book_level w spot side p)) m !! k =
    if decide (k = (normalize_spot_market_key spot, side, p)) then None else delta_apply (ws_book_levels w) m !! k.
Proof.
  unfold delete_book_level. cbn [ws_book_levels with_book_levels]. rewrite delta_delete_apply.
  destruct (decide (k = _)) as [->|Hk]; [by rewrite lookup_delete_eq|by rewrite lookup_delete_ne].
Qed.

Lemma store_portfolio_lookup w id spot n m k :
  delta_apply (ws_vault_portfolio (store_vault_portfolio w id spot (as_i64 n))) m !! k =
    if decide (k = (id, normalize_spot_market_key spot)) then persistable n else delta_apply (ws_vault_portfolio w) m !! k.
Proof.
  unfold store_vault_portfolio, persistable. case_decide; cbn [ws_vault_portfolio with_vault_portfolio];
    rewrite ?delta_delete_apply, ?delta_store_apply; (destruct (decide (k = _)) as [->|Hk];
    [by rewrite ?lookup_delete_eq, ?lookup_insert_eq|by rewrite ?lookup_delete_ne, ?lookup_insert_ne by done]).
Qed.

End Lookup.

(** ** Well-formedness: no key is both stored and deleted *)

Record ws_wf (ws : IndexWriteSet) : Prop := {
  wf_markets : delta_wf (ws_markets ws);
  wf_orders : delta_wf (ws_orders ws);
  wf_book_levels : delta_wf (ws_book_levels ws);
  wf_book_meta : delta_wf (ws_book_meta ws);
  wf_last_trades : delta_wf (ws_last_trades ws);
  wf_vaults : delta_wf (ws_vaults ws);
  wf_vault_portfolio : delta_wf (ws_vault_portfolio ws)
}.

#[export] Hint Resolve delta_empty_wf delta_store_wf delta_delete_wf delta_merge_wf : clob.
Ltac wf_ws := intros; match goal with H : ws_wf _ |- _ => destruct H end; split; simpl; auto with clob.

Lemma ws_default_wf n d f : ws_wf (ws_default n d f).
Proof. split; simpl; auto with clob. Qed.

Section OpsWf.
Context {SD : Sdk}.

Lemma store_market_wf ws m : ws_wf ws -> ws_wf (store_market ws m).
Proof. wf_ws. Qed.
Lemma delete_market_wf ws i : ws_wf ws -> ws_wf (delete_market ws i).
Proof. wf_ws. Qed.
Lemma store_order_wf ws r : ws_wf ws -> ws_wf (store_order ws r).
Proof. wf_ws. Qed.
Lemma delete_order_wf ws i : ws_wf ws -> ws_wf (delete_order ws i).
Proof. wf_ws. Qed.
Lemma store_book_level_wf ws s d p z : ws_wf ws -> ws_wf (store_book_level ws s d p z).
Proof. unfold store_book_level. case_decide; wf_ws. Qed.
Lemma delete_book_level_wf ws s d p : ws_wf ws -> ws_wf (delete_book_level ws s d p).
Proof. wf_ws. Qed.
Lemma store_book_meta_wf ws s m : ws_wf ws -> ws_wf (store_book_meta ws s m).
Proof. wf_ws. Qed.
Lemma store_last_trade_wf ws s p : ws_wf ws -> ws_wf (store_last_trade ws s p).
Proof. wf_ws. Qed.
Lemma store_vault_wf ws v : ws_wf ws -> ws_wf (store_vault ws v).
Proof. wf_ws. Qed.
Lemma store_vault_portfolio_wf ws i s a : ws_wf ws -> ws_wf (store_vault_portfolio ws i s a).
Proof. unfold store_vault_portfolio. case_decide; wf_ws. Qed.
End OpsWf.

Lemma merge_wf ws other : ws_wf ws -> ws_wf (merge ws other).
Proof. wf_ws. Qed.

#[export] Hint Resolve ws_default_wf store_market_wf delete_market_wf store_order_wf delete_order_wf
  store_book_level_wf delete_book_level_wf store_book_meta_wf store_last_trade_wf store_vault_wf
  store_vault_portfolio_wf merge_wf : clob.
