(* ===== verification/Tables.v ===== *)
(** * Tables: [persist/index_state_tables.rs], the index database, and the
    ordered writer of [persist/index_state_write.rs] and [persist/checkpoint.rs]

    A column family is a [gmap]; a write batch is the list of its operations,
    applied in order by the commit (the contract of RocksDB's batches).  Whether
    a batch can be built and committed is part of the writer's events;
    TablesStore has the same functions over the typed store, with its codecs and
    errors, and TablesStoreFacts shows that they refine these. *)
From S2P Require Import Prelude Text Errors Sdk Keys Domain WriteSet.

Local Open Scope list_scope.
Local Open Scope Z_scope.

(** ** Batches *)

Inductive CfOp (K V : Type) :=
| CfDelete (k : K)
| CfPut (k : K) (v : V).
Arguments CfDelete {K V} _.
Arguments CfPut {K V} _ _.

Section Cf.
Context {K V : Type} `{Countable K}.

Definition cf_step (m : gmap K V) (op : CfOp K V) : gmap K V :=
  match op with CfDelete k => delete k m | CfPut k v => <[k := v]> m end.
Definition cf_write (ops : list (CfOp K V)) (m : gmap K V) : gmap K V := foldl cf_step m ops.

(** [clear_map]: deletions of the keys the table holds when the batch is built. *)
Definition clear_map (m : gmap K V) : list (CfOp K V) := CfDelete <$> (map_to_list m).*1.

Definition delete_batch (d : Delta K V) : list (CfOp K V) := CfDelete <$> elements (to_delete d).
Definition insert_batch (d : Delta K V) : list (CfOp K V) := (fun p => CfPut p.1 p.2) <$> map_to_list (to_store d).

(** The operations one pair contributes, [full_replace] included. *)
Definition cf_ops (full_replace : bool) (m : gmap K V) (d : Delta K V) : list (CfOp K V) :=
  (if full_replace then clear_map m else []) ++ delete_batch d ++ insert_batch d.

Lemma cf_write_app a b m : cf_write (a ++ b) m = cf_write b (cf_write a m).
Proof. apply foldl_app. Qed.

Lemma cf_write_deletes l m : cf_write (CfDelete <$> l) m = foldl (fun m k => delete k m) m l.
Proof. unfold cf_write. revert m. induction l as [|k l IH]; intros m; simpl; [done|]. apply IH. Qed.

Lemma cf_write_puts l m :
  cf_write ((fun p => CfPut p.1 p.2) <$> l) m = foldl (fun m p => <[p.1 := p.2]> m) m l.
Proof. unfold cf_write. revert m. induction l as [|k l IH]; intros m; simpl; [done|]. apply IH. Qed.

Lemma cf_ops_delta m0 d m : cf_write (cf_ops false m0 d) m = delta_apply d m.
Proof.
  unfold cf_ops, delete_batch, insert_batch. simpl. rewrite cf_write_app, cf_write_deletes, cf_write_puts.
  apply map_eq. intros i. rewrite insert_fold_lookup by apply NoDup_fst_map_to_list.
  rewrite list_to_map_to_list, delete_fold_lookup, delta_apply_lookup.
  destruct (to_store d !! i); [done|]. repeat case_decide; set_solver.
Qed.

Lemma cf_clear m : cf_write (clear_map m) m = ∅.
Proof.
  unfold clear_map. rewrite cf_write_deletes. apply map_eq. intros i.
  rewrite delete_fold_lookup, lookup_empty. case_decide as Hi; [done|].
  destruct (m !! i) as [v|] eqn:E; [|done]. destruct Hi. apply list_elem_of_fmap. exists (i, v).
  split; [done|]. by apply elem_of_map_to_list.
Qed.

Lemma cf_ops_replace d m : cf_write (cf_ops true m d) m = delta_apply d ∅.
Proof.
  unfold cf_ops. rewrite cf_write_app, cf_clear. rewrite <- (cf_ops_delta ∅). done.
Qed.
End Cf.

(** ** The column families *)

Record IndexStateTables := {
  t_meta : gmap string string;
  t_markets : gmap string Market;
  t_orders : gmap string OrderRow;
  t_book_levels : gmap LevelKey Z;
  t_book_meta : gmap string BookMetaRow;
  t_last_trades : gmap string Z;
  t_vaults : gmap string Vault;
  t_vault_portfolio : gmap (string * string) Z
}.

Definition tables_empty : IndexStateTables :=
  {| t_meta := ∅; t_markets := ∅; t_orders := ∅; t_book_levels := ∅; t_book_meta := ∅;
     t_last_trades := ∅; t_vaults := ∅; t_vault_portfolio := ∅ |}.

Record DBBatch := {
  b_markets : list (CfOp string Market);
  b_orders : list (CfOp string OrderRow);
  b_book_levels : list (CfOp LevelKey Z);
  b_book_meta : list (CfOp string BookMetaRow);
  b_last_trades : list (CfOp string Z);
  b_vaults : list (CfOp string Vault);
  b_vault_portfolio : list (CfOp (string * string) Z);
  b_meta : list (CfOp string string)
}.

Definition build_index_write_batch (t : IndexStateTables) (ws : IndexWriteSet) : DBBatch :=
  let fr := ws_full_replace ws in
  {| b_markets := cf_ops fr (t_markets t) (ws_markets ws);
     b_orders := cf_ops fr (t_orders t) (ws_orders ws);
     b_book_levels := cf_ops fr (t_book_levels t) (ws_book_levels ws);
     b_book_meta := cf_ops fr (t_book_meta t) (ws_book_meta ws);
     b_last_trades := cf_ops fr (t_last_trades t) (ws_last_trades ws);
     b_vaults := cf_ops fr (t_vaults t) (ws_vaults ws);
     b_vault_portfolio := cf_ops fr (t_vault_portfolio t) (ws_vault_portfolio ws);
     b_meta := [CfPut "last_block_num"%string (dec (ws_block_num ws)); CfPut "last_digest"%string (ws_digest ws)] |}.

(** [DBBatch::write]. *)
Definition batch_write (b : DBBatch) (t : IndexStateTables) : IndexStateTables :=
  {| t_meta := cf_write (b_meta b) (t_meta t);
     t_markets := cf_write (b_markets b) (t_markets t);
     t_orders := cf_write (b_orders b) (t_orders t);
     t_book_levels := cf_write (b_book_levels b) (t_book_levels t);
     t_book_meta := cf_write (b_book_meta b) (t_book_meta t);
     t_last_trades := cf_write (b_last_trades b) (t_last_trades t);
     t_vaults := cf_write (b_vaults b) (t_vaults t);
     t_vault_portfolio := cf_write (b_vault_portfolio b) (t_vault_portfolio t) |}.

Definition apply_index_write_set (t : IndexStateTables) (ws : IndexWriteSet) : IndexStateTables :=
  batch_write (build_index_write_batch t ws) t.

(** [read_meta] and [write_meta]. *)
Definition read_meta (t : IndexStateTables) : AppResult (option PersistMeta) :=
  match t_meta t !! "last_block_num"%string, t_meta t !! "last_digest"%string with
  | Some b, Some d =>
      match parse_u64 b with
      | Some n => Ok (Some {| pm_block_num := n; pm_digest := d |})
      | None => Err (Internal "bad last_block_num")
      end
  | _, _ => Ok None
  end.

Definition write_meta (t : IndexStateTables) (block_num : Z) (digest : string) : IndexStateTables :=
  {| t_meta := <["last_digest"%string := digest]> (<["last_block_num"%string := dec block_num]> (t_meta t));
     t_markets := t_markets t; t_orders := t_orders t; t_book_levels := t_book_levels t;
     t_book_meta := t_book_meta t; t_last_trades := t_last_trades t; t_vaults := t_vaults t;
     t_vault_portfolio := t_vault_portfolio t |}.

(** ** Loading; the iteration order is [map_to_list]'s *)

Definition load_markets (t : IndexStateTables) : list Market := (map_to_list (t_markets t)).*2.

Definition load_orders (t : IndexStateTables) : list PersistOrderRow :=
  (fun row => {| por_order := or_order row; por_user_address := or_user_address row;
                 por_chain_order_id := or_chain_order_id row; por_spot_market := or_spot_market row;
                 por_size_raw := as_u64 (or_size_raw row); por_filled_raw := as_u64 (or_filled_raw row);
                 por_status_ts_ms := 0 |}) <$> (map_to_list (t_orders t)).*2.

Definition load_last_trades (t : IndexStateTables) : list (string * Z) :=
  (fun p => (p.1, as_u64 p.2)) <$> map_to_list (t_last_trades t).

Definition load_book_levels (t : IndexStateTables) : list PersistBookLevel :=
  (fun p => {| pbl_spot_market := p.1.1.1; pbl_side := p.1.1.2; pbl_price_raw := as_u64 p.1.2;
               pbl_size_raw := as_u64 p.2 |}) <$> filter (fun p => ~ p.2 <= 0) (map_to_list (t_book_levels t)).

Definition load_book_meta (t : IndexStateTables) : list PersistBookMeta :=
  (fun p => {| pbm_spot_market := p.1; pbm_sequence := as_u64 (bm_sequence p.2);
               pbm_last_trade_price := as_u64 <$> bm_last_trade_price p.2 |}) <$> map_to_list (t_book_meta t).

Definition load_vaults (t : IndexStateTables) : list Vault := (map_to_list (t_vaults t)).*2.

Section Checkpoint.
Context {S : Sdk}.

Definition load_vault_portfolio (t : IndexStateTables) : list PersistVaultPortfolioRow :=
  (fun p => {| pvp_vault_id := p.1.1; pvp_spot_market := normalize_spot_market_key p.1.2;
               pvp_amount_raw := as_u64 p.2 |}) <$> filter (fun p => ~ p.2 <= 0) (map_to_list (t_vault_portfolio t)).

(** Inserting a list of rows, later rows over earlier ones. *)
Definition insert_all {A K V} `{Countable K} (key : A -> K) (val : A -> V) (l : list A) : gmap K V :=
  foldl (fun m a => <[key a := val a]> m) ∅ l.

(** [checkpoint]: wipe and write. *)
Definition checkpoint_ws (block_num : Z) (digest : string) (markets : list Market) (orders : list PersistOrderRow)
    (last_trades : list (string * Z)) (levels : list PersistBookLevel) (metas : list PersistBookMeta)
    (vaults : list Vault) (vault_portfolio : list PersistVaultPortfolioRow) : IndexWriteSet :=
  {| ws_block_num := block_num; ws_digest := digest; ws_full_replace := true;
     ws_markets := (insert_all (fun m => uuid_to_string (MarketOps.id m)) (fun m => m) markets, ∅);
     ws_orders := (insert_all (fun row => uuid_to_string (ord_id (por_order row)))
       (fun row => order_row_from_parts (por_order row) (por_user_address row) (por_chain_order_id row)
                     (por_spot_market row) (por_size_raw row) (por_filled_raw row)) orders, ∅);
     ws_book_levels := (insert_all
       (fun l => (normalize_spot_market_key (pbl_spot_market l), pbl_side l, as_i64 (pbl_price_raw l)))
       (fun l => as_i64 (pbl_size_raw l)) (filter (fun l => pbl_size_raw l <> 0) levels), ∅);
     ws_book_meta := (insert_all (fun m => normalize_spot_market_key (pbm_spot_market m))
       (fun m => {| bm_sequence := as_i64 (pbm_sequence m); bm_last_trade_price := as_i64 <$> pbm_last_trade_price m |}) metas, ∅);
     ws_last_trades := (insert_all (fun p => normalize_spot_market_key p.1) (fun p => as_i64 p.2) last_trades, ∅);
     ws_vaults := (insert_all (fun v => uuid_to_string (vlt_id v)) clear_portfolio vaults, ∅);
     ws_vault_portfolio := (insert_all
       (fun r => (pvp_vault_id r, normalize_spot_market_key (pvp_spot_market r)))
       (fun r => as_i64 (pvp_amount_raw r)) (filter (fun r => pvp_amount_raw r <> 0) vault_portfolio), ∅) |}.

Definition checkpoint (t : IndexStateTables) block_num digest markets orders last_trades levels metas vaults portfolio :
    IndexStateTables :=
  apply_index_write_set t (checkpoint_ws block_num digest markets orders last_trades levels metas vaults portfolio).

End Checkpoint.

(** ** What a write set means for the tables *)

Definition tables_apply (ws : IndexWriteSet) (t : IndexStateTables) : IndexStateTables :=
  {| t_meta := <["last_digest"%string := ws_digest ws]> (<["last_block_num"%string := dec (ws_block_num ws)]> (t_meta t));
     t_markets := delta_apply (ws_markets ws) (t_markets t);
     t_orders := delta_apply (ws_orders ws) (t_orders t);
     t_book_levels := delta_apply (ws_book_levels ws) (t_book_levels t);
     t_book_meta := delta_apply (ws_book_meta ws) (t_book_meta t);
     t_last_trades := delta_apply (ws_last_trades ws) (t_last_trades t);
     t_vaults := delta_apply (ws_vaults ws) (t_vaults t);
     t_vault_portfolio := delta_apply (ws_vault_portfolio ws) (t_vault_portfolio t) |}.

(** The live-state families emptied, the metadata kept. *)
Definition tables_clear (t : IndexStateTables) : IndexStateTables :=
  {| t_meta := t_meta t; t_markets := ∅; t_orders := ∅; t_book_levels := ∅; t_book_meta := ∅;
     t_last_trades := ∅; t_vaults := ∅; t_vault_portfolio := ∅ |}.

(** An incremental batch means the same whenever it was built. *)
Lemma incremental_batch t0 ws t :
  ws_full_replace ws = false -> batch_write (build_index_write_batch t0 ws) t = tables_apply ws t.
Proof.
  intros Hf. unfold batch_write, build_index_write_batch, tables_apply. simpl. rewrite Hf.
  by rewrite !cf_ops_delta.
Qed.

Lemma replace_batch ws t :
  ws_full_replace ws = true -> apply_index_write_set t ws = tables_apply ws (tables_clear t).
Proof.
  intros Hf. unfold apply_index_write_set, batch_write, build_index_write_batch, tables_apply. simpl. rewrite Hf.
  by rewrite !cf_ops_replace.
Qed.

Lemma tables_apply_merge ws other t :
  ws_wf other -> ws_block_num other = ws_block_num ws -> ws_digest other = ws_digest ws ->
  tables_apply (merge ws other) t = tables_apply other (tables_apply ws t).
Proof.
  intros [] Hn Hd. unfold tables_apply. simpl. rewrite !delta_merge_apply by done. f_equal.
  rewrite Hn, Hd. apply map_eq. intros i.
  destruct (decide (i = "last_digest"%string)) as [->|]; [by rewrite !lookup_insert_eq|].
  rewrite !(lookup_insert_ne _ "last_digest"%string) by done.
  destruct (decide (i = "last_block_num"%string)) as [->|]; [by rewrite !lookup_insert_eq|].
  by rewrite !(lookup_insert_ne _ "last_block_num"%string), !(lookup_insert_ne _ "last_digest"%string),
    (lookup_insert_ne _ "last_block_num"%string) by done.
Qed.

(** Merging two incremental write sets of a block and committing once is
    committing them one after the other. *)
Theorem merge_is_composition ws other t :
  ws_wf other -> ws_full_replace ws = false -> ws_full_replace other = false ->
  ws_block_num other = ws_block_num ws -> ws_digest other = ws_digest ws ->
  apply_index_write_set t (merge ws other) = apply_index_write_set (apply_index_write_set t ws) other.
Proof.
  intros Hwf Hf Ho Hn Hd. unfold apply_index_write_set.
  rewrite !incremental_batch by (simpl; rewrite ?Ho; done). by apply tables_apply_merge.
Qed.

(** The committed position reads back: after any write set is applied,
    incremental or full, the stored block number and digest are its own. *)
Lemma meta_after_apply t ws :
  is_u64 (ws_block_num ws) ->
  read_meta (apply_index_write_set t ws) = Ok (Some {| pm_block_num := ws_block_num ws; pm_digest := ws_digest ws |}).
Proof.
  intros Hn. unfold read_meta, apply_index_write_set, batch_write, build_index_write_batch, cf_write. simpl.
  rewrite lookup_insert_ne by done. rewrite !lookup_insert_eq. by rewrite parse_u64_dec.
Qed.

(** ** The ordered writer: build stage, bounded channel, write stage *)

Definition is_epoch_end (block_num epoch_length : Z) : bool :=
  bool_decide (0 < epoch_length) && bool_decide (as_u64 (block_num + 1) mod epoch_length = 0).

Record BuiltIndexBatch := { bb_block_num : Z; bb_digest : string; bb_batch : DBBatch }.

(** [wr_hand] is the batch the build stage holds until the channel has room;
    [wr_ckpts] are the epoch checkpoints, each a clone of the live tables. *)
Record Writer := {
  wr_rx : list IndexWriteSet;
  wr_hand : option BuiltIndexBatch;
  wr_chan : list BuiltIndexBatch;
  wr_db : IndexStateTables;
  wr_ckpts : list (Z * IndexStateTables)
}.

Definition writer_init (db : IndexStateTables) : Writer :=
  {| wr_rx := []; wr_hand := None; wr_chan := []; wr_db := db; wr_ckpts := [] |}.

Definition WRITER_CHANNEL : nat := 32.

Definition writer_enqueue (w : Writer) (ws : IndexWriteSet) : Writer :=
  {| wr_rx := wr_rx w ++ [ws]; wr_hand := wr_hand w; wr_chan := wr_chan w; wr_db := wr_db w; wr_ckpts := wr_ckpts w |}.

(** One turn of the build loop; [None] when it has to wait.  A batch that cannot
    be built ([built] is false) is logged and dropped. *)
Definition writer_build (built : bool) (w : Writer) : option Writer :=
  match wr_hand w, wr_rx w with
  | None, ws :: rx =>
      Some {| wr_rx := rx;
              wr_hand := if built
                         then Some {| bb_block_num := ws_block_num ws; bb_digest := ws_digest ws;
                                      bb_batch := build_index_write_batch (wr_db w) ws |}
                         else None;
              wr_chan := wr_chan w; wr_db := wr_db w; wr_ckpts := wr_ckpts w |}
  | _, _ => None
  end.

Definition writer_send (w : Writer) : option Writer :=
  match wr_hand w with
  | Some b =>
      if decide (length (wr_chan w) < WRITER_CHANNEL)%nat
      then Some {| wr_rx := wr_rx w; wr_hand := None; wr_chan := wr_chan w ++ [b]; wr_db := wr_db w; wr_ckpts := wr_ckpts w |}
      else None
  | None => None
  end.

(** What the database answers: the batch is committed and cloned if an epoch
    ends, the commit fails, or the clone after it does. *)
Inductive WriteOutcome := Committed | CommitFailed | CloneFailed.

(** One turn of the write loop; a failure is logged and the loop goes on. *)
Definition writer_write (epoch_enabled : bool) (epoch_length : Z) (outcome : WriteOutcome) (w : Writer) : option Writer :=
  match wr_chan w with
  | b :: chan =>
      let db := match outcome with CommitFailed => wr_db w | _ => batch_write (bb_batch b) (wr_db w) end in
      let do_epoch := epoch_enabled && is_epoch_end (bb_block_num b) epoch_length in
      Some {| wr_rx := wr_rx w; wr_hand := wr_hand w; wr_chan := chan; wr_db := db;
              wr_ckpts := match outcome with
                          | Committed => if do_epoch then wr_ckpts w ++ [(bb_block_num b, db)] else wr_ckpts w
                          | _ => wr_ckpts w
                          end |}
  | [] => None
  end.

Inductive WriterEvent :=
| WEnqueue (ws : IndexWriteSet)
| WBuild (built : bool)
| WSend
| WWrite (epoch_enabled : bool) (outcome : WriteOutcome).

Definition writer_step (epoch_length : Z) (w : Writer) (e : WriterEvent) : option Writer :=
  match e with
  | WEnqueue ws => Some (writer_enqueue w ws)
  | WBuild built => writer_build built w
  | WSend => writer_send w
  | WWrite epoch_enabled outcome => writer_write epoch_enabled epoch_length outcome w
  end.

(** What became of the write sets handed over: those committed, those built and
    on their way, those whose batch or commit failed. *)
Record Fate := {
  ft_log : list IndexWriteSet;
  ft_committed : list IndexWriteSet;
  ft_flight : list IndexWriteSet;
  ft_lost : list IndexWriteSet
}.
Definition Fate_new : Fate := {| ft_log := []; ft_committed := []; ft_flight := []; ft_lost := [] |}.

Definition fate_step (w : Writer) (e : WriterEvent) (f : Fate) : Fate :=
  let next := option_list (head (wr_rx w)) in
  let front := option_list (head (ft_flight f)) in
  match e with
  | WEnqueue ws => {| ft_log := ft_log f ++ [ws]; ft_committed := ft_committed f; ft_flight := ft_flight f; ft_lost := ft_lost f |}
  | WBuild true => {| ft_log := ft_log f; ft_committed := ft_committed f; ft_flight := ft_flight f ++ next; ft_lost := ft_lost f |}
  | WBuild false => {| ft_log := ft_log f; ft_committed := ft_committed f; ft_flight := ft_flight f; ft_lost := ft_lost f ++ next |}
  | WSend => f
  | WWrite _ CommitFailed =>
      {| ft_log := ft_log f; ft_committed := ft_committed f; ft_flight := tail (ft_flight f); ft_lost := ft_lost f ++ front |}
  | WWrite _ _ =>
      {| ft_log := ft_log f; ft_committed := ft_committed f ++ front; ft_flight := tail (ft_flight f); ft_lost := ft_lost f |}
  end.

(** Every interleaving of the requests and the two tasks, with every outcome. *)
Inductive writer_run (epoch_length : Z) (db0 : IndexStateTables) : Fate -> Writer -> Prop :=
| run_init : writer_run epoch_length db0 Fate_new (writer_init db0)
| run_step f w e w' :
    writer_run epoch_length db0 f w -> writer_step epoch_length w e = Some w' -> writer_run epoch_length db0 (fate_step w e f) w'.

(** The tables after a list of write sets. *)
Definition replay (db : IndexStateTables) (log : list IndexWriteSet) : IndexStateTables :=
  foldl (fun t ws => tables_apply ws t) db log.

Lemma replay_snoc db log ws : replay db (log ++ [ws]) = tables_apply ws (replay db log).
Proof. unfold replay. by rewrite foldl_app. Qed.

Definition built_from (ws : IndexWriteSet) (b : BuiltIndexBatch) : Prop :=
  bb_block_num b = ws_block_num ws /\ forall t, batch_write (bb_batch b) t = tables_apply ws t.

Definition ckpt_ok (epoch_length : Z) (db0 : IndexStateTables) (log : list IndexWriteSet) (c : Z * IndexStateTables) : Prop :=
  exists past ws, (past ++ [ws]) `prefix_of` log /\ c = (ws_block_num ws, replay db0 (past ++ [ws])) /\
    is_epoch_end (ws_block_num ws) epoch_length = true.

Record writer_inv (epoch_length : Z) (db0 : IndexStateTables) (f : Fate) (w : Writer) : Prop := {
  wi_order : ft_committed f ++ ft_flight f ++ wr_rx w `sublist_of` ft_log f;
  wi_all : ft_log f ≡ₚ ft_committed f ++ ft_flight f ++ wr_rx w ++ ft_lost f;
  wi_db : wr_db w = replay db0 (ft_committed f);
  wi_flight : Forall2 built_from (ft_flight f) (wr_chan w ++ option_list (wr_hand w));
  wi_ckpts : Forall (ckpt_ok epoch_length db0 (ft_committed f)) (wr_ckpts w)
}.

Lemma ckpt_ok_extend n db0 log log' c : log `prefix_of` log' -> ckpt_ok n db0 log c -> ckpt_ok n db0 log' c.
Proof. intros Hp (past & ws & H1 & H2). exists past, ws. split; [by etrans|done]. Qed.

Lemma sublist_drop_mid {A} (l1 : list A) x l2 : l1 ++ l2 `sublist_of` l1 ++ x :: l2.
Proof. apply sublist_app; [done|]. by apply sublist_cons. Qed.

Lemma fate_log w e f : exists more, ft_log (fate_step w e f) = ft_log f ++ more.
Proof. destruct e as [ws|[]| |e []]; simpl; first [by exists [ws]|exists []; by rewrite app_nil_r]. Qed.

Lemma writer_inv_build n db0 f w built w' :
  Forall (fun ws => ws_full_replace ws = false) (ft_log f) -> writer_inv n db0 f w -> writer_build built w = Some w' ->
  writer_inv n db0 (fate_step w (WBuild built) f) w'.
Proof.
  intros Hf [I1 I2 I3 I4 I5] Hs. unfold writer_build in Hs. destruct (wr_hand w) eqn:Eh; [done|].
  destruct (wr_rx w) as [|ws rx] eqn:Erx; [done|]. injection Hs as <-. rewrite app_nil_r in I4.
  assert (ws_full_replace ws = false) as Hw.
  { rewrite Forall_forall in Hf. apply Hf. rewrite I2, !elem_of_app, elem_of_cons. auto. }
  destruct built; split; simpl; rewrite ?Erx; simpl; try done.
  - by rewrite <- app_assoc.
  - by rewrite <- app_assoc.
  - apply Forall2_app; [done|]. constructor; [|constructor]. split; [done|]. intros t. simpl. by apply incremental_batch.
  - etrans; [|exact I1]. rewrite !app_assoc. apply sublist_drop_mid.
  - rewrite I2. do 2 f_equiv. simpl. by rewrite app_assoc, <- Permutation_cons_append.
  - by rewrite app_nil_r.
Qed.

Lemma writer_inv_write n db0 f w e outcome w' :
  writer_inv n db0 f w -> writer_write e n outcome w = Some w' -> writer_inv n db0 (fate_step w (WWrite e outcome) f) w'.
Proof.
  intros [I1 I2 I3 I4 I5] Hs. unfold writer_write in Hs. destruct (wr_chan w) as [|b chan] eqn:Ec; [done|]. injection Hs as <-.
  inversion I4 as [|ws b' flight rest [Hn Hb] I4' Ef]; subst. rewrite <- Ef in I1, I2.
  assert (batch_write (bb_batch b) (wr_db w) = replay db0 (ft_committed f ++ [ws])) as Ed by (by rewrite replay_snoc, I3, Hb).
  assert (Forall (ckpt_ok n db0 (ft_committed f ++ [ws])) (wr_ckpts w)) as I5'.
  { eapply Forall_impl; [exact I5|]. intros c. apply ckpt_ok_extend. by apply prefix_app_r. }
  destruct outcome; split; simpl; rewrite <- ?Ef; simpl; rewrite <- ?app_assoc; try done.
  - destruct (e && is_epoch_end (bb_block_num b) n) eqn:Ee; [|done].
    apply Forall_app. split; [done|]. constructor; [|constructor]. apply andb_prop in Ee as [_ Ee].
    exists (ft_committed f), ws. rewrite Ed, <- Hn. by split_and!.
  - etrans; [apply sublist_drop_mid|exact I1].
  - rewrite I2. f_equiv. simpl. by rewrite !app_assoc, <- Permutation_cons_append.
Qed.

Lemma writer_run_inv n db0 f w :
  writer_run n db0 f w -> Forall (fun ws => ws_full_replace ws = false) (ft_log f) -> writer_inv n db0 f w.
Proof.
  induction 1 as [|f w e w' _ IH Hs]; intros Hf; [by split; simpl; repeat constructor|].
  assert (Forall (fun ws => ws_full_replace ws = false) (ft_log f)) as Hf'.
  { destruct (fate_log w e f) as [more E]. rewrite E in Hf. by apply Forall_app in Hf as [? _]. }
  specialize (IH Hf'). destruct e as [ws|built| |e outcome]; simpl in Hs.
  - injection Hs as <-. destruct IH as [I1 I2 I3 I4 I5]. split; simpl; try done.
    + rewrite !app_assoc. apply sublist_app; [|done]. by rewrite <- !app_assoc.
    + rewrite I2, <- !app_assoc. do 3 f_equiv. by rewrite <- Permutation_cons_append.
  - by eapply writer_inv_build.
  - destruct IH as [I1 I2 I3 I4 I5]. unfold writer_send in Hs. destruct (wr_hand w) as [b|] eqn:Eh; [|done]. case_decide; [|done].
    injection Hs as <-. split; simpl; try done. by rewrite app_nil_r.
  - by eapply writer_inv_write.
Qed.

(** C3: the index writer keeps order and loses only what failed.  For incremental
    write sets, under every interleaving of the build and write tasks and every
    outcome of the database: the tables are the replay of the sets committed, in
    the order they were handed over; each set handed over is committed, on its
    way, or one whose batch could not be built or committed; if none has failed
    the sets committed are a prefix of those handed over; and every epoch
    checkpoint is the replay of the sets committed up to an epoch-end block. *)
Theorem writer_prefix_consistent epoch_length db0 f w :
  writer_run epoch_length db0 f w -> Forall (fun ws => ws_full_replace ws = false) (ft_log f) ->
  wr_db w = replay db0 (ft_committed f) /\
  ft_committed f ++ ft_flight f ++ wr_rx w `sublist_of` ft_log f /\
  ft_log f ≡ₚ ft_committed f ++ ft_flight f ++ wr_rx w ++ ft_lost f /\
  length (ft_flight f) = (length (wr_chan w) + length (option_list (wr_hand w)))%nat /\
  (ft_lost f = [] -> ft_log f = ft_committed f ++ ft_flight f ++ wr_rx w) /\
  Forall (ckpt_ok epoch_length db0 (ft_committed f)) (wr_ckpts w).
Proof.
  intros Hrun Hf. destruct (writer_run_inv _ _ _ _ Hrun Hf) as [I1 I2 I3 I4 I5]. split_and!; try done.
  - apply Forall2_length in I4. by rewrite length_app in I4.
  - intros El. rewrite El, app_nil_r in I2. symmetry. apply sublist_full; [done|]. by rewrite I2.
Qed.

(** The writer never gets stuck: while anything is in flight one of the
    tasks can move, whatever the database answers. *)
Theorem writer_progress built e n outcome w :
  (wr_rx w <> [] \/ wr_chan w <> [] \/ wr_hand w <> None) ->
  is_Some (writer_build built w) \/ is_Some (writer_send w) \/ is_Some (writer_write e n outcome w).
Proof.
  intros Hw. unfold writer_build, writer_send, writer_write, WRITER_CHANNEL.
  destruct (wr_chan w) as [|b chan]; [|right; right; by eexists].
  destruct (wr_hand w) as [b|]; [right; left; simpl; by eexists|].
  destruct (wr_rx w) as [|ws rx]; [|left; by eexists]. naive_solver.
Qed.

(** Runs can be computed. *)
Fixpoint writer_events (n : Z) (st : Fate * Writer) (es : list WriterEvent) : option (Fate * Writer) :=
  match es with
  | [] => Some st
  | e :: es => w ← writer_step n st.2 e; writer_events n (fate_step st.2 e st.1, w) es
  end.

Lemma writer_events_run n db0 st st' es :
  writer_run n db0 st.1 st.2 -> writer_events n st es = Some st' -> writer_run n db0 st'.1 st'.2.
Proof.
  revert st. induction es as [|e es IH]; intros st Hr; simpl; [by intros [= <-]|].
  destruct (writer_step n st.2 e) as [w|] eqn:E; [|done]. simpl. apply IH. by eapply run_step.
Qed.

(** A full replacement built while an earlier batch is still in the channel
    does not wipe what that batch then writes. *)
Definition stale_first : IndexWriteSet :=
  with_last_trades (fun d => delta_store d "m1"%string 5) (ws_default 1 "d1" false).
Definition stale_second : IndexWriteSet := ws_default 2 "d2" true.

Definition stale_run : option (Fate * Writer) :=
  writer_events 0 (Fate_new, writer_init tables_empty)
    [WEnqueue stale_first; WEnqueue stale_second; WBuild true; WSend; WBuild true; WSend; WWrite false Committed; WWrite false Committed].

Lemma full_replace_built_early :
  exists f w, writer_run 0 tables_empty f w /\ ft_committed f = [stale_first; stale_second] /\
    t_last_trades (wr_db w) !! "m1"%string = Some 5 /\
    t_last_trades (apply_index_write_set (apply_index_write_set tables_empty stale_first) stale_second) !! "m1"%string = None.
Proof.
  destruct stale_run as [[f w]|] eqn:E; [|vm_compute in E; discriminate E]. exists f, w.
  split; [exact (writer_events_run 0 tables_empty (Fate_new, writer_init tables_empty) (f, w) _ (run_init 0 tables_empty) E)|].
  vm_compute in E. injection E as <- <-. split_and!; vm_compute; reflexivity.
Qed.

Lemma merge_is_composition_witness :
  apply_index_write_set tables_empty (merge stale_first (with_last_trades (fun d => delta_delete d "m1"%string) (ws_default 1 "d1" false))) =
  apply_index_write_set (apply_index_write_set tables_empty stale_first) (with_last_trades (fun d => delta_delete d "m1"%string) (ws_default 1 "d1" false)).
Proof.
  apply merge_is_composition; try reflexivity. split; simpl; auto with clob.
Defined.

(** The commit of the first set fails, the second is committed. *)
Definition lossy_run : option (Fate * Writer) :=
  writer_events 10 (Fate_new, writer_init tables_empty)
    [WEnqueue stale_first; WEnqueue (ws_default 3 "d3" false); WBuild true; WSend; WBuild true; WWrite false CommitFailed; WSend;
     WWrite true Committed].

Lemma writer_prefix_consistent_witness :
  match lossy_run with
  | Some (f, w) => wr_db w = replay tables_empty (ft_committed f) /\ ft_committed f = [ws_default 3 "d3" false] /\ ft_lost f = [stale_first]
  | None => False
  end.
Proof.
  destruct lossy_run as [[f w]|] eqn:E; [|vm_compute in E; discriminate E].
  assert (Hr := writer_events_run 10 tables_empty (Fate_new, writer_init tables_empty) (f, w) _ (run_init 10 tables_empty) E).
  assert (f = {| ft_log := [stale_first; ws_default 3 "d3" false]; ft_committed := [ws_default 3 "d3" false]; ft_flight := [];
                 ft_lost := [stale_first] |}) as Ef by (vm_compute in E; by injection E as <- <-).
  split; [|by rewrite Ef]. apply (writer_prefix_consistent 10 tables_empty f w Hr). rewrite Ef. by repeat constructor.
Defined.

Lemma writer_progress_witness :
  is_Some (writer_build false (writer_enqueue (writer_init tables_empty) stale_first)) \/
  is_Some (writer_send (writer_enqueue (writer_init tables_empty) stale_first)) \/
  is_Some (writer_write true 10 Committed (writer_enqueue (writer_init tables_empty) stale_first)).
Proof. apply writer_progress. by left. Defined.
