(* ===== verification/Books.v ===== *)
(** * Books: [indexer/books.rs], the order books kept per spot market

    A [BTreeMap] of price to size is a [gmap]; iteration in key order is
    [sorted_levels].  The two broadcast channels of a market are the logs of
    the messages sent.  The optional [&mut IndexWriteSet] is threaded through.
    A poisoned lock is not modelled. *)
From S2P Require Import Prelude Text Sdk Keys Amounts Domain WriteSet.

Local Open Scope list_scope.
Local Open Scope Z_scope.

Definition RECENT_TRADE_LIMIT : nat := 50.

(** ** Data of [books.rs] and of [ws/models] *)

Inductive OrderSide := Buy | Sell.

#[global] Instance OrderSide_eq_dec : EqDecision OrderSide.
Proof. solve_decision. Defined.

Definition side_str (s : OrderSide) : string := match s with Buy => "buy" | Sell => "sell" end.

Record FillKey := { fk_block_num : Z; fk_price_raw : Z; fk_size_raw : Z }.

#[global] Instance FillKey_eq_dec : EqDecision FillKey.
Proof. solve_decision. Defined.

Record RecentTrade := {
  rt_id : Z;
  rt_side : string;
  rt_price : string;
  rt_size : string;
  rt_time_ms : Z;
  rt_block_num : Z
}.

Record BookLevelDelta := { bld_price : string; bld_size : string }.

Record OrderBookDelta := {
  obd_msg_type : string;
  obd_spot_market : string;
  obd_sequence : Z;
  obd_block_num : Z;
  obd_bids : list BookLevelDelta;
  obd_asks : list BookLevelDelta;
  obd_last_trade_price : option string;
  obd_trade : option RecentTrade
}.

Record OrderBookSnapshot := {
  obs_msg_type : string;
  obs_spot_market : string;
  obs_sequence : Z;
  obs_bids : list BookLevel;
  obs_asks : list BookLevel;
  obs_last_trade_price : option string
}.

Record QuoteDelta := {
  qd_msg_type : string;
  qd_spot_market : string;
  qd_sequence : Z;
  qd_block_num : Z;
  qd_best_bid : option BookLevel;
  qd_best_ask : option BookLevel;
  qd_last_trade_price : option string
}.

Record QuoteSnapshot := {
  qs_msg_type : string;
  qs_spot_market : string;
  qs_sequence : Z;
  qs_best_bid : option BookLevel;
  qs_best_ask : option BookLevel;
  qs_last_trade_price : option string
}.

(** A price level as the chain reports it; the fields of [GetOrderBook] used. *)
Record ChainLevel := { cl_price : Z; cl_total_quantity : Z }.
Record GetOrderBook := { best_bids : list ChainLevel; best_asks : list ChainLevel }.

Record SpotBook := {
  bids : gmap Z Z;
  asks : gmap Z Z;
  sequence : Z;
  last_trade_price : option Z;
  chain_hydrated : bool;
  last_fill : option FillKey;
  trades : list RecentTrade
}.

Definition SpotBook_default : SpotBook :=
  {| bids := ∅; asks := ∅; sequence := 0; last_trade_price := None; chain_hydrated := false;
     last_fill := None; trades := [] |}.

Record MarketShard := {
  ms_spot_market : string;
  ms_book : SpotBook;
  ms_orderbook_tx : list OrderBookDelta;
  ms_quote_tx : list QuoteDelta
}.

Definition MarketShard_new (spot_market : string) : MarketShard :=
  {| ms_spot_market := spot_market; ms_book := SpotBook_default; ms_orderbook_tx := []; ms_quote_tx := [] |}.

Record Books := { shards : gmap string MarketShard; trade_seq : Z }.

Definition Books_new : Books := {| shards := ∅; trade_seq := 0 |}.
Definition Books_clear (b : Books) : Books := {| shards := ∅; trade_seq := 0 |}.

(** ** Levels *)

Definition levels_of (side : OrderSide) (book : SpotBook) : gmap Z Z :=
  match side with Buy => bids book | Sell => asks book end.

Definition set_levels (side : OrderSide) (levels : gmap Z Z) (book : SpotBook) : SpotBook :=
  match side with
  | Buy => {| bids := levels; asks := asks book; sequence := sequence book; last_trade_price := last_trade_price book;
              chain_hydrated := chain_hydrated book; last_fill := last_fill book; trades := trades book |}
  | Sell => {| bids := bids book; asks := levels; sequence := sequence book; last_trade_price := last_trade_price book;
               chain_hydrated := chain_hydrated book; last_fill := last_fill book; trades := trades book |}
  end.

Definition set_sequence_price (seq : Z) (price : option Z) (book : SpotBook) : SpotBook :=
  {| bids := bids book; asks := asks book; sequence := seq; last_trade_price := price;
     chain_hydrated := chain_hydrated book; last_fill := last_fill book; trades := trades book |}.

Definition set_fill_trades (fill : option FillKey) (tr : list RecentTrade) (book : SpotBook) : SpotBook :=
  {| bids := bids book; asks := asks book; sequence := sequence book; last_trade_price := last_trade_price book;
     chain_hydrated := chain_hydrated book; last_fill := fill; trades := tr |}.

Definition level_le (p q : Z * Z) : Prop := p.1 <= q.1.
#[global] Instance level_le_dec p q : Decision (level_le p q).
Proof. unfold level_le. apply _. Defined.

(** [BTreeMap::iter]: ascending price. *)
Definition sorted_levels (m : gmap Z Z) : list (Z * Z) := merge_sort level_le (map_to_list m).

Section Books.
Context {S : Sdk}.

Definition to_level (p : Z * Z) : BookLevel :=
  {| lvl_price := format_price_pieces p.1; lvl_size := format_token_amount p.2 |}.

Definition quote_from_book (spot_market : string) (block_num : Z) (book : SpotBook) : QuoteDelta :=
  {| qd_msg_type := "quote"; qd_spot_market := spot_market; qd_sequence := sequence book; qd_block_num := block_num;
     qd_best_bid := to_level <$> last (sorted_levels (bids book));
     qd_best_ask := to_level <$> head (sorted_levels (asks book));
     qd_last_trade_price := format_price_pieces <$> last_trade_price book |}.

Definition book_to_quote_snapshot (spot_market : string) (book : SpotBook) : QuoteSnapshot :=
  let quote := quote_from_book spot_market 0 book in
  {| qs_msg_type := "quote_snapshot"; qs_spot_market := qd_spot_market quote; qs_sequence := qd_sequence quote;
     qs_best_bid := qd_best_bid quote; qs_best_ask := qd_best_ask quote;
     qs_last_trade_price := qd_last_trade_price quote |}.

Definition book_to_response (book : SpotBook) (depth : nat) : BookSnapshot :=
  {| snap_sequence := sequence book;
     snap_bids := to_level <$> take depth (reverse (sorted_levels (bids book)));
     snap_asks := to_level <$> take depth (sorted_levels (asks book));
     snap_last_trade_price := format_price_pieces <$> last_trade_price book |}.

Definition book_to_ws_snapshot (spot_market : string) (book : SpotBook) (depth : nat) : OrderBookSnapshot :=
  let response := book_to_response book depth in
  {| obs_msg_type := "orderbook_snapshot"; obs_spot_market := spot_market; obs_sequence := snap_sequence response;
     obs_bids := snap_bids response; obs_asks := snap_asks response;
     obs_last_trade_price := snap_last_trade_price response |}.

(** The common core of created, cancelled, updated and filled orders. *)
Definition apply_level_change (book : SpotBook) (spot_market : string) (side : OrderSide)
    (price_raw amount_raw : Z) (is_add : bool) (block_num : Z) (trade_price : option Z)
    (ws : option IndexWriteSet) : SpotBook * option IndexWriteSet * OrderBookDelta :=
  let levels := levels_of side book in
  let current := default 0 (levels !! price_raw) in
  let next := if is_add then sat_add current amount_raw else sat_sub current amount_raw in
  let levels' := if decide (next = 0) then delete price_raw levels else <[price_raw := next]> levels in
  let ws1 := (fun w =>
    if decide (next = 0) then delete_book_level w spot_market (side_str side) (as_i64 price_raw)
    else store_book_level w spot_market (side_str side) (as_i64 price_raw) (as_i64 next)) <$> ws in
  let level_delta :=
    {| bld_price := format_price_pieces price_raw;
       bld_size := if decide (next = 0) then "0"%string else format_token_amount next |} in
  let seq := sat_add (sequence book) 1 in
  let last := match trade_price with Some p => Some p | None => last_trade_price book end in
  let book' := set_sequence_price seq last (set_levels side levels' book) in
  let ws2 := (fun w => store_book_meta w spot_market
    {| bm_sequence := as_i64 seq; bm_last_trade_price := as_i64 <$> last |}) <$> ws1 in
  (book', ws2,
   {| obd_msg_type := "orderbook_delta"; obd_spot_market := spot_market; obd_sequence := seq; obd_block_num := block_num;
      obd_bids := match side with Buy => [level_delta] | Sell => [] end;
      obd_asks := match side with Buy => [] | Sell => [level_delta] end;
      obd_last_trade_price := format_price_pieces <$> last; obd_trade := None |}).

(** [push_trade]: [now_ms] is the wall clock, used when the block has no time. *)
Definition push_trade (seq : Z) (book : SpotBook) (side : OrderSide) (price_raw size_raw block_num : Z)
    (trade_time_ms : option Z) (now_ms : Z) : Z * SpotBook * RecentTrade :=
  let id := sat_add seq 1 in
  let time_ms := match trade_time_ms with Some ms => if decide (0 < ms) then ms else now_ms | None => now_ms end in
  let trade := {| rt_id := id; rt_side := side_str side; rt_price := format_price_pieces price_raw;
                  rt_size := format_token_amount size_raw; rt_time_ms := time_ms; rt_block_num := block_num |} in
  (as_u64 (seq + 1),
   set_fill_trades (last_fill book) (pop_back_while RECENT_TRADE_LIMIT (trade :: trades book)) book, trade).

(** [delta.trade = Some(trade)]. *)
Definition set_trade (trade : option RecentTrade) (delta : OrderBookDelta) : OrderBookDelta :=
  {| obd_msg_type := obd_msg_type delta; obd_spot_market := obd_spot_market delta;
     obd_sequence := obd_sequence delta; obd_block_num := obd_block_num delta;
     obd_bids := obd_bids delta; obd_asks := obd_asks delta;
     obd_last_trade_price := obd_last_trade_price delta; obd_trade := trade |}.

(** ** Shards *)

(** [shard]: the market's shard, created when missing. *)
Definition shard (b : Books) (spot_market : string) : MarketShard :=
  let key := normalize_spot_market_key spot_market in
  default (MarketShard_new key) (shards b !! key).

Definition try_shard (b : Books) (spot_market : string) : option MarketShard :=
  shards b !! normalize_spot_market_key spot_market.

Definition put_shard (b : Books) (spot_market : string) (sh : MarketShard) : Books :=
  {| shards := <[normalize_spot_market_key spot_market := sh]> (shards b); trade_seq := trade_seq b |}.

Definition set_book (sh : MarketShard) (book : SpotBook) : MarketShard :=
  {| ms_spot_market := ms_spot_market sh; ms_book := book; ms_orderbook_tx := ms_orderbook_tx sh; ms_quote_tx := ms_quote_tx sh |}.

(** [publish_delta], when publishing is on: the delta, then the quote. *)
Definition publish_delta (publish_ws : bool) (sh : MarketShard) (delta : OrderBookDelta) (quote : QuoteDelta) : MarketShard :=
  if publish_ws then
    {| ms_spot_market := ms_spot_market sh; ms_book := ms_book sh;
       ms_orderbook_tx := ms_orderbook_tx sh ++ [delta]; ms_quote_tx := ms_quote_tx sh ++ [quote] |}
  else sh.

(** The body shared by the handlers: change one level, then publish. *)
Definition change_level (b : Books) (spot_market : string) (side : OrderSide) (price_raw amount_raw : Z) (is_add : bool)
    (block_num : Z) (publish_ws : bool) (ws : option IndexWriteSet) : Books * option IndexWriteSet :=
  let sh := shard b spot_market in
  let '(book, ws', delta) :=
    apply_level_change (ms_book sh) (ms_spot_market sh) side price_raw amount_raw is_add block_num None ws in
  let quote := quote_from_book (ms_spot_market sh) (obd_block_num delta) book in
  (put_shard b spot_market (publish_delta publish_ws (set_book sh book) delta quote), ws').

Definition apply_created (b : Books) (spot_market : string) (side : OrderSide) (price_raw amount_raw block_num : Z)
    (publish_ws : bool) (ws : option IndexWriteSet) : Books * option IndexWriteSet :=
  if decide (price_raw = 0 \/ amount_raw = 0) then (b, ws)
  else change_level b spot_market side price_raw amount_raw true block_num publish_ws ws.

Definition apply_cancelled (b : Books) (spot_market : string) (side : OrderSide) (price_raw amount_raw block_num : Z)
    (publish_ws : bool) (ws : option IndexWriteSet) : Books * option IndexWriteSet :=
  if decide (price_raw = 0 \/ amount_raw = 0) then (b, ws)
  else change_level b spot_market side price_raw amount_raw false block_num publish_ws ws.

Definition apply_updated (b : Books) (spot_market : string) (side : OrderSide)
    (price_raw old_amount_raw new_amount_raw new_remaining_raw block_num : Z)
    (publish_ws : bool) (ws : option IndexWriteSet) : Books * option IndexWriteSet :=
  if decide (price_raw = 0) then (b, ws)
  else
    let filled := sat_sub new_amount_raw new_remaining_raw in
    let old_remaining_raw := sat_sub old_amount_raw filled in
    if decide (old_remaining_raw = new_remaining_raw) then (b, ws)
    else if decide (old_remaining_raw < new_remaining_raw)
    then change_level b spot_market side price_raw (new_remaining_raw - old_remaining_raw) true block_num publish_ws ws
    else change_level b spot_market side price_raw (old_remaining_raw - new_remaining_raw) false block_num publish_ws ws.

Definition apply_filled (b : Books) (spot_market : string) (side : OrderSide) (price_raw fill_amount_raw block_num trade_price : Z)
    (publish_ws : bool) (ws : option IndexWriteSet) (trade_time_ms : option Z) (now_ms : Z) : Books * option IndexWriteSet :=
  if decide (price_raw = 0 \/ fill_amount_raw = 0) then (b, ws)
  else
    let sh := shard b spot_market in
    let '(book1, ws', delta) :=
      apply_level_change (ms_book sh) (ms_spot_market sh) side price_raw fill_amount_raw false block_num (Some trade_price) ws in
    let fill_key := {| fk_block_num := block_num; fk_price_raw := price_raw; fk_size_raw := fill_amount_raw |} in
    let duplicate := bool_decide (last_fill book1 = Some fill_key) in
    let book2 := set_fill_trades (Some fill_key) (trades book1) book1 in
    let '(seq, book3, trade) :=
      if duplicate then (trade_seq b, book2, None)
      else let '(seq, book3, tr) := push_trade (trade_seq b) book2 side price_raw fill_amount_raw block_num trade_time_ms now_ms in
           (seq, book3, Some tr) in
    let delta' := set_trade trade delta in
    let quote := quote_from_book (ms_spot_market sh) (obd_block_num delta') book3 in
    let b' := put_shard b spot_market (publish_delta publish_ws (set_book sh book3) delta' quote) in
    ({| shards := shards b'; trade_seq := seq |}, ws').

(** ** Hydration, export and import *)

(** The levels with a quantity, later ones over earlier ones, and their stores. *)
Definition hydrate_levels (spot_market : string) (side : OrderSide) (chain : list ChainLevel)
    (st : gmap Z Z * option IndexWriteSet) : gmap Z Z * option IndexWriteSet :=
  foldl (fun st level =>
    if decide (0 < cl_total_quantity level)
    then (<[cl_price level := cl_total_quantity level]> st.1,
          (fun w => store_book_level w spot_market (side_str side) (as_i64 (cl_price level)) (as_i64 (cl_total_quantity level))) <$> st.2)
    else st) st chain.

Definition delete_levels (spot_market : string) (side : OrderSide) (levels : gmap Z Z) (w : IndexWriteSet) : IndexWriteSet :=
  foldl (fun w p => delete_book_level w spot_market (side_str side) (as_i64 p.1)) w (sorted_levels levels).

Definition hydrate_from_chain (b : Books) (spot_market : string) (chain_book : GetOrderBook)
    (trade_price : option Z) (ws : option IndexWriteSet) : Books * option IndexWriteSet :=
  let sh := shard b spot_market in
  let book := ms_book sh in
  let name := ms_spot_market sh in
  let ws0 := (fun w => delete_levels name Sell (asks book) (delete_levels name Buy (bids book) w)) <$> ws in
  let '(bids', ws1) := hydrate_levels name Buy (best_bids chain_book) (∅, ws0) in
  let '(asks', ws2) := hydrate_levels name Sell (best_asks chain_book) (∅, ws1) in
  let seq := sat_add (sequence book) 1 in
  let last := match trade_price with Some p => Some p | None => last_trade_price book end in
  let book' := {| bids := bids'; asks := asks'; sequence := seq; last_trade_price := last; chain_hydrated := true;
                  last_fill := last_fill book; trades := trades book |} in
  let ws3 := (fun w => store_book_meta w name
    {| bm_sequence := as_i64 seq; bm_last_trade_price := as_i64 <$> last |}) <$> ws2 in
  (put_shard b spot_market (set_book sh book'), ws3).

Definition export_shard (sh : MarketShard) : list PersistBookLevel * PersistBookMeta :=
  let lv side p := {| pbl_spot_market := ms_spot_market sh; pbl_side := side_str side; pbl_price_raw := p.1; pbl_size_raw := p.2 |} in
  ((lv Buy <$> sorted_levels (bids (ms_book sh))) ++ (lv Sell <$> sorted_levels (asks (ms_book sh))),
   {| pbm_spot_market := ms_spot_market sh; pbm_sequence := sequence (ms_book sh);
      pbm_last_trade_price := last_trade_price (ms_book sh) |}).

Definition exported (only_spots : option (list string)) (sh : MarketShard) : bool :=
  match only_spots with Some spots => bool_decide (ms_spot_market sh ∈ spots) | None => true end.

(** [export_for_persist_spots]; shards come in [map_to_list] order. *)
Definition export_for_persist_spots (b : Books) (only_spots : option (list string)) : list PersistBookLevel * list PersistBookMeta :=
  let picked := filter (fun sh => exported only_spots sh = true) (map_to_list (shards b)).*2 in
  (picked ≫= (fun sh => (export_shard sh).1), (fun sh => (export_shard sh).2) <$> picked).

Definition export_for_persist (b : Books) : list PersistBookLevel * list PersistBookMeta := export_for_persist_spots b None.

Definition import_meta (b : Books) (meta : PersistBookMeta) : Books :=
  let sh := shard b (pbm_spot_market meta) in
  let book := ms_book sh in
  put_shard b (pbm_spot_market meta) (set_book sh
    {| bids := bids book; asks := asks book; sequence := pbm_sequence meta; last_trade_price := pbm_last_trade_price meta;
       chain_hydrated := true; last_fill := last_fill book; trades := trades book |}).

Definition import_level (b : Books) (level : PersistBookLevel) : Books :=
  if decide (pbl_size_raw level = 0) then b
  else
    let sh := shard b (pbl_spot_market level) in
    let book := ms_book sh in
    let book1 :=
      if decide (pbl_side level = "buy"%string) then set_levels Buy (<[pbl_price_raw level := pbl_size_raw level]> (bids book)) book
      else if decide (pbl_side level = "sell"%string) then set_levels Sell (<[pbl_price_raw level := pbl_size_raw level]> (asks book)) book
      else book in
    put_shard b (pbl_spot_market level) (set_book sh
      {| bids := bids book1; asks := asks book1; sequence := sequence book1; last_trade_price := last_trade_price book1;
         chain_hydrated := true; last_fill := last_fill book1; trades := trades book1 |}).

Definition import_from_persist (b : Books) (levels : list PersistBookLevel) (metas : list PersistBookMeta) : Books :=
  foldl import_level (foldl import_meta {| shards := ∅; trade_seq := trade_seq b |} metas) levels.

(** ** Queries *)

Definition books_subscribe (b : Books) (spot_market : string) : Books := put_shard b spot_market (shard b spot_market).
Definition snapshot (b : Books) (spot_market : string) (depth : nat) : option BookSnapshot :=
  sh ← try_shard b spot_market; Some (book_to_response (ms_book sh) depth).
Definition ws_snapshot (b : Books) (spot_market : string) (depth : nat) : option OrderBookSnapshot :=
  sh ← try_shard b spot_market; Some (book_to_ws_snapshot (ms_spot_market sh) (ms_book sh) depth).
Definition ws_quote_snapshot (b : Books) (spot_market : string) : option QuoteSnapshot :=
  sh ← try_shard b spot_market; Some (book_to_quote_snapshot (ms_spot_market sh) (ms_book sh)).
Definition is_chain_hydrated (b : Books) (spot_market : string) : bool :=
  match try_shard b spot_market with Some sh => chain_hydrated (ms_book sh) | None => false end.
Definition recent_trades (b : Books) (spot_market : string) : list RecentTrade :=
  match try_shard b spot_market with Some sh => trades (ms_book sh) | None => [] end.

End Books.
