(* ===== verification/BooksFacts.v ===== *)
(** * BooksFacts: what the order books guarantee

    Every handler is reduced once to its effect on one price level
    ([step_shape]); the theorems on well-formedness, framing, the client's
    replay of the published deltas, quotes, snapshots, recent trades and the
    persisted mirror follow from it. *)
From S2P Require Import Prelude Text Sdk Keys Amounts Domain WriteSet Books.

Local Open Scope list_scope.
Local Open Scope Z_scope.

(** ** Reference: one level *)

Definition next_size (cur amount : Z) (is_add : bool) : Z :=
  if is_add then sat_add cur amount else sat_sub cur amount.

(** Zero sizes are not kept. *)
Definition upd_level (m : gmap Z Z) (p n : Z) : gmap Z Z := if decide (n = 0) then delete p m else <[p := n]> m.

Lemma upd_level_lookup m p n q :
  upd_level m p n !! q = if decide (q = p) then (if decide (n = 0) then None else Some n) else m !! q.
Proof.
  unfold upd_level. destruct (decide (q = p)) as [->|Hq]; case_decide.
  - by rewrite lookup_delete_eq.
  - by rewrite lookup_insert_eq.
  - by rewrite lookup_delete_ne.
  - by rewrite lookup_insert_ne.
Qed.

(** ** Operations as data *)

Inductive BookOp :=
| OpCreated (spot : string) (side : OrderSide) (price amount block : Z)
| OpCancelled (spot : string) (side : OrderSide) (price amount block : Z)
| OpUpdated (spot : string) (side : OrderSide) (price old_amount new_amount new_remaining block : Z)
| OpFilled (spot : string) (side : OrderSide) (price amount block trade_price : Z) (time : option Z) (now : Z).

Definition op_spot (op : BookOp) : string :=
  match op with OpCreated s _ _ _ _ | OpCancelled s _ _ _ _ | OpUpdated s _ _ _ _ _ _ | OpFilled s _ _ _ _ _ _ _ => s end.

Section Steps.
Context {SD : Sdk}.

Definition book_step (pub : bool) (st : Books * option IndexWriteSet) (op : BookOp) : Books * option IndexWriteSet :=
  match op with
  | OpCreated s d p a n => apply_created st.1 s d p a n pub st.2
  | OpCancelled s d p a n => apply_cancelled st.1 s d p a n pub st.2
  | OpUpdated s d p o w r n => apply_updated st.1 s d p o w r n pub st.2
  | OpFilled s d p a n tp t now => apply_filled st.1 s d p a n tp pub st.2 t now
  end.

(** The level change an operation asks for: side, price, amount, direction. *)
Definition op_effect (op : BookOp) : option (OrderSide * Z * Z * bool) :=
  match op with
  | OpCreated _ d p a _ => if decide (p = 0 \/ a = 0) then None else Some (d, p, a, true)
  | OpCancelled _ d p a _ => if decide (p = 0 \/ a = 0) then None else Some (d, p, a, false)
  | OpUpdated _ d p o w r _ =>
      let old := sat_sub o (sat_sub w r) in
      if decide (p = 0 \/ old = r) then None
      else if decide (old < r) then Some (d, p, r - old, true) else Some (d, p, old - r, false)
  | OpFilled _ d p a _ _ _ _ => if decide (p = 0 \/ a = 0) then None else Some (d, p, a, false)
  end.

Definition op_block (op : BookOp) : Z :=
  match op with OpCreated _ _ _ _ n | OpCancelled _ _ _ _ n | OpUpdated _ _ _ _ _ _ n | OpFilled _ _ _ _ n _ _ _ => n end.

Definition level_text (p n : Z) : BookLevelDelta :=
  {| bld_price := format_price_pieces p; bld_size := if decide (n = 0) then "0"%string else format_token_amount n |}.

(** How a shard looks after its level changed. *)
Record changed (pub : bool) (blk : Z) (sh sh' : MarketShard) (side : OrderSide) (p n : Z) : Prop := {
  ch_spot : ms_spot_market sh' = ms_spot_market sh;
  ch_side : levels_of side (ms_book sh') = upd_level (levels_of side (ms_book sh)) p n;
  ch_other : forall side', side' <> side -> levels_of side' (ms_book sh') = levels_of side' (ms_book sh);
  ch_seq : sequence (ms_book sh') = sat_add (sequence (ms_book sh)) 1;
  ch_hydrated : chain_hydrated (ms_book sh') = chain_hydrated (ms_book sh);
  ch_delta : exists delta,
    ms_orderbook_tx sh' = ms_orderbook_tx sh ++ (if pub then [delta] else []) /\
    obd_sequence delta = sequence (ms_book sh') /\ obd_spot_market delta = ms_spot_market sh /\
    obd_bids delta = match side with Buy => [level_text p n] | Sell => [] end /\
    obd_asks delta = match side with Buy => [] | Sell => [level_text p n] end /\
    obd_last_trade_price delta = format_price_pieces <$> last_trade_price (ms_book sh');
  ch_quote : ms_quote_tx sh' = ms_quote_tx sh ++ (if pub then [quote_from_book (ms_spot_market sh) blk (ms_book sh')] else [])
}.

(** The persisted side of the same change. *)
Definition ws_changed (ws : option IndexWriteSet) (spot : string) (side : OrderSide) (p n : Z) (book' : SpotBook) : option IndexWriteSet :=
  (fun w => store_book_meta
     (if decide (n = 0) then delete_book_level w spot (side_str side) (as_i64 p)
      else store_book_level w spot (side_str side) (as_i64 p) (as_i64 n)) spot
     {| bm_sequence := as_i64 (sequence book'); bm_last_trade_price := as_i64 <$> last_trade_price book' |}) <$> ws.

Lemma levels_set_same side l b : levels_of side (set_levels side l b) = l.
Proof. by destruct side. Qed.

Lemma levels_set_other side side' l b : side' <> side -> levels_of side' (set_levels side l b) = levels_of side' b.
Proof. by destruct side, side'. Qed.

Lemma change_level_shape pub b ws spot side p a add blk :
  let sh := shard b spot in
  let n := next_size (default 0 (levels_of side (ms_book sh) !! p)) a add in
  exists sh',
    (change_level b spot side p a add blk pub ws).1 = put_shard b spot sh' /\
    changed pub blk sh sh' side p n /\ trades (ms_book sh') = trades (ms_book sh) /\
    (change_level b spot side p a add blk pub ws).2 = ws_changed ws (ms_spot_market sh) side p n (ms_book sh').
Proof.
  intros sh n. unfold change_level, apply_level_change. fold sh.
  eexists. split; [reflexivity|]. split; [split|split].
  - by destruct pub.
  - destruct pub, side; reflexivity.
  - intros side' Hs. destruct pub, side, side'; done.
  - by destruct pub, side.
  - by destruct pub, side.
  - exists (apply_level_change (ms_book sh) (ms_spot_market sh) side p a add blk None ws).2.
    split; [destruct pub; simpl; [reflexivity|by rewrite app_nil_r]|].
    destruct pub, side; split_and!; reflexivity.
  - destruct pub; simpl; [reflexivity|by rewrite app_nil_r].
  - by destruct pub, side.
  - destruct ws as [w|]; [|done]. unfold ws_changed. simpl. unfold n, next_size.
    destruct pub, side; simpl; case_decide; reflexivity.
Qed.

Lemma filled_shape pub b ws spot side p a blk tp t now :
  ~ (p = 0 \/ a = 0) ->
  let sh := shard b spot in
  let n := next_size (default 0 (levels_of side (ms_book sh) !! p)) a false in
  exists sh' seq,
    (apply_filled b spot side p a blk tp pub ws t now).1 = {| shards := shards (put_shard b spot sh'); trade_seq := seq |} /\
    changed pub blk sh sh' side p n /\ last_trade_price (ms_book sh') = Some tp /\
    ((seq = trade_seq b /\ trades (ms_book sh') = trades (ms_book sh)) \/
     (seq = as_u64 (trade_seq b + 1) /\ exists tr, rt_id tr = sat_add (trade_seq b) 1 /\
        trades (ms_book sh') = take RECENT_TRADE_LIMIT (tr :: trades (ms_book sh)))) /\
    (apply_filled b spot side p a blk tp pub ws t now).2 = ws_changed ws (ms_spot_market sh) side p n (ms_book sh').
Proof.
  intros Hz sh n. unfold apply_filled. rewrite decide_False by done. fold sh. unfold apply_level_change. simpl.
  set (dup := bool_decide _). destruct dup.
  - eexists _, _. split; [reflexivity|]. split; [split|split; [|split]].
    + by destruct pub.
    + destruct pub, side; reflexivity.
    + intros side' Hs. destruct pub, side, side'; done.
    + by destruct pub, side.
    + by destruct pub, side.
    + exists (set_trade None (apply_level_change (ms_book sh) (ms_spot_market sh) side p a false blk (Some tp) ws).2).
      split; [destruct pub; simpl; [reflexivity|by rewrite app_nil_r]|].
      destruct pub, side; split_and!; reflexivity.
    + destruct pub; simpl; [reflexivity|by rewrite app_nil_r].
    + by destruct pub, side.
    + left. split; [done|]. by destruct pub, side.
    + destruct ws as [w|]; [|done]. unfold ws_changed. simpl. unfold n, next_size.
      destruct pub, side; simpl; case_decide; reflexivity.
  - unfold push_trade. eexists _, _. split; [reflexivity|]. split; [split|split; [|split]].
    + by destruct pub.
    + destruct pub, side; reflexivity.
    + intros side' Hs. destruct pub, side, side'; done.
    + by destruct pub, side.
    + by destruct pub, side.
    + exists (set_trade (Some (push_trade (trade_seq b) (apply_level_change (ms_book sh) (ms_spot_market sh) side p a false blk (Some tp) ws).1.1 side p a blk t now).2) (apply_level_change (ms_book sh) (ms_spot_market sh) side p a false blk (Some tp) ws).2).
      split; [destruct pub; simpl; [reflexivity|by rewrite app_nil_r]|].
      destruct pub, side; split_and!; reflexivity.
    + destruct pub; simpl; [reflexivity|by rewrite app_nil_r].
    + by destruct pub, side.
    + right. split; [done|].
      set (tr := (push_trade (trade_seq b) (apply_level_change (ms_book sh) (ms_spot_market sh) side p a false blk (Some tp) ws).1.1 side p a blk t now).2).
      exists tr. split; [done|].
      transitivity (pop_back_while RECENT_TRADE_LIMIT (tr :: trades (ms_book sh))); [by destruct pub, side|].
      exact (pop_back_while_take RECENT_TRADE_LIMIT (tr :: trades (ms_book sh))).
    + destruct ws as [w|]; [|done]. unfold ws_changed. simpl. unfold n, next_size.
      destruct pub, side; simpl; case_decide; reflexivity.
Qed.

(** The one lemma the theorems use: an operation is either without effect or
    changes exactly the level it names. *)
Lemma step_shape pub b ws op :
  match op_effect op with
  | None => book_step pub (b, ws) op = (b, ws)
  | Some (side, p, a, add) =>
      let sh := shard b (op_spot op) in
      let n := next_size (default 0 (levels_of side (ms_book sh) !! p)) a add in
      exists sh',
        shards (book_step pub (b, ws) op).1 = shards (put_shard b (op_spot op) sh') /\
        changed pub (op_block op) sh sh' side p n /\
        (book_step pub (b, ws) op).2 = ws_changed ws (ms_spot_market sh) side p n (ms_book sh')
  end.
Proof.
  destruct op as [s d p a blk|s d p a blk|s d p o w r blk|s d p a blk tp t now]; simpl.
  - unfold apply_created. case_decide; [done|].
    destruct (change_level_shape pub b ws s d p a true blk) as (sh' & E1 & E2 & _ & E3).
    exists sh'. rewrite E1, E3. done.
  - unfold apply_cancelled. case_decide; [done|].
    destruct (change_level_shape pub b ws s d p a false blk) as (sh' & E1 & E2 & _ & E3).
    exists sh'. rewrite E1, E3. done.
  - unfold apply_updated. destruct (decide (p = 0)) as [Hp|Hp].
    { rewrite decide_True by auto. done. }
    destruct (decide (sat_sub o (sat_sub w r) = r)) as [Ho|Ho].
    { rewrite decide_True by auto. done. }
    rewrite (decide_False (P := p = 0 \/ _)) by (by intros []). case_decide.
    + destruct (change_level_shape pub b ws s d p (r - sat_sub o (sat_sub w r)) true blk) as (sh' & E1 & E2 & _ & E3).
      exists sh'. rewrite E1, E3. done.
    + destruct (change_level_shape pub b ws s d p (sat_sub o (sat_sub w r) - r) false blk) as (sh' & E1 & E2 & _ & E3).
      exists sh'. rewrite E1, E3. done.
  - destruct (decide (p = 0 \/ a = 0)) as [Hz|Hz].
    + unfold apply_filled. by rewrite decide_True.
    + destruct (filled_shape pub b ws s d p a blk tp t now Hz) as (sh' & seq & E1 & E2 & _ & _ & E3).
      exists sh'. rewrite E1, E3. done.
Qed.

End Steps.

(** ** Reading a level; what one operation does to it *)

Definition level_at (b : Books) (key : string) (side : OrderSide) (p : Z) : option Z :=
  sh ← shards b !! key; levels_of side (ms_book sh) !! p.

Section Levels.
Context {SD : Sdk}.

Lemma shard_levels b spot side :
  forall p, levels_of side (ms_book (shard b spot)) !! p = level_at b (normalize_spot_market_key spot) side p.
Proof.
  intros p. unfold shard, level_at. destruct (shards b !! _); simpl; [done|].
  destruct side; apply lookup_empty.
Qed.

Lemma level_at_put b b' spot sh' key side p :
  shards b' = shards (put_shard b spot sh') ->
  level_at b' key side p =
    if decide (key = normalize_spot_market_key spot) then levels_of side (ms_book sh') !! p else level_at b key side p.
Proof.
  intros E. unfold level_at. rewrite E. unfold put_shard. simpl. case_decide as Hk.
  - subst key. by rewrite lookup_insert_eq.
  - by rewrite lookup_insert_ne.
Qed.

(** What the operation leaves at a level. *)
Definition level_after (b : Books) (op : BookOp) (key : string) (side : OrderSide) (p : Z) : option Z :=
  match op_effect op with
  | Some (side0, p0, a, add) =>
      if decide (key = normalize_spot_market_key (op_spot op) /\ side = side0 /\ p = p0) then
        let n := next_size (default 0 (level_at b key side p)) a add in
        if decide (n = 0) then None else Some n
      else level_at b key side p
  | None => level_at b key side p
  end.

Lemma step_levels pub b ws op key side p :
  level_at (book_step pub (b, ws) op).1 key side p = level_after b op key side p.
Proof.
  pose proof (step_shape pub b ws op) as HS. unfold level_after.
  destruct (op_effect op) as [[[[side0 p0] a] add]|]; [|by rewrite HS].
  destruct HS as (sh' & E & C & _). rewrite (level_at_put _ _ _ _ key side p E).
  destruct (decide (key = normalize_spot_market_key (op_spot op))) as [->|Hk].
  2:{ by rewrite decide_False by (by intros (? & _)). }
  destruct (decide (side = side0)) as [->|Hs].
  - rewrite (ch_side _ _ _ _ _ _ _ C), upd_level_lookup. destruct (decide (p = p0)) as [->|Hp].
    + rewrite (decide_True (P := _ /\ _ /\ _)) by done. by rewrite !shard_levels.
    + rewrite decide_False by (by intros (_ & _ & ?)). apply shard_levels.
  - rewrite decide_False by (by intros (_ & ? & _)). rewrite (ch_other _ _ _ _ _ _ _ C side Hs). apply shard_levels.
Qed.

(** C32: functional correctness of the book handlers, on every branch: a
    created, cancelled, updated or filled order changes exactly the level of
    its market, side and price, to the saturating sum or difference, removes it
    when that is zero, and leaves every other level of every market alone;
    with or without publishing, with or without a write set. *)
Theorem book_ops_functional pub b ws op key side p :
  level_at (book_step pub (b, ws) op).1 key side p = level_after b op key side p.
Proof. apply step_levels. Qed.

(** ** Well-formed books *)

Definition book_wf (b : Books) : Prop :=
  (forall key sh, shards b !! key = Some sh -> ms_spot_market sh = key) /\
  forall key side p s, level_at b key side p = Some s -> is_u64 p /\ 0 < s <= u64_max.

Definition op_u64 (op : BookOp) : Prop :=
  match op with
  | OpCreated _ _ p a _ | OpCancelled _ _ p a _ | OpFilled _ _ p a _ _ _ _ => is_u64 p /\ is_u64 a
  | OpUpdated _ _ p o w r _ => is_u64 p /\ is_u64 o /\ is_u64 w /\ is_u64 r
  end.

Definition chain_u64 (cb : GetOrderBook) : Prop :=
  Forall (fun l => is_u64 (cl_price l) /\ is_u64 (cl_total_quantity l)) (best_bids cb ++ best_asks cb).

(** Every state the books can reach: handlers, hydration from the chain, loading. *)
Inductive books_reach : Books -> Prop :=
| reach_new : books_reach Books_new
| reach_op pub b ws op : books_reach b -> op_u64 op -> books_reach (book_step pub (b, ws) op).1
| reach_hydrate b ws spot cb price : books_reach b -> chain_u64 cb -> books_reach (hydrate_from_chain b spot cb price ws).1
| reach_import b levels metas : books_reach b ->
    Forall (fun l => is_u64 (pbl_price_raw l) /\ is_u64 (pbl_size_raw l)) levels ->
    books_reach (import_from_persist b levels metas)
| reach_subscribe b spot : books_reach b -> books_reach (books_subscribe b spot).

Lemma op_effect_u64 op side p a add :
  op_u64 op -> op_effect op = Some (side, p, a, add) -> is_u64 p /\ 0 < a <= u64_max /\ p <> 0.
Proof.
  destruct op; simpl; intros Hu He; repeat case_decide; simplify_eq; unfold is_u64 in *;
    try (split_and!; lia); unfold sat_sub in *; split_and!; lia.
Qed.

Lemma next_size_u64 cur a add : 0 <= cur <= u64_max -> 0 < a <= u64_max -> 0 <= next_size cur a add <= u64_max.
Proof. unfold next_size. destruct add; mach. Qed.

Lemma level_after_wf b op key side p s :
  book_wf b -> op_u64 op -> level_after b op key side p = Some s -> is_u64 p /\ 0 < s <= u64_max.
Proof.
  intros [_ Hwf] Hu. unfold level_after. destruct (op_effect op) as [[[[side0 p0] a] add]|] eqn:Ee; [|apply Hwf].
  destruct (op_effect_u64 _ _ _ _ _ Hu Ee) as (Hp & Ha & _).
  case_decide as Hk; [|apply Hwf]. destruct Hk as (-> & -> & ->). simpl.
  intros Hs. destruct (decide _) as [|Hn] in Hs; [done|]. simplify_eq.
  assert (0 <= default 0 (level_at b (normalize_spot_market_key (op_spot op)) side0 p0) <= u64_max) as Hc.
  { destruct (level_at b _ side0 p0) eqn:E; [|simpl; mach]. apply Hwf in E. simpl. lia. }
  pose proof (next_size_u64 _ a add Hc Ha). split; [done|lia].
Qed.

Lemma put_shard_names b spot sh' :
  ms_spot_market sh' = normalize_spot_market_key spot ->
  (forall key sh, shards b !! key = Some sh -> ms_spot_market sh = key) ->
  forall key sh, shards (put_shard b spot sh') !! key = Some sh -> ms_spot_market sh = key.
Proof.
  intros Hn Hb key sh. unfold put_shard. simpl.
  destruct (decide (key = normalize_spot_market_key spot)) as [->|Hk].
  - rewrite lookup_insert_eq. congruence.
  - rewrite lookup_insert_ne by done. apply Hb.
Qed.

Lemma shard_name b spot :
  (forall key sh, shards b !! key = Some sh -> ms_spot_market sh = key) ->
  ms_spot_market (shard b spot) = normalize_spot_market_key spot.
Proof. intros Hb. unfold shard. destruct (shards b !! _) eqn:E; simpl; [by apply Hb|done]. Qed.

Lemma step_wf pub b ws op : book_wf b -> op_u64 op -> book_wf (book_step pub (b, ws) op).1.
Proof.
  intros Hwf Hu. split.
  - pose proof (step_shape pub b ws op) as HS. destruct Hwf as [Hn _].
    destruct (op_effect op) as [[[[side0 p0] a] add]|]; [|by rewrite HS].
    destruct HS as (sh' & E & C & _). rewrite E. apply put_shard_names; [|done].
    rewrite (ch_spot _ _ _ _ _ _ _ C). by apply shard_name.
  - intros key side p s. rewrite step_levels. by apply level_after_wf.
Qed.

Definition levels_wf (m : gmap Z Z) : Prop := forall p s, m !! p = Some s -> is_u64 p /\ 0 < s <= u64_max.

Lemma hydrate_levels_wf name side l st :
  Forall (fun l => is_u64 (cl_price l) /\ is_u64 (cl_total_quantity l)) l -> levels_wf st.1 ->
  levels_wf (hydrate_levels name side l st).1.
Proof.
  intros Hl. revert st. induction Hl as [|x l [Hp Hq] Hl IH]; intros st Hst; simpl; [done|].
  apply IH. case_decide; [|done]. simpl. intros p s.
  destruct (decide (p = cl_price x)) as [->|]; [rewrite lookup_insert_eq|by rewrite lookup_insert_ne; auto].
  intros [= <-]. unfold is_u64 in *. lia.
Qed.

Lemma book_wf_levels b spot side : book_wf b -> levels_wf (levels_of side (ms_book (shard b spot))).
Proof. intros [_ Hwf] p s. rewrite shard_levels. apply Hwf. Qed.

Lemma put_wf b spot sh' :
  book_wf b -> ms_spot_market sh' = normalize_spot_market_key spot ->
  (forall side, levels_wf (levels_of side (ms_book sh'))) -> book_wf (put_shard b spot sh').
Proof.
  intros [Hn Hl] Hs Hw. split; [by apply put_shard_names|]. intros key side p s.
  rewrite (level_at_put b _ spot sh') by done. case_decide; [apply Hw|apply Hl].
Qed.

Lemma hydrate_wf b ws spot cb price : book_wf b -> chain_u64 cb -> book_wf (hydrate_from_chain b spot cb price ws).1.
Proof.
  intros Hwf Hcb. unfold hydrate_from_chain.
  apply Forall_app in Hcb as [Hb Ha].
  destruct (hydrate_levels _ Buy _ _) as [bids' ws1] eqn:Eb. destruct (hydrate_levels _ Sell _ _) as [asks' ws2] eqn:Ea.
  simpl. apply put_wf; [done|apply shard_name, Hwf|].
  intros [|]; simpl.
  - apply (f_equal fst) in Eb. simpl in Eb. rewrite <- Eb. apply hydrate_levels_wf; [done|].
    intros p s. simpl. by rewrite lookup_empty.
  - apply (f_equal fst) in Ea. simpl in Ea. rewrite <- Ea. apply hydrate_levels_wf; [done|].
    intros p s. simpl. by rewrite lookup_empty.
Qed.

Lemma import_wf b levels metas :
  Forall (fun l => is_u64 (pbl_price_raw l) /\ is_u64 (pbl_size_raw l)) levels ->
  book_wf (import_from_persist b levels metas).
Proof.
  intros Hl. unfold import_from_persist. set (b0 := {| shards := ∅; trade_seq := trade_seq b |}).
  assert (book_wf b0) as H0.
  { split; [intros key sh|intros key side p s; unfold level_at]; simpl; by rewrite lookup_empty. }
  assert (book_wf (foldl import_meta b0 metas)) as H1.
  { generalize dependent b0. induction metas as [|m metas IH]; intros b0 H0; simpl; [done|]. apply IH.
    apply put_wf; [done|by apply shard_name, H0|].
    intros [|]; [apply (book_wf_levels _ _ Buy H0)|apply (book_wf_levels _ _ Sell H0)]. }
  clear H0. generalize dependent (foldl import_meta b0 metas). intros b1 H1. revert b1 H1.
  induction Hl as [|l levels [Hp Hs] Hl IH]; intros b1 H1; simpl; [done|]. apply IH.
  unfold import_level. case_decide as Hz; [done|]. apply put_wf; [done|by apply shard_name, H1|].
  pose proof (book_wf_levels b1 (pbl_spot_market l) Buy H1) as WB.
  pose proof (book_wf_levels b1 (pbl_spot_market l) Sell H1) as WS. simpl in WB, WS.
  assert (forall m, levels_wf m -> levels_wf (<[pbl_price_raw l := pbl_size_raw l]> m)) as Hins.
  { intros m Hm p s. destruct (decide (p = pbl_price_raw l)) as [->|].
    - rewrite lookup_insert_eq. intros [= <-]. unfold is_u64 in *. lia.
    - rewrite lookup_insert_ne by done. apply Hm. }
  intros [|]; simpl; repeat case_decide; simpl; auto.
Qed.

Lemma books_reach_wf b : books_reach b -> book_wf b.
Proof.
  induction 1 as [|pub b ws op _ IH Hu|b ws spot cb price _ IH Hcb|b levels metas _ IH Hl|b spot _ IH].
  - split; [intros key sh|intros key side p s; unfold level_at]; simpl; by rewrite lookup_empty.
  - by apply step_wf.
  - by apply hydrate_wf.
  - by apply import_wf.
  - apply put_wf; [done|by apply shard_name, IH|]. intros side. by apply book_wf_levels.
Qed.

(** C21: book invariant: in every reachable state, whatever the interleaving of
    order events, hydrations and reloads, each shard is stored under its own
    market's key and every level has a u64 price and a positive u64 size. *)
Theorem books_invariant b key sh side p s :
  books_reach b -> shards b !! key = Some sh -> levels_of side (ms_book sh) !! p = Some s ->
  ms_spot_market sh = key /\ is_u64 p /\ 0 < s <= u64_max.
Proof.
  intros Hr Hk Hs. destruct (books_reach_wf b Hr) as [Hn Hl]. split; [by apply Hn|].
  apply (Hl key side). unfold level_at. by rewrite Hk.
Qed.

(** Creating an order and cancelling its full size restores every level of
    every market, as long as the level's total does not saturate. *)
Theorem create_cancel_restores pub b ws ws' spot side p a n1 n2 key side' q :
  books_reach b -> is_u64 a ->
  default 0 (level_at b (normalize_spot_market_key spot) side p) + a <= u64_max ->
  level_at (book_step pub ((book_step pub (b, ws) (OpCreated spot side p a n1)).1, ws') (OpCancelled spot side p a n2)).1 key side' q
  = level_at b key side' q.
Proof.
  intros Hr%books_reach_wf Ha Hsum.
  pose proof (step_levels pub b ws (OpCreated spot side p a n1)) as Hb1.
  set (b1 := (book_step pub (b, ws) (OpCreated spot side p a n1)).1) in *.
  rewrite step_levels. unfold level_after in *. cbn [op_effect op_spot] in *.
  destruct (decide (p = 0 \/ a = 0)) as [Hz|Hz]; [apply Hb1|].
  {
    rewrite !Hb1.
    case_decide as Hk; [|done]. destruct Hk as (-> & -> & ->).
    set (k := normalize_spot_market_key spot) in *.
    assert (0 <= default 0 (level_at b k side p)) as H0.
    { destruct (level_at b k side p) eqn:E; [|simpl; lia]. destruct Hr as [_ Hl]. apply Hl in E. simpl. lia. }
    unfold is_u64 in Ha. rewrite (decide_False (P := next_size _ a true = 0)) by (unfold next_size; mach).
    simpl. rewrite sat_sub_add by lia.
    destruct (level_at b k side p) as [s|] eqn:E; simpl; [|done].
    destruct Hr as [_ Hl]. apply Hl in E. by rewrite decide_False by lia. }
Qed.

(** ** Markets do not interfere *)

Definition run_books (pub : bool) (ops : list BookOp) (b : Books) : Books :=
  foldl (fun b op => (book_step pub (b, None) op).1) b ops.

Definition on_market (key : string) (op : BookOp) : Prop := normalize_spot_market_key (op_spot op) = key.
#[local] Instance on_market_dec key op : Decision (on_market key op).
Proof. unfold on_market. apply _. Defined.

(** Everything of a shard but the ids of its trades, which are drawn from one
    counter for all markets. *)
Definition trade_noid (t : RecentTrade) : RecentTrade :=
  {| rt_id := 0; rt_side := rt_side t; rt_price := rt_price t; rt_size := rt_size t; rt_time_ms := rt_time_ms t; rt_block_num := rt_block_num t |}.
Definition delta_noid (d : OrderBookDelta) : OrderBookDelta := set_trade (trade_noid <$> obd_trade d) d.
Definition book_noid (book : SpotBook) : SpotBook := set_fill_trades (last_fill book) (trade_noid <$> trades book) book.
Definition shard_noid (sh : MarketShard) : MarketShard :=
  {| ms_spot_market := ms_spot_market sh; ms_book := book_noid (ms_book sh);
     ms_orderbook_tx := delta_noid <$> ms_orderbook_tx sh; ms_quote_tx := ms_quote_tx sh |}.

(** Two books that agree on a market, ids of trades apart. *)
Definition agree_on (key : string) (b b' : Books) : Prop := shard_noid <$> shards b !! key = shard_noid <$> shards b' !! key.

Lemma step_other pub b op key : ~ on_market key op -> shards (book_step pub (b, None) op).1 !! key = shards b !! key.
Proof.
  unfold on_market. intros H. pose proof (step_shape pub b None op) as HS. destruct (op_effect op) as [[[[s0 p0] a] add]|]; [|by rewrite HS].
  destruct HS as (sh' & -> & _). simpl. by rewrite lookup_insert_ne.
Qed.

Lemma agree_shard spot b b' :
  agree_on (normalize_spot_market_key spot) b b' -> shard_noid (shard b spot) = shard_noid (shard b' spot).
Proof. unfold agree_on, shard. destruct (shards b !! _), (shards b' !! _); simpl; congruence. Qed.

Lemma put_agree spot b b' sh sh' c c' :
  shards c = shards (put_shard b spot sh) -> shards c' = shards (put_shard b' spot sh') ->
  shard_noid sh = shard_noid sh' -> agree_on (normalize_spot_market_key spot) c c'.
Proof. intros E E' H. unfold agree_on. rewrite E, E'. simpl. rewrite !lookup_insert_eq. exact (f_equal Some H). Qed.

(** Publishing and changing a level look at nothing but what is compared. *)
Lemma noid_parts sh sh' :
  shard_noid sh = shard_noid sh' <->
  ms_spot_market sh = ms_spot_market sh' /\ bids (ms_book sh) = bids (ms_book sh') /\ asks (ms_book sh) = asks (ms_book sh') /\
  sequence (ms_book sh) = sequence (ms_book sh') /\ last_trade_price (ms_book sh) = last_trade_price (ms_book sh') /\
  chain_hydrated (ms_book sh) = chain_hydrated (ms_book sh') /\ last_fill (ms_book sh) = last_fill (ms_book sh') /\
  trade_noid <$> trades (ms_book sh) = trade_noid <$> trades (ms_book sh') /\
  delta_noid <$> ms_orderbook_tx sh = delta_noid <$> ms_orderbook_tx sh' /\ ms_quote_tx sh = ms_quote_tx sh'.
Proof.
  destruct sh as [n [bd ak sq l c f tr] o q], sh' as [n' [bd' ak' sq' l' c' f' tr'] o' q']. unfold shard_noid, book_noid, set_fill_trades. simpl.
  split; [by intros [=]|]. intros (-> & -> & -> & -> & -> & -> & -> & -> & -> & ->). done.
Qed.

Lemma publish_noid pub sh sh' d d' q q' :
  shard_noid sh = shard_noid sh' -> delta_noid d = delta_noid d' -> q = q' ->
  shard_noid (publish_delta pub sh d q) = shard_noid (publish_delta pub sh' d' q').
Proof.
  rewrite !noid_parts. intros (? & ? & ? & ? & ? & ? & ? & ? & H & Hq) Hd <-. destruct pub; simpl; [|done].
  rewrite !fmap_app, H, Hq. simpl. by rewrite Hd.
Qed.

Lemma change_level_agree pub b b' spot side p a add blk :
  agree_on (normalize_spot_market_key spot) b b' ->
  agree_on (normalize_spot_market_key spot) (change_level b spot side p a add blk pub None).1 (change_level b' spot side p a add blk pub None).1.
Proof.
  intros H%agree_shard. unfold change_level, apply_level_change. eapply put_agree; [reflexivity..|]. cbn [fst].
  destruct (shard b spot) as [n [bd ak sq l c f tr] o q], (shard b' spot) as [n' [bd' ak' sq' l' c' f' tr'] o' q'].
  apply noid_parts in H as (E1 & E2 & E3 & E4 & E5 & E6 & E7 & E8 & E9 & E10); simpl in *; subst.
  apply publish_noid; [|by destruct side..]. apply noid_parts. by destruct side.
Qed.

Lemma filled_agree pub b b' spot side p a blk tp t now :
  agree_on (normalize_spot_market_key spot) b b' ->
  agree_on (normalize_spot_market_key spot) (apply_filled b spot side p a blk tp pub None t now).1 (apply_filled b' spot side p a blk tp pub None t now).1.
Proof.
  intros H0. pose proof (agree_shard _ _ _ H0) as H. unfold apply_filled. case_decide as Hz; [done|]. unfold apply_level_change.
  destruct (shard b spot) as [n [bd ak sq l c f tr] o q], (shard b' spot) as [n' [bd' ak' sq' l' c' f' tr'] o' q'].
  apply noid_parts in H as (E1 & E2 & E3 & E4 & E5 & E6 & E7 & E8 & E9 & E10). cbn in E1, E2, E3, E4, E5, E6, E7, E8, E9, E10. subst.
  destruct side; cbn -[pop_back_while]; destruct (bool_decide (f' = _)); cbn -[pop_back_while]; (eapply put_agree; [reflexivity..|]);
    apply publish_noid; try done; apply noid_parts; cbn -[pop_back_while]; rewrite ?pop_back_while_take, ?fmap_take, ?fmap_cons, ?E8; done.
Qed.

Lemma step_agree pub b b' op key : agree_on key b b' -> on_market key op ->
  agree_on key (book_step pub (b, None) op).1 (book_step pub (b', None) op).1.
Proof.
  unfold on_market. intros H <-. destruct op; cbn [book_step op_spot fst snd] in *.
  - unfold apply_created. case_decide; [done|]. by apply change_level_agree.
  - unfold apply_cancelled. case_decide; [done|]. by apply change_level_agree.
  - unfold apply_updated. case_decide; [done|]. case_decide; [done|]. case_decide; by apply change_level_agree.
  - by apply filled_agree.
Qed.

Lemma run_filter pub ops b b' key :
  agree_on key b b' -> agree_on key (run_books pub ops b) (run_books pub (filter (on_market key) ops) b').
Proof.
  revert b b'. induction ops as [|op ops IH]; intros b b' H; [apply H|]. rewrite filter_cons. simpl. case_decide as Hm.
  - apply IH. by apply step_agree.
  - apply IH. unfold agree_on. by rewrite step_other.
Qed.

(** C31: the markets of a block may be applied concurrently: what an order event
    leaves of a market depends only on the market's own events in their own
    order, so any two interleavings of the per-market sequences leave the same
    shards: levels, sequence, last price and fill, recent trades, and the deltas
    and quotes published, all but the ids of the trades, which come from one
    counter that does depend on the interleaving. *)
Theorem interleaving_irrelevant pub ops ops' b :
  (forall key, filter (on_market key) ops = filter (on_market key) ops') ->
  forall key, shard_noid <$> shards (run_books pub ops b) !! key = shard_noid <$> shards (run_books pub ops' b) !! key.
Proof. intros H key. transitivity (shard_noid <$> shards (run_books pub (filter (on_market key) ops) b) !! key); [by apply run_filter|]. rewrite H. symmetry. by apply run_filter. Qed.

End Levels.

(** ** Witnesses *)

Definition demo_ops : list BookOp :=
  [OpCreated "c7" Buy 500000 40 1; OpCreated " c7 " Sell 600000 25 1; OpFilled "c7" Sell 600000 10 2 600000 (Some 5000) 0].

Definition demo_books : Books := foldl (fun b op => (book_step (SD := DemoSdk) true (b, None) op).1) Books_new demo_ops.

Lemma demo_books_reach : books_reach (SD := DemoSdk) demo_books.
Proof.
  unfold demo_books, demo_ops. cbn [foldl].
  do 3 (apply reach_op; [|split; vm_compute; split; congruence]). apply reach_new.
Qed.

Lemma books_invariant_witness :
  exists sh, shards demo_books !! "c7"%string = Some sh /\ levels_of Sell (ms_book sh) !! 600000 = Some 15 /\
    (ms_spot_market sh = "c7"%string /\ is_u64 600000 /\ 0 < 15 <= u64_max).
Proof.
  eexists. split; [vm_compute; reflexivity|]. split; [vm_compute; reflexivity|].
  apply (books_invariant (SD := DemoSdk) demo_books "c7" _ Sell 600000 15 demo_books_reach); vm_compute; reflexivity.
Defined.

Lemma create_cancel_restores_witness :
  level_at (book_step (SD := DemoSdk) true ((book_step (SD := DemoSdk) true (demo_books, None) (OpCreated "c7" Sell 600000 7 3)).1, None)
    (OpCancelled "c7" Sell 600000 7 4)).1 "c7" Sell 600000 = Some 15.
Proof.
  rewrite (create_cancel_restores (SD := DemoSdk) true demo_books None None "c7" Sell 600000 7 3 4 "c7" Sell 600000 demo_books_reach).
  - vm_compute. reflexivity.
  - split; vm_compute; congruence.
  - vm_compute. congruence.
Defined.

Lemma interleaving_irrelevant_witness :
  let a := OpCreated "c7" Buy 5 1 1 in let b := OpFilled "c7" Buy 5 1 1 5 None 0 in let c := OpFilled "c8" Sell 5 3 1 5 None 0 in
  shard_noid <$> shards (run_books (SD := DemoSdk) true [a; c; b] demo_books) !! "c8"%string =
  shard_noid <$> shards (run_books (SD := DemoSdk) true [a; b; c] demo_books) !! "c8"%string.
Proof.
  intros a b c. apply (interleaving_irrelevant (SD := DemoSdk) true [a; c; b] [a; b; c] demo_books).
  intros key. rewrite !filter_cons.
  destruct (decide (on_market (SD := DemoSdk) key a)); destruct (decide (on_market (SD := DemoSdk) key c)) as [Hc|];
    destruct (decide (on_market (SD := DemoSdk) key b)) as [Hb|]; try reflexivity;
  exfalso; unfold on_market in *; assert (normalize_spot_market_key (S := DemoSdk) "c7" = normalize_spot_market_key (S := DemoSdk) "c8") as E
    by exact (eq_trans Hb (eq_sym Hc)); vm_compute in E; discriminate E.
Defined.
