(* ===== verification/BooksClient.v ===== *)
(** * BooksClient: what subscribers and readers see of the books

    A client that takes a full snapshot and applies the published deltas in
    order holds the same book, in the printed form the API uses; quotes are
    the best prices; snapshots are the sorted best levels; recent trades are a
    bounded, newest-first list with increasing ids. *)
From S2P Require Import Prelude Text Sdk Keys Amounts Domain WriteSet Books BooksFacts.

Local Open Scope list_scope.
Local Open Scope Z_scope.

(** ** Sorted levels *)

#[global] Instance level_le_trans : Transitive level_le.
Proof. intros x y z. unfold level_le. lia. Qed.
#[global] Instance level_le_total : Total level_le.
Proof. intros x y. unfold level_le. lia. Qed.

Lemma sorted_levels_perm m : sorted_levels m ≡ₚ map_to_list m.
Proof. apply merge_sort_Permutation. Qed.

Lemma sorted_levels_elem m p s : (p, s) ∈ sorted_levels m <-> m !! p = Some s.
Proof. by rewrite sorted_levels_perm, elem_of_map_to_list. Qed.

Lemma sorted_levels_length m : length (sorted_levels m) = size m.
Proof. by rewrite sorted_levels_perm, length_map_to_list. Qed.

Lemma sorted_levels_sorted m : StronglySorted (fun p q => p.1 < q.1) (sorted_levels m).
Proof.
  assert (StronglySorted level_le (sorted_levels m)) as HS.
  { apply Sorted_StronglySorted; [apply _|]. apply Sorted_merge_sort, _. }
  assert (NoDup (sorted_levels m).*1) as Hnd.
  { rewrite sorted_levels_perm. apply NoDup_fst_map_to_list. }
  induction HS as [|x l HS IH HF]; [constructor|]. rewrite fmap_cons in Hnd. apply NoDup_cons in Hnd as [Hx Hnd].
  constructor; [by apply IH|]. rewrite Forall_forall in HF |- *. intros y Hy. pose proof (HF y Hy) as Hle.
  unfold level_le in Hle. assert (x.1 <> y.1); [|lia]. intros E. apply Hx. rewrite E. by apply list_elem_of_fmap_2.
Qed.

Lemma sorted_last_max m p s :
  last (sorted_levels m) = Some (p, s) -> m !! p = Some s /\ forall q t, m !! q = Some t -> q <= p.
Proof.
  intros Hl. split; [apply sorted_levels_elem; by apply last_Some_elem_of|]. intros q t Hq%sorted_levels_elem.
  pose proof (sorted_levels_sorted m) as HS. apply last_Some in Hl as [l' E]. rewrite E in *.
  apply elem_of_app in Hq as [Hq|Hq]; [|apply list_elem_of_singleton in Hq; simplify_eq; lia].
  pose proof (StronglySorted_app_1_elem_of _ l' [(p, s)] (q, t) (p, s) HS Hq ltac:(set_solver)). simpl in *. lia.
Qed.

Lemma sorted_head_min m p s :
  head (sorted_levels m) = Some (p, s) -> m !! p = Some s /\ forall q t, m !! q = Some t -> p <= q.
Proof.
  intros Hl. destruct (sorted_levels m) as [|x l] eqn:E; [done|]. simpl in Hl. simplify_eq. split.
  - apply sorted_levels_elem. rewrite E. set_solver.
  - intros q t Hq%sorted_levels_elem. rewrite E in Hq. apply elem_of_cons in Hq as [Hq|Hq]; [simplify_eq; lia|].
    pose proof (sorted_levels_sorted m) as HS. rewrite E in HS. apply StronglySorted_cons in HS as [HF _].
    rewrite Forall_forall in HF. apply HF in Hq. simpl in Hq. lia.
Qed.

Lemma sorted_empty m : sorted_levels m = [] <-> m = ∅.
Proof.
  rewrite <- map_size_empty_iff, <- sorted_levels_length. split; [by intros ->|]. apply nil_length_inv.
Qed.

Section Client.
Context {SD : Sdk}.

(** The quote of a book is its best prices: the best bid is the highest bid
    price with its size and the best ask the lowest ask price, both absent
    exactly when their side is empty. *)
Theorem quote_is_best spot blk book :
  (match qd_best_bid (quote_from_book spot blk book) with
   | None => bids book = ∅
   | Some l => exists p s, bids book !! p = Some s /\ l = to_level (p, s) /\ forall q t, bids book !! q = Some t -> q <= p
   end) /\
  (match qd_best_ask (quote_from_book spot blk book) with
   | None => asks book = ∅
   | Some l => exists p s, asks book !! p = Some s /\ l = to_level (p, s) /\ forall q t, asks book !! q = Some t -> p <= q
   end).
Proof.
  unfold quote_from_book. simpl. split.
  - destruct (last (sorted_levels (bids book))) as [[p s]|] eqn:E; simpl.
    + apply sorted_last_max in E as [H1 H2]. by exists p, s.
    + apply last_None in E. by apply sorted_empty.
  - destruct (head (sorted_levels (asks book))) as [[p s]|] eqn:E; simpl.
    + apply sorted_head_min in E as [H1 H2]. by exists p, s.
    + apply head_None in E. by apply sorted_empty.
Qed.

Lemma StronglySorted_reverse_gt (l : list (Z * Z)) :
  StronglySorted (fun p q => p.1 < q.1) l -> StronglySorted (fun p q => q.1 < p.1) (reverse l).
Proof.
  induction 1 as [|x l HS IH HF]; [constructor|]. rewrite reverse_cons. apply StronglySorted_app_2.
  - intros a b Ha Hb. apply list_elem_of_singleton in Hb as ->. rewrite elem_of_reverse in Ha.
    rewrite Forall_forall in HF. by apply HF.
  - done.
  - repeat constructor.
Qed.

(** The shape of one side of a snapshot: [better] orders the prices. *)
Definition side_view (better : Z -> Z -> Prop) (m : gmap Z Z) (depth : nat) (out : list BookLevel) : Prop :=
  exists l, out = to_level <$> l /\ length l = Nat.min depth (size m) /\
    StronglySorted (fun p q => better p.1 q.1) l /\
    (forall p s, (p, s) ∈ l -> m !! p = Some s) /\
    (forall p s q t, (p, s) ∈ l -> m !! q = Some t -> (q, t) ∉ l -> better p q).

Lemma side_view_take better m depth (l : list (Z * Z)) :
  StronglySorted (fun p q => better p.1 q.1) l -> l ≡ₚ map_to_list m ->
  side_view better m depth (to_level <$> take depth l).
Proof.
  intros HS HP. exists (take depth l). split_and!; [done| | | |].
  - by rewrite length_take, HP, length_map_to_list.
  - rewrite <- (take_drop depth l) in HS. by apply StronglySorted_app_1_l in HS.
  - intros p s Hp. apply elem_of_map_to_list. rewrite <- HP. rewrite <- (take_drop depth l). set_solver.
  - intros p s q t Hp Hq Hn. apply elem_of_map_to_list in Hq. rewrite <- HP in Hq.
    rewrite <- (take_drop depth l) in HS, Hq. apply elem_of_app in Hq as [Hq|Hq]; [done|].
    by apply (StronglySorted_app_1_elem_of _ _ _ _ _ HS Hp Hq).
Qed.
(** A snapshot lists the best [depth] levels of each side with their sizes:
    bids strictly descending, asks strictly ascending, every level not listed
    worse than every listed one. *)
Theorem snapshot_best_levels b spot depth snap :
  snapshot b spot depth = Some snap ->
  exists sh, try_shard b spot = Some sh /\ snap_sequence snap = sequence (ms_book sh) /\
    side_view (fun p q => q < p) (bids (ms_book sh)) depth (snap_bids snap) /\
    side_view (fun p q => p < q) (asks (ms_book sh)) depth (snap_asks snap).
Proof.
  unfold snapshot. destruct (try_shard b spot) as [sh|]; [|done]. simpl. intros [= <-].
  exists sh. split_and!; [done|done| |].
  - apply side_view_take; [apply StronglySorted_reverse_gt, sorted_levels_sorted|].
    by rewrite reverse_Permutation, sorted_levels_perm.
  - apply side_view_take; [apply sorted_levels_sorted|apply sorted_levels_perm].
Qed.

(** ** The client's replay *)

(** A client's book: price text to size text. *)
Record ClientBook := { c_bids : gmap string string; c_asks : gmap string string; c_sequence : Z }.

Definition client_level (m : gmap string string) (d : BookLevelDelta) : gmap string string :=
  if decide (bld_size d = "0"%string) then delete (bld_price d) m else <[bld_price d := bld_size d]> m.

Definition client_apply (c : ClientBook) (d : OrderBookDelta) : ClientBook :=
  {| c_bids := foldl client_level (c_bids c) (obd_bids d); c_asks := foldl client_level (c_asks c) (obd_asks d);
     c_sequence := obd_sequence d |}.

Definition client_of (s : OrderBookSnapshot) : ClientBook :=
  let mk l := list_to_map ((fun x => (lvl_price x, lvl_size x)) <$> l) in
  {| c_bids := mk (obs_bids s); c_asks := mk (obs_asks s); c_sequence := obs_sequence s |}.

(** Prices and sizes whose text is faithful. *)
Definition price_ok (p : Z) : Prop := 0 <= p <= u64_max / 100.
Definition side_ok (m : gmap Z Z) : Prop := forall p s, m !! p = Some s -> price_ok p /\ 0 < s <= u64_max.

(** The printed form of one side. *)
Definition side_matches (c : gmap string string) (m : gmap Z Z) : Prop :=
  forall p, price_ok p -> c !! format_price_pieces p = format_token_amount <$> m !! p.

(** The client's texts come from prices of the book. *)
Definition side_covers (c : gmap string string) (m : gmap Z Z) : Prop :=
  forall t, is_Some (c !! t) -> exists p, is_Some (m !! p) /\ t = format_price_pieces p.

Definition view (c : gmap string string) (m : gmap Z Z) : Prop := side_matches c m /\ side_covers c m.
End Client.

Section Replay.
Context {SD : Sdk} {L : SdkLaws}.

Lemma price_text_inj p q : price_ok p -> price_ok q -> format_price_pieces p = format_price_pieces q -> p = q.
Proof.
  intros Hp Hq E. unfold price_ok in *.
  assert (u64_max / 100 = 184467440737095516) as Eu by reflexivity. rewrite Eu in *.
  assert (forall r, 0 <= r <= 184467440737095516 -> denotes (format_price_pieces r) (r * 100) TOKEN_SCALE) as HD.
  { intros r Hr. unfold format_price_pieces. replace (sat_mul r 100) with (r * 100) by mach.
    apply format_trimmed_denotes. lia. }
  pose proof (HD p Hp) as D1. pose proof (HD q Hq) as D2. rewrite E in D1.
  assert (p * 100 = q * 100); [|lia]. eapply denotes_inj; [|exact D1|exact D2]. by rewrite token_scale_six.
Qed.

Lemma size_text_nonzero s : 0 < s <= u64_max -> format_token_amount s <> "0"%string.
Proof.
  intros Hs E. assert (is_u64 s) as Hu by (unfold is_u64; lia).
  pose proof (format_token_amount_denotes s Hu) as D. rewrite E in D.
  assert (denotes "0" 0 TOKEN_SCALE) as D0 by (exists 0, O; split; [reflexivity|lia]).
  assert (s = 0); [|lia]. eapply denotes_inj; [|exact D|exact D0]. by rewrite token_scale_six.
Qed.

Lemma view_update c m p n :
  price_ok p -> 0 <= n <= u64_max -> side_ok m -> view c m ->
  view (client_level c (level_text p n)) (upd_level m p n) /\ side_ok (upd_level m p n).
Proof.
  intros Hp Hn Hok [HM HC]. split; [|].
  2:{ intros q s. rewrite upd_level_lookup. case_decide as Hq; [|apply Hok]. case_decide; [done|].
      intros [= <-]. subst. split; [done|lia]. }
  assert (client_level c (level_text p n) =
    if decide (n = 0) then delete (format_price_pieces p) c
    else <[format_price_pieces p := format_token_amount n]> c) as ->.
  { unfold client_level, level_text. simpl. destruct (decide (n = 0)) as [->|Hz]; [done|].
    rewrite decide_False; [done|]. apply size_text_nonzero. lia. }
  split.
  - intros q Hq. rewrite upd_level_lookup. destruct (decide (q = p)) as [->|Hne].
    + case_decide; [by rewrite lookup_delete_eq|by rewrite lookup_insert_eq].
    + assert (format_price_pieces p <> format_price_pieces q) as Ht.
      { intros E. by apply price_text_inj in E. }
      case_decide; [rewrite lookup_delete_ne by done|rewrite lookup_insert_ne by done]; by apply HM.
  - intros t Ht. destruct (decide (t = format_price_pieces p)) as [->|Hne].
    + destruct (decide (n = 0)) as [->|Hz]; [by rewrite lookup_delete_eq in Ht; destruct Ht|].
      exists p. split; [|done]. rewrite upd_level_lookup, decide_True, decide_False by done. by eexists.
    + assert (is_Some (c !! t)) as Ht' by (by case_decide; [rewrite lookup_delete_ne in Ht|rewrite lookup_insert_ne in Ht]).
      destruct (HC t Ht') as (q & Hq & ->). exists q. split; [|done].
      rewrite upd_level_lookup. rewrite decide_False; [done|congruence].
Qed.

(** A step published on the market moves the client along with the book. *)
Definition book_view (c : ClientBook) (book : SpotBook) : Prop :=
  view (c_bids c) (bids book) /\ view (c_asks c) (asks book) /\ c_sequence c = sequence book.

Definition book_ok (book : SpotBook) : Prop := side_ok (bids book) /\ side_ok (asks book).

Lemma client_follows c blk sh sh' side p n delta :
  changed true blk sh sh' side p n -> ms_orderbook_tx sh' = ms_orderbook_tx sh ++ [delta] ->
  price_ok p -> 0 <= n <= u64_max -> book_ok (ms_book sh) -> book_view c (ms_book sh) ->
  book_view (client_apply c delta) (ms_book sh') /\ book_ok (ms_book sh').
Proof.
  intros C Ed Hp Hn [Hb Ha] (Vb & Va & Vs). destruct (ch_delta _ _ _ _ _ _ _ C) as (d & E & Hs & _ & Eb & Ea & _).
  rewrite Ed in E. apply app_inv_head in E. simplify_eq/=.
  pose proof (ch_side _ _ _ _ _ _ _ C) as Cs. pose proof (ch_other _ _ _ _ _ _ _ C) as Co.
  unfold book_view, book_ok, client_apply. simpl. rewrite Eb, Ea.
  destruct side; simpl in *.
  - destruct (view_update _ _ p n Hp Hn Hb Vb) as [V1 V2]. rewrite Cs. pose proof (Co Sell ltac:(done)) as E. simpl in E. rewrite E. done.
  - destruct (view_update _ _ p n Hp Hn Ha Va) as [V1 V2]. rewrite Cs. pose proof (Co Buy ltac:(done)) as E. simpl in E. rewrite E. done.
Qed.

Definition op_price_ok (op : BookOp) : Prop :=
  match op_effect op with Some (_, p, _, _) => price_ok p | None => True end.

Definition run_ops (b : Books) (ops : list BookOp) : Books :=
  foldl (fun b op => (book_step true (b, None) op).1) b ops.

(** The messages a market's channel gained between two states. *)
Definition new_deltas (b b' : Books) (spot : string) : list OrderBookDelta :=
  drop (length (ms_orderbook_tx (shard b spot))) (ms_orderbook_tx (shard b' spot)).

Definition follows (c : ClientBook) (b b' : Books) (spot : string) : Prop :=
  exists ds, ms_orderbook_tx (shard b' spot) = ms_orderbook_tx (shard b spot) ++ ds /\
    book_view (foldl client_apply c ds) (ms_book (shard b' spot)) /\ book_ok (ms_book (shard b' spot)) /\
    sequence (ms_book (shard b' spot)) = Z.min (sequence (ms_book (shard b spot)) + Z.of_nat (length ds)) u64_max /\
    (forall i d, ds !! i = Some d ->
      obd_sequence d = Z.min (sequence (ms_book (shard b spot)) + Z.of_nat (S i)) u64_max).

Lemma shard_put_same b b' spot sh' spot' :
  shards b' = shards (put_shard b spot sh') -> normalize_spot_market_key spot' = normalize_spot_market_key spot ->
  shard b' spot' = sh'.
Proof. intros E H. unfold shard. rewrite E, H. unfold put_shard. simpl. by rewrite lookup_insert_eq. Qed.

Lemma shard_put_other b b' spot sh' spot' :
  shards b' = shards (put_shard b spot sh') -> normalize_spot_market_key spot' <> normalize_spot_market_key spot ->
  shard b' spot' = shard b spot'.
Proof. intros E H. unfold shard. rewrite E. unfold put_shard. simpl. by rewrite lookup_insert_ne. Qed.

Lemma follows_step c b b' spot op :
  0 <= sequence (ms_book (shard b spot)) <= u64_max ->
  op_u64 op -> op_price_ok op -> follows c b b' spot -> follows c b (book_step true (b', None) op).1 spot.
Proof.
  intros Hseq Hu Hp (ds & E & V & O & Sl & Sq). pose proof (step_shape true b' None op) as HS.
  unfold op_price_ok in Hp. destruct (op_effect op) as [[[[side p] a] add]|] eqn:Ee; [|rewrite HS; by exists ds].
  destruct (op_effect_u64 _ _ _ _ _ Hu Ee) as (_ & Ha & _).
  destruct HS as (sh' & Es & C & _).
  destruct (decide (normalize_spot_market_key spot = normalize_spot_market_key (op_spot op))) as [Hk|Hk].
  2:{ unfold follows. rewrite (shard_put_other _ _ _ _ spot Es Hk). by exists ds. }
  assert (shard b' (op_spot op) = shard b' spot) as Esh by (unfold shard; by rewrite Hk).
  rewrite Esh in *. unfold follows. rewrite (shard_put_same _ _ _ _ spot Es Hk).
  destruct (ch_delta _ _ _ _ _ _ _ C) as (d & Ed & Hs & _).
  set (n := next_size _ a add) in *.
  assert (0 <= n <= u64_max) as Hn.
  { apply next_size_u64; [|done]. destruct (levels_of side (ms_book (shard b' spot)) !! p) eqn:El; [|simpl; mach].
    destruct O as [O1 O2]. simpl. destruct side; [apply O1 in El|apply O2 in El]; lia. }
  destruct (client_follows (foldl client_apply c ds) (op_block op) (shard b' spot) sh' side p n d C Ed Hp Hn O V) as [V' O'].
  exists (ds ++ [d]). split_and!.
  - by rewrite Ed, E, app_assoc.
  - by rewrite foldl_app.
  - done.
  - rewrite (ch_seq _ _ _ _ _ _ _ C), Sl, length_app. simpl. mach.
  - intros i x Hx. apply lookup_app_Some in Hx as [Hx|[Hi Hx]]; [by apply Sq|].
    apply list_lookup_singleton_Some in Hx as [Hi0 <-]. rewrite Hs, (ch_seq _ _ _ _ _ _ _ C), Sl.
    assert (i = length ds) as -> by lia. mach.
Qed.

Lemma follows_run c b ops spot :
  0 <= sequence (ms_book (shard b spot)) <= u64_max ->
  Forall (fun op => op_u64 op /\ op_price_ok op) ops -> follows c b b spot -> follows c b (run_ops b ops) spot.
Proof.
  intros Hseq. generalize b at 2 4. induction ops as [|op ops IH]; intros b' HF H; simpl; [done|].
  apply Forall_cons in HF as [[Hu Hp] HF]. apply IH; [done|]. by apply follows_step.
Qed.

Lemma map_text_view m depth (l : list (Z * Z)) :
  side_ok m -> (size m <= depth)%nat -> l ≡ₚ map_to_list m ->
  view (list_to_map ((fun x => (lvl_price x, lvl_size x)) <$> (to_level <$> take depth l))) m.
Proof.
  intros Hok Hd HP. rewrite take_ge by (rewrite HP, length_map_to_list; lia).
  rewrite <- list_fmap_compose. set (f := _ ∘ to_level).
  assert (NoDup (f <$> l).*1) as Hnd.
  { rewrite <- list_fmap_compose. apply NoDup_fmap_2_strong.
    - intros [p s] [q t] Hp Hq E. unfold f in E. simpl in E.
      rewrite HP, elem_of_map_to_list in Hp. rewrite HP, elem_of_map_to_list in Hq.
      assert (p = q) as -> by (apply price_text_inj in E; [done|by apply (Hok p s)|by apply (Hok q t)]).
      congruence.
    - rewrite HP. apply NoDup_map_to_list. }
  split.
  - intros p Hp. destruct (m !! p) as [s|] eqn:E; simpl.
    + apply elem_of_list_to_map_1; [done|]. apply list_elem_of_fmap. exists (p, s). split; [done|].
      by rewrite HP, elem_of_map_to_list.
    + apply not_elem_of_list_to_map_1. intros (x & Ex & Hx)%list_elem_of_fmap.
      apply list_elem_of_fmap in Hx as ([q t] & -> & Hq). rewrite HP, elem_of_map_to_list in Hq. simpl in Ex.
      assert (p = q) as -> by (apply price_text_inj in Ex; [done|done|by apply (Hok q t)]). congruence.
  - intros t [s Hs]. apply elem_of_list_to_map_2, list_elem_of_fmap in Hs as ([p x] & E & Hp).
    rewrite HP, elem_of_map_to_list in Hp. exists p. unfold f in E. simpl in E. simplify_eq. split; [by eexists|done].
Qed.

(** C2: a client that takes a full snapshot of a market and applies every delta
    published afterwards, in order, holds the server's book: every price shows
    the server's size, nothing else is shown, and the deltas' sequence numbers
    are consecutive from the snapshot's.  What happens meanwhile is order events
    of any market: a rehydration from the chain replaces the levels without
    publishing anything, and such a client would not see it.  Prices are at most
    [u64::MAX / 100], beyond which different prices print alike, and the
    snapshot's depth covers both sides. *)
Theorem client_replay b spot depth snap ops :
  ws_snapshot b spot depth = Some snap ->
  book_ok (ms_book (shard b spot)) -> 0 <= sequence (ms_book (shard b spot)) <= u64_max ->
  (size (bids (ms_book (shard b spot))) <= depth)%nat -> (size (asks (ms_book (shard b spot))) <= depth)%nat ->
  Forall (fun op => op_u64 op /\ op_price_ok op) ops ->
  let b' := run_ops b ops in
  let ds := new_deltas b b' spot in
  book_view (foldl client_apply (client_of snap) ds) (ms_book (shard b' spot)) /\
  (forall i d, ds !! i = Some d -> obd_sequence d = Z.min (obs_sequence snap + Z.of_nat (S i)) u64_max).
Proof.
  intros Hsnap Hok Hseq Hb Ha Hops b' ds. unfold ws_snapshot in Hsnap.
  destruct (try_shard b spot) as [sh|] eqn:Et; [|done]. simpl in Hsnap. injection Hsnap as <-.
  assert (shard b spot = sh) as Esh by (unfold shard, try_shard in *; by rewrite Et). rewrite Esh in *.
  assert (follows (client_of (book_to_ws_snapshot (ms_spot_market sh) (ms_book sh) depth)) b b spot) as H0.
  { exists []. rewrite Esh. split_and!; [by rewrite app_nil_r| |done|simpl; mach|done].
    destruct Hok as [Ob Oa]. unfold book_view. simpl. split_and!; [| |done].
    - apply map_text_view; [done|done|]. by rewrite reverse_Permutation, sorted_levels_perm.
    - apply map_text_view; [done|done|apply sorted_levels_perm]. }
  destruct (follows_run _ b ops spot ltac:(by rewrite Esh) Hops H0) as (ds' & E & V & _ & _ & Sq).
  assert (ds = ds') as -> by (unfold ds, new_deltas, b'; by rewrite E, drop_app_length).
  split; [exact V|]. intros i d Hd. rewrite (Sq i d Hd), Esh. done.
Qed.
End Replay.

(** ** Recent trades *)

(** Newest first, ids strictly decreasing and at most the counter. *)
Definition trades_ok (seq : Z) (l : list RecentTrade) : Prop :=
  (length l <= RECENT_TRADE_LIMIT)%nat /\ StronglySorted (fun a b => rt_id b < rt_id a) l /\
  Forall (fun t => 0 < rt_id t <= seq) l.

Section Trades.
Context {SD : Sdk}.

Lemma trades_ok_push seq l tr :
  trades_ok seq l -> rt_id tr = seq + 1 -> 0 <= seq ->
  trades_ok (seq + 1) (take RECENT_TRADE_LIMIT (tr :: l)).
Proof.
  intros (H1 & H2 & H3) Ht Hs.
  assert (StronglySorted (fun a b => rt_id b < rt_id a) (tr :: l)) as HS.
  { constructor; [done|]. eapply Forall_impl; [exact H3|]. simpl. lia. }
  assert (Forall (fun t => 0 < rt_id t <= seq + 1) (tr :: l)) as HF.
  { constructor; [lia|]. eapply Forall_impl; [exact H3|]. simpl. lia. }
  rewrite <- (take_drop RECENT_TRADE_LIMIT (tr :: l)) in HS, HF.
  split_and!; [rewrite length_take; lia|by apply StronglySorted_app_1_l in HS|by apply Forall_app in HF as [? _]].
Qed.

Lemma trades_ok_mono seq seq' l : seq <= seq' -> trades_ok seq l -> trades_ok seq' l.
Proof.
  intros Hs (H1 & H2 & H3). split_and!; [done|done|]. eapply Forall_impl; [exact H3|]. simpl. lia.
Qed.

Definition all_trades_ok (b : Books) : Prop :=
  0 <= trade_seq b /\ forall key sh, shards b !! key = Some sh -> trades_ok (trade_seq b) (trades (ms_book sh)).

Lemma trades_ok_nil seq : trades_ok seq [].
Proof. split_and!; [simpl; unfold RECENT_TRADE_LIMIT; lia|constructor|constructor]. Qed.

Lemma shard_trades_ok b spot : all_trades_ok b -> trades_ok (trade_seq b) (trades (ms_book (shard b spot))).
Proof. intros [_ H]. unfold shard. destruct (shards b !! _) eqn:E; simpl; [by eapply H|apply trades_ok_nil]. Qed.

Lemma put_trades_ok b b' spot sh' :
  all_trades_ok b -> shards b' = shards (put_shard b spot sh') -> trade_seq b <= trade_seq b' ->
  trades_ok (trade_seq b') (trades (ms_book sh')) -> all_trades_ok b'.
Proof.
  intros [H0 H] E Hs Ht. split; [lia|]. intros key sh. rewrite E. unfold put_shard. simpl.
  destruct (decide (key = normalize_spot_market_key spot)) as [->|Hk].
  - rewrite lookup_insert_eq. intros [= <-]. done.
  - rewrite lookup_insert_ne by done. intros Hsh. apply (trades_ok_mono (trade_seq b)); [done|]. by eapply H.
Qed.

(** Every order event keeps each market's recent trades a list of at most
    fifty, newest first, with strictly decreasing ids taken from one global
    counter. *)
Theorem recent_trades_ring pub b ws op :
  trade_seq b < u64_max -> all_trades_ok b -> all_trades_ok (book_step pub (b, ws) op).1.
Proof.
  intros Hmax Hb. pose proof Hb as [H0 _].
  assert (forall s d p a add blk, all_trades_ok (change_level b s d p a add blk pub ws).1) as HC.
  { intros s d p a add blk. destruct (change_level_shape pub b ws s d p a add blk) as (sh' & E & _ & Et & _).
    rewrite E. eapply put_trades_ok; [done|reflexivity|done|]. simpl. rewrite Et. by apply shard_trades_ok. }
  destruct op as [s d p a blk|s d p a blk|s d p o w r blk|s d p a blk tp t now]; simpl.
  - unfold apply_created. case_decide; [done|apply HC].
  - unfold apply_cancelled. case_decide; [done|apply HC].
  - unfold apply_updated. repeat (case_decide; try done); apply HC.
  - destruct (decide (p = 0 \/ a = 0)) as [Hz|Hz]; [unfold apply_filled; by rewrite decide_True|].
    destruct (filled_shape pub b ws s d p a blk tp t now Hz) as (sh' & seq & E & _ & _ & Ht & _). rewrite E.
    destruct Ht as [[-> Et]|[Eseq (tr & Etr & Et)]].
    + eapply put_trades_ok; [done|reflexivity|done|]. simpl. rewrite Et. by apply shard_trades_ok.
    + assert (seq = trade_seq b + 1) as -> by (rewrite Eseq; apply as_u64_id; mach).
      eapply put_trades_ok; [done|reflexivity|simpl; lia|]. simpl. rewrite Et.
      apply trades_ok_push; [by apply shard_trades_ok|rewrite Etr; mach|done].
Qed.
End Trades.

(** ** Witnesses *)

Lemma snapshot_best_levels_witness :
  exists snap sh, snapshot (S := DemoSdk) demo_books "c7" 5 = Some snap /\ try_shard (S := DemoSdk) demo_books "c7" = Some sh /\
    snap_sequence snap = 3 /\ side_view (SD := DemoSdk) (fun p q => p < q) (asks (ms_book sh)) 5 (snap_asks snap).
Proof.
  destruct (snapshot (S := DemoSdk) demo_books "c7" 5) as [snap|] eqn:E; [|vm_compute in E; discriminate].
  destruct (snapshot_best_levels (SD := DemoSdk) demo_books "c7" 5 snap E) as (sh & H1 & H2 & _ & H3).
  exists snap, sh. split; [done|]. split; [exact H1|]. split; [|exact H3].
  vm_compute in E. injection E as <-. reflexivity.
Defined.

Lemma demo_book_ok : book_ok (ms_book (shard (S := DemoSdk) demo_books "c7")).
Proof.
  split; intros p s Hp; apply elem_of_map_to_list in Hp; vm_compute in Hp;
    repeat (apply elem_of_cons in Hp as [[= -> ->]|Hp]); try (by apply elem_of_nil in Hp);
    (split; split; vm_compute; congruence).
Qed.

Definition demo_more : list BookOp := [OpCreated "c7" Sell 650000 9 4; OpCancelled "c8" Buy 1 1 4; OpCancelled "c7" Buy 500000 40 5].

Lemma client_replay_witness :
  exists snap, ws_snapshot (S := DemoSdk) demo_books "c7" 5 = Some snap /\
    length (new_deltas (SD := DemoSdk) demo_books (run_ops (SD := DemoSdk) demo_books demo_more) "c7") = 2%nat /\
    book_view (SD := DemoSdk) (foldl client_apply (client_of snap) (new_deltas (SD := DemoSdk) demo_books (run_ops (SD := DemoSdk) demo_books demo_more) "c7"))
      (ms_book (shard (S := DemoSdk) (run_ops (SD := DemoSdk) demo_books demo_more) "c7")).
Proof.
  destruct (ws_snapshot (S := DemoSdk) demo_books "c7" 5) as [snap|] eqn:E; [|vm_compute in E; discriminate].
  exists snap. split; [done|]. split; [vm_compute; reflexivity|].
  apply (client_replay (SD := DemoSdk) demo_books "c7" 5 snap demo_more E demo_book_ok).
  - split; vm_compute; congruence.
  - vm_compute. lia.
  - vm_compute. lia.
  - repeat (constructor; [split; [split; vm_compute; split; congruence|vm_compute; split; congruence]|]). constructor.
Defined.

Lemma recent_trades_ring_witness :
  all_trades_ok (book_step (SD := DemoSdk) true (Books_new, None) (OpFilled "c7" Buy 5 6 1 5 None 99)).1.
Proof.
  apply (recent_trades_ring (SD := DemoSdk) true Books_new None (OpFilled "c7" Buy 5 6 1 5 None 99)).
  - reflexivity.
  - split; [done|]. intros key sh. simpl. by rewrite lookup_empty.
Defined.
