(* ===== verification/BooksPersist.v ===== *)
(** * BooksPersist: the persisted image of the order books

    The write set handed to every operation mirrors the levels, sequences and
    last prices of the in-memory books, and the export of the books loads back
    to the same ones. *)
From S2P Require Import Prelude Text Sdk Keys Amounts Domain WriteSet Books BooksFacts.

Local Open Scope list_scope.
Local Open Scope Z_scope.

(** A table of levels that agrees with the books: every level is in the table,
    unless its size is beyond i64. *)
Definition mirrors (m : gmap LevelKey Z) (b : Books) : Prop :=
  forall key side p, is_u64 p -> m !! (key, side_str side, as_i64 p) = level_at b key side p ≫= persistable.

(** What a market's book shows besides its levels: the sequence and the last
    trade price; a missing shard is like a fresh one. *)
Definition book_head (b : Books) (key : string) : Z * option Z :=
  match shards b !! key with Some sh => (sequence (ms_book sh), last_trade_price (ms_book sh)) | None => (0, None) end.

(** Sequences and prices are u64s, and a book that never changed has no price. *)
Definition head_ok (h : Z * option Z) : Prop :=
  is_u64 h.1 /\ (forall p, h.2 = Some p -> is_u64 p) /\ (h.1 = 0 -> h.2 = None).
Definition heads_ok (b : Books) : Prop := forall key, head_ok (book_head b key).

(** A table of book metadata that agrees with the books: every row is that of
    its market's book, and a book without a row has never changed. *)
Definition meta_row (h : Z * option Z) : BookMetaRow := {| bm_sequence := as_i64 h.1; bm_last_trade_price := as_i64 <$> h.2 |}.
Record mirrors_meta (m : gmap string BookMetaRow) (b : Books) : Prop := {
  mm_row key row : m !! key = Some row -> is_Some (shards b !! key) /\ row = meta_row (book_head b key);
  mm_none key : m !! key = None -> (book_head b key).1 = 0
}.

Lemma fresh_head_ok : head_ok (0, None).
Proof. by split_and!. Qed.

Lemma side_str_inj s t : side_str s = side_str t -> s = t.
Proof. by destruct s, t. Qed.

Lemma level_key_inj (k1 k2 : string) s1 s2 p1 p2 :
  is_u64 p1 -> is_u64 p2 -> (k1, side_str s1, as_i64 p1) = (k2, side_str s2, as_i64 p2) -> k1 = k2 /\ s1 = s2 /\ p1 = p2.
Proof.
  intros H1 H2 E. injection E as -> Es Ep. split; [done|]. split; [by apply side_str_inj|by apply as_i64_inj].
Qed.

Section Mirror.
Context {SD : Sdk} {L : SdkLaws}.

Lemma step_mirrors pub b w op m :
  book_wf b -> op_u64 op -> mirrors (delta_apply (ws_book_levels w) m) b ->
  exists w', (book_step pub (b, Some w) op).2 = Some w' /\
    mirrors (delta_apply (ws_book_levels w') m) (book_step pub (b, Some w) op).1.
Proof.
  intros Hwf Hu HM. pose proof (step_shape pub b (Some w) op) as HS. pose proof (step_levels pub b (Some w) op) as HL.
  unfold level_after in HL. destruct (op_effect op) as [[[[side0 p0] a] add]|] eqn:Ee; [|rewrite HS; by exists w].
  destruct (op_effect_u64 _ _ _ _ _ Hu Ee) as (Hp0 & Ha & _).
  destruct HS as (sh' & _ & _ & ->). unfold ws_changed. simpl. eexists. split; [done|].
  intros key side p Hp. rewrite HL. rewrite (shard_name b (op_spot op)) by apply Hwf.
  rewrite (shard_levels b (op_spot op) side0 p0).
  set (k := normalize_spot_market_key (op_spot op)) in *.
  set (n := next_size _ a add) in *.
  assert (normalize_spot_market_key k = k) as Hk by apply normalize_idemp.
  assert (forall x, delta_apply (ws_book_levels (if decide (n = 0) then delete_book_level w k (side_str side0) (as_i64 p0)
      else store_book_level w k (side_str side0) (as_i64 p0) (as_i64 n))) m !! x =
    if decide (x = (k, side_str side0, as_i64 p0)) then (if decide (n = 0) then None else Some n) ≫= persistable
    else delta_apply (ws_book_levels w) m !! x) as E.
  { intros x. case_decide; [rewrite delete_level_lookup|rewrite store_level_lookup]; by rewrite Hk. }
  cbn [ws_book_levels with_book_meta store_book_meta]. rewrite E.
  destruct (decide (key = k /\ side = side0 /\ p = p0)) as [(-> & -> & ->)|Hne].
  - rewrite (decide_True (P := (k, _, _) = _)) by done. reflexivity.
  - rewrite decide_False by (intros ?%level_key_inj; tauto). by apply HM.
Qed.

Lemma book_head_put b b' spot sh' key :
  shards b' = shards (put_shard b spot sh') ->
  book_head b' key = if decide (key = normalize_spot_market_key spot)
    then (sequence (ms_book sh'), last_trade_price (ms_book sh')) else book_head b key.
Proof.
  intros E. unfold book_head. rewrite E. unfold put_shard. simpl. case_decide as Hk.
  - subst key. by rewrite lookup_insert_eq.
  - by rewrite lookup_insert_ne.
Qed.

Lemma shard_head b spot : book_head b (normalize_spot_market_key spot) = (sequence (ms_book (shard b spot)), last_trade_price (ms_book (shard b spot))).
Proof. unfold book_head, shard. by destruct (shards b !! _). Qed.

(** A shard goes in together with its row. *)
Lemma put_mirrors_meta m b b' spot sh' :
  mirrors_meta m b -> shards b' = shards (put_shard b spot sh') ->
  mirrors_meta (<[normalize_spot_market_key spot := meta_row (sequence (ms_book sh'), last_trade_price (ms_book sh'))]> m) b'.
Proof.
  intros [H1 H2] E. split; intros key; [intros row|]; rewrite (book_head_put b b' spot sh' key E).
  - rewrite E. unfold put_shard. simpl. intros [[<- <-]|[Hk H]]%lookup_insert_Some.
    + rewrite decide_True, lookup_insert_eq by done. by split.
    + rewrite decide_False, lookup_insert_ne by done. by apply H1.
  - intros [Hk Hm]%lookup_insert_None. rewrite decide_False by done. by apply H2.
Qed.

Lemma put_heads_ok b b' spot sh' :
  heads_ok b -> head_ok (sequence (ms_book sh'), last_trade_price (ms_book sh')) -> shards b' = shards (put_shard b spot sh') -> heads_ok b'.
Proof. intros H Hs E key. rewrite (book_head_put b b' spot sh' key E). by case_decide. Qed.

Lemma next_head_ok h last :
  head_ok h -> (forall p, last = Some p -> is_u64 p) -> head_ok (sat_add h.1 1, last).
Proof. intros (H1 & _ & _) Hl. split_and!; simpl; [mach|done|unfold is_u64, sat_add, u64_max in *; lia]. Qed.

Lemma step_mirrors_meta pub b w op m :
  book_wf b -> mirrors_meta (delta_apply (ws_book_meta w) m) b ->
  exists w', (book_step pub (b, Some w) op).2 = Some w' /\
    mirrors_meta (delta_apply (ws_book_meta w') m) (book_step pub (b, Some w) op).1.
Proof.
  intros Hwf HM. pose proof (step_shape pub b (Some w) op) as HS.
  destruct (op_effect op) as [[[[side0 p0] a] add]|] eqn:Ee; [|rewrite HS; by exists w].
  destruct HS as (sh' & E & _ & ->). unfold ws_changed. simpl. eexists. split; [done|].
  rewrite (shard_name b (op_spot op)) by apply Hwf. cbn [ws_book_meta with_book_meta store_book_meta]. rewrite normalize_idemp, delta_store_apply.
  set (w1 := if decide _ then _ else _).
  assert (ws_book_meta w1 = ws_book_meta w) as Ew.
  { unfold w1, delete_book_level, store_book_level. repeat case_decide; done. }
  rewrite Ew. exact (put_mirrors_meta _ b _ (op_spot op) sh' HM E).
Qed.

(** The trade price an operation records, a u64 as decoded. *)
Definition op_trade_u64 (op : BookOp) : Prop :=
  match op with OpFilled _ _ _ _ _ tp _ _ => is_u64 tp | _ => True end.

(** The last price after an operation: that of a fill, or the old one. *)
Definition op_last (op : BookOp) (last : option Z) : option Z :=
  match op with OpFilled _ _ _ _ _ tp _ _ => Some tp | _ => last end.

Lemma step_head pub b ws op key :
  book_head (book_step pub (b, ws) op).1 key =
  if decide (is_Some (op_effect op) /\ key = normalize_spot_market_key (op_spot op))
  then (sat_add (book_head b key).1 1, op_last op (book_head b key).2) else book_head b key.
Proof.
  assert (forall side p a add blk, book_head (change_level b (op_spot op) side p a add blk pub ws).1 key =
    if decide (key = normalize_spot_market_key (op_spot op)) then (sat_add (book_head b key).1 1, (book_head b key).2) else book_head b key) as HC.
  { intros side p a add blk. unfold change_level, apply_level_change. cbn [fst].
    rewrite (book_head_put b _ (op_spot op) _ key eq_refl). case_decide as Hk; [|done]. subst key. rewrite shard_head. by destruct pub, side. }
  destruct op as [s d p a blk|s d p a blk|s d p o w r blk|s d p a blk tp t now];
    cbn [op_spot] in HC; cbn [book_step op_effect op_spot op_last fst snd].
  - unfold apply_created. destruct (decide (p = 0 \/ a = 0)); [by rewrite (decide_False (P := is_Some _ /\ _)) by by intros [[? ?] _]|].
    rewrite HC. repeat case_decide; naive_solver.
  - unfold apply_cancelled. destruct (decide (p = 0 \/ a = 0)); [by rewrite (decide_False (P := is_Some _ /\ _)) by by intros [[? ?] _]|].
    rewrite HC. repeat case_decide; naive_solver.
  - unfold apply_updated. cbv zeta. set (old := sat_sub o _).
    destruct (decide (p = 0)), (decide (old = r)), (decide (old < r)); rewrite ?HC; repeat case_decide; naive_solver.
  - destruct (decide (p = 0 \/ a = 0)) as [Hz|Hz]; [unfold apply_filled; rewrite (decide_True (P := p = 0 \/ _)) by done; by rewrite (decide_False (P := is_Some _ /\ _)) by by intros [[? ?] _]|].
    destruct (filled_shape pub b ws s d p a blk tp t now Hz) as (sh' & seq & E & C & El & _).
    rewrite (book_head_put b _ s sh' key) by by rewrite E. rewrite (ch_seq _ _ _ _ _ _ _ C), El.
    destruct (decide (key = normalize_spot_market_key s)) as [->|Hk].
    + rewrite decide_True by (split; [by eexists|done]). by rewrite shard_head.
    + by rewrite decide_False by (by intros [_ ?]).
Qed.

Lemma step_heads_ok pub b ws op : heads_ok b -> op_trade_u64 op -> heads_ok (book_step pub (b, ws) op).1.
Proof.
  intros H Ho key. rewrite step_head. case_decide; [|apply H]. apply next_head_ok; [apply H|].
  intros p. destruct op; simpl in *; try apply H. by intros [= <-].
Qed.

(** The persisted levels mirror the books: whatever a block has stored so
    far, an operation extends the block's write set so that the table it leaves
    agrees with the books it leaves, level by level; only levels with a size
    beyond [i64::MAX] are missing. *)
Theorem write_set_mirrors_books pub b w op m :
  books_reach b -> op_u64 op -> mirrors (delta_apply (ws_book_levels w) m) b ->
  exists w', (book_step pub (b, Some w) op).2 = Some w' /\
    mirrors (delta_apply (ws_book_levels w') m) (book_step pub (b, Some w) op).1.
Proof. intros Hr. apply step_mirrors. by apply books_reach_wf. Qed.

(** A level whose size exceeds [i64::MAX] is deleted from the table, not
    stored, while the book keeps it: the mirror is broken beyond that size. *)
Theorem oversized_level_not_persisted pub w m spot p a blk :
  is_u64 p -> p <> 0 -> i64_max < a <= u64_max ->
  exists w', (book_step pub (Books_new, Some w) (OpCreated spot Buy p a blk)).2 = Some w' /\
    delta_apply (ws_book_levels w') m !! (normalize_spot_market_key spot, "buy"%string, as_i64 p) = None /\
    level_at (book_step pub (Books_new, Some w) (OpCreated spot Buy p a blk)).1 (normalize_spot_market_key spot) Buy p = Some a.
Proof.
  intros Hp Hp0 Ha. pose proof (step_shape pub Books_new (Some w) (OpCreated spot Buy p a blk)) as HS.
  rewrite step_levels. unfold level_after. simpl op_effect in *. simpl op_spot in *.
  assert (~ (p = 0 \/ a = 0)) as Hz by (unfold i64_max in Ha; lia).
  rewrite decide_False in HS |- * by done. destruct HS as (sh' & _ & _ & ->).
  assert (level_at Books_new (normalize_spot_market_key spot) Buy p = None) as E0 by (unfold level_at; simpl; by rewrite lookup_empty).
  rewrite (shard_levels Books_new spot Buy p), E0. simpl default. unfold next_size.
  replace (sat_add 0 a) with a by mach. unfold ws_changed. simpl.
  rewrite !(decide_False (P := a = 0)) by lia. eexists. split; [done|]. split.
  - unfold store_book_level, shard, Books_new. simpl. rewrite lookup_empty. simpl. rewrite normalize_idemp.
    rewrite decide_True.
    + simpl. rewrite delta_delete_apply. apply lookup_delete_eq.
    + pose proof (as_i64_pos a). unfold is_u64, i64_max in *. lia.
  - by rewrite decide_True.
Qed.

(** ** Hydration keeps the mirror *)

Definition agrees (m : gmap LevelKey Z) (name : string) (side : OrderSide) (w : IndexWriteSet) (levels : gmap Z Z) : Prop :=
  forall p, is_u64 p -> delta_apply (ws_book_levels w) m !! (name, side_str side, as_i64 p) = levels !! p ≫= persistable.

(** Nothing outside this market and side changed. *)
Definition same_elsewhere (m : gmap LevelKey Z) (name : string) (side : OrderSide) (w w' : IndexWriteSet) : Prop :=
  forall key side' p, (key, side') <> (name, side) ->
    delta_apply (ws_book_levels w') m !! (key, side_str side', as_i64 p) = delta_apply (ws_book_levels w) m !! (key, side_str side', as_i64 p).

Lemma delete_levels_agrees m name side levels w :
  normalize_spot_market_key name = name -> (forall p s, levels !! p = Some s -> is_u64 p) ->
  agrees m name side w levels ->
  agrees m name side (delete_levels name side levels w) ∅ /\ same_elsewhere m name side w (delete_levels name side levels w).
Proof.
  intros Hname Hu Hag. unfold delete_levels.
  assert (forall (l : list (Z * Z)) w, delta_apply (ws_book_levels (foldl (fun w p => delete_book_level w name (side_str side) (as_i64 p.1)) w l)) m =
     foldl (fun t k => delete k t) (delta_apply (ws_book_levels w) m) ((fun p => (name, side_str side, as_i64 p.1)) <$> l)) as HF.
  { induction l as [|x l IH]; intros w'; simpl; [done|]. rewrite IH. unfold delete_book_level. simpl.
    by rewrite Hname, delta_delete_apply. }
  split.
  - intros p Hp. rewrite HF, delete_fold_lookup, lookup_empty. simpl. case_decide as Hin; [done|].
    rewrite Hag by done. destruct (levels !! p) as [s|] eqn:E; [|done]. destruct Hin.
    apply list_elem_of_fmap. exists (p, s). split; [done|]. unfold sorted_levels. rewrite merge_sort_Permutation. by apply elem_of_map_to_list.
  - intros key side' p Hne. rewrite HF, delete_fold_lookup. case_decide as Hin; [|done].
    apply list_elem_of_fmap in Hin as (x & E & _). injection E as -> Es _. apply side_str_inj in Es as ->. done.
Qed.

Lemma hydrate_levels_agrees m name side chain levels w :
  normalize_spot_market_key name = name -> Forall (fun l => is_u64 (cl_price l) /\ is_u64 (cl_total_quantity l)) chain ->
  agrees m name side w levels ->
  exists w', (hydrate_levels name side chain (levels, Some w)).2 = Some w' /\
    agrees m name side w' (hydrate_levels name side chain (levels, Some w)).1 /\ same_elsewhere m name side w w'.
Proof.
  intros Hname HF. revert levels w. induction HF as [|x chain [Hp Hq] HF IH]; intros levels w Hag; simpl.
  - exists w. split_and!; [done|done|]. by intros key side' p _.
  - case_decide as Hpos; [|by apply IH]. simpl.
    set (w1 := store_book_level w name (side_str side) (as_i64 (cl_price x)) (as_i64 (cl_total_quantity x))).
    assert (forall k, delta_apply (ws_book_levels w1) m !! k =
      if decide (k = (name, side_str side, as_i64 (cl_price x))) then persistable (cl_total_quantity x)
      else delta_apply (ws_book_levels w) m !! k) as E1 by (intros k; unfold w1; by rewrite store_level_lookup, Hname).
    destruct (IH (<[cl_price x := cl_total_quantity x]> levels) w1) as (w' & -> & H1 & H2).
    + intros p Hpu. rewrite E1. destruct (decide (p = cl_price x)) as [->|Hne].
      * by rewrite decide_True, lookup_insert_eq.
      * rewrite decide_False by (intros (_ & _ & ?)%level_key_inj; done). rewrite lookup_insert_ne by done. by apply Hag.
    + exists w'. split_and!; [done|done|]. intros key side' p Hne. rewrite H2 by done. rewrite E1, decide_False; [done|].
      intros E. injection E as -> Es _. apply side_str_inj in Es as ->. done.
Qed.

Lemma hydrate_mirrors_wf b w spot cb price m :
  book_wf b -> chain_u64 cb -> mirrors (delta_apply (ws_book_levels w) m) b ->
  exists w', (hydrate_from_chain b spot cb price (Some w)).2 = Some w' /\
    mirrors (delta_apply (ws_book_levels w') m) (hydrate_from_chain b spot cb price (Some w)).1.
Proof.
  intros Hr HF HM. apply Forall_app in HF as [HFb HFa].
  pose proof (shard_name b spot (proj1 Hr)) as Hname.
  set (k := normalize_spot_market_key spot) in *.
  assert (normalize_spot_market_key k = k) as Hk by apply normalize_idemp.
  assert (forall side, agrees m k side w (levels_of side (ms_book (shard b spot)))) as Hag.
  { intros side p Hp. rewrite (HM k side p Hp), shard_levels. done. }
  assert (forall side p s, levels_of side (ms_book (shard b spot)) !! p = Some s -> is_u64 p) as Hu.
  { intros side p s Hps. by apply (book_wf_levels b spot side Hr) in Hps as [? _]. }
  unfold hydrate_from_chain. rewrite Hname. simpl.
  destruct (delete_levels_agrees m k Buy (bids (ms_book (shard b spot))) w Hk (Hu Buy) (Hag Buy)) as [A1 F1].
  set (w1 := delete_levels k Buy _ w) in *.
  destruct (delete_levels_agrees m k Sell (asks (ms_book (shard b spot))) w1 Hk (Hu Sell)) as [A2 F2].
  { intros p Hp. rewrite F1 by congruence. apply (Hag Sell p Hp). }
  set (w2 := delete_levels k Sell _ w1) in *.
  destruct (hydrate_levels_agrees m k Buy (best_bids cb) ∅ w2 Hk HFb) as (w3 & E3 & A3 & F3).
  { intros p Hp. rewrite F2 by congruence. by apply A1. }
  destruct (hydrate_levels k Buy (best_bids cb) (∅, Some w2)) as [bids' ws3] eqn:Eb. simpl in E3, A3. subst ws3.
  destruct (hydrate_levels_agrees m k Sell (best_asks cb) ∅ w3 Hk HFa) as (w4 & E4 & A4 & F4).
  { intros p Hp. rewrite F3 by congruence. by apply A2. }
  destruct (hydrate_levels k Sell (best_asks cb) (∅, Some w3)) as [asks' ws4] eqn:Ea. simpl in E4, A4. subst ws4.
  simpl. eexists. split; [done|]. intros key side p Hp. unfold store_book_meta, with_book_meta. cbn [ws_book_levels].
  rewrite (level_at_put b _ spot _ key side p eq_refl). case_decide as Hkey.
  - subst key. fold k. destruct side; cbn [levels_of ms_book set_book bids asks]; [rewrite F4 by congruence; by apply A3|by apply A4].
  - fold k in Hkey. rewrite F4, F3, F2, F1 by congruence. by apply HM.
Qed.

Lemma hydrate_levels_meta name side chain levels w :
  (fun w => ws_book_meta w) <$> (hydrate_levels name side chain (levels, Some w)).2 = Some (ws_book_meta w).
Proof.
  unfold hydrate_levels. revert levels w. induction chain as [|x chain IH]; intros levels w; cbn [foldl]; [done|].
  case_decide; [|apply IH]. simpl. rewrite IH. unfold store_book_level. by case_decide.
Qed.

Lemma delete_levels_meta name side levels w : ws_book_meta (delete_levels name side levels w) = ws_book_meta w.
Proof.
  unfold delete_levels. generalize (sorted_levels levels). intros l. revert w.
  induction l as [|x l IH]; intros w; cbn [foldl]; [done|]. by rewrite IH.
Qed.

Lemma hydrate_meta b w spot cb price m :
  book_wf b -> mirrors_meta (delta_apply (ws_book_meta w) m) b ->
  exists w', (hydrate_from_chain b spot cb price (Some w)).2 = Some w' /\
    mirrors_meta (delta_apply (ws_book_meta w') m) (hydrate_from_chain b spot cb price (Some w)).1.
Proof.
  intros Hr HM. unfold hydrate_from_chain. cbn [fmap option_fmap option_map]. set (w0 := delete_levels _ Sell _ _).
  assert (ws_book_meta w0 = ws_book_meta w) as E0 by (unfold w0; by rewrite !delete_levels_meta).
  pose proof (hydrate_levels_meta (ms_spot_market (shard b spot)) Buy (best_bids cb) ∅ w0) as E1.
  destruct (hydrate_levels _ Buy _ _) as [bids' [w1|]]; simpl in E1; [|done].
  pose proof (hydrate_levels_meta (ms_spot_market (shard b spot)) Sell (best_asks cb) ∅ w1) as E2.
  destruct (hydrate_levels _ Sell _ _) as [asks' [w2|]]; simpl in E2; [|done].
  simpl. eexists. split; [done|]. rewrite (shard_name b spot) by apply Hr.
  cbn [ws_book_meta with_book_meta store_book_meta]. rewrite normalize_idemp, delta_store_apply. simplify_eq. rewrite E2, E1, E0.
  exact (put_mirrors_meta _ b _ spot (set_book (shard b spot) {| bids := bids'; asks := asks'; sequence := _; last_trade_price := _;
    chain_hydrated := true; last_fill := _; trades := _ |}) HM eq_refl).
Qed.

Lemma hydrate_heads_ok b ws spot cb price :
  heads_ok b -> (forall p, price = Some p -> is_u64 p) -> heads_ok (hydrate_from_chain b spot cb price ws).1.
Proof.
  intros H Hp. unfold hydrate_from_chain. destruct (hydrate_levels _ Buy _ _), (hydrate_levels _ Sell _ _).
  refine (put_heads_ok b _ spot _ H _ eq_refl). pose proof (H (normalize_spot_market_key spot)) as Hs. rewrite shard_head in Hs.
  apply (next_head_ok _ _ Hs). intros p. destruct price; [apply Hp|apply Hs].
Qed.

(** Hydrating a market from the chain keeps the mirror: the old levels
    leave the table, the chain's levels enter it, and every other market and
    the metadata of this one follow. *)
Theorem hydrate_mirrors b w spot cb price m :
  books_reach b -> chain_u64 cb -> mirrors (delta_apply (ws_book_levels w) m) b ->
  exists w', (hydrate_from_chain b spot cb price (Some w)).2 = Some w' /\
    mirrors (delta_apply (ws_book_levels w') m) (hydrate_from_chain b spot cb price (Some w)).1.
Proof. intros Hr%books_reach_wf. by apply hydrate_mirrors_wf. Qed.
End Mirror.

(** ** Export and import *)

Section RoundTrip.
Context {SD : Sdk} {L : SdkLaws}.

Definition keys_normal (b : Books) : Prop :=
  forall key sh, shards b !! key = Some sh -> normalize_spot_market_key key = key.

Lemma put_keys_normal b spot sh : keys_normal b -> keys_normal (put_shard b spot sh).
Proof.
  intros H key sh'. unfold put_shard. simpl. destruct (decide (key = normalize_spot_market_key spot)) as [->|Hk].
  - intros _. apply normalize_idemp.
  - rewrite lookup_insert_ne by done. apply H.
Qed.

Lemma import_keys_normal b levels metas : keys_normal (import_from_persist b levels metas).
Proof.
  unfold import_from_persist. set (b0 := {| shards := ∅; trade_seq := trade_seq b |}).
  assert (keys_normal b0) as H0 by (intros key sh; simpl; by rewrite lookup_empty).
  assert (keys_normal (foldl import_meta b0 metas)) as H1.
  { generalize dependent b0. induction metas as [|m metas IH]; intros b0 H0; simpl; [done|].
    apply IH. by apply put_keys_normal. }
  generalize dependent (foldl import_meta b0 metas). intros b1 H1. revert b1 H1.
  induction levels as [|l levels IH]; intros b1 H1; simpl; [done|]. apply IH.
  unfold import_level. case_decide; [done|]. by apply put_keys_normal.
Qed.

Lemma step_keys_normal pub b ws op : keys_normal b -> keys_normal (book_step pub (b, ws) op).1.
Proof.
  intros IH. pose proof (step_shape pub b ws op) as HS. destruct (op_effect op) as [[[[side0 p0] a] add]|]; [|by rewrite HS].
  destruct HS as (sh' & E & _). unfold keys_normal. rewrite E. by apply put_keys_normal.
Qed.

Lemma hydrate_keys_normal b ws spot cb price : keys_normal b -> keys_normal (hydrate_from_chain b spot cb price ws).1.
Proof.
  intros IH. unfold hydrate_from_chain. destruct (hydrate_levels _ Buy _ _), (hydrate_levels _ Sell _ _). by apply put_keys_normal.
Qed.

Lemma books_reach_keys b : books_reach b -> keys_normal b.
Proof.
  induction 1 as [|pub b ws op _ IH Hu|b ws spot cb price _ IH Hcb|b levels metas _ IH Hl|b spot _ IH].
  - intros key sh. simpl. by rewrite lookup_empty.
  - by apply step_keys_normal.
  - by apply hydrate_keys_normal.
  - apply import_keys_normal.
  - by apply put_keys_normal.
Qed.

(** The scalar state of a shard. *)
Definition head_at (b : Books) (key : string) : option (Z * option Z * bool) :=
  (fun sh => (sequence (ms_book sh), last_trade_price (ms_book sh), chain_hydrated (ms_book sh))) <$> shards b !! key.

Lemma import_meta_levels b m key side p : level_at (import_meta b m) key side p = level_at b key side p.
Proof.
  unfold import_meta. rewrite (level_at_put b _ (pbm_spot_market m) _ key side p eq_refl). case_decide as Hk; [|done].
  subst key. rewrite <- shard_levels. by destruct side.
Qed.

Lemma import_meta_head b m key :
  head_at (import_meta b m) key =
  if decide (key = normalize_spot_market_key (pbm_spot_market m))
  then Some (pbm_sequence m, pbm_last_trade_price m, true) else head_at b key.
Proof.
  unfold head_at, import_meta, put_shard. simpl. case_decide as Hk.
  - subst key. by rewrite lookup_insert_eq.
  - by rewrite lookup_insert_ne.
Qed.

Lemma import_metas b ms :
  NoDup ((fun m => normalize_spot_market_key (pbm_spot_market m)) <$> ms) ->
  (forall key side p, level_at (foldl import_meta b ms) key side p = level_at b key side p) /\
  forall m, m ∈ ms -> head_at (foldl import_meta b ms) (normalize_spot_market_key (pbm_spot_market m)) =
    Some (pbm_sequence m, pbm_last_trade_price m, true).
Proof.
  induction ms as [|m0 ms IH] using rev_ind; intros Hnd; [split; [done|set_solver]|].
  rewrite fmap_app in Hnd. apply NoDup_app in Hnd as (Hnd & Hdis & _). destruct (IH Hnd) as [IH1 IH2].
  setoid_rewrite foldl_app. simpl. split.
  - intros key side p. by rewrite import_meta_levels.
  - intros m Hm. rewrite import_meta_head. apply elem_of_app in Hm as [Hm|Hm].
    + rewrite decide_False; [by apply IH2|]. intros E.
      apply (Hdis (normalize_spot_market_key (pbm_spot_market m))); [by apply (list_elem_of_fmap_2 (fun m => normalize_spot_market_key (pbm_spot_market m)))|].
      rewrite E. set_solver.
    + apply list_elem_of_singleton in Hm as ->. by rewrite decide_True.
Qed.

(** A row that sets this level. *)
Definition sets_level (key : string) (side : OrderSide) (p : Z) (x : PersistBookLevel) : Prop :=
  normalize_spot_market_key (pbl_spot_market x) = key /\ pbl_side x = side_str side /\ pbl_price_raw x = p /\ pbl_size_raw x <> 0.

#[global] Instance sets_level_dec key side p x : Decision (sets_level key side p x).
Proof. unfold sets_level. apply _. Defined.

Lemma import_level_at b x key side p :
  level_at (import_level b x) key side p = if decide (sets_level key side p x) then Some (pbl_size_raw x) else level_at b key side p.
Proof.
  unfold import_level, sets_level. destruct (decide (pbl_size_raw x = 0)) as [Hz|Hz].
  { rewrite decide_False; [done|]. by intros (_ & _ & _ & ?). }
  rewrite (level_at_put b _ (pbl_spot_market x) _ key side p eq_refl).
  destruct (decide (key = normalize_spot_market_key (pbl_spot_market x))) as [->|Hk].
  2:{ rewrite decide_False; [done|]. by intros (? & _). }
  rewrite <- shard_levels. simpl.
  destruct (decide (pbl_side x = "buy"%string)) as [Eb|Nb]; [|destruct (decide (pbl_side x = "sell"%string)) as [Es|Ns]]; simpl.
  - destruct side; simpl.
    + destruct (decide (p = pbl_price_raw x)) as [->|Hp].
      * rewrite lookup_insert_eq. by rewrite decide_True.
      * rewrite lookup_insert_ne by done. rewrite decide_False; [done|]. intros (_ & _ & ? & _). congruence.
    + rewrite decide_False; [done|]. intros (_ & E & _). simpl in E. congruence.
  - destruct side; simpl.
    + rewrite decide_False; [done|]. intros (_ & E & _). simpl in E. congruence.
    + destruct (decide (p = pbl_price_raw x)) as [->|Hp].
      * rewrite lookup_insert_eq. by rewrite decide_True.
      * rewrite lookup_insert_ne by done. rewrite decide_False; [done|]. intros (_ & _ & ? & _). congruence.
  - destruct side; simpl; (rewrite decide_False; [done|]); intros (_ & E & _); simpl in E; congruence.
Qed.

Lemma import_level_head b x key h :
  head_at b key = Some (h, true) -> head_at (import_level b x) key = Some (h, true).
Proof.
  unfold import_level. case_decide; [done|]. unfold head_at, put_shard, shard. simpl. intros E.
  destruct (decide (key = normalize_spot_market_key (pbl_spot_market x))) as [->|Hk].
  - rewrite lookup_insert_eq. destruct (shards b !! _) as [sh|]; [|done]. simpl in *. destruct h. simplify_eq.
    f_equal. repeat case_decide; reflexivity.
  - by rewrite lookup_insert_ne.
Qed.

Lemma import_levels b ls key side p :
  (forall s, (exists x, x ∈ ls /\ sets_level key side p x) -> (forall x, x ∈ ls -> sets_level key side p x -> pbl_size_raw x = s) ->
     level_at (foldl import_level b ls) key side p = Some s) /\
  ((forall x, x ∈ ls -> ~ sets_level key side p x) -> level_at (foldl import_level b ls) key side p = level_at b key side p).
Proof.
  induction ls as [|y ls [IH1 IH2]] using rev_ind; [split; [set_solver|done]|].
  rewrite foldl_app. simpl. rewrite import_level_at. split.
  - intros s (x & Hx & Hs) Hall. case_decide as Hy; [f_equal; apply Hall; [set_solver|done]|].
    apply elem_of_app in Hx as [Hx|Hx]; [|apply list_elem_of_singleton in Hx; congruence].
    apply IH1; [by exists x|]. intros z Hz. apply Hall. set_solver.
  - intros Hall. rewrite decide_False by (apply Hall; set_solver). apply IH2. intros x Hx. apply Hall. set_solver.
Qed.

Lemma import_levels_head b ls key h :
  head_at b key = Some (h, true) -> head_at (foldl import_level b ls) key = Some (h, true).
Proof. revert b. induction ls as [|x ls IH]; intros b H; simpl; [done|]. by apply IH, import_level_head. Qed.

Lemma import_level_book_head b x key : book_head (import_level b x) key = book_head b key.
Proof.
  unfold import_level. case_decide; [done|]. rewrite (book_head_put b _ (pbl_spot_market x) _ key eq_refl). case_decide as Hk; [|done].
  subst key. rewrite shard_head. repeat case_decide; reflexivity.
Qed.

Lemma import_levels_book_head b ls key : book_head (foldl import_level b ls) key = book_head b key.
Proof. revert b. induction ls as [|x ls IH]; intros b; cbn [foldl]; [done|]. by rewrite IH, import_level_book_head. Qed.

Lemma import_metas_other b ms key :
  (forall m, m ∈ ms -> normalize_spot_market_key (pbm_spot_market m) <> key) -> head_at (foldl import_meta b ms) key = head_at b key.
Proof.
  revert b. induction ms as [|m ms IH]; intros b H; cbn [foldl]; [done|]. rewrite IH by set_solver.
  rewrite import_meta_head, decide_False; [done|]. intros ->. by apply (H m); [set_solver|].
Qed.

Lemma book_head_at b key : book_head b key = match head_at b key with Some (s, l, _) => (s, l) | None => (0, None) end.
Proof. unfold book_head, head_at. by destruct (shards b !! key). Qed.

Lemma export_shard_elem sh x :
  x ∈ (export_shard sh).1 <-> exists side p s, levels_of side (ms_book sh) !! p = Some s /\
    x = {| pbl_spot_market := ms_spot_market sh; pbl_side := side_str side; pbl_price_raw := p; pbl_size_raw := s |}.
Proof.
  unfold export_shard. simpl. rewrite elem_of_app, !list_elem_of_fmap. split.
  - intros [([p s] & -> & Hp)|([p s] & -> & Hp)]; unfold sorted_levels in Hp; rewrite merge_sort_Permutation, elem_of_map_to_list in Hp.
    + by exists Buy, p, s.
    + by exists Sell, p, s.
  - intros (side & p & s & H & ->). destruct side; [left|right]; exists (p, s); (split; [done|]);
      unfold sorted_levels; by rewrite merge_sort_Permutation, elem_of_map_to_list.
Qed.

Lemma export_all b :
  export_for_persist b = ((map_to_list (shards b)).*2 ≫= (fun sh => (export_shard sh).1), (fun sh => (export_shard sh).2) <$> (map_to_list (shards b)).*2).
Proof.
  unfold export_for_persist, export_for_persist_spots.
  assert (filter (fun sh => exported None sh = true) (map_to_list (shards b)).*2 = (map_to_list (shards b)).*2) as ->; [|done].
  induction (map_to_list (shards b)).*2 as [|x l IH]; [done|]. rewrite filter_cons_True by done. by rewrite IH.
Qed.

(** The books survive a save and a load: importing the exported levels and
    metadata into any books gives back every level, sequence number and last
    price of every market, marked as hydrated. *)
Theorem export_import_roundtrip b b0 :
  books_reach b ->
  let e := export_for_persist b in
  let b' := import_from_persist b0 e.1 e.2 in
  (forall key side p, level_at b' key side p = level_at b key side p) /\
  (forall key sh, shards b !! key = Some sh ->
     head_at b' key = Some (sequence (ms_book sh), last_trade_price (ms_book sh), true)).
Proof.
  intros Hr e b'. pose proof (books_reach_wf b Hr) as [Hn Hl]. pose proof (books_reach_keys b Hr) as Hk.
  unfold b', e. rewrite export_all. cbn [fst snd]. unfold import_from_persist.
  set (b1 := {| shards := ∅; trade_seq := trade_seq b0 |}).
  set (ms := (fun sh => (export_shard sh).2) <$> (map_to_list (shards b)).*2).
  assert (forall sh, sh ∈ (map_to_list (shards b)).*2 <-> exists key, shards b !! key = Some sh) as Hel.
  { intros sh. rewrite list_elem_of_fmap. split.
    - intros ([key x] & -> & H). exists key. by apply elem_of_map_to_list.
    - intros (key & H). exists (key, sh). split; [done|]. by apply elem_of_map_to_list. }
  assert (NoDup ((fun m => normalize_spot_market_key (pbm_spot_market m)) <$> ms)) as Hnd.
  { unfold ms. rewrite <- !list_fmap_compose.
    assert (((fun m => normalize_spot_market_key (pbm_spot_market m)) ∘ (fun sh => (export_shard sh).2) ∘ snd) <$> map_to_list (shards b)
      = (map_to_list (shards b)).*1) as ->; [|apply NoDup_fst_map_to_list].
    apply list_fmap_ext. intros i [key sh] Hi. simpl. apply list_elem_of_lookup_2, elem_of_map_to_list in Hi.
    rewrite (Hn _ _ Hi). by apply (Hk _ sh). }
  destruct (import_metas b1 ms Hnd) as [M1 M2]. split.
  - intros key side p. destruct (import_levels (foldl import_meta b1 ms) ((map_to_list (shards b)).*2 ≫= (fun sh => (export_shard sh).1)) key side p) as [I1 I2].
    assert (forall x, x ∈ (map_to_list (shards b)).*2 ≫= (fun sh => (export_shard sh).1) -> sets_level key side p x ->
      level_at b key side p = Some (pbl_size_raw x)) as Hset.
    { intros x (sh & Hx & Hsh)%list_elem_of_bind (E1 & E2 & E3 & _). apply Hel in Hsh as (key' & Hsh).
      apply export_shard_elem in Hx as (side' & p' & s & Hs & ->). simpl in *. rewrite (Hn _ _ Hsh), (Hk _ _ Hsh) in E1.
      apply side_str_inj in E2. subst. unfold level_at. by rewrite Hsh. }
    destruct (level_at b key side p) as [s|] eqn:Es.
    + apply I1; [|by intros x Hx Hs; specialize (Hset x Hx Hs); congruence].
      unfold level_at in Es. destruct (shards b !! key) as [sh|] eqn:Esh; [|done]. simpl in Es.
      exists {| pbl_spot_market := ms_spot_market sh; pbl_side := side_str side; pbl_price_raw := p; pbl_size_raw := s |}. split.
      * apply list_elem_of_bind. exists sh. split; [|by apply Hel; exists key]. apply export_shard_elem. by exists side, p, s.
      * split_and!; simpl; try done; [rewrite (Hn _ _ Esh); by apply (Hk _ _ Esh)|].
        assert (level_at b key side p = Some s) as Hlv by (unfold level_at; by rewrite Esh). apply Hl in Hlv. lia.
    + rewrite I2; [rewrite M1; unfold level_at; simpl; by rewrite lookup_empty|].
      intros x Hx Hs. specialize (Hset x Hx Hs). congruence.
  - intros key sh Hsh. apply import_levels_head.
    assert ((export_shard sh).2 ∈ ms) as Hin by (unfold ms; apply (list_elem_of_fmap_2 (fun sh => (export_shard sh).2)); apply Hel; by exists key).
    specialize (M2 _ Hin). simpl in M2. by rewrite (Hn _ _ Hsh), (Hk _ _ Hsh) in M2.
Qed.
End RoundTrip.

(** ** Witnesses *)

Lemma write_set_mirrors_books_witness :
  exists w', (book_step (SD := DemoSdk) false (Books_new, Some (ws_default 1 "d" false)) (OpCreated "c7" Buy 5 9 1)).2 = Some w' /\
    mirrors (delta_apply (ws_book_levels w') ∅) (book_step (SD := DemoSdk) false (Books_new, Some (ws_default 1 "d" false)) (OpCreated "c7" Buy 5 9 1)).1.
Proof.
  apply (write_set_mirrors_books (SD := DemoSdk) false Books_new (ws_default 1 "d" false) (OpCreated "c7" Buy 5 9 1) ∅).
  - apply reach_new.
  - split; vm_compute; split; congruence.
  - intros key side p Hp. simpl. rewrite delta_empty_apply, lookup_empty. unfold level_at. simpl. by rewrite lookup_empty.
Defined.

Lemma oversized_level_not_persisted_witness :
  exists w', (book_step (SD := DemoSdk) false (Books_new, Some (ws_default 1 "d" false)) (OpCreated "c7" Buy 5 (i64_max + 1) 1)).2 = Some w' /\
    delta_apply (ws_book_levels w') ∅ !! (normalize_spot_market_key (S := DemoSdk) "c7", "buy"%string, as_i64 5) = None /\
    level_at (book_step (SD := DemoSdk) false (Books_new, Some (ws_default 1 "d" false)) (OpCreated "c7" Buy 5 (i64_max + 1) 1)).1
      (normalize_spot_market_key (S := DemoSdk) "c7") Buy 5 = Some (i64_max + 1).
Proof.
  apply (oversized_level_not_persisted (SD := DemoSdk) false (ws_default 1 "d" false) ∅ "c7" 5 (i64_max + 1) 1).
  - split; vm_compute; congruence.
  - lia.
  - split; vm_compute; congruence.
Defined.

Lemma hydrate_mirrors_witness :
  exists w', (hydrate_from_chain (S := DemoSdk) Books_new "c7" {| best_bids := [{| cl_price := 3; cl_total_quantity := 4 |}]; best_asks := [] |} None (Some (ws_default 1 "d" false))).2 = Some w' /\
    mirrors (delta_apply (ws_book_levels w') ∅)
      (hydrate_from_chain (S := DemoSdk) Books_new "c7" {| best_bids := [{| cl_price := 3; cl_total_quantity := 4 |}]; best_asks := [] |} None (Some (ws_default 1 "d" false))).1.
Proof.
  apply (hydrate_mirrors (SD := DemoSdk) Books_new (ws_default 1 "d" false) "c7" {| best_bids := [{| cl_price := 3; cl_total_quantity := 4 |}]; best_asks := [] |} None ∅).
  - apply reach_new.
  - simpl. constructor; [|constructor]. split; vm_compute; split; congruence.
  - intros key side p Hp. simpl. rewrite delta_empty_apply, lookup_empty. unfold level_at. simpl. by rewrite lookup_empty.
Defined.

Lemma export_import_roundtrip_witness :
  level_at (import_from_persist (S := DemoSdk) Books_new (export_for_persist demo_books).1 (export_for_persist demo_books).2) "c7" Sell 600000 = Some 15.
Proof.
  destruct (export_import_roundtrip (SD := DemoSdk) demo_books Books_new demo_books_reach) as [H _].
  rewrite H. vm_compute. reflexivity.
Defined.
