(* ===== verification/Orders.v ===== *)
(** * Orders: the live order index of [indexer/index_state.rs]

    Live orders by uuid, with the composite-id and the per-user index, and the
    rows handed to the history queue.  A [DashMap] is a [gmap]; where the code
    iterates over one, the order is the one of [map_to_list] or [elements]. *)
From S2P Require Import Prelude Text Sdk Keys Amounts Domain WriteSet Tables.

Local Open Scope list_scope.
Local Open Scope Z_scope.

Record StoredOrder := {
  so_order : Order;
  so_user_address : string;
  so_chain_order_id : string;
  so_spot_market : string;
  so_filled_raw : Z;
  so_size_raw : Z
}.

Record OrderQueryRecord := {
  oq_order : Order;
  oq_chain_order_id : string;
  oq_spot_market : string;
  oq_user_address : string;
  oq_size_raw : Z;
  oq_filled_raw : Z
}.

#[global] Instance StoredOrder_eq_dec : EqDecision StoredOrder.
Proof. solve_decision. Defined.
#[global] Instance OrderQueryRecord_eq_dec : EqDecision OrderQueryRecord.
Proof. solve_decision. Defined.

(** The order part of [IndexState]; [o_history] lists the rows enqueued for the
    history table, oldest first, and [o_persist] tells whether there is one. *)
Record Orders := {
  o_orders : gmap Uuid StoredOrder;
  o_by_id : gmap string Uuid;
  o_by_user : gmap string (gset Uuid);
  o_history : list PersistOrderRow;
  o_persist : bool;
  o_block_secs : Z
}.

Definition Orders_new (persist : bool) : Orders :=
  {| o_orders := ∅; o_by_id := ∅; o_by_user := ∅; o_history := []; o_persist := persist; o_block_secs := 0 |}.

Definition is_hot_order_status (status : string) : bool :=
  bool_decide (status = "open"%string) || bool_decide (status = "partial_filled"%string).

Definition stored_to_persist_row (stored : StoredOrder) : PersistOrderRow :=
  {| por_order := so_order stored; por_user_address := so_user_address stored;
     por_chain_order_id := so_chain_order_id stored; por_spot_market := so_spot_market stored;
     por_size_raw := so_size_raw stored; por_filled_raw := so_filled_raw stored; por_status_ts_ms := 0 |}.

Definition set_indexing_block_timestamp (o : Orders) (timestamp_secs : Z) : Orders :=
  {| o_orders := o_orders o; o_by_id := o_by_id o; o_by_user := o_by_user o; o_history := o_history o;
     o_persist := o_persist o; o_block_secs := timestamp_secs |}.

Definition indexing_block_timestamp_ms (o : Orders) : Z := sat_mul (o_block_secs o) 1000.

Definition order_query_record (stored : StoredOrder) : OrderQueryRecord :=
  {| oq_order := so_order stored; oq_chain_order_id := so_chain_order_id stored;
     oq_spot_market := so_spot_market stored; oq_user_address := so_user_address stored;
     oq_size_raw := so_size_raw stored; oq_filled_raw := so_filled_raw stored |}.

(** The row's timestamp, filled in from the block when it is missing. *)
Definition stamp_row (o : Orders) (row : PersistOrderRow) : PersistOrderRow :=
  if decide (por_status_ts_ms row = 0 /\ 0 < indexing_block_timestamp_ms o)
  then {| por_order := por_order row; por_user_address := por_user_address row;
          por_chain_order_id := por_chain_order_id row; por_spot_market := por_spot_market row;
          por_size_raw := por_size_raw row; por_filled_raw := por_filled_raw row;
          por_status_ts_ms := indexing_block_timestamp_ms o |}
  else row.

Definition write_order_history (o : Orders) (row : PersistOrderRow) : Orders :=
  if o_persist o then
    {| o_orders := o_orders o; o_by_id := o_by_id o; o_by_user := o_by_user o;
       o_history := o_history o ++ [stamp_row o row]; o_persist := o_persist o; o_block_secs := o_block_secs o |}
  else o.

(** Replacing the order stored under a uuid: the write through [get_mut]. *)
Definition put_order (o : Orders) (order_id : Uuid) (stored : StoredOrder) : Orders :=
  {| o_orders := <[order_id := stored]> (o_orders o); o_by_id := o_by_id o; o_by_user := o_by_user o;
     o_history := o_history o; o_persist := o_persist o; o_block_secs := o_block_secs o |}.

Definition set_status (status : string) (st : StoredOrder) : StoredOrder :=
  {| so_order := set_ord_status status (so_order st); so_user_address := so_user_address st;
     so_chain_order_id := so_chain_order_id st; so_spot_market := so_spot_market st;
     so_filled_raw := so_filled_raw st; so_size_raw := so_size_raw st |}.

Section Orders.
Context {S : Sdk}.

Definition stored_row (st : StoredOrder) : OrderRow :=
  order_row_from_parts (so_order st) (so_user_address st) (so_chain_order_id st) (so_spot_market st)
    (so_size_raw st) (so_filled_raw st).

Definition insert_order (o : Orders) (order : Order) (user_address spot_market chain_order_id : string)
    (size_raw filled_raw : Z) (ws : option IndexWriteSet) : Orders * option IndexWriteSet :=
  let spot := normalize_spot_market_key spot_market in
  let stored := {| so_order := order; so_user_address := user_address; so_chain_order_id := chain_order_id;
                   so_spot_market := spot; so_filled_raw := filled_raw; so_size_raw := size_raw |} in
  if negb (is_hot_order_status (ord_status order))
  then (write_order_history o (stored_to_persist_row stored), ws)
  else
    let user := user_key user_address in
    let order_id := ord_id order in
    ({| o_orders := <[order_id := stored]> (o_orders o);
        o_by_id := <[onchain_order_id spot chain_order_id := order_id]> (o_by_id o);
        o_by_user := <[user := {[order_id]} ∪ default ∅ (o_by_user o !! user)]> (o_by_user o);
        o_history := o_history o; o_persist := o_persist o; o_block_secs := o_block_secs o |},
     (fun w => store_order w (stored_row stored)) <$> ws).

Definition remove_hot_order (o : Orders) (order_id : Uuid) (stored : StoredOrder) : Orders :=
  {| o_orders := delete order_id (o_orders o);
     o_by_id := delete (onchain_order_id (so_spot_market stored) (so_chain_order_id stored)) (o_by_id o);
     o_by_user := alter (fun set => set ∖ {[order_id]}) (user_key (so_user_address stored)) (o_by_user o);
     o_history := o_history o; o_persist := o_persist o; o_block_secs := o_block_secs o |}.

Definition archive_terminal_order (o : Orders) (order_id : Uuid) (stored : StoredOrder)
    (ws : option IndexWriteSet) : Orders * option IndexWriteSet :=
  (write_order_history (remove_hot_order o order_id stored) (stored_to_persist_row stored),
   (fun w => delete_order w (uuid_to_string order_id)) <$> ws).

(** The uuid and the order behind a chain order id: the guards of the updates. *)
Definition stored_at (o : Orders) (spot_market chain_order_id : string) : option (Uuid * StoredOrder) :=
  order_id ← o_by_id o !! onchain_order_id spot_market chain_order_id;
  stored ← o_orders o !! order_id;
  Some (order_id, stored).

Definition update_order_cancelled (o : Orders) (spot_market chain_order_id : string)
    (ws : option IndexWriteSet) : Orders * option IndexWriteSet :=
  match stored_at o spot_market chain_order_id with
  | None => (o, ws)
  | Some (order_id, stored) =>
      let stored' := set_status "cancelled" stored in
      archive_terminal_order (put_order o order_id stored') order_id stored' ws
  end.

(** The end shared by the two updates: a terminal order is archived, a live one
    is stored again. *)
Definition settle_order (o : Orders) (order_id : Uuid) (stored : StoredOrder)
    (ws : option IndexWriteSet) : Orders * option IndexWriteSet :=
  if negb (is_hot_order_status (ord_status (so_order stored)))
  then archive_terminal_order (put_order o order_id stored) order_id stored ws
  else (put_order o order_id stored, (fun w => store_order w (stored_row stored)) <$> ws).

Definition amount_change (new_amount remaining_amount : Z) (st : StoredOrder) : StoredOrder :=
  let status := if decide (remaining_amount = 0) then "filled"%string
                else if decide (0 < so_filled_raw st) then "partial_filled"%string else "open"%string in
  {| so_order := set_ord_status status (set_ord_size (format_token_amount new_amount) (so_order st));
     so_user_address := so_user_address st; so_chain_order_id := so_chain_order_id st;
     so_spot_market := so_spot_market st; so_filled_raw := so_filled_raw st; so_size_raw := new_amount |}.

Definition update_order_amount (o : Orders) (spot_market chain_order_id : string) (new_amount remaining_amount : Z)
    (ws : option IndexWriteSet) : Orders * option IndexWriteSet :=
  match stored_at o spot_market chain_order_id with
  | None => (o, ws)
  | Some (order_id, stored) => settle_order o order_id (amount_change new_amount remaining_amount stored) ws
  end.

Definition fill_change (fill_amount remaining_amount : Z) (is_fully_filled : bool) (st : StoredOrder) : StoredOrder :=
  let status := if is_fully_filled || bool_decide (remaining_amount = 0) then "filled"%string
                else "partial_filled"%string in
  {| so_order := set_ord_status status (so_order st); so_user_address := so_user_address st;
     so_chain_order_id := so_chain_order_id st; so_spot_market := so_spot_market st;
     so_filled_raw := sat_add (so_filled_raw st) fill_amount; so_size_raw := so_size_raw st |}.

Definition update_order_fill (o : Orders) (spot_market chain_order_id : string) (fill_amount remaining_amount : Z)
    (is_fully_filled : bool) (ws : option IndexWriteSet) : Orders * option IndexWriteSet :=
  match stored_at o spot_market chain_order_id with
  | None => (o, ws)
  | Some (order_id, stored) => settle_order o order_id (fill_change fill_amount remaining_amount is_fully_filled stored) ws
  end.

(** The loop over the loaded rows in [apply_snapshot_to_memory]. *)
Definition recover_orders (o : Orders) (rows : list PersistOrderRow) : Orders :=
  foldl (fun o row => (insert_order o (por_order row) (por_user_address row) (por_spot_market row)
    (por_chain_order_id row) (por_size_raw row) (por_filled_raw row) None).1) o rows.

(** ** Queries *)

Definition has_chain_order (o : Orders) (spot_market chain_order_id : string) : bool :=
  bool_decide (is_Some (o_by_id o !! onchain_order_id spot_market chain_order_id)).

Definition lookup_spot_market_for_chain_order (o : Orders) (chain_order_id : string) : option string :=
  let suffix := chars ":" ++ chars chain_order_id in
  let matches := omap (fun key =>
    if decide (suffix `suffix_of` chars key) then fst <$> split_onchain_order_id key else None)
    (map_to_list (o_by_id o)).*1 in
  match matches with [spot] => Some spot | _ => None end.

Definition live_context (must_be_live : bool) (o : Orders) (order_id : Uuid) (user_address : string)
    : option (Order * string * string) :=
  stored ← o_orders o !! order_id;
  if negb (eq_ignore_ascii_case (so_user_address stored) user_address) then None
  else if must_be_live && negb (is_hot_order_status (ord_status (so_order stored))) then None
  else Some (so_order stored, so_chain_order_id stored, so_spot_market stored).

Definition order_cancel_context := live_context true.
Definition stored_order_context_by_id := live_context false.

Definition query_order (o : Orders) (spot_market chain_order_id : string) (user_address : option string)
    : option OrderQueryRecord :=
  p ← stored_at o spot_market chain_order_id;
  match user_address with
  | Some user => if eq_ignore_ascii_case (so_user_address p.2) user then Some (order_query_record p.2) else None
  | None => Some (order_query_record p.2)
  end.

Definition stored_order_by_chain_id (o : Orders) (spot_market chain_order_id : string) : option (Order * string * string) :=
  p ← stored_at o spot_market chain_order_id;
  Some (so_order p.2, so_user_address p.2, so_spot_market p.2).

(** The conditions of the loop of [find_open_order_match]. *)
Definition open_match (spot side price : string) (size_raw : Z) (st : StoredOrder) : bool :=
  is_hot_order_status (ord_status (so_order st)) && bool_decide (so_spot_market st = spot) &&
  bool_decide (ord_side (so_order st) = side) && bool_decide (ord_price (so_order st) = price) &&
  bool_decide (so_size_raw st = size_raw).

Definition user_orders (o : Orders) (user_address : string) : list StoredOrder :=
  omap (fun id => o_orders o !! id) (elements (default ∅ (o_by_user o !! user_key user_address))).

Definition find_open_order_match (o : Orders) (spot_market user_address side price : string) (size_raw : Z)
    : option OrderQueryRecord :=
  order_query_record <$>
    head (filter (fun st => open_match (normalize_spot_market_key spot_market) side price size_raw st = true)
                 (user_orders o user_address)).

Definition list_orders_for_user (o : Orders) (user_address : string) : list OrderQueryRecord :=
  order_query_record <$> user_orders o user_address.

(** [rebuild_order_indexes]: both secondary indexes from the orders alone. *)
Definition rebuild_order_indexes (o : Orders) : Orders :=
  foldl (fun o p =>
    {| o_orders := o_orders o;
       o_by_id := <[onchain_order_id (so_spot_market p.2) (so_chain_order_id p.2) := p.1]> (o_by_id o);
       o_by_user := <[user_key (so_user_address p.2) :=
                      {[p.1]} ∪ default ∅ (o_by_user o !! user_key (so_user_address p.2))]> (o_by_user o);
       o_history := o_history o; o_persist := o_persist o; o_block_secs := o_block_secs o |})
    {| o_orders := o_orders o; o_by_id := ∅; o_by_user := ∅; o_history := o_history o;
       o_persist := o_persist o; o_block_secs := o_block_secs o |}
    (map_to_list (o_orders o)).

End Orders.
