(* ===== verification/OrdersFacts.v ===== *)
(** * OrdersFacts: the order index implements a map of live orders

    The abstract specification is a map from composite order id to live order
    with an archive; the three maps of [Orders] implement it, its write set
    keeps the orders table equal to it, and the table recovers it. *)
From S2P Require Import Prelude Text Sdk Keys Amounts Domain WriteSet Tables Orders.

Local Open Scope list_scope.
Local Open Scope Z_scope.

Section Spec.
Context {SD : Sdk}.

Definition so_key (st : StoredOrder) : string := onchain_order_id (so_spot_market st) (so_chain_order_id st).
Definition so_user (st : StoredOrder) : string := user_key (so_user_address st).
Definition hot (st : StoredOrder) : bool := is_hot_order_status (ord_status (so_order st)).

(** ** The operations of the index *)

Inductive OrderOp :=
| OpInsert (order : Order) (user spot chain : string) (size filled : Z)
| OpCancel (spot chain : string)
| OpAmount (spot chain : string) (new_amount remaining : Z)
| OpFill (spot chain : string) (fill remaining : Z) (full : bool).

Definition order_step (st : Orders * option IndexWriteSet) (op : OrderOp) : Orders * option IndexWriteSet :=
  let '(o, ws) := st in
  match op with
  | OpInsert order user spot chain size filled => insert_order o order user spot chain size filled ws
  | OpCancel spot chain => update_order_cancelled o spot chain ws
  | OpAmount spot chain n r => update_order_amount o spot chain n r ws
  | OpFill spot chain f r full => update_order_fill o spot chain f r full ws
  end.

(** A live order enters under a new composite id and a new uuid (the duplicate
    check of the block handlers, the uuid being a hash of the composite id), or
    again in place of itself, for the same user (an event posted twice). *)
Definition op_placed (o : Orders) (op : OrderOp) : Prop :=
  match op with
  | OpInsert order user spot chain size filled =>
      is_hot_order_status (ord_status order) = true ->
      (o_by_id o !! onchain_order_id spot chain = None /\ o_orders o !! ord_id order = None) \/
      exists st, o_orders o !! ord_id order = Some st /\ so_key st = onchain_order_id spot chain /\ so_user st = user_key user
  | _ => True
  end.

Inductive orders_reach : Orders -> Prop :=
| reach_new persist : orders_reach (Orders_new persist)
| reach_time o secs : orders_reach o -> orders_reach (set_indexing_block_timestamp o secs)
| reach_op o ws op : orders_reach o -> op_placed o op -> orders_reach (order_step (o, ws) op).1.

(** ** The abstract specification: live orders by composite id *)

Definition op_inserted (order : Order) (user spot chain : string) (size filled : Z) : StoredOrder :=
  {| so_order := order; so_user_address := user; so_chain_order_id := chain;
     so_spot_market := normalize_spot_market_key spot; so_filled_raw := filled; so_size_raw := size |}.

(** The order an operation leaves, and its composite id. *)
Definition op_key (op : OrderOp) : string :=
  match op with
  | OpInsert _ _ spot chain _ _ | OpCancel spot chain | OpAmount spot chain _ _ | OpFill spot chain _ _ _ =>
      onchain_order_id spot chain
  end.

Definition op_result (live : option StoredOrder) (op : OrderOp) : option StoredOrder :=
  match op with
  | OpInsert order user spot chain size filled => Some (op_inserted order user spot chain size filled)
  | OpCancel _ _ => set_status "cancelled" <$> live
  | OpAmount _ _ n r => amount_change n r <$> live
  | OpFill _ _ f r full => fill_change f r full <$> live
  end.

(** Live results are stored; terminal ones leave the map for the archive. *)
Definition spec_step (a : gmap string StoredOrder) (op : OrderOp) : gmap string StoredOrder :=
  match op_result (a !! op_key op) op with
  | None => a
  | Some st => if hot st then <[op_key op := st]> a
               else match op with OpInsert _ _ _ _ _ _ => a | _ => delete (op_key op) a end
  end.

Definition spec_archive (a : gmap string StoredOrder) (op : OrderOp) : list StoredOrder :=
  match op_result (a !! op_key op) op with
  | Some st => if hot st then [] else [st]
  | None => []
  end.

(** The map that the indexes of [Orders] represent. *)
Definition abs (o : Orders) : gmap string StoredOrder := omap (fun u => o_orders o !! u) (o_by_id o).

Record orders_wf (o : Orders) : Prop := {
  ow_orders u st : o_orders o !! u = Some st ->
    ord_id (so_order st) = u /\ hot st = true /\ normalize_spot_market_key (so_spot_market st) = so_spot_market st /\
    o_by_id o !! so_key st = Some u /\ u ∈ default ∅ (o_by_user o !! so_user st);
  ow_by_id k u : o_by_id o !! k = Some u -> exists st, o_orders o !! u = Some st /\ so_key st = k;
  ow_by_user user u : u ∈ default ∅ (o_by_user o !! user) -> exists st, o_orders o !! u = Some st /\ so_user st = user
}.

End Spec.

Section Facts.
Context {SD : Sdk} {L : SdkLaws}.

Lemma orders_new_wf persist : orders_wf (Orders_new persist).
Proof. split; simpl; intros *; rewrite ?lookup_empty; [done|done|set_solver]. Qed.

Lemma abs_lookup o k : abs o !! k = (u ← o_by_id o !! k; o_orders o !! u).
Proof. unfold abs. apply lookup_omap. Qed.

Lemma abs_Some o k st :
  orders_wf o -> abs o !! k = Some st <-> o_orders o !! ord_id (so_order st) = Some st /\ so_key st = k.
Proof.
  intros W. rewrite abs_lookup. split.
  - intros (u & Hu & Hs)%bind_Some. destruct (ow_by_id o W _ _ Hu) as (st' & Hs' & Hk). simplify_eq.
    by destruct (ow_orders o W _ _ Hs) as (-> & _).
  - intros [Hs <-]. destruct (ow_orders o W _ _ Hs) as (_ & _ & _ & -> & _). done.
Qed.

Lemma stored_at_abs o spot chain :
  orders_wf o -> stored_at o spot chain = (fun st => (ord_id (so_order st), st)) <$> abs o !! onchain_order_id spot chain.
Proof.
  intros W. unfold stored_at. rewrite abs_lookup.
  destruct (o_by_id o !! onchain_order_id spot chain) as [u|] eqn:E; simpl; [|done].
  destruct (ow_by_id o W _ _ E) as (st & Hs & _). rewrite Hs. simpl. by destruct (ow_orders o W _ _ Hs) as (-> & _).
Qed.

(** ** Writing back an order and removing one *)

Definition same_place (st st' : StoredOrder) : Prop :=
  ord_id (so_order st') = ord_id (so_order st) /\ so_spot_market st' = so_spot_market st /\
  so_chain_order_id st' = so_chain_order_id st /\ so_user_address st' = so_user_address st.

Lemma same_place_key st st' : same_place st st' -> so_key st' = so_key st /\ so_user st' = so_user st.
Proof. intros (_ & E1 & E2 & E3). unfold so_key, so_user. by rewrite E1, E2, E3. Qed.

Lemma put_order_wf o u st st' :
  orders_wf o -> o_orders o !! u = Some st -> same_place st st' -> hot st' = true -> orders_wf (put_order o u st').
Proof.
  intros W Hs HP Hh. destruct (same_place_key _ _ HP) as [Hk Hus]. destruct HP as (E1 & E2 & E3 & E4).
  destruct (ow_orders o W _ _ Hs) as (H1 & H2 & H3 & H4 & H5). split; simpl.
  - intros v sv. destruct (decide (v = u)) as [->|Hne]; [|rewrite lookup_insert_ne by done; apply W].
    rewrite lookup_insert_eq. intros [= <-]. rewrite E1, E2, Hk, Hus. by split_and!.
  - intros k v (sv & Hv & <-)%W. destruct (decide (v = u)) as [->|Hne].
    + exists st'. rewrite lookup_insert_eq. split; [done|]. congruence.
    + exists sv. by rewrite lookup_insert_ne.
  - intros user v (sv & Hv & <-)%W. destruct (decide (v = u)) as [->|Hne].
    + exists st'. rewrite lookup_insert_eq. split; [done|]. congruence.
    + exists sv. by rewrite lookup_insert_ne.
Qed.

Lemma put_order_abs o u st st' :
  orders_wf o -> o_orders o !! u = Some st -> same_place st st' -> abs (put_order o u st') = <[so_key st := st']> (abs o).
Proof.
  intros W Hs HP. destruct (ow_orders o W _ _ Hs) as (_ & _ & _ & H4 & _).
  apply map_eq. intros k. rewrite abs_lookup. simpl. destruct (decide (k = so_key st)) as [->|Hk].
  - rewrite H4, lookup_insert_eq. simpl. by rewrite lookup_insert_eq.
  - rewrite lookup_insert_ne by done. rewrite abs_lookup. destruct (o_by_id o !! k) as [v|] eqn:E; simpl; [|done].
    destruct (ow_by_id o W _ _ E) as (sv & Hv & <-). rewrite lookup_insert_ne; [done|]. intros <-. simplify_eq.
Qed.

Lemma remove_put o u st st' : remove_hot_order (put_order o u st') u st = remove_hot_order o u st.
Proof. unfold remove_hot_order, put_order. simpl. by rewrite delete_insert_eq. Qed.

Lemma remove_same o u st st' : same_place st st' -> remove_hot_order o u st' = remove_hot_order o u st.
Proof. intros (_ & E2 & E3 & E4). unfold remove_hot_order. by rewrite E2, E3, E4. Qed.

Lemma remove_abs o u st :
  orders_wf o -> o_orders o !! u = Some st -> abs (remove_hot_order o u st) = delete (so_key st) (abs o).
Proof.
  intros W Hs. destruct (ow_orders o W _ _ Hs) as (_ & _ & _ & H4 & _).
  apply map_eq. intros k. rewrite abs_lookup. simpl. fold (so_key st). destruct (decide (k = so_key st)) as [->|Hk].
  - by rewrite !lookup_delete_eq.
  - rewrite !lookup_delete_ne by done. rewrite abs_lookup. destruct (o_by_id o !! k) as [v|] eqn:E; simpl; [|done].
    rewrite lookup_delete_ne; [done|]. intros <-. destruct (ow_by_id o W _ _ E) as (sv & Hv & <-). simplify_eq.
Qed.

Lemma remove_wf o u st : orders_wf o -> o_orders o !! u = Some st -> orders_wf (remove_hot_order o u st).
Proof.
  intros W Hs. destruct (ow_orders o W _ _ Hs) as (_ & _ & _ & H4 & _).
  assert (forall user v, v ∈ default ∅ (o_by_user (remove_hot_order o u st) !! user) <->
    v ∈ default ∅ (o_by_user o !! user) /\ (user = so_user st -> v <> u)) as Hu.
  { intros user v. simpl. fold (so_user st). destruct (decide (user = so_user st)) as [->|Hne].
    - rewrite lookup_alter_eq. destruct (o_by_user o !! so_user st); simpl; set_solver.
    - rewrite lookup_alter_ne by done. naive_solver. }
  split.
  - intros v sv. simpl. intros [Hne Hv]%lookup_delete_Some. destruct (ow_orders o W _ _ Hv) as (A1 & A2 & A3 & A4 & A5).
    rewrite Hu. simpl. fold (so_key st). rewrite lookup_delete_ne; [by split_and!|]. intros E. congruence.
  - intros k v. simpl. fold (so_key st). intros [Hne (sv & Hv & <-)%W]%lookup_delete_Some.
    exists sv. rewrite lookup_delete_ne; [done|]. intros <-. simplify_eq.
  - intros user v. rewrite Hu. intros [(sv & Hv & <-)%W Hd]. exists sv. simpl. rewrite lookup_delete_ne; [done|].
    intros <-. simplify_eq. by apply Hd.
Qed.

Lemma write_history_same o row :
  orders_wf o -> orders_wf (write_order_history o row) /\ abs (write_order_history o row) = abs o.
Proof. intros W. unfold write_order_history. destruct (o_persist o); [|done]. split; [|done]. destruct W. by split. Qed.

Lemma write_history_log o row :
  o_history (write_order_history o row) = o_history o ++ (if o_persist o then [stamp_row o row] else []).
Proof. unfold write_order_history. destruct (o_persist o); [done|]. by rewrite app_nil_r. Qed.

Definition archived (o : Orders) (l : list StoredOrder) : list PersistOrderRow :=
  if o_persist o then (fun st => stamp_row o (stored_to_persist_row st)) <$> l else [].

Lemma cancelled_place st : same_place st (set_status "cancelled" st).
Proof. done. Qed.
Lemma amount_place n r st : same_place st (amount_change n r st).
Proof. done. Qed.
Lemma fill_place f r full st : same_place st (fill_change f r full st).
Proof. done. Qed.

(** What the end of an update does to the index, for the order it leaves. *)
Lemma settle_order_spec o u st st' ws :
  orders_wf o -> o_orders o !! u = Some st -> same_place st st' ->
  let o' := (settle_order o u st' ws).1 in
  orders_wf o' /\
  abs o' = (if hot st' then <[so_key st := st']> (abs o) else delete (so_key st) (abs o)) /\
  o_history o' = o_history o ++ archived o (if hot st' then [] else [st']).
Proof.
  intros W Hs HP. unfold settle_order. fold (hot st'). unfold archived. destruct (hot st') eqn:Eh; simpl.
  - split; [by eapply put_order_wf|]. split; [by apply put_order_abs|]. destruct (o_persist o); simpl; by rewrite app_nil_r.
  - rewrite remove_put, (remove_same o u st st') by done.
    destruct (write_history_same (remove_hot_order o u st) (stored_to_persist_row st')) as [Hw Ha]; [by apply remove_wf|].
    split; [done|]. split; [by rewrite Ha, remove_abs|]. by rewrite write_history_log.
Qed.

Lemma cancel_is_settle o spot chain ws :
  update_order_cancelled o spot chain ws =
  match stored_at o spot chain with
  | None => (o, ws) | Some (u, st) => settle_order o u (set_status "cancelled" st) ws
  end.
Proof. unfold update_order_cancelled. destruct (stored_at o spot chain) as [[u st]|]; done. Qed.

Lemma insert_order_spec o order user spot chain size filled ws :
  orders_wf o -> op_placed o (OpInsert order user spot chain size filled) ->
  let st := op_inserted order user spot chain size filled in
  let o' := (insert_order o order user spot chain size filled ws).1 in
  orders_wf o' /\ abs o' = (if hot st then <[onchain_order_id spot chain := st]> (abs o) else abs o) /\
  o_history o' = o_history o ++ archived o (if hot st then [] else [st]).
Proof.
  intros W Hf st. unfold insert_order. fold (op_inserted order user spot chain size filled). fold st.
  change (is_hot_order_status (ord_status order)) with (hot st). unfold archived. destruct (hot st) eqn:Eh; simpl.
  2:{ destruct (write_history_same o (stored_to_persist_row st)) as [Hw Ha]; [done|].
      split; [done|]. split; [done|]. by rewrite write_history_log. }
  rewrite onchain_order_id_normalize. set (k := onchain_order_id spot chain) in *.
  assert (so_key st = k) as Hk by apply onchain_order_id_normalize.
  assert ((forall sv, o_orders o !! ord_id order = Some sv -> so_key sv = k /\ so_user sv = user_key user) /\
          forall v, o_by_id o !! k = Some v -> v = ord_id order) as [F1 F2].
  { destruct (Hf Eh) as [[G1 G2]|(sv & G1 & G2 & G3)]; [by split; intros; simplify_eq|].
    split; [intros; by simplify_eq|]. intros v Hv. destruct (ow_orders o W _ _ G1) as (_ & _ & _ & H & _).
    rewrite G2 in H. fold k in H. congruence. }
  split; [|split].
  - split; simpl.
    + intros v sv. destruct (decide (v = ord_id order)) as [->|Hne].
      * rewrite lookup_insert_eq. intros [= <-]. rewrite Hk. rewrite !lookup_insert_eq.
        split_and!; try done; [apply normalize_idemp|set_solver].
      * rewrite lookup_insert_ne by done. intros Hv. destruct (ow_orders o W _ _ Hv) as (A1 & A2 & A3 & A4 & A5).
        rewrite (lookup_insert_ne (o_by_id o)) by (intros E; rewrite <- E in A4; by apply F2 in A4). split_and!; try done.
        destruct (decide (so_user sv = user_key user)) as [E|E]; [rewrite E, lookup_insert_eq; rewrite E in A5; set_solver|by rewrite lookup_insert_ne].
    + intros k' v. destruct (decide (k' = k)) as [->|Hne].
      * rewrite lookup_insert_eq. intros [= <-]. exists st. by rewrite lookup_insert_eq.
      * rewrite lookup_insert_ne by done. intros (sv & Hv & <-)%W. exists sv. rewrite lookup_insert_ne; [done|].
        intros <-. by apply F1 in Hv as [? _].
    + intros usr v Hin. assert (v = ord_id order /\ usr = user_key user \/ v ∈ default ∅ (o_by_user o !! usr)) as [[-> ->]|H].
      { destruct (decide (usr = user_key user)) as [->|E]; [rewrite lookup_insert_eq in Hin; set_solver|by rewrite lookup_insert_ne in Hin; [right|]]. }
      * exists st. by rewrite lookup_insert_eq.
      * apply W in H as (sv & Hv & <-). destruct (decide (v = ord_id order)) as [->|Hne].
        -- exists st. rewrite lookup_insert_eq. split; [done|]. by apply F1 in Hv as [_ ->].
        -- exists sv. by rewrite lookup_insert_ne.
  - apply map_eq. intros k'. rewrite abs_lookup. simpl. destruct (decide (k' = k)) as [->|Hne].
    + rewrite !lookup_insert_eq. simpl. by rewrite lookup_insert_eq.
    + rewrite !lookup_insert_ne by done. rewrite abs_lookup. destruct (o_by_id o !! k') as [v|] eqn:E; simpl; [|done].
      rewrite lookup_insert_ne; [done|]. intros <-. apply W in E as (sv & Hv & <-). by apply F1 in Hv as [? _].
  - destruct (o_persist o); simpl; by rewrite app_nil_r.
Qed.

(** One step of the index is one step of the map, and archives its orders. *)
Lemma order_step_spec o ws op :
  orders_wf o -> op_placed o op ->
  let o' := (order_step (o, ws) op).1 in
  orders_wf o' /\ abs o' = spec_step (abs o) op /\ o_history o' = o_history o ++ archived o (spec_archive (abs o) op).
Proof.
  intros W Hf.
  assert (forall spot chain (f : StoredOrder -> StoredOrder), (forall st, same_place st (f st)) ->
    let o' := (match stored_at o spot chain with None => (o, ws) | Some (u, st) => settle_order o u (f st) ws end).1 in
    let r := f <$> abs o !! onchain_order_id spot chain in
    orders_wf o' /\
    abs o' = match r with None => abs o | Some st => if hot st then <[onchain_order_id spot chain := st]> (abs o)
                                                     else delete (onchain_order_id spot chain) (abs o) end /\
    o_history o' = o_history o ++ archived o (match r with None => [] | Some st => if hot st then [] else [st] end)) as HU.
  { intros spot chain f Hf'. rewrite (stored_at_abs o spot chain W).
    destruct (abs o !! onchain_order_id spot chain) as [st|] eqn:E; simpl.
    - apply (abs_Some o _ _ W) in E as [Hs <-]. by apply settle_order_spec.
    - split; [done|]. split; [done|]. unfold archived. destruct (o_persist o); simpl; by rewrite app_nil_r. }
  destruct op as [order user spot chain size filled|spot chain|spot chain n r|spot chain f r full]; simpl.
  - destruct (insert_order_spec o order user spot chain size filled ws W Hf) as (A & B & C).
    split; [done|]. by rewrite B, C.
  - rewrite cancel_is_settle. by apply HU.
  - by apply HU.
  - by apply HU.
Qed.

Lemma orders_reach_wf o : orders_reach o -> orders_wf o.
Proof.
  induction 1 as [persist|o secs _ IH|o ws op _ IH Hf].
  - apply orders_new_wf.
  - destruct IH. by split.
  - by apply order_step_spec.
Qed.

(** The three maps of the index, told by the one they stand for. *)
Record represents (o : Orders) (a : gmap string StoredOrder) : Prop := {
  rp_orders u st : o_orders o !! u = Some st <-> ord_id (so_order st) = u /\ a !! so_key st = Some st;
  rp_by_id k : o_by_id o !! k = (fun st => ord_id (so_order st)) <$> a !! k;
  rp_by_user user u : u ∈ default ∅ (o_by_user o !! user) <->
    exists st, a !! so_key st = Some st /\ so_user st = user /\ ord_id (so_order st) = u
}.

Lemma wf_represents o : orders_wf o -> represents o (abs o).
Proof.
  intros W. split.
  - intros u st. rewrite (abs_Some o _ _ W). split; [|by intros [<- [? _]]].
    intros Hs. pose proof (ow_orders o W _ _ Hs) as (E & _). by subst.
  - intros k. rewrite abs_lookup. destruct (o_by_id o !! k) as [u|] eqn:E; simpl; [|done].
    destruct (ow_by_id o W _ _ E) as (st & Hs & _). rewrite Hs. simpl. by destruct (ow_orders o W _ _ Hs) as (-> & _).
  - intros user u. split.
    + intros (st & Hs & <-)%W. exists st. pose proof (ow_orders o W _ _ Hs) as (E & _).
      rewrite (abs_Some o _ _ W), E. done.
    + intros (st & H & <- & <-). apply (abs_Some o _ _ W) in H as [Hs _]. by apply (ow_orders o W _ _ Hs).
Qed.

(** C7: the three maps of the order index implement one map from composite id
    to live order: in every reachable state the orders by uuid, the uuids by
    composite id and the uuids of each user are exactly those of that map, a step
    of the index is a step of the map, and exactly the orders that become
    terminal are appended to the history.  A live order is inserted under a new
    id, or again in place of itself for the same user. *)
Theorem order_index_refines_map o ws op :
  orders_reach o -> op_placed o op ->
  let o' := (order_step (o, ws) op).1 in
  represents o (abs o) /\ represents o' (spec_step (abs o) op) /\ abs o' = spec_step (abs o) op /\
  o_history o' = o_history o ++ archived o (spec_archive (abs o) op).
Proof.
  intros W%orders_reach_wf Hf. destruct (order_step_spec o ws op W Hf) as (W' & E & H). cbv zeta.
  split_and!; [by apply wf_represents|rewrite <- E; by apply wf_represents|done|done].
Qed.

(** The order index is consistent in every reachable state: every live
    order is stored under its own uuid with an open status and found through
    its composite id and its user, and no secondary entry is stale. *)
Theorem order_index_consistent o : orders_reach o -> orders_wf o.
Proof. apply orders_reach_wf. Qed.

(** ** Queries *)

Lemma omap_pick {A B} (g : A -> option B) (f : B -> A) (l : list A) :
  (forall a, a ∈ l -> exists b, g a = Some b /\ f b = a) -> f <$> omap g l = l.
Proof.
  induction l as [|a l IH]; intros H; [done|]. simpl. destruct (H a) as (b & -> & E); [set_solver|].
  csimpl. f_equal; [done|]. apply IH. set_solver.
Qed.

Lemma user_orders_perm o user :
  orders_wf o ->
  user_orders o user ≡ₚ filter (fun st => so_user st = user_key user) (map_to_list (abs o)).*2.
Proof.
  intros W. assert (forall v, v ∈ elements (default ∅ (o_by_user o !! user_key user)) ->
    exists st, o_orders o !! v = Some st /\ ord_id (so_order st) = v /\ so_user st = user_key user) as HU.
  { intros v (st & Hv & E)%elem_of_elements%W. exists st. split; [done|]. by destruct (ow_orders o W _ _ Hv) as (-> & _). }
  apply NoDup_Permutation.
  - apply (NoDup_fmap_1 (fun st => ord_id (so_order st))). unfold user_orders.
    assert ((fun st => ord_id (so_order st)) <$> omap (fun id => o_orders o !! id) (elements (default ∅ (o_by_user o !! user_key user)))
      = elements (default ∅ (o_by_user o !! user_key user))) as ->; [|apply NoDup_elements].
    refine (omap_pick _ (fun st => ord_id (so_order st)) _ _). intros v (st & ? & ? & ?)%HU. by exists st.
  - apply NoDup_filter, (NoDup_fmap_1 so_key). rewrite <- list_fmap_compose.
    rewrite (list_fmap_ext _ fst); [apply NoDup_fst_map_to_list|]. intros i [k st] Hi%list_elem_of_lookup_2.
    apply elem_of_map_to_list, (abs_Some o _ _ W) in Hi as [_ <-]. done.
  - intros st. unfold user_orders. rewrite list_elem_of_omap, list_elem_of_filter, list_elem_of_fmap. split.
    + intros (v & (st' & E1 & E2 & E3)%HU & E). rewrite E1 in E. injection E as <-. split; [done|].
      exists (so_key st', st'). split; [done|]. apply elem_of_map_to_list, abs_Some; [done|]. by rewrite E2.
    + intros (E & ([k st'] & -> & Hin)). simpl in *. apply elem_of_map_to_list, (abs_Some o _ _ W) in Hin as [Hs <-].
      exists (ord_id (so_order st')). split; [|done]. rewrite <- E. apply elem_of_elements. by apply (ow_orders o W _ _ Hs).
Qed.

(** Queries are exact: a lookup by chain id returns the live order of that
    composite id if the asking user owns it, listing a user's orders returns
    each of them once, and the open-order match returns a matching order of the
    user whenever there is one. *)
Theorem order_queries_exact o spot chain user side price size :
  orders_reach o ->
  query_order o spot chain (Some user) =
    order_query_record <$> (st ← abs o !! onchain_order_id spot chain;
                            if eq_ignore_ascii_case (so_user_address st) user then Some st else None) /\
  list_orders_for_user o user ≡ₚ
    order_query_record <$> filter (fun st => so_user st = user_key user) (map_to_list (abs o)).*2 /\
  let found st := abs o !! so_key st = Some st /\ so_user st = user_key user /\
                  open_match (normalize_spot_market_key spot) side price size st = true in
  match find_open_order_match o spot user side price size with
  | Some r => exists st, r = order_query_record st /\ found st
  | None => forall st, ~ found st
  end.
Proof.
  intros W%orders_reach_wf. split; [|split].
  - unfold query_order. rewrite stored_at_abs by done. destruct (abs o !! _) as [st|]; simpl; [|done].
    by destruct (eq_ignore_ascii_case _ _).
  - unfold list_orders_for_user. by rewrite (user_orders_perm o user W).
  - intros found. assert (forall st, st ∈ user_orders o user <-> abs o !! so_key st = Some st /\ so_user st = user_key user) as HU.
    { intros st. rewrite (user_orders_perm o user W), list_elem_of_filter, list_elem_of_fmap. split.
      - intros (E & ([k st'] & -> & Hin)). simpl in *. apply elem_of_map_to_list in Hin.
        pose proof Hin as [_ <-]%(abs_Some o _ _ W). done.
      - intros [H E]. split; [done|]. exists (so_key st, st). split; [done|]. by apply elem_of_map_to_list. }
    unfold find_open_order_match.
    assert (forall st, st ∈ filter (fun st => open_match (normalize_spot_market_key spot) side price size st = true) (user_orders o user)
      <-> found st) as HF.
    { intros st. rewrite list_elem_of_filter, HU. unfold found. tauto. }
    destruct (filter _ (user_orders o user)) as [|st l]; simpl.
    + intros st H. apply HF in H. set_solver.
    + exists st. split; [done|]. apply HF. set_solver.
Qed.

(** ** The persisted orders table *)

Definition table_of (o : Orders) : gmap string OrderRow := kmap uuid_to_string (stored_row <$> o_orders o).

Lemma table_put o u st : table_of (put_order o u st) = <[uuid_to_string u := stored_row st]> (table_of o).
Proof. unfold table_of. simpl. rewrite fmap_insert. by apply kmap_insert, uuid_to_string_inj. Qed.

Lemma table_remove o u st : table_of (remove_hot_order o u st) = delete (uuid_to_string u) (table_of o).
Proof. unfold table_of. simpl. rewrite fmap_delete. by apply kmap_delete, uuid_to_string_inj. Qed.

Lemma table_history o row : table_of (write_order_history o row) = table_of o.
Proof. unfold write_order_history, table_of. by destruct (o_persist o). Qed.

Lemma settle_table o u st st' w m :
  orders_wf o -> o_orders o !! u = Some st -> same_place st st' -> delta_apply (ws_orders w) m = table_of o ->
  exists w', (settle_order o u st' (Some w)).2 = Some w' /\
    delta_apply (ws_orders w') m = table_of (settle_order o u st' (Some w)).1.
Proof.
  intros W Hs (E1 & _) HM. destruct (ow_orders o W _ _ Hs) as (E & _). unfold settle_order.
  destruct (is_hot_order_status _); simpl; (eexists; split; [done|]); simpl.
  - rewrite delta_store_apply, table_put, HM. do 2 f_equal. congruence.
  - by rewrite delta_delete_apply, table_history, remove_put, table_remove, HM.
Qed.

Lemma order_step_table o w op m :
  orders_wf o -> delta_apply (ws_orders w) m = table_of o ->
  exists w', (order_step (o, Some w) op).2 = Some w' /\
    delta_apply (ws_orders w') m = table_of (order_step (o, Some w) op).1.
Proof.
  intros W HM.
  assert (forall spot chain (f : StoredOrder -> StoredOrder), (forall st, same_place st (f st)) ->
    let s' := match stored_at o spot chain with None => (o, Some w) | Some (u, st) => settle_order o u (f st) (Some w) end in
    exists w', s'.2 = Some w' /\ delta_apply (ws_orders w') m = table_of s'.1) as HU.
  { intros spot chain f Hf. rewrite (stored_at_abs o spot chain W).
    destruct (abs o !! onchain_order_id spot chain) as [st|] eqn:E; simpl; [|by exists w].
    apply (abs_Some o _ _ W) in E as [Hs _]. by eapply settle_table. }
  destruct op as [order user spot chain size filled|spot chain|spot chain n r|spot chain f r full]; simpl; [|rewrite cancel_is_settle| |]; try by apply HU.
  unfold insert_order. destruct (is_hot_order_status _); simpl; (eexists; split; [done|]).
  - simpl. rewrite delta_store_apply, HM. symmetry. unfold table_of. simpl. rewrite fmap_insert. by apply kmap_insert, uuid_to_string_inj.
  - by rewrite HM, table_history.
Qed.

(** The write set mirrors the live orders: an operation extends the block's
    write set so that the orders table it leaves holds exactly the rows of the
    live orders it leaves. *)
Theorem write_set_mirrors_orders o w op m :
  orders_reach o -> delta_apply (ws_orders w) m = table_of o ->
  exists w', (order_step (o, Some w) op).2 = Some w' /\
    delta_apply (ws_orders w') m = table_of (order_step (o, Some w) op).1.
Proof. intros W%orders_reach_wf. by apply order_step_table. Qed.

(** ** Recovery from the table *)

Definition unrow (row : OrderRow) : StoredOrder :=
  {| so_order := or_order row; so_user_address := or_user_address row; so_chain_order_id := or_chain_order_id row;
     so_spot_market := or_spot_market row; so_filled_raw := as_u64 (or_filled_raw row);
     so_size_raw := as_u64 (or_size_raw row) |}.

Definition sizes_u64 (o : Orders) : Prop :=
  map_Forall (fun _ st => is_u64 (so_size_raw st) /\ is_u64 (so_filled_raw st)) (o_orders o).

Lemma load_orders_unrow t : load_orders t = stored_to_persist_row ∘ unrow <$> (map_to_list (t_orders t)).*2.
Proof. done. Qed.

Lemma unrow_row o u st : orders_wf o -> sizes_u64 o -> o_orders o !! u = Some st -> unrow (stored_row st) = st.
Proof.
  intros W Hu Hs. destruct (Hu _ _ Hs) as [H1 H2]. destruct (ow_orders o W _ _ Hs) as (_ & _ & H3 & _).
  unfold unrow, stored_row, order_row_from_parts. simpl. rewrite H3, !as_u64_as_i64 by done. by destruct st.
Qed.

(** Two consistent indexes over the same orders are the same index. *)
Lemma orders_wf_determined o o' :
  orders_wf o -> orders_wf o' -> o_orders o = o_orders o' ->
  o_by_id o = o_by_id o' /\ forall user, default ∅ (o_by_user o !! user) = default ∅ (o_by_user o' !! user).
Proof.
  intros W W' E. split.
  - apply map_eq. intros k. apply option_eq. intros u. split; intros (st & Hs & <-)%ow_by_id; try done.
    + rewrite E in Hs. by apply (ow_orders o' W').
    + rewrite <- E in Hs. by apply (ow_orders o W).
  - intros user. apply set_eq. intros u. split; intros (st & Hs & <-)%ow_by_user; try done.
    + rewrite E in Hs. by apply (ow_orders o' W').
    + rewrite <- E in Hs. by apply (ow_orders o W).
Qed.

Lemma recover_spec o (l : list StoredOrder) c :
  orders_wf o -> orders_wf c ->
  (forall u st, o_orders c !! u = Some st -> o_orders o !! u = Some st) ->
  (forall st, st ∈ l -> o_orders o !! ord_id (so_order st) = Some st /\ o_orders c !! ord_id (so_order st) = None) ->
  NoDup ((fun st => ord_id (so_order st)) <$> l) ->
  let c' := recover_orders c (stored_to_persist_row <$> l) in
  orders_wf c' /\ forall u st, o_orders c' !! u = Some st <-> o_orders c !! u = Some st \/ st ∈ l /\ ord_id (so_order st) = u.
Proof.
  intros W. revert c. induction l as [|st l IH]; intros c Wc Hc Hl Hnd.
  { split; [done|]. intros u st. simpl. set_solver. }
  destruct (Hl st) as [Hst Hcs]; [set_solver|]. destruct (ow_orders o W _ _ Hst) as (_ & Hh & Hn & Hk & _).
  csimpl in Hnd. apply NoDup_cons in Hnd as [Hnin Hnd].
  set (step := insert_order c (so_order st) (so_user_address st) (so_spot_market st) (so_chain_order_id st)
                 (so_size_raw st) (so_filled_raw st) None).
  assert (o_orders step.1 = <[ord_id (so_order st) := st]> (o_orders c)) as Es.
  { unfold step, insert_order. fold (hot st). rewrite Hh. simpl. rewrite Hn. by destruct st. }
  assert (orders_wf step.1) as Ws.
  { apply insert_order_spec; [done|]. intros _. left. split; [|done]. fold (so_key st).
    destruct (o_by_id c !! so_key st) as [u|] eqn:E; [|done]. destruct (ow_by_id c Wc _ _ E) as (st' & Hs' & Hk').
    pose proof (Hc _ _ Hs') as Ho. destruct (ow_orders o W _ _ Ho) as (_ & _ & _ & Hk2 & _). congruence. }
  destruct (IH step.1 Ws) as [W' H'].
  - intros u sv. rewrite Es. intros [[<- <-]|[_ H]]%lookup_insert_Some; [done|by apply Hc].
  - intros sv Hin. destruct (Hl sv) as [H1 H2]; [set_solver|]. split; [done|]. rewrite Es, lookup_insert_ne; [done|].
    intros E. apply Hnin. rewrite E. apply list_elem_of_fmap. by exists sv.
  - done.
  - split; [exact W'|]. intros u sv. etransitivity; [apply H'|]. rewrite Es, lookup_insert_Some, elem_of_cons.
    destruct (decide (ord_id (so_order st) = u)) as [<-|Hne]; [|naive_solver].
    rewrite Hcs. naive_solver.
Qed.

(** The table of an index, loaded into an index without orders. *)
Lemma orders_load o t c :
  orders_wf o -> sizes_u64 o -> t_orders t = table_of o -> orders_wf c -> o_orders c = ∅ ->
  let o' := recover_orders c (load_orders t) in orders_wf o' /\ o_orders o' = o_orders o.
Proof.
  intros W Hu Ht Wc Hc. rewrite load_orders_unrow, list_fmap_compose.
  set (l := unrow <$> (map_to_list (t_orders t)).*2).
  assert (forall k row, t_orders t !! k = Some row <-> exists u st, k = uuid_to_string u /\ row = stored_row st /\ o_orders o !! u = Some st) as HT.
  { intros k row. rewrite Ht. unfold table_of. rewrite lookup_kmap_Some by apply uuid_to_string_inj. split.
    - intros (u & -> & (st & <- & H)%lookup_fmap_Some). by exists u, st.
    - intros (u & st & -> & -> & H). exists u. rewrite lookup_fmap, H. done. }
  assert (forall st, st ∈ l <-> o_orders o !! ord_id (so_order st) = Some st) as Hl.
  { intros st. unfold l. rewrite list_elem_of_fmap. split.
    - intros (row & -> & ([k r] & -> & Hin)%list_elem_of_fmap). apply elem_of_map_to_list, HT in Hin as (u & sv & _ & -> & Hs).
      simpl. rewrite (unrow_row o u sv) by done. by destruct (ow_orders o W _ _ Hs) as (-> & _).
    - intros H. exists (stored_row st). split; [by rewrite (unrow_row o _ st W Hu H)|]. apply list_elem_of_fmap.
      exists (uuid_to_string (ord_id (so_order st)), stored_row st). split; [done|]. apply elem_of_map_to_list, HT. by eexists _, _. }
  destruct (recover_spec o l c W) as [W' H'].
  - done.
  - intros u st. by rewrite Hc, lookup_empty.
  - intros st H%Hl. split; [done|]. rewrite Hc. apply lookup_empty.
  - apply (NoDup_fmap_1 uuid_to_string). unfold l. rewrite <- !list_fmap_compose.
    rewrite (list_fmap_ext _ fst); [apply NoDup_fst_map_to_list|]. intros i [k r] Hi%list_elem_of_lookup_2.
    apply elem_of_map_to_list, HT in Hi as (u & st & -> & -> & Hs). simpl.
    by destruct (ow_orders o W _ _ Hs) as (-> & _).
  - intros o'. split; [exact W'|]. apply map_eq. intros u. apply option_eq. intros st. etransitivity; [apply H'|].
    rewrite Hc, lookup_empty, Hl. split; [by intros [?|[H <-]]|]. intros H. right. by destruct (ow_orders o W _ _ H) as (<- & _).
Qed.

(** The live orders survive a restart: loading the table the write sets
    have built and inserting its rows into an empty index gives back the same
    orders and the same two secondary indexes. *)
Theorem orders_recovered o t persist :
  orders_reach o -> sizes_u64 o -> t_orders t = table_of o ->
  let o' := recover_orders (Orders_new persist) (load_orders t) in
  o_orders o' = o_orders o /\ o_by_id o' = o_by_id o /\
  forall user, default ∅ (o_by_user o' !! user) = default ∅ (o_by_user o !! user).
Proof.
  intros W%orders_reach_wf Hu Ht. destruct (orders_load o t (Orders_new persist) W Hu Ht) as [W' E]; [apply orders_new_wf|done|].
  split; [exact E|]. by apply orders_wf_determined.
Qed.

End Facts.

(** ** Witnesses *)

Definition demo_order : Order :=
  {| ord_id := 5%N; ord_market_id := 1%N; ord_market_slug := "m"; ord_question := "q"; ord_outcome := "yes";
     ord_side := "buy"; ord_price := "0.50"; ord_size := "10"; ord_status := "open"; ord_cloid := None |}.
Definition demo_insert : OrderOp := OpInsert demo_order "U1" " c7 " "o1" 10 0.
Definition demo_orders : Orders := (order_step (SD := DemoSdk) (Orders_new true, None) demo_insert).1.
Definition demo_row_ws : IndexWriteSet := default (ws_default 1 "d" false)
  (order_step (SD := DemoSdk) (Orders_new true, Some (ws_default 1 "d" false)) demo_insert).2.

Lemma demo_orders_reach : orders_reach (SD := DemoSdk) demo_orders.
Proof. apply reach_op; [apply reach_new|]. intros _. left. by vm_compute. Qed.

Lemma order_index_refines_map_witness :
  represents (SD := DemoSdk) (order_step (SD := DemoSdk) (demo_orders, None) (OpFill "c7" "o1" 10 0 true)).1
    (spec_step (SD := DemoSdk) (abs demo_orders) (OpFill "c7" "o1" 10 0 true)) /\
  abs (order_step (SD := DemoSdk) (demo_orders, None) (OpFill "c7" "o1" 10 0 true)).1 =
    spec_step (SD := DemoSdk) (abs demo_orders) (OpFill "c7" "o1" 10 0 true) /\
  o_history (order_step (SD := DemoSdk) (demo_orders, None) (OpFill "c7" "o1" 10 0 true)).1 =
    o_history demo_orders ++ archived demo_orders (spec_archive (SD := DemoSdk) (abs demo_orders) (OpFill "c7" "o1" 10 0 true)).
Proof. apply (order_index_refines_map (SD := DemoSdk) demo_orders None (OpFill "c7" "o1" 10 0 true)); [apply demo_orders_reach|done]. Defined.

Lemma order_index_consistent_witness : orders_wf (SD := DemoSdk) demo_orders.
Proof. apply (order_index_consistent (SD := DemoSdk) demo_orders), demo_orders_reach. Defined.

Lemma order_queries_exact_witness :
  list_orders_for_user demo_orders "u1" ≡ₚ
    order_query_record <$> filter (fun st => so_user st = user_key "u1") (map_to_list (abs demo_orders)).*2.
Proof. apply (order_queries_exact (SD := DemoSdk) demo_orders "c7" "o1" "u1" "buy" "0.50" 10), demo_orders_reach. Defined.

Lemma write_set_mirrors_orders_witness :
  exists w', (order_step (SD := DemoSdk) (demo_orders, Some demo_row_ws) (OpCancel "c7" "o1")).2 = Some w' /\
    delta_apply (ws_orders w') ∅ = table_of (SD := DemoSdk) (order_step (SD := DemoSdk) (demo_orders, Some demo_row_ws) (OpCancel "c7" "o1")).1.
Proof.
  apply (write_set_mirrors_orders (SD := DemoSdk) demo_orders demo_row_ws (OpCancel "c7" "o1") ∅); [apply demo_orders_reach|].
  vm_compute. reflexivity.
Defined.

Lemma orders_recovered_witness :
  o_orders (recover_orders (S := DemoSdk) (Orders_new false) (load_orders (apply_index_write_set tables_empty demo_row_ws))) =
    o_orders demo_orders.
Proof.
  apply (orders_recovered (SD := DemoSdk) demo_orders (apply_index_write_set tables_empty demo_row_ws) false).
  - apply demo_orders_reach.
  - apply (map_Forall_insert_2 (K := Uuid) _ ∅ 5%N (op_inserted (SD := DemoSdk) demo_order "U1" " c7 " "o1" 10 0)).
    + split; unfold is_u64, u64_max; simpl; lia.
    + apply map_Forall_empty.
  - apply (bool_decide_unpack _). vm_compute. exact I.
Defined.
