(* ===== verification/Markets.v ===== *)
(** * Markets: the market catalogue of [indexer/index_state.rs]

    Markets by uuid, the slug index, the venue index (spot market to market and
    outcome), the names of spot markets and the last trade prices; the query
    builder of [http/process/markets.rs]. *)
From S2P Require Import Prelude Text Errors Sdk Keys Slug Domain WriteSet.

Local Open Scope list_scope.
Local Open Scope Z_scope.

Record SpotMarketRef := { sr_market_id : Uuid; sr_outcome : string }.

#[global] Instance SpotMarketRef_eq_dec : EqDecision SpotMarketRef.
Proof. solve_decision. Defined.

(** The market part of [IndexState]. *)
Record Markets := {
  m_markets : gmap Uuid Market;
  m_slug : gmap string Uuid;
  m_spot : gmap string SpotMarketRef;
  m_by_name : gmap string string;
  m_last_trade : gmap string Z
}.

Definition Markets_new : Markets :=
  {| m_markets := ∅; m_slug := ∅; m_spot := ∅; m_by_name := ∅; m_last_trade := ∅ |}.

Definition with_market_map (f : gmap Uuid Market -> gmap Uuid Market) (s : Markets) : Markets :=
  {| m_markets := f (m_markets s); m_slug := m_slug s; m_spot := m_spot s; m_by_name := m_by_name s; m_last_trade := m_last_trade s |}.
Definition with_slugs (f : gmap string Uuid -> gmap string Uuid) (s : Markets) : Markets :=
  {| m_markets := m_markets s; m_slug := f (m_slug s); m_spot := m_spot s; m_by_name := m_by_name s; m_last_trade := m_last_trade s |}.
Definition with_spots (f : gmap string SpotMarketRef -> gmap string SpotMarketRef) (s : Markets) : Markets :=
  {| m_markets := m_markets s; m_slug := m_slug s; m_spot := f (m_spot s); m_by_name := m_by_name s; m_last_trade := m_last_trade s |}.
Definition with_names (f : gmap string string -> gmap string string) (s : Markets) : Markets :=
  {| m_markets := m_markets s; m_slug := m_slug s; m_spot := m_spot s; m_by_name := f (m_by_name s); m_last_trade := m_last_trade s |}.
Definition with_prices (f : gmap string Z -> gmap string Z) (s : Markets) : Markets :=
  {| m_markets := m_markets s; m_slug := m_slug s; m_spot := m_spot s; m_by_name := m_by_name s; m_last_trade := f (m_last_trade s) |}.

(** ** Merging a market with the one it replaces *)

(** Icon, name and slug are kept from the existing market when left empty. *)
Definition merge_existing (existing market : Market) : Market :=
  let market := MarketOps.set_icon_url_if_empty market (MarketOps.icon_url existing) in
  let market :=
    match MarketOps.name_mut market (MarketOps.name existing) with
    | Some named => if decide (MarketOps.name market = "" /\ MarketOps.name existing <> "")%string then named else market
    | None => market
    end in
  match MarketOps.slug_mut market (MarketOps.slug existing) with
  | Some slugged => if decide (MarketOps.slug market = "" /\ MarketOps.slug existing <> "")%string then slugged else market
  | None => market
  end.

(** The venue keys written back: both legs of an event, the address of a spot
    or perpetual market. *)
Definition set_venues (yes_spot no_spot : string) (market : Market) : Market :=
  let market := default market (MarketOps.yes_spot_market_mut market yes_spot) in
  let market := default market (MarketOps.no_spot_market_mut market no_spot) in
  match market with
  | Spot i n ic _ st d b q => Spot i n ic yes_spot st d b q
  | Perp i n ic _ st d u => Perp i n ic yes_spot st d u
  | m => m
  end.

Section Markets.
Context {S : Sdk}.

Definition remove_slug_mappings_for_market (s : Markets) (market_id : Uuid) : Markets :=
  with_slugs (filter (fun p => p.2 <> market_id)) s.

Definition remove_orphan_spot_shell (s : Markets) (spot_market : string) (ws : option IndexWriteSet)
    : Markets * option IndexWriteSet :=
  let orphan_id := market_uuid spot_market in
  match m_markets s !! orphan_id with
  | None => (s, ws)
  | Some orphan =>
      if decide (MarketOps.category orphan <> CSpot) then (s, ws)
      else (with_market_map (delete orphan_id) s, (fun w => delete_market w (uuid_to_string orphan_id)) <$> ws)
  end.

Definition bind_leg (event_id : Uuid) (s : Markets * option IndexWriteSet) (leg : string * string)
    : Markets * option IndexWriteSet :=
  let '(s, ws) := remove_orphan_spot_shell s.1 leg.1 s.2 in
  (with_spots (<[leg.1 := {| sr_market_id := event_id; sr_outcome := leg.2 |}]>) s, ws).

Definition bind_event_spot_legs (s : Markets) (event_id : Uuid) (yes_spot no_spot : string) (ws : option IndexWriteSet)
    : Markets * option IndexWriteSet :=
  foldl (bind_leg event_id) (s, ws) [(yes_spot, "yes"); (no_spot, "no")]%string.

Definition upsert_market (s : Markets) (market : Market) (ws : option IndexWriteSet) : Markets * option IndexWriteSet :=
  let market := match m_markets s !! MarketOps.id market with
                | Some existing => merge_existing existing market
                | None => market
                end in
  let s := if decide (MarketOps.slug market = "")%string then s
           else with_slugs (<[MarketOps.slug market := MarketOps.id market]>)
                  (remove_slug_mappings_for_market s (MarketOps.id market)) in
  let yes_spot := normalize_spot_market_key (MarketOps.yes_spot_market market) in
  let no_spot := normalize_spot_market_key (MarketOps.no_spot_market market) in
  let market := set_venues yes_spot no_spot market in
  let market_id := MarketOps.id market in
  let ws := (fun w => store_market w market) <$> ws in
  let s := with_market_map (<[market_id := market]>) s in
  match MarketOps.category market with
  | CEvent => bind_event_spot_legs s market_id yes_spot no_spot ws
  | CSpot => (with_spots (<[yes_spot := {| sr_market_id := market_id; sr_outcome := "spot" |}]>) s, ws)
  | CPerp => (with_spots (<[yes_spot := {| sr_market_id := market_id; sr_outcome := "perp" |}]>) s, ws)
  end.

(** The loop body of [update_market_state]. *)
Definition state_put (market_address state : string) (st : Markets * option IndexWriteSet) (p : Uuid * Market)
    : Markets * option IndexWriteSet :=
  if decide (MarketOps.market_address p.2 = market_address)
  then let market := MarketOps.state_mut p.2 state in
       (with_market_map (<[p.1 := market]>) st.1, (fun w => store_market w market) <$> st.2)
  else st.

Definition update_market_state (s : Markets) (market_address state : string) (ws : option IndexWriteSet)
    : Markets * option IndexWriteSet :=
  foldl (state_put market_address state) (s, ws) (map_to_list (m_markets s)).

Definition lookup_spot_market (s : Markets) (spot_market : string) : option (Uuid * string) :=
  (fun r => (sr_market_id r, sr_outcome r)) <$> m_spot s !! normalize_spot_market_key spot_market.

Definition list_spot_markets (s : Markets) : list string := (map_to_list (m_spot s)).*1.

(** The venue already belongs to an event or a perpetual. *)
Definition leg_of_other (s : Markets) (spot : string) : bool :=
  match m_spot s !! spot with
  | Some existing =>
      match m_markets s !! sr_market_id existing with
      | Some market => bool_decide (MarketOps.category market <> CSpot)
      | None => false
      end
  | None => false
  end.

Definition register_named_spot_market (s : Markets) (name spot_market deployer : string) : Markets :=
  let spot := normalize_spot_market_key spot_market in
  let name_key := to_ascii_uppercase (trim name) in
  if decide (name_key = "" \/ spot = "")%string then s
  else
    let s := with_names (<[name_key := spot]>) s in
    if leg_of_other s spot then s
    else
      let market_id := market_uuid spot in
      let s := match m_spot s !! spot with
               | Some _ => s
               | None => with_spots (<[spot := {| sr_market_id := market_id; sr_outcome := "spot" |}]>) s
               end in
      match m_markets s !! market_id with
      | Some _ => s
      | None => with_market_map (<[market_id := Spot market_id (trim name) None spot "Active" (trim deployer) "" ""]>) s
      end.

Definition ensure_standalone_spot_market (s : Markets) (spot_market : string) : Markets * (Uuid * string) :=
  let spot := normalize_spot_market_key spot_market in
  match lookup_spot_market s spot with
  | Some existing => (s, existing)
  | None =>
      let name := default spot (fst <$> head (filter (fun p => p.2 = spot) (map_to_list (m_by_name s)))) in
      let s := register_named_spot_market s name spot "" in
      (s, default (market_uuid spot, "spot"%string) (lookup_spot_market s spot))
  end.

Definition resolve_spot_market_key (s : Markets) (id_or_name : string) : option string :=
  let key := trim id_or_name in
  if decide (key = "")%string then None
  else if String.prefix "0x" key || String.prefix "0X" key then Some (normalize_spot_market_key key)
  else m_by_name s !! to_ascii_uppercase key.

Definition record_last_trade_price (s : Markets) (spot_market : string) (price : Z) (ws : option IndexWriteSet)
    : Markets * option IndexWriteSet :=
  let key := normalize_spot_market_key spot_market in
  (with_prices (<[key := price]>) s, (fun w => store_last_trade w key (as_i64 price)) <$> ws).

Definition last_trade_price_of (s : Markets) (spot_market : string) : option Z :=
  m_last_trade s !! normalize_spot_market_key spot_market.

Definition get_market (s : Markets) (id : Uuid) : option Market := m_markets s !! id.

Definition get_event_by_slug (s : Markets) (slug : string) : option Market :=
  id ← m_slug s !! slug; m_markets s !! id.

(** Always [Some]: [Slug.allocate_unique_slug_spec]. *)
Definition allocate_market_slug (s : Markets) (question : string) : option string :=
  allocate_unique_slug (map_to_list (m_slug s)).*1 question.

Definition position_token_specs (s : Markets) : list (string * string) :=
  (map_to_list (m_markets s)).*2 ≫= (fun market =>
    (if decide (MarketOps.yes_token market = "")%string then [] else [("YES"%string, MarketOps.yes_token market)]) ++
    (if decide (MarketOps.no_token market = "")%string then [] else [("NO"%string, MarketOps.no_token market)])).

End Markets.

(** ** Queries *)

(** The conjunction of the [retain] filters of [query_markets]. *)
Definition market_matches (q : MarketQuery) (m : Market) : bool :=
  let lower x := to_ascii_lowercase (trim x) in
  match mq_slug q with
  | Some slug => bool_decide (MarketOps.slug m = slug) || bool_decide (MarketOps.name m = slug) | None => true end &&
  (bool_decide (mq_slugs q = []) ||
    (bool_decide (MarketOps.slug m ∈ mq_slugs q) || bool_decide (MarketOps.name m ∈ mq_slugs q))) &&
  (bool_decide (mq_market_ids q = []) || bool_decide (MarketOps.id m ∈ mq_market_ids q)) &&
  (bool_decide (mq_market_addresses q = []) ||
    bool_decide (lower (MarketOps.market_address m) ∈ lower <$> mq_market_addresses q)) &&
  match mq_state q with Some state => eq_ignore_ascii_case (MarketOps.state m) state | None => true end &&
  match mq_category q with Some category => bool_decide (MarketOps.category m = category) | None => true end &&
  match mq_deployer q with Some d => bool_decide (lower (MarketOps.deployer m) = lower d) | None => true end.

Definition market_cmp (order : MarketSortOrder) : Market -> Market -> comparison :=
  match order with
  | SortResolutionDeadline => fun l r => Z.compare (MarketOps.resolution_deadline l) (MarketOps.resolution_deadline r)
  | SortSlug => then_with (fun l r => String.compare (MarketOps.slug l) (MarketOps.slug r))
                          (fun l r => String.compare (MarketOps.name l) (MarketOps.name r))
  | SortQuestion => fun l r => String.compare (MarketOps.label l) (MarketOps.label r)
  end.

Definition market_sort_cmp (q : MarketQuery) (l r : Market) : comparison :=
  if mq_ascending q then market_cmp (mq_order q) l r else market_cmp (mq_order q) r l.

(** One page of a sorted list. *)
Definition page {A} (offset limit : Z) (l : list A) : list A := take (Z.to_nat limit) (drop (Z.to_nat offset) l).

Definition query_markets (s : Markets) (q : MarketQuery) : list Market * nat :=
  let markets := merge_sort (le_of (market_sort_cmp q)) (filter (fun m => market_matches q m = true) (map_to_list (m_markets s)).*2) in
  (page (mq_offset q) (mq_limit q) markets, length markets).

(** ** [http/process/markets.rs] *)

Record QueryMarketsParams := {
  qp_limit : option Z;
  qp_offset : option Z;
  qp_slug : option string;
  qp_slugs : option string;
  qp_market_ids : option string;
  qp_market_addresses : option string;
  qp_state : option string;
  qp_category : option string;
  qp_deployer : option string;
  qp_order : option string;
  qp_ascending : option bool
}.

Definition parse_csv (value : option string) : list string :=
  match value with
  | Some items => filter (fun item => item <> ""%string) (trim ∘ text <$> split_on "," (chars items))
  | None => []
  end.

Definition trimmed_filter (value : option string) : option string :=
  v ← value; let t := trim v in if decide (t = "")%string then None else Some t.

Section HttpMarkets.
Context {S : Sdk}.

Definition parse_uuid (item : string) : AppResult Uuid :=
  match uuid_parse item with
  | Some u => Ok u
  | None => Err (BadRequest ("invalid market id '" +:+ item +:+ "': " +:+ uuid_parse_error item)%string)
  end.

Definition parse_uuid_csv (value : option string) : AppResult (list Uuid) :=
  let items := parse_csv value in
  if decide (MAX_MARKETS_ID_BATCH < length items)%nat
  then Err (BadRequest ("market_ids accepts at most " +:+ dec (Z.of_nat MAX_MARKETS_ID_BATCH) +:+ " ids")%string)
  else foldr (fun item rest => match parse_uuid item with
                               | Ok u => us ← rest; mret (u :: us)
                               | Err e => Err e end) (Ok []) items.

Definition parse_category (value : option string) : AppResult (option MarketCategory) :=
  match value with
  | None => Ok None
  | Some raw =>
      match MarketCategoryOps.parse raw with
      | Some c => Ok (Some c)
      | None => Err (BadRequest ("invalid category `" +:+ raw +:+ "`; use spot|event|perp")%string)
      end
  end.

Definition build_market_query (params : QueryMarketsParams) : AppResult MarketQuery :=
  let slugs := parse_csv (qp_slugs params) in
  if decide (MAX_MARKETS_SLUG_BATCH < length slugs)%nat
  then Err (BadRequest ("slugs accepts at most " +:+ dec (Z.of_nat MAX_MARKETS_SLUG_BATCH) +:+ " values")%string)
  else
    let market_addresses := parse_csv (qp_market_addresses params) in
    if decide (MAX_MARKETS_ID_BATCH < length market_addresses)%nat
    then Err (BadRequest ("market_addresses accepts at most " +:+ dec (Z.of_nat MAX_MARKETS_ID_BATCH) +:+ " values")%string)
    else
      category ← parse_category (qp_category params);
      market_ids ← parse_uuid_csv (qp_market_ids params);
      Ok {| mq_limit := clamp 1 MAX_MARKETS_PAGE_LIMIT (default DEFAULT_MARKETS_PAGE_LIMIT (qp_limit params));
            mq_offset := default 0 (qp_offset params);
            mq_slug := trimmed_filter (qp_slug params);
            mq_slugs := slugs;
            mq_market_ids := market_ids;
            mq_market_addresses := market_addresses;
            mq_state := trimmed_filter (qp_state params);
            mq_category := category;
            mq_deployer := trimmed_filter (qp_deployer params);
            mq_order := parse_sort_order (qp_order params);
            mq_ascending := default true (qp_ascending params) |}.

End HttpMarkets.
