(* ===== verification/MarketsFacts.v ===== *)
(** * MarketsFacts: consistency of the market catalogue

    The slug and venue indexes agree with the markets in every reachable state,
    the write set mirrors the markets, and queries page one sorted list. *)
From S2P Require Import Prelude Text Errors Sdk Keys Slug Domain WriteSet Markets.

Local Open Scope list_scope.
Local Open Scope Z_scope.

Section Spec.
Context {SD : Sdk}.

Inductive MarketOp :=
| MUpsert (market : Market)
| MState (market_address state : string)
| MRegister (name spot_market deployer : string)
| MEnsure (spot_market : string)
| MPrice (spot_market : string) (price : Z).

Definition market_step (st : Markets * option IndexWriteSet) (op : MarketOp) : Markets * option IndexWriteSet :=
  let '(s, ws) := st in
  match op with
  | MUpsert market => upsert_market s market ws
  | MState a v => update_market_state s a v ws
  | MRegister n sp d => (register_named_spot_market s n sp d, ws)
  | MEnsure sp => ((ensure_standalone_spot_market s sp).1, ws)
  | MPrice sp p => record_last_trade_price s sp p ws
  end.

(** The key of a spot market is not the address of an event or a perpetual. *)
Definition spot_key_free (s : Markets) (sp : string) : Prop :=
  forall m, m_markets s !! market_uuid (normalize_spot_market_key sp) = Some m -> MarketOps.category m = CSpot.

(** An upserted market keeps the kind of the one it replaces, a spot market's id
    is the hash of its key, and its slug is not another market's. *)
Definition market_op_ok (s : Markets) (op : MarketOp) : Prop :=
  match op with
  | MUpsert m =>
      (forall e, m_markets s !! MarketOps.id m = Some e -> MarketOps.category e = MarketOps.category m) /\
      (MarketOps.category m = CSpot -> MarketOps.id m = market_uuid (normalize_spot_market_key (MarketOps.market_address m))) /\
      (forall i, m_slug s !! MarketOps.slug m = Some i -> i = MarketOps.id m)
  | MRegister _ sp _ | MEnsure sp => spot_key_free s sp
  | _ => True
  end.

Inductive markets_reach : Markets -> Prop :=
| mreach_new : markets_reach Markets_new
| mreach_op s ws op : markets_reach s -> market_op_ok s op -> markets_reach (market_step (s, ws) op).1.

Definition outcome_ok (c : MarketCategory) (outcome : string) : Prop :=
  match c with CSpot => outcome = "spot"%string | CPerp => outcome = "perp"%string
             | CEvent => outcome = "yes"%string \/ outcome = "no"%string end.

Definition ref_ok (ms : gmap Uuid Market) (k : string) (r : SpotMarketRef) : Prop :=
  normalize_spot_market_key k = k /\
  exists m, ms !! sr_market_id r = Some m /\ outcome_ok (MarketOps.category m) (sr_outcome r) /\
    (MarketOps.category m = CSpot -> MarketOps.market_address m = k).

(** A stored market has its venue keys in normal form. *)
Definition normal_venues (m : Market) : Prop :=
  set_venues (normalize_spot_market_key (MarketOps.yes_spot_market m)) (normalize_spot_market_key (MarketOps.no_spot_market m)) m = m.

(** Every venue points to a market, under the right outcome. *)
Record venues_ok (s : Markets) : Prop := {
  vo_id i m : m_markets s !! i = Some m -> MarketOps.id m = i;
  vo_spot i m : m_markets s !! i = Some m -> MarketOps.category m = CSpot -> i = market_uuid (MarketOps.market_address m);
  vo_ref k r : m_spot s !! k = Some r -> ref_ok (m_markets s) k r;
  vo_normal i m : m_markets s !! i = Some m -> normal_venues m
}.

(** The slug index is exactly the slugs of the markets that have one. *)
Definition slugs_ok (s : Markets) : Prop :=
  forall sl i, m_slug s !! sl = Some i <-> sl <> ""%string /\ exists m, m_markets s !! i = Some m /\ MarketOps.slug m = sl.

End Spec.

(** ** What merging and venue setting leave alone *)

Lemma merge_existing_props e m :
  MarketOps.category e = MarketOps.category m ->
  MarketOps.id (merge_existing e m) = MarketOps.id m /\
  MarketOps.category (merge_existing e m) = MarketOps.category m /\
  MarketOps.market_address (merge_existing e m) = MarketOps.market_address m /\
  MarketOps.slug (merge_existing e m) = (if decide (MarketOps.slug m = ""%string) then MarketOps.slug e else MarketOps.slug m).
Proof.
  intros E. unfold merge_existing. pose proof (decide (MarketOps.slug e = ""%string)) as D.
  destruct e as [? ? []|? ? ? []|? ? []], m as [? ? []|? ? ? []|? ? []]; try done; simpl;
    simpl in D; repeat case_decide; simpl; split_and!; try done; destruct D; intuition congruence.
Qed.

Lemma set_venues_props y n m :
  MarketOps.id (set_venues y n m) = MarketOps.id m /\
  MarketOps.category (set_venues y n m) = MarketOps.category m /\
  MarketOps.slug (set_venues y n m) = MarketOps.slug m /\
  (MarketOps.category m <> CEvent -> MarketOps.market_address (set_venues y n m) = y).
Proof. by destruct m. Qed.

Lemma not_event_no_slug m : MarketOps.category m <> CEvent -> MarketOps.slug m = ""%string.
Proof. by destruct m. Qed.

Lemma spot_yes_venue m : MarketOps.category m <> CEvent -> MarketOps.yes_spot_market m = MarketOps.market_address m.
Proof. by destruct m. Qed.

Lemma state_mut_props m v :
  MarketOps.id (MarketOps.state_mut m v) = MarketOps.id m /\
  MarketOps.category (MarketOps.state_mut m v) = MarketOps.category m /\
  MarketOps.slug (MarketOps.state_mut m v) = MarketOps.slug m /\
  MarketOps.market_address (MarketOps.state_mut m v) = MarketOps.market_address m.
Proof. by destruct m. Qed.

Section Facts.
Context {SD : Sdk} {L : SdkLaws} {NC : NoCollision}.

Lemma market_uuid_inj k k' : market_uuid k = market_uuid k' -> k = k'.
Proof. apply uuid_v5_inj. Qed.

Lemma set_venues_normal m :
  normal_venues (set_venues (normalize_spot_market_key (MarketOps.yes_spot_market m)) (normalize_spot_market_key (MarketOps.no_spot_market m)) m).
Proof. unfold normal_venues. destruct m; simpl; by rewrite ?normalize_idemp. Qed.

Lemma state_mut_normal m v : normal_venues m -> normal_venues (MarketOps.state_mut m v).
Proof. unfold normal_venues, set_venues. destruct m; cbn; intros [=]; f_equal; done. Qed.

(** ** Venues *)

Lemma venues_insert s m :
  venues_ok s -> normal_venues m ->
  (forall e, m_markets s !! MarketOps.id m = Some e -> MarketOps.category e = MarketOps.category m) ->
  (MarketOps.category m = CSpot -> MarketOps.id m = market_uuid (MarketOps.market_address m)) ->
  venues_ok (with_market_map (<[MarketOps.id m := m]>) s).
Proof.
  intros [V1 V2 V3 V4] Hnv Hcat Hid. split; simpl.
  - intros i x [[<- <-]|[_ H]]%lookup_insert_Some; [done|by apply V1].
  - intros i x [[<- <-]|[_ H]]%lookup_insert_Some; [done|by apply V2].
  - intros k r (Hk & x & Hx & Ho & Ha)%V3. split; [done|].
    destruct (decide (sr_market_id r = MarketOps.id m)) as [E|E].
    + rewrite E in *. exists m. rewrite lookup_insert_eq. split; [done|]. rewrite <- (Hcat x Hx). split; [done|].
      intros Hs. apply market_uuid_inj. rewrite <- Hid by (by rewrite <- (Hcat x Hx)). rewrite <- (Ha Hs).
      by apply V2.
    + exists x. by rewrite lookup_insert_ne.
  - intros i x [[<- <-]|[_ H]]%lookup_insert_Some; [done|by eapply V4].
Qed.

Lemma venues_spot s k r :
  venues_ok s -> ref_ok (m_markets s) k r -> venues_ok (with_spots (<[k := r]>) s).
Proof.
  intros [V1 V2 V3 V4] Hr. split; simpl; [done|done| |done].
  intros k' r' [[<- <-]|[_ H]]%lookup_insert_Some; [done|by apply V3].
Qed.

(** Binding a leg: the orphan shell of the venue goes, the venue is the event's. *)
Lemma bind_leg_markets id s ws leg :
  m_markets (bind_leg id (s, ws) leg).1 =
    match m_markets s !! market_uuid leg.1 with
    | Some o => if decide (MarketOps.category o <> CSpot) then m_markets s else delete (market_uuid leg.1) (m_markets s)
    | None => m_markets s
    end /\
  m_spot (bind_leg id (s, ws) leg).1 = <[leg.1 := {| sr_market_id := id; sr_outcome := leg.2 |}]> (m_spot s) /\
  m_slug (bind_leg id (s, ws) leg).1 = m_slug s.
Proof.
  unfold bind_leg, remove_orphan_spot_shell. simpl. destruct (m_markets s !! market_uuid leg.1); [case_decide|]; done.
Qed.

(** The markets a leg keeps: all but the spot shell of the venue. *)
Lemma bind_leg_keeps id s ws leg i x :
  venues_ok s ->
  m_markets (bind_leg id (s, ws) leg).1 !! i = Some x <->
    m_markets s !! i = Some x /\ ~ (i = market_uuid leg.1 /\ MarketOps.category x = CSpot).
Proof.
  intros V. destruct (bind_leg_markets id s ws leg) as (-> & _ & _).
  destruct (m_markets s !! market_uuid leg.1) as [o|] eqn:E; [case_decide as Hc|]; rewrite ?lookup_delete_Some;
    naive_solver congruence.
Qed.

Lemma bind_leg_venues id s ws leg ev :
  venues_ok s -> m_markets s !! id = Some ev -> MarketOps.category ev = CEvent ->
  normalize_spot_market_key leg.1 = leg.1 -> leg.2 = "yes"%string \/ leg.2 = "no"%string ->
  venues_ok (bind_leg id (s, ws) leg).1 /\ m_markets (bind_leg id (s, ws) leg).1 !! id = Some ev.
Proof.
  intros V Hev Hc Hn Ho. assert (m_markets (bind_leg id (s, ws) leg).1 !! id = Some ev) as Hev'.
  { apply bind_leg_keeps; [done|]. split; [done|]. intros [_ E]. congruence. }
  split; [|done]. pose proof (bind_leg_markets id s ws leg) as (_ & Esp & _). split.
  - intros i x [H _]%bind_leg_keeps; [by apply V|done].
  - intros i x [H _]%bind_leg_keeps; [by apply V|done].
  - intros k r. rewrite Esp. intros [[<- <-]|[Hne H]]%lookup_insert_Some.
    + split; [done|]. exists ev. split; [done|]. rewrite Hc. split; [done|congruence].
    + destruct (vo_ref s V _ _ H) as (Hk & x & Hx & Hox & Hax). split; [done|]. exists x.
      split; [|done]. apply bind_leg_keeps; [done|]. split; [done|]. intros [E Hs].
      apply Hne. apply market_uuid_inj. rewrite <- E, <- (Hax Hs). by apply (vo_spot s V).
  - intros i x [H _]%bind_leg_keeps; [by eapply V|done].
Qed.

(** ** Slugs *)

Lemma slugs_same s s' :
  m_slug s' = m_slug s ->
  (forall i sl, sl <> ""%string -> (exists x, m_markets s' !! i = Some x /\ MarketOps.slug x = sl) <->
                                    (exists x, m_markets s !! i = Some x /\ MarketOps.slug x = sl)) ->
  slugs_ok s -> slugs_ok s'.
Proof. intros E H Hs sl i. rewrite E, (Hs sl i). split; intros [Hne Hx]; split; try done; by apply H. Qed.

(** Writing a market under its own slug. *)
Lemma slugs_insert s m :
  slugs_ok s -> MarketOps.slug m <> ""%string ->
  (forall i, m_slug s !! MarketOps.slug m = Some i -> i = MarketOps.id m) ->
  slugs_ok (with_market_map (<[MarketOps.id m := m]>)
    (with_slugs (<[MarketOps.slug m := MarketOps.id m]>) (remove_slug_mappings_for_market s (MarketOps.id m)))).
Proof.
  intros Hs Hne Hf sl i. simpl. rewrite !lookup_insert_Some, map_lookup_filter_Some. simpl. rewrite (Hs sl i). split.
  - intros [[<- <-]|(Hsl & (H0 & x & Hx & Ex) & Hi)].
    + split; [done|]. exists m. by rewrite lookup_insert_eq.
    + split; [done|]. exists x. by rewrite lookup_insert_ne.
  - intros (H0 & x & [[<- <-]|[Hi Hx]]%lookup_insert_Some & Ex); [by left|]. right.
    split; [|split; [|done]]; [|split; [done|by exists x]].
    intros E. apply Hi. symmetry. apply Hf. apply Hs. split; [done|]. exists x. split; [done|]. by rewrite Ex.
Qed.

Lemma bind_leg_slugs id s ws leg : venues_ok s -> slugs_ok s -> slugs_ok (bind_leg id (s, ws) leg).1.
Proof.
  intros V. apply slugs_same; [apply bind_leg_markets|]. intros i sl Hne.
  split; intros (x & Hx & E); exists x; (split; [|done]).
  - by apply bind_leg_keeps in Hx as [? _].
  - apply bind_leg_keeps; [done|]. split; [done|]. intros [_ Hc]. apply Hne. rewrite <- E. apply not_event_no_slug. congruence.
Qed.

(** ** The operations *)

Definition markets_inv (s : Markets) : Prop := venues_ok s /\ slugs_ok s.

(** The markets table agrees with the catalogue, spot shells aside: those are
    registered in memory without a write. *)
Definition mirrors_markets (t : gmap string Market) (s : Markets) : Prop :=
  (forall i m, t !! uuid_to_string i = Some m -> m_markets s !! i = Some m) /\
  (forall i m, m_markets s !! i = Some m -> MarketOps.category m <> CSpot -> t !! uuid_to_string i = Some m).

(** A step keeps the invariant, and extends a mirroring write set. *)
Definition good_step (s : Markets) (f : option IndexWriteSet -> Markets * option IndexWriteSet) : Prop :=
  (forall ws, markets_inv (f ws).1) /\
  (forall w t, mirrors_markets (delta_apply (ws_markets w) t) s ->
    exists w', (f (Some w)).2 = Some w' /\ mirrors_markets (delta_apply (ws_markets w') t) (f (Some w)).1).

Lemma mirrors_insert t s m :
  mirrors_markets t s -> mirrors_markets (<[uuid_to_string (MarketOps.id m) := m]> t) (with_market_map (<[MarketOps.id m := m]>) s).
Proof.
  intros [M1 M2]. split; simpl; intros i x.
  - intros [[E <-]|[Hne H]]%lookup_insert_Some.
    + apply uuid_to_string_inj in E as <-. apply lookup_insert_eq.
    + rewrite lookup_insert_ne by congruence. by apply M1.
  - intros [[<- <-]|[Hne H]]%lookup_insert_Some Hc; [apply lookup_insert_eq|].
    rewrite lookup_insert_ne; [by apply M2|]. intros E%uuid_to_string_inj. congruence.
Qed.

Lemma mirrors_other t s s' : m_markets s' = m_markets s -> mirrors_markets t s -> mirrors_markets t s'.
Proof. unfold mirrors_markets. by intros ->. Qed.

Lemma bind_leg_mirrors id s w leg t :
  venues_ok s -> mirrors_markets (delta_apply (ws_markets w) t) s ->
  exists w', (bind_leg id (s, Some w) leg).2 = Some w' /\
    mirrors_markets (delta_apply (ws_markets w') t) (bind_leg id (s, Some w) leg).1.
Proof.
  intros V [M1 M2]. assert ((bind_leg id (s, Some w) leg).2 = Some
    (match m_markets s !! market_uuid leg.1 with
     | Some o => if decide (MarketOps.category o <> CSpot) then w else delete_market w (uuid_to_string (market_uuid leg.1))
     | None => w end)) as E.
  { unfold bind_leg, remove_orphan_spot_shell. simpl. destruct (m_markets s !! market_uuid leg.1); [case_decide|]; done. }
  eexists. split; [exact E|].
  assert (forall i x, m_markets (bind_leg id (s, Some w) leg).1 !! i = Some x <->
    m_markets s !! i = Some x /\ ~ (i = market_uuid leg.1 /\ MarketOps.category x = CSpot)) as HK by (intros; by apply bind_leg_keeps).
  destruct (m_markets s !! market_uuid leg.1) as [o|] eqn:Eo; [case_decide as Hc|]; split; intros i x.
  - intros H%M1. apply HK. split; [done|]. intros [-> ?]. naive_solver.
  - intros [H _]%HK ?. by apply M2.
  - simpl. rewrite delta_delete_apply. intros [Hne H%M1]%lookup_delete_Some. apply HK. split; [done|]. intros [-> _]. done.
  - intros [H Hn]%HK ?. simpl. rewrite delta_delete_apply. apply lookup_delete_Some. split; [|by apply M2].
    intros E'%uuid_to_string_inj. subst i. apply Hn. split; [done|]. destruct (decide (MarketOps.category x = CSpot)); [done|]. naive_solver.
  - intros H%M1. apply HK. split; [done|]. intros [-> ?]. naive_solver.
  - intros [H _]%HK ?. by apply M2.
Qed.

(** Both legs of an event that is in the catalogue. *)
Lemma bind_legs_good s id ev y n :
  markets_inv s -> m_markets s !! id = Some ev -> MarketOps.category ev = CEvent ->
  normalize_spot_market_key y = y -> normalize_spot_market_key n = n ->
  good_step s (bind_event_spot_legs s id y n).
Proof.
  intros [V Sl] Hev Hc Hy Hn. unfold bind_event_spot_legs. cbn [foldl]. split.
  - intros ws. destruct (bind_leg_venues id s ws (y, "yes"%string) ev) as [V1 Hev1]; try done; [by left|].
    pose proof (bind_leg_slugs id s ws (y, "yes"%string) V Sl) as S1.
    destruct (bind_leg id (s, ws) (y, "yes"%string)) as [s1 ws1]. simpl in *.
    destruct (bind_leg_venues id s1 ws1 (n, "no"%string) ev) as [V2 _]; try done; [by right|].
    split; [done|]. by apply bind_leg_slugs.
  - intros w t HM. destruct (bind_leg_venues id s (Some w) (y, "yes"%string) ev) as [V1 Hev1]; try done; [by left|].
    destruct (bind_leg_mirrors id s w (y, "yes"%string) t V HM) as (w1 & E1 & M1).
    destruct (bind_leg id (s, Some w) (y, "yes"%string)) as [s1 ws1]. simpl in *. subst ws1. by apply bind_leg_mirrors.
Qed.

Lemma venues_other s s' : m_markets s' = m_markets s -> m_spot s' = m_spot s -> venues_ok s -> venues_ok s'.
Proof. intros E1 E2 [V1 V2 V3 V4]. split; rewrite E1, ?E2; done. Qed.

(** The market an upsert writes, and the catalogue it writes it to. *)
Definition merged (s : Markets) (m : Market) : Market :=
  match m_markets s !! MarketOps.id m with Some e => merge_existing e m | None => m end.

Lemma merged_props s m :
  (forall e, m_markets s !! MarketOps.id m = Some e -> MarketOps.category e = MarketOps.category m) ->
  MarketOps.id (merged s m) = MarketOps.id m /\ MarketOps.category (merged s m) = MarketOps.category m /\
  MarketOps.market_address (merged s m) = MarketOps.market_address m /\
  (MarketOps.slug (merged s m) = MarketOps.slug m \/
   exists e, m_markets s !! MarketOps.id m = Some e /\ MarketOps.slug (merged s m) = MarketOps.slug e) /\
  (MarketOps.slug (merged s m) = ""%string -> forall e, m_markets s !! MarketOps.id m = Some e -> MarketOps.slug e = ""%string).
Proof.
  intros Hc. unfold merged. destruct (m_markets s !! MarketOps.id m) as [e|]; [|split_and!; try done; by left].
  destruct (merge_existing_props e m (Hc e eq_refl)) as (-> & -> & -> & ->). split_and!; try done.
  - case_decide; [right; by exists e|by left].
  - intros H e' [= <-]. by case_decide.
Qed.

Definition upsert_target (s : Markets) (m : Market) : Market :=
  set_venues (normalize_spot_market_key (MarketOps.yes_spot_market (merged s m)))
             (normalize_spot_market_key (MarketOps.no_spot_market (merged s m))) (merged s m).

Definition upsert_slugged (s : Markets) (m : Market) : Markets :=
  if decide (MarketOps.slug (merged s m) = ""%string) then s
  else with_slugs (<[MarketOps.slug (merged s m) := MarketOps.id (merged s m)]>)
         (remove_slug_mappings_for_market s (MarketOps.id (merged s m))).

Definition upsert_stored (s : Markets) (m : Market) : Markets :=
  with_market_map (<[MarketOps.id (upsert_target s m) := upsert_target s m]>) (upsert_slugged s m).

(** The venue of a spot or perpetual market. *)
Definition upsert_venue (s : Markets) (m : Market) : string := normalize_spot_market_key (MarketOps.market_address m).

Lemma target_props s m :
  market_op_ok s (MUpsert m) ->
  MarketOps.id (upsert_target s m) = MarketOps.id m /\ MarketOps.category (upsert_target s m) = MarketOps.category m /\
  MarketOps.slug (upsert_target s m) = MarketOps.slug (merged s m) /\
  (MarketOps.category m <> CEvent ->
    normalize_spot_market_key (MarketOps.yes_spot_market (merged s m)) = upsert_venue s m /\
    MarketOps.market_address (upsert_target s m) = upsert_venue s m).
Proof.
  intros (Hcat & _). destruct (merged_props s m Hcat) as (Eid & Ecat & Eadr & _). unfold upsert_target.
  destruct (set_venues_props (normalize_spot_market_key (MarketOps.yes_spot_market (merged s m)))
             (normalize_spot_market_key (MarketOps.no_spot_market (merged s m))) (merged s m)) as (-> & -> & -> & Fadr).
  split_and!; try done. intros Hc. rewrite Fadr by (by rewrite Ecat). rewrite spot_yes_venue by (by rewrite Ecat).
  unfold upsert_venue. by rewrite Eadr.
Qed.

Lemma upsert_stored_venues s m : markets_inv s -> market_op_ok s (MUpsert m) -> venues_ok (upsert_stored s m).
Proof.
  intros [V _] Hok. destruct (target_props s m Hok) as (Fid & Fcat & _ & Fadr). destruct Hok as (Hcat & Hsp & _).
  assert (m_markets (upsert_slugged s m) = m_markets s) as E by (unfold upsert_slugged; by case_decide).
  apply venues_insert.
  - apply (venues_other s); [done|unfold upsert_slugged; by case_decide|done].
  - apply set_venues_normal.
  - by rewrite E, Fid, Fcat.
  - rewrite Fcat, Fid. intros Hc. destruct Fadr as [_ ->]; [congruence|]. by apply Hsp.
Qed.

Lemma upsert_stored_slugs s m : markets_inv s -> market_op_ok s (MUpsert m) -> slugs_ok (upsert_stored s m).
Proof.
  intros [_ Sl] Hok. destruct (target_props s m Hok) as (Fid & _ & Fsl & _). destruct Hok as (Hcat & _ & Hfr).
  destruct (merged_props s m Hcat) as (Eid & _ & _ & Esl & Eempty).
  unfold upsert_stored, upsert_slugged. destruct (decide (MarketOps.slug (merged s m) = ""%string)) as [E|E].
  - apply (slugs_same s); [done| |done]. intros i sl Hsl. simpl. rewrite Fid. destruct (decide (i = MarketOps.id m)) as [->|Hi].
    + rewrite lookup_insert_eq. split; [intros (x & [= <-] & Ex); congruence|].
      intros (e & He & Ex). exfalso. apply Hsl. rewrite <- Ex. by apply Eempty.
    + by rewrite lookup_insert_ne by congruence.
  - rewrite Eid, <- Fid, <- Fsl. rewrite <- Fsl in E, Esl. apply slugs_insert; [done|done|]. intros i Hi. rewrite Fid.
    destruct Esl as [Esl|(e & He & Esl)]; rewrite Esl in Hi, E; [by apply Hfr|].
    assert (m_slug s !! MarketOps.slug e = Some (MarketOps.id m)) as H1 by (apply Sl; split; [done|by exists e]). congruence.
Qed.

Lemma upsert_stored_mirrors s m t :
  mirrors_markets t s -> mirrors_markets (<[uuid_to_string (MarketOps.id (upsert_target s m)) := upsert_target s m]> t) (upsert_stored s m).
Proof.
  intros HM. apply mirrors_insert. apply (mirrors_other t s); [|done]. unfold upsert_slugged. by case_decide.
Qed.

Lemma upsert_spot_good s m o :
  markets_inv s -> market_op_ok s (MUpsert m) -> MarketOps.category m <> CEvent -> outcome_ok (MarketOps.category m) o ->
  good_step s (fun ws => (with_spots (<[upsert_venue s m := {| sr_market_id := MarketOps.id (upsert_target s m); sr_outcome := o |}]>)
                            (upsert_stored s m), (fun w => store_market w (upsert_target s m)) <$> ws)).
Proof.
  intros HI Hok Hc Ho. pose proof (upsert_stored_venues s m HI Hok) as V. pose proof (upsert_stored_slugs s m HI Hok) as Sl.
  destruct (target_props s m Hok) as (Fid & Fcat & _ & Fadr). split.
  - intros ws. split; [|apply Sl]. simpl. apply venues_spot; [done|]. split; [apply normalize_idemp|].
    exists (upsert_target s m). simpl. rewrite lookup_insert_eq, Fcat. split_and!; try done. intros _. by apply Fadr.
  - intros w t HM. eexists. split; [done|]. simpl. rewrite delta_store_apply. by apply upsert_stored_mirrors.
Qed.

Lemma upsert_good s m : markets_inv s -> market_op_ok s (MUpsert m) -> good_step s (upsert_market s m).
Proof.
  intros HI Hok. destruct (target_props s m Hok) as (Fid & Fcat & _ & Fadr). unfold upsert_market.
  fold (merged s m). fold (upsert_slugged s m). fold (upsert_target s m). fold (upsert_stored s m). rewrite Fcat.
  destruct (MarketOps.category m) eqn:Ec.
  - destruct Fadr as [-> _]; [done|]. apply upsert_spot_good; by rewrite ?Ec.
  - destruct (bind_legs_good (upsert_stored s m) (MarketOps.id (upsert_target s m)) (upsert_target s m)
      (normalize_spot_market_key (MarketOps.yes_spot_market (merged s m)))
      (normalize_spot_market_key (MarketOps.no_spot_market (merged s m)))) as [G1 G2].
    + split; [by apply upsert_stored_venues|by apply upsert_stored_slugs].
    + apply lookup_insert_eq.
    + done.
    + apply normalize_idemp.
    + apply normalize_idemp.
    + split; [intros ws; apply G1|]. intros w t HM. apply (G2 (store_market w (upsert_target s m)) t).
      simpl. rewrite delta_store_apply. by apply upsert_stored_mirrors.
  - destruct Fadr as [-> _]; [done|]. apply upsert_spot_good; by rewrite ?Ec.
Qed.

(** ** Resolution, registration, prices *)

Lemma state_put_inv s i x v :
  markets_inv s -> m_markets s !! i = Some x ->
  MarketOps.id (MarketOps.state_mut x v) = i /\ markets_inv (with_market_map (<[i := MarketOps.state_mut x v]>) s).
Proof.
  intros [V Sl] Hx. destruct (state_mut_props x v) as (Ei & Ec & Es & Ea). pose proof (vo_id s V _ _ Hx) as Hid.
  assert (MarketOps.id (MarketOps.state_mut x v) = i) as E by congruence. split; [done|]. split.
  - rewrite <- E. apply venues_insert; [done|by eapply state_mut_normal, V| |].
    + rewrite E. intros e He. congruence.
    + rewrite E, Ec, Ea. by apply V.
  - apply (slugs_same s); [done| |done]. intros j sl _. simpl. destruct (decide (j = i)) as [->|Hj].
    + rewrite lookup_insert_eq. split.
      * intros (y & [= <-] & Ey). exists x. split; [done|congruence].
      * intros (y & Hy & Ey). exists (MarketOps.state_mut x v). split; [done|congruence].
    + by rewrite lookup_insert_ne.
Qed.

Lemma state_fold_good a v l s ws :
  NoDup l.*1 -> markets_inv s -> (forall p, p ∈ l -> m_markets s !! p.1 = Some p.2) ->
  let st := foldl (state_put a v) (s, ws) l in
  markets_inv st.1 /\
  forall w t, ws = Some w -> mirrors_markets (delta_apply (ws_markets w) t) s ->
    exists w', st.2 = Some w' /\ mirrors_markets (delta_apply (ws_markets w') t) st.1.
Proof.
  revert s ws. induction l as [|[i x] l IH]; intros s ws Hnd HI Hl; cbn [foldl].
  { split; [done|]. intros w t -> HM. by exists w. }
  csimpl in Hnd. apply NoDup_cons in Hnd as [Hin Hnd]. unfold state_put at 2 4 6. simpl. case_decide as Ha.
  - assert (m_markets s !! i = Some x) as Hx by (apply (Hl (i, x)); set_solver).
    destruct (state_put_inv s i x v HI Hx) as [Ei HI']. set (x' := MarketOps.state_mut x v) in *.
    destruct (IH (with_market_map (<[i := x']>) s) ((fun w => store_market w x') <$> ws) Hnd HI') as [G1 G2].
    { intros p Hp. simpl. rewrite lookup_insert_ne; [apply Hl; set_solver|]. intros ->. apply Hin. by apply list_elem_of_fmap_2. }
    split; [exact G1|]. intros w t -> HM. apply (G2 (store_market w x') t); [done|].
    simpl. rewrite delta_store_apply. rewrite Ei. rewrite <- Ei at 2. rewrite <- Ei. by apply mirrors_insert.
  - apply IH; [done|done|]. intros p Hp. apply Hl. set_solver.
Qed.

Lemma state_good s a v : markets_inv s -> good_step s (update_market_state s a v).
Proof.
  intros HI. assert (forall p, p ∈ map_to_list (m_markets s) -> m_markets s !! p.1 = Some p.2) as Hl.
  { intros [i x]. apply elem_of_map_to_list. }
  pose proof (NoDup_fst_map_to_list (m_markets s)) as Hnd. split.
  - intros ws. by apply (state_fold_good a v _ s ws).
  - intros w t HM. by eapply (proj2 (state_fold_good a v _ s (Some w) Hnd HI Hl)).
Qed.

(** Registering a shell: the market first, then the venue, gives the same. *)
Lemma shell_inv s spot n d :
  markets_inv s -> normalize_spot_market_key spot = spot -> m_markets s !! market_uuid spot = None ->
  let shell := Spot (market_uuid spot) n None spot "Active" d "" "" in
  markets_inv (with_market_map (<[market_uuid spot := shell]>) s).
Proof.
  intros [V Sl] Hk Hn shell. split.
  - apply (venues_insert s shell V); [unfold normal_venues; simpl; by rewrite Hk| |done]. intros e He. simpl in He. congruence.
  - apply (slugs_same s); [done| |done]. intros i sl Hsl. simpl. destruct (decide (i = market_uuid spot)) as [->|Hi].
    + rewrite lookup_insert_eq, Hn. split; intros (x & [= <-] & E). by destruct Hsl.
    + by rewrite lookup_insert_ne.
Qed.

Lemma shell_ref_inv s spot x :
  markets_inv s -> normalize_spot_market_key spot = spot -> m_markets s !! market_uuid spot = Some x ->
  MarketOps.category x = CSpot ->
  markets_inv (with_spots (<[spot := {| sr_market_id := market_uuid spot; sr_outcome := "spot" |}]>) s).
Proof.
  intros [V Sl] Hn Hx Hc. split; [|exact Sl]. apply venues_spot; [done|]. split; [done|]. exists x. simpl.
  split; [done|]. rewrite Hc. split; [done|]. intros _. apply market_uuid_inj. symmetry. by apply (vo_spot s V).
Qed.

Lemma with_market_spots f g s : with_market_map f (with_spots g s) = with_spots g (with_market_map f s).
Proof. done. Qed.

Lemma register_inv s n sp d :
  markets_inv s -> spot_key_free s sp -> markets_inv (register_named_spot_market s n sp d).
Proof.
  intros HI Hfree. unfold register_named_spot_market. case_decide as H0; [done|]. unfold spot_key_free in Hfree.
  assert (normalize_spot_market_key (normalize_spot_market_key sp) = normalize_spot_market_key sp) as Hn by apply normalize_idemp.
  set (spot := normalize_spot_market_key sp) in *. set (s1 := with_names _ s).
  assert (markets_inv s1) as HI1 by (destruct HI; split; [by apply (venues_other s)|done]).
  assert (m_markets s1 = m_markets s) as Em by done.
  destruct (leg_of_other s1 spot); [done|].
  destruct (m_spot s1 !! spot) as [r|] eqn:Er; simpl.
  - destruct (m_markets s !! market_uuid spot) as [x|] eqn:Ex; [done|]. by apply shell_inv.
  - destruct (m_markets s !! market_uuid spot) as [x|] eqn:Ex; [by apply (shell_ref_inv s1 spot x); auto|].
    rewrite with_market_spots. eapply (shell_ref_inv (with_market_map (<[market_uuid spot := Spot (market_uuid spot) (trim n) None spot "Active" (trim d) "" ""]>) s1) spot);
      [by apply shell_inv|done|apply lookup_insert_eq|done].
Qed.

(** Registration only adds a spot shell where nothing was. *)
Lemma register_markets s n sp d :
  m_markets (register_named_spot_market s n sp d) = m_markets s \/
  exists x, MarketOps.category x = CSpot /\ MarketOps.id x = market_uuid (normalize_spot_market_key sp) /\
    m_markets s !! MarketOps.id x = None /\ m_markets (register_named_spot_market s n sp d) = <[MarketOps.id x := x]> (m_markets s).
Proof.
  unfold register_named_spot_market. case_decide; [by left|]. set (spot := normalize_spot_market_key sp). set (s1 := with_names _ s).
  destruct (leg_of_other s1 spot); [by left|].
  destruct (m_spot s1 !! spot); simpl; (destruct (m_markets s !! market_uuid spot) eqn:E; [by left|]); right;
    exists (Spot (market_uuid spot) (trim n) None spot "Active" (trim d) "" ""); done.
Qed.

Lemma register_good s n sp d :
  markets_inv s -> spot_key_free s sp -> good_step s (fun ws => (register_named_spot_market s n sp d, ws)).
Proof.
  intros HI Hf. split; [intros ws; by apply register_inv|]. intros w t [M1 M2]. exists w. split; [done|]. simpl.
  destruct (register_markets s n sp d) as [E|(x & Hc & _ & Hx & E)]; [by apply (mirrors_other _ s)|].
  split; intros i y; rewrite E.
  - intros H%M1. rewrite lookup_insert_ne; [done|]. congruence.
  - intros [[<- <-]|[_ H]]%lookup_insert_Some; [done|by apply M2].
Qed.

Lemma ensure_good s sp :
  markets_inv s -> spot_key_free s sp -> good_step s (fun ws => ((ensure_standalone_spot_market s sp).1, ws)).
Proof.
  intros HI Hf. unfold ensure_standalone_spot_market.
  destruct (lookup_spot_market s (normalize_spot_market_key sp)) as [p|]; simpl.
  - split; [done|]. intros w t HM. by exists w.
  - apply register_good; [done|]. unfold spot_key_free. by rewrite normalize_idemp.
Qed.

Lemma price_good s sp p : markets_inv s -> good_step s (record_last_trade_price s sp p).
Proof.
  intros [V Sl]. split.
  - intros ws. split; [by apply (venues_other s)|done].
  - intros w t HM. eexists. split; [done|]. by apply (mirrors_other _ s).
Qed.

Lemma market_step_good s op :
  markets_inv s -> market_op_ok s op -> good_step s (fun ws => market_step (s, ws) op).
Proof.
  intros HI Hok. destruct op; simpl.
  - by apply upsert_good.
  - by apply state_good.
  - by apply register_good.
  - by apply ensure_good.
  - by apply price_good.
Qed.

Lemma markets_reach_inv s : markets_reach s -> markets_inv s.
Proof.
  induction 1 as [|s ws op _ IH Hok].
  - split; [split; intros *; simpl; by rewrite lookup_empty|]. intros sl i. simpl. rewrite !lookup_empty.
    split; [done|]. by intros (_ & x & ? & _).
  - by apply market_step_good.
Qed.

(** C22: the market indexes are consistent in every reachable state: the slug
    index holds exactly the slugs of the markets that have one, so no two share
    a slug, and every known venue leads to a market of the kind its outcome
    names, a spot venue to the market with that very address. *)
Theorem market_indexes_consistent s : markets_reach s -> venues_ok s /\ slugs_ok s.
Proof. apply markets_reach_inv. Qed.

(** The write set mirrors the market catalogue: every operation extends the
    block's write set so that the markets table it leaves holds only markets
    of the catalogue, as they are, and all of them except spot shells. *)
Theorem write_set_mirrors_markets s w op t :
  markets_reach s -> market_op_ok s op -> mirrors_markets (delta_apply (ws_markets w) t) s ->
  exists w', (market_step (s, Some w) op).2 = Some w' /\
    mirrors_markets (delta_apply (ws_markets w') t) (market_step (s, Some w) op).1.
Proof. intros HI%markets_reach_inv Hok. by apply (market_step_good s op HI Hok). Qed.

End Facts.

(** ** Witnesses *)

Definition demo_event : Market :=
  Event 900%N "will-it-rain" "Will it rain?" None "c900" "c1" "c2" "c3" " c7 " "c8" "Active" 1700000000 "a1".
Definition demo_markets : Markets := (market_step (SD := DemoSdk) (Markets_new, None) (MUpsert demo_event)).1.
Definition demo_market_ws : IndexWriteSet := default (ws_default 1 "d" false)
  (market_step (SD := DemoSdk) (Markets_new, Some (ws_default 1 "d" false)) (MUpsert demo_event)).2.

Lemma demo_event_ok : market_op_ok (SD := DemoSdk) Markets_new (MUpsert demo_event).
Proof. split_and!; simpl; intros *; rewrite ?lookup_empty; done. Qed.

Lemma demo_markets_reach : markets_reach (SD := DemoSdk) demo_markets.
Proof. apply mreach_op; [apply mreach_new|apply demo_event_ok]. Qed.

Lemma market_indexes_consistent_witness : venues_ok (SD := DemoSdk) demo_markets /\ slugs_ok demo_markets.
Proof. apply (market_indexes_consistent (SD := DemoSdk) demo_markets), demo_markets_reach. Defined.

Lemma write_set_mirrors_markets_witness :
  exists w', (market_step (SD := DemoSdk) (Markets_new, Some (ws_default 1 "d" false)) (MUpsert demo_event)).2 = Some w' /\
    mirrors_markets (SD := DemoSdk) (delta_apply (ws_markets w') ∅)
      (market_step (SD := DemoSdk) (Markets_new, Some (ws_default 1 "d" false)) (MUpsert demo_event)).1.
Proof.
  apply (write_set_mirrors_markets (SD := DemoSdk) Markets_new (ws_default 1 "d" false) (MUpsert demo_event) ∅).
  - apply mreach_new.
  - apply demo_event_ok.
  - simpl. rewrite delta_empty_apply. split; intros i m; simpl; by rewrite lookup_empty.
Defined.
