(* ===== verification/MarketsClient.v ===== *)
(** * MarketsClient: what callers of the market catalogue rely on

    Paged queries, the validation of HTTP query parameters, and the on-demand
    registration of a standalone spot market. *)
From S2P Require Import Prelude Text Errors Sdk Keys Slug Domain WriteSet Markets MarketsFacts.

Local Open Scope list_scope.
Local Open Scope Z_scope.

(** ** Paged queries *)

Definition with_page (q : MarketQuery) (offset limit : Z) : MarketQuery :=
  {| mq_limit := limit; mq_offset := offset; mq_slug := mq_slug q; mq_slugs := mq_slugs q;
     mq_market_ids := mq_market_ids q; mq_market_addresses := mq_market_addresses q; mq_state := mq_state q;
     mq_category := mq_category q; mq_deployer := mq_deployer q; mq_order := mq_order q; mq_ascending := mq_ascending q |}.

Lemma market_cmp_ordering order : ordering (market_cmp order).
Proof.
  destruct order; simpl.
  - apply (ordering_on MarketOps.resolution_deadline), ordering_Z.
  - apply ordering_then; [apply (ordering_on MarketOps.slug)|apply (ordering_on MarketOps.name)]; apply ordering_string.
  - apply (ordering_on MarketOps.label), ordering_string.
Qed.

Lemma market_sort_ordering q : ordering (market_sort_cmp q).
Proof.
  unfold market_sort_cmp. destruct (mq_ascending q); [apply market_cmp_ordering|].
  apply ordering_flip, market_cmp_ordering.
Qed.

Lemma page_app {A} (l : list A) (off n k : nat) :
  page (Z.of_nat off) (Z.of_nat n) l ++ page (Z.of_nat (off + n)) (Z.of_nat k) l = page (Z.of_nat off) (Z.of_nat (n + k)) l.
Proof. unfold page. rewrite !Nat2Z.id, <- drop_drop. apply take_take_drop. Qed.

(** A market query is a window on one list: all pages of a query are
    consecutive slices of the same list, which is sorted as asked and holds
    each matching market once, and the reported total is its length. *)
Theorem query_markets_pages s q :
  exists l,
    (forall offset limit, query_markets s (with_page q offset limit) = (page offset limit l, length l)) /\
    StronglySorted (le_of (market_sort_cmp q)) l /\
    l ≡ₚ filter (fun m => market_matches q m = true) (map_to_list (m_markets s)).*2 /\
    forall off n k : nat, page (Z.of_nat off) (Z.of_nat n) l ++ page (Z.of_nat (off + n)) (Z.of_nat k) l
                          = page (Z.of_nat off) (Z.of_nat (n + k)) l.
Proof.
  exists (merge_sort (le_of (market_sort_cmp q)) (filter (fun m => market_matches q m = true) (map_to_list (m_markets s)).*2)).
  split; [done|]. split; [|split].
  - apply StronglySorted_merge_sort; [apply le_of_trans|apply le_of_total]; apply market_sort_ordering.
  - apply merge_sort_Permutation.
  - intros. apply page_app.
Qed.

(** ** Validation of the query parameters *)

Lemma parse_csv_clean v item : item ∈ parse_csv v -> item <> ""%string /\ trim item = item.
Proof.
  unfold parse_csv. destruct v as [items|]; [|set_solver].
  intros [H1 (l & -> & _)%list_elem_of_fmap]%list_elem_of_filter. split; [done|]. apply trim_idemp.
Qed.

Lemma trimmed_filter_clean v x : trimmed_filter v = Some x -> x <> ""%string /\ trim x = x.
Proof.
  unfold trimmed_filter. destruct v as [w|]; simpl; [|done]. case_decide; [done|]. intros [= <-]. split; [done|]. apply trim_idemp.
Qed.

Section Build.
Context {SD : Sdk}.

Lemma parse_uuid_csv_spec v :
  match parse_uuid_csv v with
  | Ok ids => mapM uuid_parse (parse_csv v) = Some ids /\ (length ids <= MAX_MARKETS_ID_BATCH)%nat
  | Err e => exists msg, e = BadRequest msg
  end.
Proof.
  unfold parse_uuid_csv. case_decide as Hl; [by eexists|].
  assert (forall l, match foldr (fun item rest => match parse_uuid item with
                               | Ok u => us ← rest; mret (u :: us) | Err e => Err e end) (Ok []) l with
          | Ok ids => mapM uuid_parse l = Some ids | Err e => exists msg, e = BadRequest msg end) as H.
  { induction l as [|item l IH]; [done|]. simpl. unfold parse_uuid.
    destruct (uuid_parse item) as [u|]; [|by eexists]. destruct (foldr _ _ l) as [us|e]; [|done]. simpl in *. by rewrite IH. }
  specialize (H (parse_csv v)). destruct (foldr _ _ _) as [ids|e]; [|done]. split; [done|].
  apply length_mapM in H. lia.
Qed.

(** Query parameters are validated: an accepted market query has a limit
    between 1 and 100, at most a hundred slugs, ids and addresses, every text
    filter trimmed and non-empty, and ids parsed item by item; everything else
    is answered with status 400. *)
Theorem build_market_query_validates p :
  match build_market_query p with
  | Ok q =>
      1 <= mq_limit q <= MAX_MARKETS_PAGE_LIMIT /\
      (length (mq_slugs q) <= MAX_MARKETS_SLUG_BATCH)%nat /\ (length (mq_market_ids q) <= MAX_MARKETS_ID_BATCH)%nat /\
      (length (mq_market_addresses q) <= MAX_MARKETS_ID_BATCH)%nat /\
      mapM uuid_parse (parse_csv (qp_market_ids p)) = Some (mq_market_ids q) /\
      (forall x, x ∈ mq_slugs q \/ x ∈ mq_market_addresses q \/ mq_slug q = Some x \/ mq_state q = Some x \/ mq_deployer q = Some x ->
        x <> ""%string /\ trim x = x)
  | Err e => (into_response e).1 = 400
  end.
Proof.
  unfold build_market_query. case_decide as H1; [done|]. case_decide as H2; [done|].
  unfold parse_category. destruct (qp_category p) as [raw|]; [destruct (MarketCategoryOps.parse raw); [|done]|]; simpl;
    pose proof (parse_uuid_csv_spec (qp_market_ids p)) as HU;
    (destruct (parse_uuid_csv (qp_market_ids p)) as [ids|e]; simpl; [|by destruct HU as [msg ->]]); destruct HU as [HU HL];
    (split_and!; [unfold clamp, MAX_MARKETS_PAGE_LIMIT; lia|unfold clamp, MAX_MARKETS_PAGE_LIMIT; lia|lia|done|lia|done|]);
    intros x [Hx|[Hx|[Hx|[Hx|Hx]]]]; eauto using parse_csv_clean, trimmed_filter_clean.
Qed.

End Build.

(** ** Standalone spot markets *)

Section Ensure.
Context {SD : Sdk} {L : SdkLaws}.

(** Names are stored upper-cased, trimmed and non-empty. *)
Definition names_ok (s : Markets) : Prop :=
  forall n k, m_by_name s !! n = Some k -> n <> ""%string /\ trim n = n.

Lemma upsert_names s m ws : m_by_name (upsert_market s m ws).1 = m_by_name s.
Proof.
  assert (forall id s ws leg, m_by_name (bind_leg id (s, ws) leg).1 = m_by_name s) as HB.
  { intros. unfold bind_leg, remove_orphan_spot_shell. simpl. destruct (m_markets s0 !! _); [case_decide|]; done. }
  unfold upsert_market. set (s1 := if decide _ then s else _).
  assert (m_by_name s1 = m_by_name s) as E by (unfold s1; by case_decide).
  destruct (MarketOps.category _); [done| |done]. unfold bind_event_spot_legs. cbn [foldl].
  rewrite (surjective_pairing (bind_leg _ (with_market_map _ s1, _) _)), HB, HB. done.
Qed.

Lemma state_names s a v ws : m_by_name (update_market_state s a v ws).1 = m_by_name s.
Proof.
  unfold update_market_state. generalize (map_to_list (m_markets s)). intros l. revert s ws.
  induction l as [|p l IH]; intros s ws; [done|]. cbn [foldl]. rewrite (surjective_pairing (state_put a v (s, ws) p)), IH.
  unfold state_put. by case_decide.
Qed.

Lemma normalize_trimmed sp : trim (normalize_spot_market_key sp) = normalize_spot_market_key sp.
Proof.
  unfold normalize_spot_market_key. destruct (parse_token_contract _); [apply contract_to_string_trimmed|].
  destruct (address_from_str _); [apply contract_to_string_trimmed|apply trim_idemp].
Qed.

Lemma register_names s n sp d :
  names_ok s -> names_ok (register_named_spot_market s n sp d).
Proof.
  intros HN. unfold register_named_spot_market. case_decide as H0; [done|]. set (s1 := with_names _ s).
  assert (names_ok s1) as H1.
  { intros k v. simpl. intros [[<- <-]|[_ H]]%lookup_insert_Some; [|by apply (HN k v)].
    split; [tauto|apply trim_upper]. }
  destruct (leg_of_other s1 _); [done|]. destruct (m_spot s1 !! _); simpl; by destruct (m_markets s !! _).
Qed.

Lemma market_step_names s ws op : names_ok s -> names_ok (market_step (s, ws) op).1.
Proof.
  intros HN. destruct op; simpl.
  - unfold names_ok. by rewrite upsert_names.
  - unfold names_ok. by rewrite state_names.
  - by apply register_names.
  - unfold ensure_standalone_spot_market. destruct (lookup_spot_market s _); [done|]. by apply register_names.
  - done.
Qed.

Lemma markets_reach_names s : markets_reach s -> names_ok s.
Proof. induction 1; [|by apply market_step_names]. intros n k. simpl. by rewrite lookup_empty. Qed.

(** Registration under a usable name makes an unknown venue known. *)
Lemma register_unknown s n sp d :
  m_spot s !! normalize_spot_market_key sp = None -> normalize_spot_market_key sp <> ""%string ->
  to_ascii_uppercase (trim n) <> ""%string ->
  m_spot (register_named_spot_market s n sp d) =
    <[normalize_spot_market_key sp := {| sr_market_id := market_uuid (normalize_spot_market_key sp); sr_outcome := "spot" |}]> (m_spot s).
Proof.
  intros Hn Hs Hu. unfold register_named_spot_market. rewrite decide_False by tauto. unfold leg_of_other. simpl. rewrite Hn.
  simpl. by destruct (m_markets s !! _).
Qed.

(** The name the venue is registered under is usable. *)
Lemma ensure_name_ok s spot :
  names_ok s -> spot <> ""%string -> trim spot = spot ->
  to_ascii_uppercase (trim (default spot (fst <$> head (filter (fun p => p.2 = spot) (map_to_list (m_by_name s)))))) <> ""%string.
Proof.
  intros HN Hs Ht. destruct (filter _ _) as [|[n k] l] eqn:E; simpl.
  - rewrite Ht. by intros ?%to_ascii_uppercase_empty.
  - assert ((n, k) ∈ filter (fun p => p.2 = spot) (map_to_list (m_by_name s))) as [_ Hin%elem_of_map_to_list]%list_elem_of_filter
      by (rewrite E; set_solver).
    destruct (HN _ _ Hin) as [H1 ->]. by intros ?%to_ascii_uppercase_empty.
Qed.

Lemma lookup_normalized s sp : lookup_spot_market s (normalize_spot_market_key sp) = lookup_spot_market s sp.
Proof. unfold lookup_spot_market. by rewrite normalize_idemp. Qed.

Lemma ensure_known s sp p : lookup_spot_market s sp = Some p -> ensure_standalone_spot_market s sp = (s, p).
Proof. intros E. unfold ensure_standalone_spot_market. by rewrite lookup_normalized, E. Qed.

Lemma ensure_unknown s sp :
  names_ok s -> normalize_spot_market_key sp <> ""%string -> lookup_spot_market s sp = None ->
  exists s', ensure_standalone_spot_market s sp = (s', (market_uuid (normalize_spot_market_key sp), "spot"%string)) /\
    m_spot s' = <[normalize_spot_market_key sp :=
                  {| sr_market_id := market_uuid (normalize_spot_market_key sp); sr_outcome := "spot" |}]> (m_spot s).
Proof.
  intros HN Hne E. unfold ensure_standalone_spot_market. rewrite lookup_normalized, E.
  pose proof (ensure_name_ok s (normalize_spot_market_key sp) HN Hne (normalize_trimmed sp)) as Hu.
  set (name := default (normalize_spot_market_key sp) _) in *.
  assert (m_spot s !! normalize_spot_market_key sp = None) as En.
  { unfold lookup_spot_market in E. by destruct (m_spot s !! _). }
  pose proof (register_unknown s name (normalize_spot_market_key sp) "") as HR. rewrite normalize_idemp in HR.
  specialize (HR En Hne Hu). eexists. split; [|exact HR].
  f_equal. rewrite lookup_normalized. unfold lookup_spot_market. by rewrite HR, lookup_insert_eq.
Qed.

(** After ensuring a standalone spot market, the venue is known under the
    returned market and outcome, asking again changes nothing, and every venue
    known before still leads where it did. *)
Theorem ensure_standalone_registers s sp :
  markets_reach s -> normalize_spot_market_key sp <> ""%string ->
  let '(s', p) := ensure_standalone_spot_market s sp in
  lookup_spot_market s' sp = Some p /\ ensure_standalone_spot_market s' sp = (s', p) /\
  (forall k q, lookup_spot_market s k = Some q -> lookup_spot_market s' k = Some q).
Proof.
  intros HN%markets_reach_names Hne. destruct (lookup_spot_market s sp) as [p|] eqn:E.
  - rewrite (ensure_known s sp p E). split; [done|]. split; [by apply ensure_known|done].
  - destruct (ensure_unknown s sp HN Hne E) as (s' & -> & Hs). set (p := (market_uuid _, _)) in *.
    assert (lookup_spot_market s' sp = Some p) as Hp by (unfold lookup_spot_market; by rewrite Hs, lookup_insert_eq).
    split; [done|]. split; [by apply ensure_known|]. intros k q. unfold lookup_spot_market. rewrite Hs.
    destruct (decide (normalize_spot_market_key k = normalize_spot_market_key sp)) as [Hk|Hk].
    + unfold lookup_spot_market in E. rewrite Hk. by destruct (m_spot s !! _).
    + by rewrite lookup_insert_ne.
Qed.

End Ensure.

Lemma ensure_standalone_registers_witness :
  lookup_spot_market (S := DemoSdk) (ensure_standalone_spot_market (S := DemoSdk) demo_markets "c55").1 "c55" =
    Some (ensure_standalone_spot_market (S := DemoSdk) demo_markets "c55").2.
Proof.
  pose proof (ensure_standalone_registers (SD := DemoSdk) demo_markets "c55" demo_markets_reach ltac:(by vm_compute)) as H.
  destruct (ensure_standalone_spot_market (S := DemoSdk) demo_markets "c55") as [s' p]. by destruct H.
Defined.
