(* ===== verification/Vaults.v ===== *)
(** * Vaults: the vault registry and portfolios of [indexer/index_state.rs]

    Vaults by uuid, their address and trading-account indexes, and the holdings
    per vault and market that fills update. *)
From S2P Require Import Prelude Text Sdk Keys Domain WriteSet Tables Books Markets.

Local Open Scope list_scope.
Local Open Scope Z_scope.

(** The vault part of [IndexState]. *)
Record Vaults := {
  v_vaults : gmap Uuid Vault;
  v_by_address : gmap string Uuid;
  v_by_account : gmap string Uuid;
  v_portfolio : gmap Uuid (gmap string Z)
}.

Definition Vaults_new : Vaults := {| v_vaults := ∅; v_by_address := ∅; v_by_account := ∅; v_portfolio := ∅ |}.

Definition with_vault_map (f : gmap Uuid Vault -> gmap Uuid Vault) (s : Vaults) : Vaults :=
  {| v_vaults := f (v_vaults s); v_by_address := v_by_address s; v_by_account := v_by_account s; v_portfolio := v_portfolio s |}.
Definition with_holdings (f : gmap Uuid (gmap string Z) -> gmap Uuid (gmap string Z)) (s : Vaults) : Vaults :=
  {| v_vaults := v_vaults s; v_by_address := v_by_address s; v_by_account := v_by_account s; v_portfolio := f (v_portfolio s) |}.

Definition set_equity (equity : string) (v : Vault) : Vault :=
  {| vlt_id := vlt_id v; vlt_name := vlt_name v; vlt_vault_address := vlt_vault_address v;
     vlt_vault_account := vlt_vault_account v; vlt_manager := vlt_manager v; vlt_quote_token := vlt_quote_token v;
     vlt_share_token := vlt_share_token v; vlt_equity := equity; vlt_user_deposit := vlt_user_deposit v;
     vlt_portfolio := vlt_portfolio v; vlt_allow_deposit := vlt_allow_deposit v; vlt_is_closed := vlt_is_closed v |}.
Definition set_allow_deposit (allow : bool) (v : Vault) : Vault :=
  {| vlt_id := vlt_id v; vlt_name := vlt_name v; vlt_vault_address := vlt_vault_address v;
     vlt_vault_account := vlt_vault_account v; vlt_manager := vlt_manager v; vlt_quote_token := vlt_quote_token v;
     vlt_share_token := vlt_share_token v; vlt_equity := vlt_equity v; vlt_user_deposit := vlt_user_deposit v;
     vlt_portfolio := vlt_portfolio v; vlt_allow_deposit := allow; vlt_is_closed := vlt_is_closed v |}.
Definition set_manager (manager : string) (v : Vault) : Vault :=
  {| vlt_id := vlt_id v; vlt_name := vlt_name v; vlt_vault_address := vlt_vault_address v;
     vlt_vault_account := vlt_vault_account v; vlt_manager := manager; vlt_quote_token := vlt_quote_token v;
     vlt_share_token := vlt_share_token v; vlt_equity := vlt_equity v; vlt_user_deposit := vlt_user_deposit v;
     vlt_portfolio := vlt_portfolio v; vlt_allow_deposit := vlt_allow_deposit v; vlt_is_closed := vlt_is_closed v |}.
Definition set_closed (v : Vault) : Vault :=
  {| vlt_id := vlt_id v; vlt_name := vlt_name v; vlt_vault_address := vlt_vault_address v;
     vlt_vault_account := vlt_vault_account v; vlt_manager := vlt_manager v; vlt_quote_token := vlt_quote_token v;
     vlt_share_token := vlt_share_token v; vlt_equity := vlt_equity v; vlt_user_deposit := vlt_user_deposit v;
     vlt_portfolio := vlt_portfolio v; vlt_allow_deposit := false; vlt_is_closed := true |}.

Section Vaults.
Context {S : Sdk}.

Definition upsert_vault (s : Vaults) (vault : Vault) (ws : option IndexWriteSet) : Vaults * option IndexWriteSet :=
  ({| v_vaults := <[vlt_id vault := vault]> (v_vaults s);
      v_by_address := <[addr_key (vlt_vault_address vault) := vlt_id vault]> (v_by_address s);
      v_by_account := <[addr_key (vlt_vault_account vault) := vlt_id vault]> (v_by_account s);
      v_portfolio := <[vlt_id vault := default ∅ (v_portfolio s !! vlt_id vault)]> (v_portfolio s) |},
   (fun w => store_vault w vault) <$> ws).

(** The holding a fill leaves; selling more than is held clamps to zero. *)
Definition next_holding (current : Z) (side : OrderSide) (fill_amount : Z) : Z :=
  match side with
  | Buy => sat_add current fill_amount
  | Sell => if decide (current < fill_amount) then 0 else current - fill_amount
  end.

Definition apply_vault_fill_to_portfolio (s : Vaults) (user_address spot_market : string) (side : OrderSide)
    (fill_amount : Z) (ws : option IndexWriteSet) : Vaults * option IndexWriteSet :=
  if decide (fill_amount = 0) then (s, ws)
  else
    let market_key := normalize_spot_market_key spot_market in
    match v_by_account s !! user_key user_address with
    | None => (s, ws)
    | Some vault_id =>
        let holdings := default ∅ (v_portfolio s !! vault_id) in
        let next := next_holding (default 0 (holdings !! market_key)) side fill_amount in
        let holdings := if decide (next = 0) then delete market_key holdings else <[market_key := next]> holdings in
        (with_holdings (<[vault_id := holdings]>) s,
         (fun w => store_vault_portfolio w (uuid_to_string vault_id) market_key (as_i64 next)) <$> ws)
    end.

(** The four updates by address share their lookup and their write. *)
Definition update_vault (change : Vault -> Vault) (s : Vaults) (vault_address : string) (ws : option IndexWriteSet)
    : Vaults * option IndexWriteSet :=
  match id ← v_by_address s !! addr_key vault_address; v ← v_vaults s !! id; Some (id, v) with
  | None => (s, ws)
  | Some (id, v) => (with_vault_map (<[id := change v]>) s, (fun w => store_vault w (change v)) <$> ws)
  end.

Definition update_vault_equity (s : Vaults) (vault_address equity : string) := update_vault (set_equity equity) s vault_address.
Definition update_vault_allow_deposit (s : Vaults) (vault_address : string) (allow : bool) :=
  update_vault (set_allow_deposit allow) s vault_address.
Definition update_vault_manager (s : Vaults) (vault_address manager : string) := update_vault (set_manager manager) s vault_address.
Definition mark_vault_closed (s : Vaults) (vault_address : string) := update_vault set_closed s vault_address.

Definition get_vault (s : Vaults) (id : Uuid) : option Vault := v_vaults s !! id.
Definition get_vault_by_address (s : Vaults) (vault_address : string) : option Vault :=
  id ← v_by_address s !! addr_key vault_address; v_vaults s !! id.
Definition vault_count (s : Vaults) : nat := size (v_vaults s).

Definition vault_portfolio_holdings (s : Vaults) (vault_address : string) : list (string * Z) :=
  match v_by_address s !! addr_key vault_address with
  | None => []
  | Some vault_id =>
      match v_portfolio s !! vault_id with
      | None => []
      | Some holdings =>
          merge_sort (le_of (fun l r => String.compare l.1 r.1)) (filter (fun p => 0 < p.2) (map_to_list holdings))
      end
  end.

(** ** Queries, export and import *)

Definition vault_matches (q : VaultQuery) (v : Vault) : bool :=
  let lower x := to_ascii_lowercase (trim x) in
  match vq_manager q with Some m => bool_decide (lower (vlt_manager v) = lower m) | None => true end &&
  (bool_decide (vq_vault_addresses q = []) || bool_decide (lower (vlt_vault_address v) ∈ lower <$> vq_vault_addresses q)).

Definition vault_cmp (l r : Vault) : comparison := String.compare (vlt_vault_address l) (vlt_vault_address r).

Definition query_vaults (s : Vaults) (q : VaultQuery) : list Vault * nat :=
  let vaults := merge_sort (le_of vault_cmp) (filter (fun v => vault_matches q v = true) (map_to_list (v_vaults s)).*2) in
  (page (vq_offset q) (vq_limit q) vaults, length vaults).

Definition export_vaults_for_persist (s : Vaults) : list Vault := (map_to_list (v_vaults s)).*2.

Definition export_vault_portfolio_for_persist (s : Vaults) : list PersistVaultPortfolioRow :=
  map_to_list (v_portfolio s) ≫= (fun e =>
    (fun p => {| pvp_vault_id := uuid_to_string e.1; pvp_spot_market := p.1; pvp_amount_raw := p.2 |}) <$>
      filter (fun p => p.2 <> 0) (map_to_list e.2)).

Definition import_portfolio_row (s : Vaults) (row : PersistVaultPortfolioRow) : Vaults :=
  match uuid_parse (pvp_vault_id row) with
  | None => s
  | Some vault_id =>
      if decide (pvp_amount_raw row = 0) then s
      else with_holdings (fun m => <[vault_id := <[normalize_spot_market_key (pvp_spot_market row) := pvp_amount_raw row]>
                                                   (default ∅ (m !! vault_id))]> m) s
  end.

Definition import_vault_portfolio_for_persist (s : Vaults) (rows : list PersistVaultPortfolioRow) : Vaults :=
  foldl import_portfolio_row (with_holdings (fun _ => ∅) s) rows.

End Vaults.
