(* ===== verification/VaultsFacts.v ===== *)
(** * VaultsFacts: vault registry and portfolios

    What the operations do to vaults and holdings, the two tables their write
    sets build, and the recovery of the holdings from a table or an export. *)
From S2P Require Import Prelude Text Sdk Keys Domain WriteSet Tables Books Markets Vaults.

Local Open Scope list_scope.
Local Open Scope Z_scope.

Section Spec.
Context {SD : Sdk}.

Definition holding_at (s : Vaults) (id : Uuid) (market : string) : option Z := default ∅ (v_portfolio s !! id) !! market.

Inductive VaultOp :=
| VUpsert (vault : Vault)
| VFill (user spot : string) (side : OrderSide) (fill_amount : Z)
| VEquity (address equity : string)
| VAllow (address : string) (allow : bool)
| VManager (address manager : string)
| VClosed (address : string).

Definition vault_step (st : Vaults * option IndexWriteSet) (op : VaultOp) : Vaults * option IndexWriteSet :=
  let '(s, ws) := st in
  match op with
  | VUpsert v => upsert_vault s v ws
  | VFill u sp side a => apply_vault_fill_to_portfolio s u sp side a ws
  | VEquity a e => update_vault_equity s a e ws
  | VAllow a b => update_vault_allow_deposit s a b ws
  | VManager a m => update_vault_manager s a m ws
  | VClosed a => mark_vault_closed s a ws
  end.

Definition vault_op_u64 (op : VaultOp) : Prop := match op with VFill _ _ _ a => is_u64 a | _ => True end.

Inductive vaults_reach : Vaults -> Prop :=
| vreach_new : vaults_reach Vaults_new
| vreach_op s ws op : vaults_reach s -> vault_op_u64 op -> vaults_reach (vault_step (s, ws) op).1.

(** Vaults sit under their own id; holdings are positive and under market keys. *)
Record vaults_wf (s : Vaults) : Prop := {
  vw_id i v : v_vaults s !! i = Some v -> vlt_id v = i;
  vw_holding i k a : holding_at s i k = Some a -> normalize_spot_market_key k = k /\ 0 < a <= u64_max
}.

(** The vault whose trading account the user is, and the holding a fill leaves. *)
Definition fill_next (s : Vaults) (id : Uuid) (spot : string) (side : OrderSide) (a : Z) : Z :=
  next_holding (default 0 (holding_at s id (normalize_spot_market_key spot))) side a.

Definition vault_table (s : Vaults) : gmap string Vault := kmap uuid_to_string (clear_portfolio <$> v_vaults s).
Definition mirrors_portfolio (t : gmap (string * string) Z) (s : Vaults) : Prop :=
  forall id k, t !! (uuid_to_string id, k) = holding_at s id k ≫= persistable.

End Spec.

Lemma next_holding_u64 c side a : 0 <= c <= u64_max -> 0 <= a -> 0 <= next_holding c side a <= u64_max.
Proof. intros Hc Ha. unfold next_holding. destruct side; [mach|]. case_decide; lia. Qed.

Section Facts.
Context {SD : Sdk} {L : SdkLaws}.

Lemma holding_insert s id h i k :
  holding_at (with_holdings (<[id := h]>) s) i k = if decide (i = id) then h !! k else holding_at s i k.
Proof.
  unfold holding_at. simpl. case_decide as E; [subst; by rewrite lookup_insert_eq|by rewrite lookup_insert_ne].
Qed.

Lemma upsert_holding s v ws i k : holding_at (upsert_vault s v ws).1 i k = holding_at s i k.
Proof.
  unfold holding_at, upsert_vault. simpl. destruct (decide (i = vlt_id v)) as [->|E]; [by rewrite lookup_insert_eq|by rewrite lookup_insert_ne].
Qed.

(** A fill changes one holding of the vault whose account the user is. *)
Lemma fill_holding s u sp side a ws i k :
  holding_at (apply_vault_fill_to_portfolio s u sp side a ws).1 i k =
    if decide (a <> 0 /\ v_by_account s !! user_key u = Some i /\ k = normalize_spot_market_key sp)
    then (let next := fill_next s i sp side a in if decide (next = 0) then None else Some next)
    else holding_at s i k.
Proof.
  unfold apply_vault_fill_to_portfolio. case_decide as Ha; [by rewrite decide_False by tauto|].
  destruct (v_by_account s !! user_key u) as [id|]; [|by rewrite decide_False by naive_solver].
  set (key := normalize_spot_market_key sp). cbn [fst]. rewrite holding_insert.
  change (next_holding (default 0 (default ∅ (v_portfolio s !! id) !! key)) side a) with (fill_next s id sp side a).
  destruct (decide (i = id)) as [->|Hi]; [|by rewrite decide_False by naive_solver].
  destruct (decide (k = key)) as [->|Hk].
  - rewrite (decide_True (P := _ /\ _)) by done. cbn zeta. case_decide; [apply lookup_delete_eq|apply lookup_insert_eq].
  - rewrite (decide_False (P := _ /\ _)) by tauto. unfold holding_at.
    case_decide; [by rewrite lookup_delete_ne|by rewrite lookup_insert_ne].
Qed.

Lemma fill_vaults s u sp side a ws : v_vaults (apply_vault_fill_to_portfolio s u sp side a ws).1 = v_vaults s.
Proof. unfold apply_vault_fill_to_portfolio. case_decide; [done|]. by destruct (v_by_account s !! _). Qed.

(** An update by address, for a change that keeps the id. *)
Lemma update_vault_wf change s a ws :
  (forall v, vlt_id (change v) = vlt_id v) -> vaults_wf s -> vaults_wf (update_vault change s a ws).1.
Proof.
  intros Hc [W1 W2]. unfold update_vault. destruct (v_by_address s !! addr_key a) as [id|]; [|done]. simpl.
  destruct (v_vaults s !! id) as [v|] eqn:Ev; [|done]. split; [|done]. simpl.
  intros i x [[<- <-]|[_ H]]%lookup_insert_Some; [rewrite Hc|]; by apply W1.
Qed.

Lemma vault_step_wf s ws op : vaults_wf s -> vault_op_u64 op -> vaults_wf (vault_step (s, ws) op).1.
Proof.
  intros W Hu. destruct op as [v|u sp side a|a e|a b|a m|a]; try by apply update_vault_wf.
  - split.
    + intros i x. simpl. intros [[<- <-]|[_ H]]%lookup_insert_Some; [done|by apply W].
    + intros i k a. cbn [vault_step]. rewrite upsert_holding. apply W.
  - split; simpl.
    + intros i x. rewrite fill_vaults. apply W.
    + intros i k b. rewrite fill_holding. case_decide as H; [|apply W].
      destruct H as (_ & _ & ->). intros Hb. split; [apply normalize_idemp|].
      assert (0 <= fill_next s i sp side a <= u64_max).
      { apply next_holding_u64; [|apply Hu]. destruct (holding_at s i _) eqn:E; [apply W in E; simpl; lia|simpl; mach]. }
      simpl in Hb. case_decide; [done|]. injection Hb as <-. lia.
Qed.

Lemma vaults_reach_wf s : vaults_reach s -> vaults_wf s.
Proof.
  induction 1 as [|s ws op _ IH Hu]; [|by apply vault_step_wf].
  split; intros *; unfold holding_at; simpl; by rewrite lookup_empty.
Qed.

(** ** The tables *)

Lemma vault_table_insert s id v :
  vault_table (with_vault_map (<[id := v]>) s) = <[uuid_to_string id := clear_portfolio v]> (vault_table s).
Proof. unfold vault_table. simpl. rewrite fmap_insert. apply kmap_insert, uuid_to_string_inj. Qed.

Lemma update_vault_mirrors change s a w tv tp :
  (forall v, vlt_id (change v) = vlt_id v) -> vaults_wf s ->
  delta_apply (ws_vaults w) tv = vault_table s -> mirrors_portfolio (delta_apply (ws_vault_portfolio w) tp) s ->
  exists w', (update_vault change s a (Some w)).2 = Some w' /\
    delta_apply (ws_vaults w') tv = vault_table (update_vault change s a (Some w)).1 /\
    mirrors_portfolio (delta_apply (ws_vault_portfolio w') tp) (update_vault change s a (Some w)).1.
Proof.
  intros Hc W Hv Hp. unfold update_vault. destruct (v_by_address s !! addr_key a) as [id|]; [|by exists w]. simpl.
  destruct (v_vaults s !! id) as [v|] eqn:Ev; [|by exists w]. eexists. split; [done|]. split; [|done].
  simpl. rewrite delta_store_apply, vault_table_insert, Hv, Hc. by rewrite (vw_id s W _ _ Ev).
Qed.

Lemma fill_mirrors s u sp side a w tp :
  vaults_wf s -> mirrors_portfolio (delta_apply (ws_vault_portfolio w) tp) s ->
  exists w', (apply_vault_fill_to_portfolio s u sp side a (Some w)).2 = Some w' /\ ws_vaults w' = ws_vaults w /\
    mirrors_portfolio (delta_apply (ws_vault_portfolio w') tp) (apply_vault_fill_to_portfolio s u sp side a (Some w)).1.
Proof.
  intros W Hp. unfold mirrors_portfolio. setoid_rewrite fill_holding. unfold apply_vault_fill_to_portfolio.
  destruct (decide (a = 0)) as [Ha|Ha].
  { exists w. split_and!; try done. intros i k. by rewrite decide_False by tauto. }
  destruct (v_by_account s !! user_key u) as [id|] eqn:Eu.
  2:{ exists w. split_and!; try done. intros i k. by rewrite decide_False by naive_solver. }
  simpl. set (key := normalize_spot_market_key sp) in *.
  change (next_holding (default 0 (default ∅ (v_portfolio s !! id) !! key)) side a) with (fill_next s id sp side a).
  eexists. split; [done|]. split; [by unfold store_vault_portfolio; case_decide|].
  intros i k. rewrite store_portfolio_lookup. assert (normalize_spot_market_key key = key) as -> by apply normalize_idemp.
  destruct (decide (i = id /\ k = key)) as [[-> ->]|Hne].
  - rewrite (decide_True (P := (_, _) = _)), (decide_True (P := _ /\ _ /\ _)) by done. cbn zeta.
    by destruct (decide (fill_next s id sp side a = 0)) as [->|].
  - rewrite (decide_False (P := _ /\ _ /\ _)) by naive_solver. rewrite decide_False; [apply Hp|].
    intros [= E%uuid_to_string_inj ->]. naive_solver.
Qed.

Lemma step_mirrors_vaults s w op tv tp :
  vaults_wf s -> delta_apply (ws_vaults w) tv = vault_table s -> mirrors_portfolio (delta_apply (ws_vault_portfolio w) tp) s ->
  exists w', (vault_step (s, Some w) op).2 = Some w' /\
    delta_apply (ws_vaults w') tv = vault_table (vault_step (s, Some w) op).1 /\
    mirrors_portfolio (delta_apply (ws_vault_portfolio w') tp) (vault_step (s, Some w) op).1.
Proof.
  intros W Hv Hp. destruct op as [v|u sp side a|a e|a b|a m|a]; try by apply update_vault_mirrors.
  - eexists. split; [done|]. split.
    + simpl. rewrite delta_store_apply, Hv. symmetry. apply (vault_table_insert s (vlt_id v) v).
    + intros i k. cbn [vault_step]. rewrite upsert_holding. apply Hp.
  - destruct (fill_mirrors s u sp side a w tp W Hp) as (w' & E & Ev & HM). exists w'. split; [done|]. split; [|done].
    rewrite Ev, Hv. unfold vault_table. simpl. by rewrite fill_vaults.
Qed.

(** The write set mirrors vaults and holdings: every vault event extends the
    block's write set so that the vault table holds exactly the registered
    vaults, their portfolios left out, and the portfolio table exactly the
    holdings, those beyond [i64::MAX] excepted. *)
Theorem write_set_mirrors_vaults s w op tv tp :
  vaults_reach s -> delta_apply (ws_vaults w) tv = vault_table s -> mirrors_portfolio (delta_apply (ws_vault_portfolio w) tp) s ->
  exists w', (vault_step (s, Some w) op).2 = Some w' /\
    delta_apply (ws_vaults w') tv = vault_table (vault_step (s, Some w) op).1 /\
    mirrors_portfolio (delta_apply (ws_vault_portfolio w') tp) (vault_step (s, Some w) op).1.
Proof. intros W%vaults_reach_wf. by apply step_mirrors_vaults. Qed.

(** ** Recovery of the holdings *)

Definition row_key (r : PersistVaultPortfolioRow) : option Uuid * string :=
  (uuid_parse (pvp_vault_id r), normalize_spot_market_key (pvp_spot_market r)).

Lemma import_row_holding s r i k :
  pvp_amount_raw r <> 0 ->
  holding_at (import_portfolio_row s r) i k = if decide (row_key r = (Some i, k)) then Some (pvp_amount_raw r) else holding_at s i k.
Proof.
  intros Ha. unfold import_portfolio_row, row_key. destruct (uuid_parse (pvp_vault_id r)) as [id|]; [|by rewrite decide_False].
  rewrite (decide_False (P := pvp_amount_raw r = 0)) by done.
  change (holding_at (with_holdings (<[id := <[normalize_spot_market_key (pvp_spot_market r) := pvp_amount_raw r]>
    (default ∅ (v_portfolio s !! id))]>) s) i k = if decide ((Some id, normalize_spot_market_key (pvp_spot_market r)) = (Some i, k))
    then Some (pvp_amount_raw r) else holding_at s i k).
  rewrite holding_insert. destruct (decide (i = id)) as [->|Hi]; [|by rewrite decide_False by congruence].
  destruct (decide (k = normalize_spot_market_key (pvp_spot_market r))) as [->|Hk].
  - rewrite decide_True by done. apply lookup_insert_eq.
  - rewrite decide_False by congruence. by apply lookup_insert_ne.
Qed.

Lemma import_rows_holding rows s i k a :
  NoDup (row_key <$> rows) -> (forall r, r ∈ rows -> pvp_amount_raw r <> 0) ->
  holding_at (foldl import_portfolio_row s rows) i k = Some a <->
    (exists r, r ∈ rows /\ row_key r = (Some i, k) /\ pvp_amount_raw r = a) \/
    (holding_at s i k = Some a /\ forall r, r ∈ rows -> row_key r <> (Some i, k)).
Proof.
  revert s. induction rows as [|r rows IH]; intros s Hnd Hne; cbn [foldl]; [set_solver|].
  csimpl in Hnd. apply NoDup_cons in Hnd as [Hin Hnd]. rewrite IH by (try done; intros; apply Hne; set_solver).
  rewrite import_row_holding by (apply Hne; set_solver). setoid_rewrite elem_of_cons.
  destruct (decide (row_key r = (Some i, k))) as [E|E]; [|naive_solver].
  assert (forall x, x ∈ rows -> row_key x <> (Some i, k)) as Hr.
  { intros x Hx Ex. apply Hin. rewrite E, <- Ex. by apply list_elem_of_fmap_2. }
  split; [|naive_solver]. intros [(x & Hx & Ex & _)|[[= <-] _]]; [by apply Hr in Hx|]. left. exists r. naive_solver.
Qed.

Lemma import_determined s s0 rows :
  NoDup (row_key <$> rows) ->
  (forall r, r ∈ rows -> pvp_amount_raw r <> 0) ->
  (forall i k a, (exists r, r ∈ rows /\ row_key r = (Some i, k) /\ pvp_amount_raw r = a) <-> holding_at s i k = Some a) ->
  forall i k, holding_at (import_vault_portfolio_for_persist s0 rows) i k = holding_at s i k.
Proof.
  intros Hnd Hne H i k. apply option_eq. intros a. unfold import_vault_portfolio_for_persist.
  rewrite import_rows_holding, H by done. split; [|by left]. intros [?|[E _]]; [done|].
  unfold holding_at in E. simpl in E. by rewrite !lookup_empty in E.
Qed.

Lemma load_rows t s :
  vaults_wf s -> mirrors_portfolio (t_vault_portfolio t) s ->
  (forall i k a, holding_at s i k = Some a -> a <= i64_max) ->
  (forall i k a, t_vault_portfolio t !! (i, k) = Some a -> exists u, i = uuid_to_string u) ->
  forall i k a, (exists r, r ∈ load_vault_portfolio t /\ row_key r = (Some i, k) /\ pvp_amount_raw r = a) <-> holding_at s i k = Some a.
Proof.
  intros W HM Hfit Hkeys i k a. unfold load_vault_portfolio, row_key. split.
  - intros (r & ([[i' k'] a'] & -> & [Hpos Hin]%list_elem_of_filter)%list_elem_of_fmap & [= Ei <-] & <-). simpl in *.
    apply elem_of_map_to_list in Hin. destruct (Hkeys _ _ _ Hin) as [u ->]. rewrite uuid_parse_to_string in Ei.
    injection Ei as ->. rewrite HM in Hin. destruct (holding_at s i k') as [b|] eqn:Eb; [|done].
    destruct (vw_holding s W _ _ _ Eb) as [Hk Hb]. pose proof (Hfit _ _ _ Eb). simpl in Hin.
    rewrite persistable_exact in Hin by lia. injection Hin as <-. rewrite !normalize_idemp, Hk, Eb. f_equal. symmetry. apply as_u64_id. split; lia.
  - intros Eb. destruct (vw_holding s W _ _ _ Eb) as [Hk Hb]. pose proof (Hfit _ _ _ Eb).
    eexists. split; [apply list_elem_of_fmap; exists (uuid_to_string i, k, a); split; [done|]|].
    + apply list_elem_of_filter. simpl. split; [lia|]. apply elem_of_map_to_list. rewrite HM, Eb. simpl. apply persistable_exact. lia.
    + simpl. rewrite uuid_parse_to_string, !Hk. split; [done|]. apply as_u64_id. unfold is_u64. lia.
Qed.

Lemma holdings_load s s0 t :
  vaults_wf s -> mirrors_portfolio (t_vault_portfolio t) s ->
  (forall i k a, holding_at s i k = Some a -> a <= i64_max) ->
  (forall i k a, t_vault_portfolio t !! (i, k) = Some a -> exists u, i = uuid_to_string u) ->
  forall i k, holding_at (import_vault_portfolio_for_persist s0 (load_vault_portfolio t)) i k = holding_at s i k.
Proof.
  intros W HM Hfit Hkeys. apply import_determined; [| |by apply load_rows].
  - unfold load_vault_portfolio. rewrite <- list_fmap_compose.
    apply NoDup_fmap_2_strong; [|apply NoDup_filter, NoDup_map_to_list].
    intros [[i k] a] [[i' k'] a'] [_ H1%elem_of_map_to_list]%list_elem_of_filter [_ H2%elem_of_map_to_list]%list_elem_of_filter E.
    destruct (Hkeys _ _ _ H1) as [u ->], (Hkeys _ _ _ H2) as [u' ->]. unfold compose, row_key in E. simpl in E.
    rewrite !uuid_parse_to_string, !normalize_idemp in E. injection E as -> Ek.
    pose proof H1 as H1'. pose proof H2 as H2'. rewrite HM in H1', H2'.
    destruct (holding_at s u' k) as [b|] eqn:Eb; [|done]. destruct (holding_at s u' k') as [b'|] eqn:Eb'; [|done].
    destruct (vw_holding s W _ _ _ Eb) as [Hk _], (vw_holding s W _ _ _ Eb') as [Hk' _]. congruence.
  - intros r ([[i k] a] & -> & [Hpos Hin]%list_elem_of_filter)%list_elem_of_fmap. simpl in *.
    apply elem_of_map_to_list in Hin. destruct (Hkeys _ _ _ Hin) as [u ->]. rewrite HM in Hin.
    destruct (holding_at s u k) as [b|] eqn:Eb; [|done]. pose proof (Hfit _ _ _ Eb). apply W in Eb. simpl in Hin.
    rewrite persistable_exact in Hin by lia. injection Hin as <-. rewrite as_u64_id by (split; lia). lia.
Qed.

(** Holdings survive a restart: importing the rows loaded from a portfolio
    table that mirrors the holdings gives back every holding of every vault. *)
Theorem holdings_recovered s s0 t :
  vaults_reach s -> mirrors_portfolio (t_vault_portfolio t) s ->
  (forall i k a, holding_at s i k = Some a -> a <= i64_max) ->
  (forall i k a, t_vault_portfolio t !! (i, k) = Some a -> exists u, i = uuid_to_string u) ->
  forall i k, holding_at (import_vault_portfolio_for_persist s0 (load_vault_portfolio t)) i k = holding_at s i k.
Proof.
  intros W%vaults_reach_wf. by apply holdings_load.
Qed.

(** ** Accounting *)

(** Signed fills of one vault account in one market. *)
Definition signed (f : OrderSide * Z) : Z := match f.1 with Buy => f.2 | Sell => - f.2 end.

(** Running balances stay within range: no clamping at zero, no saturation. *)
Fixpoint covered (current : Z) (fills : list (OrderSide * Z)) : Prop :=
  match fills with
  | [] => True
  | f :: fs => 0 <= current + signed f <= u64_max /\ covered (current + signed f) fs
  end.

Lemma covered_fill c side a : 0 <= c + signed (side, a) <= u64_max -> 0 <= a -> next_holding c side a = c + signed (side, a).
Proof. unfold signed, next_holding. simpl. intros H Ha. destruct side; [mach|]. case_decide; lia. Qed.

(** A covered sequence of fills of a vault's account moves the holding by
    bought minus sold, and leaves every other holding alone. *)
Theorem vault_fills_net s u sp fills id :
  v_by_account s !! user_key u = Some id -> Forall (fun f => 0 <= f.2) fills ->
  covered (default 0 (holding_at s id (normalize_spot_market_key sp))) fills ->
  let s' := foldl (fun s f => (apply_vault_fill_to_portfolio s u sp f.1 f.2 None).1) s fills in
  default 0 (holding_at s' id (normalize_spot_market_key sp)) =
    default 0 (holding_at s id (normalize_spot_market_key sp)) + sum_with signed fills /\
  forall i k, (i, k) <> (id, normalize_spot_market_key sp) -> holding_at s' i k = holding_at s i k.
Proof.
  revert s. induction fills as [|[side a] fills IH]; intros s Hu Hpos Hc; cbn [foldl]; [simpl; split; [lia|done]|].
  apply Forall_cons in Hpos as [Ha Hpos]. destruct Hc as [Hr Hc]. simpl in Ha.
  set (s1 := (apply_vault_fill_to_portfolio s u sp (side, a).1 (side, a).2 None).1).
  assert (v_by_account s1 = v_by_account s) as E1.
  { unfold s1, apply_vault_fill_to_portfolio. case_decide; [done|]. by destruct (v_by_account s !! _). }
  pose proof (fill_holding s u sp side a None : forall i k, holding_at s1 i k = _) as EH.
  assert (default 0 (holding_at s1 id (normalize_spot_market_key sp)) =
          default 0 (holding_at s id (normalize_spot_market_key sp)) + signed (side, a)) as Es.
  { rewrite EH. destruct (decide (a = 0)) as [->|Hne].
    - rewrite decide_False by tauto. unfold signed. simpl. destruct side; lia.
    - rewrite decide_True by done. cbn zeta. unfold fill_next. rewrite covered_fill by done. by destruct (decide (_ + _ = 0)) as [->|]. }
  destruct (IH s1) as [I1 I2]; [by rewrite E1|done|by rewrite Es|]. split.
  - rewrite I1, Es. simpl. lia.
  - intros i k Hne. rewrite I2 by done. rewrite EH, decide_False; [done|]. intros (_ & Hi & ->). congruence.
Qed.

End Facts.

(** ** Witnesses *)

Definition demo_vault : Vault :=
  {| vlt_id := 3%N; vlt_name := "v"; vlt_vault_address := "c30"; vlt_vault_account := "a30"; vlt_manager := "a1";
     vlt_quote_token := "c1"; vlt_share_token := "c2"; vlt_equity := "0"; vlt_user_deposit := "0.00";
     vlt_portfolio := []; vlt_allow_deposit := true; vlt_is_closed := false |}.
Definition demo_vaults : Vaults := (vault_step (SD := DemoSdk) (Vaults_new, None) (VUpsert demo_vault)).1.

Lemma demo_vaults_reach : vaults_reach (SD := DemoSdk) demo_vaults.
Proof. by apply vreach_op; [apply vreach_new|]. Qed.

Lemma demo_vaults_empty i k : holding_at demo_vaults i k = None.
Proof.
  unfold demo_vaults, vault_step. cbn [fst]. rewrite (upsert_holding (SD := DemoSdk)). unfold holding_at. simpl. by rewrite lookup_empty.
Qed.

Lemma write_set_mirrors_vaults_witness :
  exists w', (vault_step (SD := DemoSdk) (Vaults_new, Some (ws_default 1 "d" false)) (VUpsert demo_vault)).2 = Some w' /\
    delta_apply (ws_vaults w') ∅ = vault_table (SD := DemoSdk) (vault_step (SD := DemoSdk) (Vaults_new, Some (ws_default 1 "d" false)) (VUpsert demo_vault)).1 /\
    mirrors_portfolio (SD := DemoSdk) (delta_apply (ws_vault_portfolio w') ∅) (vault_step (SD := DemoSdk) (Vaults_new, Some (ws_default 1 "d" false)) (VUpsert demo_vault)).1.
Proof.
  apply (write_set_mirrors_vaults (SD := DemoSdk) Vaults_new (ws_default 1 "d" false) (VUpsert demo_vault) ∅ ∅).
  - apply vreach_new.
  - done.
  - intros i k. unfold holding_at. cbn [ws_default ws_vault_portfolio]. rewrite delta_empty_apply. simpl. by rewrite !lookup_empty.
Defined.

Lemma holdings_recovered_witness :
  holding_at (import_vault_portfolio_for_persist (S := DemoSdk) Vaults_new (load_vault_portfolio (S := DemoSdk) tables_empty)) 3%N "c7" =
    holding_at demo_vaults 3%N "c7".
Proof.
  apply (holdings_recovered (SD := DemoSdk) demo_vaults Vaults_new tables_empty demo_vaults_reach).
  - intros j l. rewrite demo_vaults_empty. simpl. apply lookup_empty.
  - intros j l a. by rewrite demo_vaults_empty.
  - intros j l a. simpl. by rewrite lookup_empty.
Defined.

Lemma vault_fills_net_witness :
  default 0 (holding_at (foldl (fun s f => (apply_vault_fill_to_portfolio (S := DemoSdk) s "A30" "c7" f.1 f.2 None).1)
    demo_vaults [(Buy, 10); (Sell, 4)]) 3%N (normalize_spot_market_key (S := DemoSdk) "c7")) =
  default 0 (holding_at demo_vaults 3%N (normalize_spot_market_key (S := DemoSdk) "c7")) + sum_with signed [(Buy, 10); (Sell, 4)].
Proof.
  apply (vault_fills_net (SD := DemoSdk) demo_vaults "A30" "c7" [(Buy, 10); (Sell, 4)] 3%N).
  - by vm_compute.
  - repeat constructor; simpl; lia.
  - rewrite demo_vaults_empty. simpl. unfold signed, u64_max. simpl. lia.
Defined.
