(* ===== verification/Rings.v ===== *)
(** * Rings: the bounded histories of [indexer/index_state.rs]

    One sample per timestamp, the newest at the back, the oldest dropped beyond
    a limit; and the two queries over such a history. *)
From S2P Require Import Prelude.

Local Open Scope list_scope.
Local Open Scope Z_scope.

Section Rings.
Context {A : Type} (ts : A -> Z).

(** Overwrite the newest sample when it has the same timestamp, else append. *)
Definition push_sample (hist : list A) (tick : A) : list A :=
  match last hist with
  | Some back => if decide (ts back = ts tick) then removelast hist ++ [tick] else hist ++ [tick]
  | None => hist ++ [tick]
  end.

(** [record_oracle_mark], [push_paper_oi_history], [push_paper_house_history]. *)
Definition record_tick (limit : nat) (hist : list A) (tick : A) : list A := pop_front_while limit (push_sample hist tick).

(** [record_paper_stake_tick] returns before trimming when it overwrites. *)
Definition record_stake_tick (limit : nat) (hist : list A) (tick : A) : list A :=
  match last hist with
  | Some back => if decide (ts back = ts tick) then removelast hist ++ [tick] else pop_front_while limit (hist ++ [tick])
  | None => pop_front_while limit (hist ++ [tick])
  end.

Definition since (from_ms : option Z) (hist : list A) : list A :=
  filter (fun t => match from_ms with Some f => bool_decide (f <= ts t) | None => true end = true) hist.

(** [oracle_mark_history], [paper_oi_history], [paper_house_history]. *)
Definition history_tail (max : nat) (hist : list A) (from_ms : option Z) (limit : nat) : list A :=
  let limit := Nat.min (Nat.max limit 1) max in
  let filtered := since from_ms hist in
  if decide (length filtered <= limit)%nat then filtered else drop (length filtered - limit) filtered.

(** [paper_stake_history]: reversed, cut, reversed back. *)
Definition history_rev_take (max : nat) (hist : list A) (from_ms : option Z) (limit : nat) : list A :=
  reverse (take (Nat.min (Nat.max limit 1) max) (reverse (since from_ms hist))).

(** ** Reference: the last sample of every run of equal timestamps *)

Fixpoint run_lasts (l : list A) : list A :=
  match l with
  | x :: (y :: _) as r => if decide (ts x = ts y) then run_lasts r else x :: run_lasts r
  | _ => l
  end.

(** The newest [n] of a list. *)
Definition newest (n : nat) (l : list A) : list A := drop (length l - n) l.

Lemma run_lasts_snoc l x :
  run_lasts (l ++ [x]) = match last l with
                         | Some y => if decide (ts y = ts x) then removelast (run_lasts l) ++ [x] else run_lasts l ++ [x]
                         | None => [x]
                         end.
Proof.
  induction l as [|a [|b l] IH]; [done|simpl; by repeat case_decide|].
  change (run_lasts ((a :: b :: l) ++ [x])) with
    (if decide (ts a = ts b) then run_lasts ((b :: l) ++ [x]) else a :: run_lasts ((b :: l) ++ [x])).
  rewrite IH. change (last (a :: b :: l)) with (last (b :: l)).
  change (run_lasts (a :: b :: l)) with (if decide (ts a = ts b) then run_lasts (b :: l) else a :: run_lasts (b :: l)).
  destruct (last (b :: l)) as [y|] eqn:Ey; [|by apply last_None in Ey].
  destruct (decide (ts a = ts b)), (decide (ts y = ts x)); try done.
  assert (run_lasts (b :: l) <> []) as Hne.
  { clear. revert b. induction l as [|c l IH]; intros b; [done|]. simpl. case_decide; [apply IH|done]. }
  by destruct (run_lasts (b :: l)).
Qed.

Lemma run_lasts_last l : last (run_lasts l) = last l.
Proof.
  induction l as [|a [|b l] IH]; [done|done|].
  change (run_lasts (a :: b :: l)) with (if decide (ts a = ts b) then run_lasts (b :: l) else a :: run_lasts (b :: l)).
  change (last (a :: b :: l)) with (last (b :: l)). case_decide; [done|]. rewrite <- IH.
  destruct (run_lasts (b :: l)) eqn:E; [|done]. simpl in IH. symmetry in IH. by apply last_None in IH.
Qed.

Lemma removelast_snoc (l : list A) x : removelast (l ++ [x]) = l.
Proof. apply removelast_last. Qed.

Lemma newest_snoc n l x : newest (S n) (l ++ [x]) = newest n l ++ [x].
Proof.
  unfold newest. rewrite length_app. simpl. replace (length l + 1 - S n)%nat with (length l - n)%nat by lia.
  by rewrite drop_app_le by lia.
Qed.

Lemma last_newest n l : (0 < n)%nat -> last (newest n l) = last l.
Proof.
  intros Hn. destruct n as [|n]; [lia|]. destruct l as [|x l _] using rev_ind; [by unfold newest|].
  by rewrite newest_snoc, !last_snoc.
Qed.

Lemma newest_all n l : (length l <= n)%nat -> newest n l = l.
Proof. intros H. unfold newest. by replace (length l - n)%nat with 0%nat by lia. Qed.

Lemma newest_newest n m l : (n <= m)%nat -> newest n (newest m l) = newest n l.
Proof. intros H. unfold newest. rewrite length_drop, drop_drop. f_equal. lia. Qed.

Lemma removelast_newest n l : l <> [] -> removelast (newest (S n) l) = newest n (removelast l).
Proof.
  intros Hl. destruct (exists_last Hl) as (l' & x & ->). by rewrite newest_snoc, !removelast_snoc.
Qed.

Lemma length_newest n l : length (newest n l) = Nat.min n (length l).
Proof. unfold newest. rewrite length_drop. lia. Qed.

(** One push on a trimmed history of run ends. *)
Lemma record_tick_spec limit l tick :
  (0 < limit)%nat -> record_tick limit (newest limit (run_lasts l)) tick = newest limit (run_lasts (l ++ [tick])).
Proof.
  intros Hn. unfold record_tick, push_sample. rewrite last_newest, run_lasts_last, run_lasts_snoc by done.
  destruct limit as [|n]; [lia|]. rewrite pop_front_while_drop.
  change (drop (length ?h - S n) ?h) with (newest (S n) h). destruct (last l) as [y|] eqn:Ey.
  - case_decide.
    + assert (run_lasts l <> []) as Hne by (intros E; by rewrite <- run_lasts_last, E in Ey).
      rewrite removelast_newest by done. rewrite !newest_snoc. by rewrite newest_newest.
    + rewrite !newest_snoc. by rewrite newest_newest by lia.
  - apply last_None in Ey as ->. simpl. apply newest_all. simpl. lia.
Qed.

Lemma record_ticks_spec limit ticks : (0 < limit)%nat -> foldl (record_tick limit) [] ticks = newest limit (run_lasts ticks).
Proof.
  intros Hn. induction ticks as [|t ticks IH] using rev_ind; [done|]. rewrite foldl_app. simpl. rewrite IH.
  by apply record_tick_spec.
Qed.

Lemma record_stake_tick_eq limit hist tick :
  (length hist <= limit)%nat -> record_stake_tick limit hist tick = record_tick limit hist tick.
Proof.
  intros Hl. unfold record_stake_tick, record_tick, push_sample. destruct (last hist) eqn:E; [|done]. case_decide; [|done].
  symmetry. apply pop_front_while_id. destruct hist as [|x h] using rev_ind; [done|]. rewrite removelast_snoc.
  rewrite length_app in *. simpl in *. lia.
Qed.

Lemma history_queries_agree max hist from limit : history_rev_take max hist from limit = history_tail max hist from limit.
Proof.
  unfold history_rev_take, history_tail. set (n := Nat.min _ _). set (f := since from hist). rewrite take_reverse, reverse_involutive.
  case_decide; [|done]. by replace (length f - n)%nat with 0%nat by lia.
Qed.

(** With block times that do not go back, timestamps strictly increase. *)
Lemma run_lasts_increasing l : StronglySorted (fun x y => ts x <= ts y) l -> StronglySorted (fun x y => ts x < ts y) (run_lasts l).
Proof.
  assert (forall (P : A -> Prop) l, Forall P l -> Forall P (run_lasts l)) as HF.
  { intros P k. induction k as [|a [|b k] IH]; intros H; [done|done|].
    change (run_lasts (a :: b :: k)) with (if decide (ts a = ts b) then run_lasts (b :: k) else a :: run_lasts (b :: k)).
    apply Forall_cons in H as [Ha H]. case_decide; [by apply IH|]. constructor; [done|by apply IH]. }
  induction l as [|a [|b l] IH]; intros H; [constructor|by repeat constructor|].
  change (run_lasts (a :: b :: l)) with (if decide (ts a = ts b) then run_lasts (b :: l) else a :: run_lasts (b :: l)).
  apply StronglySorted_inv in H as [H Ha]. case_decide as Hab; [by apply IH|]. constructor; [by apply IH|]. apply HF.
  apply StronglySorted_inv in H as [_ Hb]. apply Forall_cons in Ha as [Ha _]. constructor; [lia|].
  eapply Forall_impl; [exact Hb|]. simpl. intros. lia.
Qed.

(** A history keeps exactly the newest samples, one per timestamp: after any
    sequence of ticks it holds, up to its limit, the last tick of each run of
    equal timestamps, in order; when time does not go back timestamps strictly
    increase; and a query returns the newest of the samples since the asked
    time, whichever of the two ways it is coded. *)
Theorem history_newest_samples limit ticks from n :
  (0 < limit)%nat ->
  let hist := foldl (record_tick limit) [] ticks in
  hist = newest limit (run_lasts ticks) /\ (length hist <= limit)%nat /\
  (StronglySorted (fun x y => ts x <= ts y) ticks -> StronglySorted (fun x y => ts x < ts y) (run_lasts ticks)) /\
  history_tail limit hist from n = newest (Nat.min (Nat.max n 1) limit) (since from hist) /\
  history_rev_take limit hist from n = history_tail limit hist from n.
Proof.
  intros Hl hist. unfold hist. rewrite record_ticks_spec by done. rewrite length_newest.
  split_and!; [done|lia|apply run_lasts_increasing| |apply history_queries_agree].
  unfold history_tail. case_decide; [symmetry; by apply newest_all|done].
Qed.

End Rings.

Lemma history_newest_samples_witness :
  (foldl (record_tick (fun p : Z * Z => p.1) 2) [] [(1, 5); (2, 6); (2, 7); (3, 8)]) =
  newest 2 (run_lasts (fun p : Z * Z => p.1) [(1, 5); (2, 6); (2, 7); (3, 8)]).
Proof. apply (history_newest_samples (fun p : Z * Z => p.1) 2 [(1, 5); (2, 6); (2, 7); (3, 8)] None 1). lia. Defined.

Example history_example :
  foldl (record_tick (fun p : Z * Z => p.1) 2) [] [(1, 5); (2, 6); (2, 7); (3, 8)] = [(2, 7); (3, 8)].
Proof. reflexivity. Qed.
