(* ===== verification/Paper.v ===== *)
(** * Paper: oracle marks and the paper trading market of [indexer/index_state.rs]

    Oracle marks, open positions, open interest, the payout queue, staking
    rewards and the activity feed, with their histories and the house overview;
    the records of [domain/paper.rs] and the messages of [ws/models/paper.rs].
    Times are arguments: the time of the block being applied, in milliseconds,
    zero when none is, and the wall clock. *)
From S2P Require Import Prelude Text Sdk Keys Amounts Domain Rings.

Local Open Scope list_scope.
Local Open Scope Z_scope.

(** ** Data *)

Record PaperPositionOpen := {
  po_market : string;
  po_position : Z;
  po_owner : string;
  po_instrument : Z;
  po_is_long : bool;
  po_margin : string;
  po_notional : string;
  po_entry_price : string;
  po_bust_price : string;
  po_margin_raw : Z;
  po_notional_raw : Z;
  po_entry_price_raw : Z;
  po_bust_price_raw : Z;
  po_funded_from_queued : bool;
  po_opened_block : Z
}.

Inductive PaperCloseKind := Closed | Liquidated.

Record PaperPositionHistory := {
  ph_market : string;
  ph_position : Z;
  ph_owner : string;
  ph_instrument : Z;
  ph_is_long : bool;
  ph_margin : string;
  ph_notional : string;
  ph_entry_price : string;
  ph_bust_price : string;
  ph_exit_price : string;
  ph_pnl : string;
  ph_fee : string;
  ph_payout : string;
  ph_queued : string;
  ph_minted : string;
  ph_kind : PaperCloseKind;
  ph_liquidator : option string;
  ph_opened_block : Z;
  ph_closed_block : Z
}.

Record PaperInstrumentExposure := {
  pe_instrument : Z;
  pe_name : string;
  pe_long : string;
  pe_long_raw : Z;
  pe_short : string;
  pe_short_raw : Z;
  pe_net : string;
  pe_net_raw : Z
}.

Record PaperActivityItem := {
  pa_kind : string;
  pa_market : string;
  pa_user : string;
  pa_amount : string;
  pa_amount_raw : Z;
  pa_pnl : option string;
  pa_pnl_raw : option Z;
  pa_position : option Z;
  pa_block_num : Z;
  pa_ts_ms : Z
}.

Record PaperQueuePlacement := {
  qp_market : string;
  qp_address : string;
  qp_ahead : string;
  qp_ahead_raw : Z;
  qp_yours : string;
  qp_yours_raw : Z;
  qp_behind : string;
  qp_behind_raw : Z;
  qp_your_entries : Z;
  qp_in_queue : bool
}.

Inductive PaperPositionStatus := StOpen | StClosed | StAll.

Definition PaperPositionStatus_parse (raw : option string) : PaperPositionStatus :=
  match (fun s => to_ascii_lowercase (trim s)) <$> raw with
  | Some s => if decide (s = "closed" \/ s = "history")%string then StClosed
              else if decide (s = "all")%string then StAll else StOpen
  | None => StOpen
  end.

Definition DEFAULT_PAPER_PAGE_LIMIT : Z := 100.
Definition MAX_PAPER_PAGE_LIMIT : Z := 500.

Record PaperPositionQuery := {
  pq_owner : option string;
  pq_market : option string;
  pq_status : PaperPositionStatus;
  pq_limit : Z;
  pq_offset : Z
}.

(** The SDK's snapshot of the house after an event, the fields read here. *)
Record PaperHouseAfter := {
  free_cash : Z;
  side_bucket : Z;
  tracked_lp : Z;
  tail_hwm : Z;
  total_queued : Z;
  queue_head : Z;
  queue_tail : Z;
  staker_fee_acc : Z;
  dev_fee_acc : Z;
  buyback_cash : Z
}.

Definition house_zero : PaperHouseAfter :=
  {| free_cash := 0; side_bucket := 0; tracked_lp := 0; tail_hwm := 0; total_queued := 0; queue_head := 0; queue_tail := 0;
     staker_fee_acc := 0; dev_fee_acc := 0; buyback_cash := 0 |}.

Record PaperHouseView := {
  hv_market : string;
  hv_free_cash : string;
  hv_free_cash_raw : Z;
  hv_side_bucket : string;
  hv_side_bucket_raw : Z;
  hv_tracked_lp : string;
  hv_tracked_lp_raw : Z;
  hv_tail_hwm : string;
  hv_tail_hwm_raw : Z;
  hv_queue_head : Z;
  hv_queue_tail : Z;
  hv_total_queued : string;
  hv_total_queued_raw : Z;
  hv_staker_fee_acc : string;
  hv_staker_fee_acc_raw : Z;
  hv_dev_fee_acc : string;
  hv_dev_fee_acc_raw : Z;
  hv_buyback_cash : string;
  hv_buyback_cash_raw : Z;
  hv_queue_nonempty : bool;
  hv_open_interest : string;
  hv_open_interest_raw : Z;
  hv_open_margin : string;
  hv_open_margin_raw : Z;
  hv_open_positions : Z;
  hv_instruments : list PaperInstrumentExposure;
  hv_lp_balance : string;
  hv_lp_balance_raw : Z;
  hv_open_house_pnl : string;
  hv_open_house_pnl_raw : Z;
  hv_queue_debt : string;
  hv_queue_debt_raw : Z;
  hv_queue_debt_positions : Z;
  hv_queue_largest : string;
  hv_queue_largest_raw : Z;
  hv_queue_paid_next : string;
  hv_queue_paid_next_raw : Z;
  hv_queue_paid_next_user : string;
  hv_house_funds : string;
  hv_house_funds_raw : Z;
  hv_volume : string;
  hv_volume_raw : Z
}.

Record PaperInstrumentMeta := { im_name : string; im_price_market : string }.
Record PaperInstrumentOi := { oi_long : Z; oi_short : Z }.
Record PaperQueueClaim := { qc_market : string; qc_index : Z; qc_user : string; qc_amount : Z; qc_queued_at_ms : Z }.

Record OracleMark := {
  om_spot_market : string;
  om_round : Z;
  om_oracle_price : Z;
  om_mark_price : Z;
  om_block_num : Z;
  om_ts_ms : Z
}.
Record OracleMarkTick := { ot_ts_ms : Z; ot_round : Z; ot_oracle_price : Z; ot_mark_price : Z; ot_block_num : Z }.
Record PaperOiTick := { ok_ts_ms : Z; ok_long : Z; ok_short : Z }.
Record PaperHouseTick := { hk_ts_ms : Z; hk_house_funds : Z; hk_lp_balance : Z; hk_open_house_pnl : Z; hk_queue_debt : Z }.
Record PaperStakeTick := { sk_ts_ms : Z; sk_staking_revenue : Z; sk_total_paper_supply : Z; sk_total_staking_reward : Z }.

#[global] Instance PaperPositionOpen_eq_dec : EqDecision PaperPositionOpen.
Proof. solve_decision. Defined.
#[global] Instance PaperQueueClaim_eq_dec : EqDecision PaperQueueClaim.
Proof. solve_decision. Defined.

Definition ORACLE_HISTORY_LIMIT : nat := 3600.
Definition PAPER_OI_HISTORY_LIMIT : nat := 3600.
Definition PAPER_STAKE_HISTORY_LIMIT : nat := 3600.
Definition PAPER_ACTIVITY_LIMIT : nat := 120.

(** ** Messages *)

Record OracleMarkWsMessage := {
  ow_spot_market : string;
  ow_round : Z;
  ow_oracle_price : string;
  ow_mark_price : string;
  ow_oracle_price_raw : Z;
  ow_mark_price_raw : Z;
  ow_block_num : Z;
  ow_ts_ms : Z
}.
Record PaperUserWsMessage := {
  pu_event : string;
  pu_user_address : string;
  pu_market : string;
  pu_position : Z;
  pu_block_num : Z
}.
Record PaperPositionWsMessage := {
  pp_event : string;
  pp_user_address : string;
  pp_market : string;
  pp_position : Z;
  pp_block_num : Z;
  pp_instrument : option Z;
  pp_is_long : option bool;
  pp_bust_price_raw : option Z;
  pp_notional : option string;
  pp_notional_raw : option Z;
  pp_margin : option string;
  pp_margin_raw : option Z;
  pp_entry_price : option string;
  pp_entry_price_raw : option Z;
  pp_instrument_name : option string;
  pp_pnl : option string;
  pp_pnl_raw : option Z
}.
Record PaperHouseWsMessage := { hw_market : string; hw_ts_ms : Z; hw_house : PaperHouseView }.

Inductive PaperMessage :=
| MsgOracle (m : OracleMarkWsMessage)
| MsgPaperUser (m : PaperUserWsMessage)
| MsgPaperPosition (m : PaperPositionWsMessage)
| MsgPaperHouse (m : PaperHouseWsMessage)
| MsgPaperActivity (activity : PaperActivityItem)
| MsgPaperStake (market : string) (tick : PaperStakeTick).

(** ** State *)

(** The oracle and paper part of [IndexState]; [p_out] is what has been sent to
    the broadcast channels, [p_history] and [p_house_rows] what has been queued
    for the history tables when [p_persist]. *)
Record Paper := {
  p_marks : gmap string OracleMark;
  p_mark_history : gmap string (list OracleMarkTick);
  p_house_dirty : gset string;
  p_positions : gmap string PaperPositionOpen;
  p_house : gmap string PaperHouseAfter;
  p_instruments : gmap string PaperInstrumentMeta;
  p_oi : gmap string PaperInstrumentOi;
  p_oi_history : gmap string (list PaperOiTick);
  p_house_history : gmap string (list PaperHouseTick);
  p_queue : gmap string PaperQueueClaim;
  p_volume : gmap string Z;
  p_staker_rewards : gmap string Z;
  p_rewards_claimed : gmap string Z;
  p_activity : list PaperActivityItem;
  p_stake_dirty : gset string;
  p_stake_history : gmap string (list PaperStakeTick);
  p_out : list PaperMessage;
  p_history : list PaperPositionHistory;
  p_house_rows : list PaperHouseHistoryRow;
  p_persist : bool
}.

Definition Paper_new (persist : bool) : Paper :=
  {| p_marks := ∅; p_mark_history := ∅; p_house_dirty := ∅; p_positions := ∅; p_house := ∅; p_instruments := ∅; p_oi := ∅;
     p_oi_history := ∅; p_house_history := ∅; p_queue := ∅; p_volume := ∅; p_staker_rewards := ∅; p_rewards_claimed := ∅;
     p_activity := []; p_stake_dirty := ∅; p_stake_history := ∅; p_out := []; p_history := []; p_house_rows := [];
     p_persist := persist |}.

(** Field updates. *)
Definition on_marks (f : gmap string OracleMark -> gmap string OracleMark) (p : Paper) : Paper :=
  Build_Paper (f (p_marks p)) (p_mark_history p) (p_house_dirty p) (p_positions p) (p_house p) (p_instruments p) (p_oi
    p) (p_oi_history p) (p_house_history p) (p_queue p) (p_volume p) (p_staker_rewards p) (p_rewards_claimed p)
    (p_activity p) (p_stake_dirty p) (p_stake_history p) (p_out p) (p_history p) (p_house_rows p) (p_persist p).
Definition on_mark_history (f : gmap string (list OracleMarkTick) -> gmap string (list OracleMarkTick)) (p : Paper) : Paper :=
  Build_Paper (p_marks p) (f (p_mark_history p)) (p_house_dirty p) (p_positions p) (p_house p) (p_instruments p) (p_oi
    p) (p_oi_history p) (p_house_history p) (p_queue p) (p_volume p) (p_staker_rewards p) (p_rewards_claimed p)
    (p_activity p) (p_stake_dirty p) (p_stake_history p) (p_out p) (p_history p) (p_house_rows p) (p_persist p).
Definition on_house_dirty (f : gset string -> gset string) (p : Paper) : Paper :=
  Build_Paper (p_marks p) (p_mark_history p) (f (p_house_dirty p)) (p_positions p) (p_house p) (p_instruments p) (p_oi
    p) (p_oi_history p) (p_house_history p) (p_queue p) (p_volume p) (p_staker_rewards p) (p_rewards_claimed p)
    (p_activity p) (p_stake_dirty p) (p_stake_history p) (p_out p) (p_history p) (p_house_rows p) (p_persist p).
Definition on_positions (f : gmap string PaperPositionOpen -> gmap string PaperPositionOpen) (p : Paper) : Paper :=
  Build_Paper (p_marks p) (p_mark_history p) (p_house_dirty p) (f (p_positions p)) (p_house p) (p_instruments p) (p_oi
    p) (p_oi_history p) (p_house_history p) (p_queue p) (p_volume p) (p_staker_rewards p) (p_rewards_claimed p)
    (p_activity p) (p_stake_dirty p) (p_stake_history p) (p_out p) (p_history p) (p_house_rows p) (p_persist p).
Definition on_house (f : gmap string PaperHouseAfter -> gmap string PaperHouseAfter) (p : Paper) : Paper :=
  Build_Paper (p_marks p) (p_mark_history p) (p_house_dirty p) (p_positions p) (f (p_house p)) (p_instruments p) (p_oi
    p) (p_oi_history p) (p_house_history p) (p_queue p) (p_volume p) (p_staker_rewards p) (p_rewards_claimed p)
    (p_activity p) (p_stake_dirty p) (p_stake_history p) (p_out p) (p_history p) (p_house_rows p) (p_persist p).
Definition on_instruments (f : gmap string PaperInstrumentMeta -> gmap string PaperInstrumentMeta) (p : Paper) : Paper :=
  Build_Paper (p_marks p) (p_mark_history p) (p_house_dirty p) (p_positions p) (p_house p) (f (p_instruments p)) (p_oi
    p) (p_oi_history p) (p_house_history p) (p_queue p) (p_volume p) (p_staker_rewards p) (p_rewards_claimed p)
    (p_activity p) (p_stake_dirty p) (p_stake_history p) (p_out p) (p_history p) (p_house_rows p) (p_persist p).
Definition on_oi (f : gmap string PaperInstrumentOi -> gmap string PaperInstrumentOi) (p : Paper) : Paper :=
  Build_Paper (p_marks p) (p_mark_history p) (p_house_dirty p) (p_positions p) (p_house p) (p_instruments p) (f (p_oi
    p)) (p_oi_history p) (p_house_history p) (p_queue p) (p_volume p) (p_staker_rewards p) (p_rewards_claimed p)
    (p_activity p) (p_stake_dirty p) (p_stake_history p) (p_out p) (p_history p) (p_house_rows p) (p_persist p).
Definition on_oi_history (f : gmap string (list PaperOiTick) -> gmap string (list PaperOiTick)) (p : Paper) : Paper :=
  Build_Paper (p_marks p) (p_mark_history p) (p_house_dirty p) (p_positions p) (p_house p) (p_instruments p) (p_oi p)
    (f (p_oi_history p)) (p_house_history p) (p_queue p) (p_volume p) (p_staker_rewards p) (p_rewards_claimed p)
    (p_activity p) (p_stake_dirty p) (p_stake_history p) (p_out p) (p_history p) (p_house_rows p) (p_persist p).
Definition on_house_history (f : gmap string (list PaperHouseTick) -> gmap string (list PaperHouseTick)) (p : Paper) : Paper :=
  Build_Paper (p_marks p) (p_mark_history p) (p_house_dirty p) (p_positions p) (p_house p) (p_instruments p) (p_oi p)
    (p_oi_history p) (f (p_house_history p)) (p_queue p) (p_volume p) (p_staker_rewards p) (p_rewards_claimed p)
    (p_activity p) (p_stake_dirty p) (p_stake_history p) (p_out p) (p_history p) (p_house_rows p) (p_persist p).
Definition on_queue (f : gmap string PaperQueueClaim -> gmap string PaperQueueClaim) (p : Paper) : Paper :=
  Build_Paper (p_marks p) (p_mark_history p) (p_house_dirty p) (p_positions p) (p_house p) (p_instruments p) (p_oi p)
    (p_oi_history p) (p_house_history p) (f (p_queue p)) (p_volume p) (p_staker_rewards p) (p_rewards_claimed p)
    (p_activity p) (p_stake_dirty p) (p_stake_history p) (p_out p) (p_history p) (p_house_rows p) (p_persist p).
Definition on_volume (f : gmap string Z -> gmap string Z) (p : Paper) : Paper :=
  Build_Paper (p_marks p) (p_mark_history p) (p_house_dirty p) (p_positions p) (p_house p) (p_instruments p) (p_oi p)
    (p_oi_history p) (p_house_history p) (p_queue p) (f (p_volume p)) (p_staker_rewards p) (p_rewards_claimed p)
    (p_activity p) (p_stake_dirty p) (p_stake_history p) (p_out p) (p_history p) (p_house_rows p) (p_persist p).
Definition on_staker_rewards (f : gmap string Z -> gmap string Z) (p : Paper) : Paper :=
  Build_Paper (p_marks p) (p_mark_history p) (p_house_dirty p) (p_positions p) (p_house p) (p_instruments p) (p_oi p)
    (p_oi_history p) (p_house_history p) (p_queue p) (p_volume p) (f (p_staker_rewards p)) (p_rewards_claimed p)
    (p_activity p) (p_stake_dirty p) (p_stake_history p) (p_out p) (p_history p) (p_house_rows p) (p_persist p).
Definition on_rewards_claimed (f : gmap string Z -> gmap string Z) (p : Paper) : Paper :=
  Build_Paper (p_marks p) (p_mark_history p) (p_house_dirty p) (p_positions p) (p_house p) (p_instruments p) (p_oi p)
    (p_oi_history p) (p_house_history p) (p_queue p) (p_volume p) (p_staker_rewards p) (f (p_rewards_claimed p))
    (p_activity p) (p_stake_dirty p) (p_stake_history p) (p_out p) (p_history p) (p_house_rows p) (p_persist p).
Definition on_activity (f : list PaperActivityItem -> list PaperActivityItem) (p : Paper) : Paper :=
  Build_Paper (p_marks p) (p_mark_history p) (p_house_dirty p) (p_positions p) (p_house p) (p_instruments p) (p_oi p)
    (p_oi_history p) (p_house_history p) (p_queue p) (p_volume p) (p_staker_rewards p) (p_rewards_claimed p) (f
    (p_activity p)) (p_stake_dirty p) (p_stake_history p) (p_out p) (p_history p) (p_house_rows p) (p_persist p).
Definition on_stake_dirty (f : gset string -> gset string) (p : Paper) : Paper :=
  Build_Paper (p_marks p) (p_mark_history p) (p_house_dirty p) (p_positions p) (p_house p) (p_instruments p) (p_oi p)
    (p_oi_history p) (p_house_history p) (p_queue p) (p_volume p) (p_staker_rewards p) (p_rewards_claimed p)
    (p_activity p) (f (p_stake_dirty p)) (p_stake_history p) (p_out p) (p_history p) (p_house_rows p) (p_persist p).
Definition on_stake_history (f : gmap string (list PaperStakeTick) -> gmap string (list PaperStakeTick)) (p : Paper) : Paper :=
  Build_Paper (p_marks p) (p_mark_history p) (p_house_dirty p) (p_positions p) (p_house p) (p_instruments p) (p_oi p)
    (p_oi_history p) (p_house_history p) (p_queue p) (p_volume p) (p_staker_rewards p) (p_rewards_claimed p)
    (p_activity p) (p_stake_dirty p) (f (p_stake_history p)) (p_out p) (p_history p) (p_house_rows p) (p_persist p).
Definition on_out (f : list PaperMessage -> list PaperMessage) (p : Paper) : Paper :=
  Build_Paper (p_marks p) (p_mark_history p) (p_house_dirty p) (p_positions p) (p_house p) (p_instruments p) (p_oi p)
    (p_oi_history p) (p_house_history p) (p_queue p) (p_volume p) (p_staker_rewards p) (p_rewards_claimed p)
    (p_activity p) (p_stake_dirty p) (p_stake_history p) (f (p_out p)) (p_history p) (p_house_rows p) (p_persist p).
Definition on_history (f : list PaperPositionHistory -> list PaperPositionHistory) (p : Paper) : Paper :=
  Build_Paper (p_marks p) (p_mark_history p) (p_house_dirty p) (p_positions p) (p_house p) (p_instruments p) (p_oi p)
    (p_oi_history p) (p_house_history p) (p_queue p) (p_volume p) (p_staker_rewards p) (p_rewards_claimed p)
    (p_activity p) (p_stake_dirty p) (p_stake_history p) (p_out p) (f (p_history p)) (p_house_rows p) (p_persist p).
Definition on_house_rows (f : list PaperHouseHistoryRow -> list PaperHouseHistoryRow) (p : Paper) : Paper :=
  Build_Paper (p_marks p) (p_mark_history p) (p_house_dirty p) (p_positions p) (p_house p) (p_instruments p) (p_oi p)
    (p_oi_history p) (p_house_history p) (p_queue p) (p_volume p) (p_staker_rewards p) (p_rewards_claimed p)
    (p_activity p) (p_stake_dirty p) (p_stake_history p) (p_out p) (p_history p) (f (p_house_rows p)) (p_persist p).

(** [broadcast::Sender::send]. *)
Definition publish (m : PaperMessage) : Paper -> Paper := on_out (fun out => out ++ [m]).

(** The block's time when known, else the wall clock. *)
Definition event_time (block_ms now : Z) : Z := if decide (block_ms = 0) then now else block_ms.

(** Wrapping 64-bit sum, as [.sum()] in a release build; 128-bit wrap-around. *)
Definition sum_u64 {A} (f : A -> Z) (l : list A) : Z := as_u64 (sum_with f l).
Definition as_i128 (x : Z) : Z := wrap_s 128 x.

Section Paper.
Context {S : Sdk}.

(** ** Activity *)

Definition push_paper_activity (block_ms now : Z) (item : PaperActivityItem) (p : Paper) : Paper :=
  let item := if decide (pa_ts_ms item = 0)
              then {| pa_kind := pa_kind item; pa_market := pa_market item; pa_user := pa_user item; pa_amount := pa_amount item;
                      pa_amount_raw := pa_amount_raw item; pa_pnl := pa_pnl item; pa_pnl_raw := pa_pnl_raw item;
                      pa_position := pa_position item; pa_block_num := pa_block_num item; pa_ts_ms := event_time block_ms now |}
              else item in
  publish (MsgPaperActivity item) (on_activity (fun q => pop_front_while PAPER_ACTIVITY_LIMIT (q ++ [item])) p).

Definition paper_activity (p : Paper) (market : option string) (limit : nat) : list PaperActivityItem :=
  let wanted a := match market with Some m => bool_decide (addr_key (pa_market a) = addr_key m) | None => true end in
  take (Nat.min (Nat.max limit 1) PAPER_ACTIVITY_LIMIT) (filter (fun a => wanted a = true) (reverse (p_activity p))).

(** ** Dirty markets *)

Definition mark_paper_stake_dirty (market : string) (p : Paper) : Paper :=
  if decide (addr_key market = "")%string then p else on_stake_dirty (fun d => {[addr_key market]} ∪ d) p.

Definition mark_paper_house_dirty (market : string) (p : Paper) : Paper :=
  if decide (addr_key market = "")%string then p else on_house_dirty (fun d => {[addr_key market]} ∪ d) p.

(** The market part of an instrument key, [rsplit_once(':')]. *)
Definition key_market (key : string) : option string := (fun r => text r.1) <$> rsplit_once ":" (chars key).

Definition mark_paper_house_dirty_for_price_market (price_market : string) (p : Paper) : Paper :=
  let price_key := normalize_spot_market_key price_market in
  if decide (price_key = "")%string then p
  else foldl (fun p e => if decide (im_price_market e.2 = price_key)
                         then match key_market e.1 with Some market => mark_paper_house_dirty market p | None => p end
                         else p) p (map_to_list (p_instruments p)).

(** ** Oracle marks *)

Definition oracle_ws_message (mark : OracleMark) : OracleMarkWsMessage :=
  {| ow_spot_market := om_spot_market mark; ow_round := om_round mark;
     ow_oracle_price := format_oracle_human (om_oracle_price mark); ow_mark_price := format_oracle_human (om_mark_price mark);
     ow_oracle_price_raw := om_oracle_price mark; ow_mark_price_raw := om_mark_price mark;
     ow_block_num := om_block_num mark; ow_ts_ms := om_ts_ms mark |}.

Definition record_oracle_mark (block_ms now : Z) (spot_market : string) (round oracle_price mark_price block_num : Z) (p : Paper) : Paper :=
  let key := normalize_spot_market_key spot_market in
  let ts_ms := event_time block_ms now in
  let mark := {| om_spot_market := key; om_round := round; om_oracle_price := oracle_price; om_mark_price := mark_price;
                 om_block_num := block_num; om_ts_ms := ts_ms |} in
  let tick := {| ot_ts_ms := ts_ms; ot_round := round; ot_oracle_price := oracle_price; ot_mark_price := mark_price;
                 ot_block_num := block_num |} in
  let p := on_mark_history (fun h => <[key := record_tick ot_ts_ms ORACLE_HISTORY_LIMIT (default [] (h !! key)) tick]> h) p in
  let p := publish (MsgOracle (oracle_ws_message mark)) (on_marks (<[key := mark]>) p) in
  mark_paper_house_dirty_for_price_market key p.

Definition oracle_mark (p : Paper) (spot_market : string) : option OracleMark := p_marks p !! normalize_spot_market_key spot_market.

Definition oracle_mark_history (p : Paper) (spot_market : string) (from_ms : option Z) (limit : nat) : list OracleMarkTick :=
  match p_mark_history p !! normalize_spot_market_key spot_market with
  | Some hist => history_tail ot_ts_ms ORACLE_HISTORY_LIMIT hist from_ms limit
  | None => []
  end.

Definition oracle_mark_ws (p : Paper) (spot_market : string) : option OracleMarkWsMessage := oracle_ws_message <$> oracle_mark p spot_market.

(** ** Instruments and open interest *)

Definition upsert_paper_instrument (market : string) (instrument : Z) (name price_market : string) (p : Paper) : Paper :=
  on_instruments (<[paper_instr_key market instrument :=
    {| im_name := name; im_price_market := normalize_spot_market_key price_market |}]>) p.

Definition paper_instrument_name (p : Paper) (market : string) (instrument : Z) : string :=
  match p_instruments p !! paper_instr_key market instrument with
  | Some m => im_name m
  | None => ("#" +:+ dec instrument)%string
  end.

Definition push_paper_oi_history (block_ms now : Z) (market : string) (instrument long short : Z) (p : Paper) : Paper :=
  let key := paper_instr_key market instrument in
  let tick := {| ok_ts_ms := event_time block_ms now; ok_long := long; ok_short := short |} in
  on_oi_history (fun h => <[key := record_tick ok_ts_ms PAPER_OI_HISTORY_LIMIT (default [] (h !! key)) tick]> h) p.

(** [delta] is an i128; the casts of its absolute value are to u64. *)
Definition oi_after (is_long : bool) (delta : Z) (oi : PaperInstrumentOi) : PaperInstrumentOi :=
  let change x := if decide (0 <= delta) then sat_add x (as_u64 delta) else sat_sub x (as_u64 (- delta)) in
  if is_long then {| oi_long := change (oi_long oi); oi_short := oi_short oi |}
  else {| oi_long := oi_long oi; oi_short := change (oi_short oi) |}.

Definition oi_zero : PaperInstrumentOi := {| oi_long := 0; oi_short := 0 |}.

Definition apply_paper_oi_delta (block_ms now : Z) (market : string) (instrument : Z) (is_long : bool) (delta : Z) (p : Paper) : Paper :=
  let key := paper_instr_key market instrument in
  let oi := oi_after is_long delta (default oi_zero (p_oi p !! key)) in
  push_paper_oi_history block_ms now market instrument (oi_long oi) (oi_short oi) (on_oi (<[key := oi]>) p).

Definition paper_oi_history (p : Paper) (market : string) (instrument : Z) (from_ms : option Z) (limit : nat) : list PaperOiTick :=
  match p_oi_history p !! paper_instr_key market instrument with
  | Some hist => history_tail ok_ts_ms PAPER_OI_HISTORY_LIMIT hist from_ms limit
  | None => []
  end.

Definition record_paper_volume (market : string) (notional : Z) : Paper -> Paper :=
  on_volume (fun v => <[addr_key market := match v !! addr_key market with Some x => sat_add x notional | None => notional end]> v).

(** ** The house and the payout queue *)

Definition apply_paper_house_after (market : string) (house : PaperHouseAfter) (p : Paper) : Paper :=
  mark_paper_house_dirty market (on_house (<[addr_key market := house]>) p).

Definition apply_paper_queued (block_ms now : Z) (market : string) (index : Z) (user : string) (amount : Z) (house : PaperHouseAfter) (p : Paper) : Paper :=
  apply_paper_house_after market house
    (on_queue (<[paper_queue_key market index :=
      {| qc_market := market; qc_index := index; qc_user := user_key user; qc_amount := amount;
         qc_queued_at_ms := event_time block_ms now |}]>) p).

Definition apply_paper_harvested (market : string) (index : Z) (house : PaperHouseAfter) (p : Paper) : Paper :=
  apply_paper_house_after market house (on_queue (delete (paper_queue_key market index)) p).

Definition claim_le (c d : PaperQueueClaim) : Prop := qc_index c <= qc_index d.
#[global] Instance claim_le_dec : RelDecision claim_le.
Proof. intros c d. unfold claim_le. apply _. Defined.

Definition paper_queue_claims_for_market (p : Paper) (market : string) : list PaperQueueClaim :=
  merge_sort claim_le (map_to_list (filter (fun e => addr_key (qc_market e.2) = addr_key market) (p_queue p))).*2.

Definition paper_queue_placement (p : Paper) (market owner : string) : PaperQueuePlacement :=
  let owner := user_key owner in
  let claims := paper_queue_claims_for_market p market in
  let mine := filter (fun c => qc_user c = owner) claims in
  let total := sum_u64 qc_amount claims in
  let your_entries := Z.of_nat (length mine) in
  let yours_raw := sum_u64 qc_amount mine in
  let '(ahead_raw, behind_raw) :=
    match mine with
    | [] => (0, total)
    | c :: rest =>
        let first := foldl (fun m d => Z.min m (qc_index d)) (qc_index c) rest in
        let ahead_raw := sum_u64 qc_amount (filter (fun c => qc_index c < first) claims) in
        (ahead_raw, sat_sub (sat_sub total ahead_raw) yours_raw)
    end in
  {| qp_market := market; qp_address := owner; qp_ahead := format_token_amount ahead_raw; qp_ahead_raw := ahead_raw;
     qp_yours := format_token_amount yours_raw; qp_yours_raw := yours_raw; qp_behind := format_token_amount behind_raw;
     qp_behind_raw := behind_raw; qp_your_entries := your_entries; qp_in_queue := bool_decide (0 < your_entries) |}.

(** ** Rewards *)

Definition sat_bump (m : gmap string Z) (key : string) (add : Z) : gmap string Z :=
  <[key := match m !! key with Some v => sat_add v add | None => add end]> m.

Definition apply_paper_fees_pushed_rewards (market : string) (staker_fee swept : Z) (p : Paper) : Paper :=
  let add := sat_add staker_fee swept in
  if decide (add = 0) then p else on_staker_rewards (fun m => sat_bump m (addr_key market) add) p.

Definition apply_paper_claimed_reward (market user : string) (reward : Z) (p : Paper) : Paper :=
  if decide (reward = 0) then p else on_rewards_claimed (fun m => sat_bump m (paper_rewards_claimed_key market user) reward) p.

Definition paper_total_staker_rewards (p : Paper) (market : string) : Z := default 0 (p_staker_rewards p !! addr_key market).
Definition paper_rewards_claimed (p : Paper) (market user : string) : Z :=
  default 0 (p_rewards_claimed p !! paper_rewards_claimed_key market user).

(** ** The house overview *)

Definition positions_of (p : Paper) (market_key : string) : list PaperPositionOpen :=
  (map_to_list (filter (fun e => addr_key (po_market e.2) = market_key) (p_positions p))).*2.

(** The latest positive mark of the position's price market, else its entry. *)
Definition position_mark (p : Paper) (row : PaperPositionOpen) : Z :=
  default (po_entry_price_raw row)
    (meta ← p_instruments p !! paper_instr_key (po_market row) (po_instrument row);
     mark ← p_marks p !! im_price_market meta;
     if decide (0 < om_mark_price mark) then Some (om_mark_price mark) else None).

Definition user_pnl (p : Paper) (row : PaperPositionOpen) : Z :=
  if decide (0 < po_entry_price_raw row) then
    let diff := position_mark p row - po_entry_price_raw row in
    let signed := if po_is_long row then diff else - diff in
    Z.quot (as_i128 (po_notional_raw row * signed)) (po_entry_price_raw row)
  else 0.

(** The open interest entries of a market: key prefix, then the instrument. *)
Definition oi_entry (market_key : string) (e : string * PaperInstrumentOi) : option (Z * string * PaperInstrumentOi) :=
  rest ← strip_prefix (chars (market_key +:+ ":")) (chars e.1);
  instrument ← parse_u32 (text rest);
  if decide (oi_long e.2 = 0 /\ oi_short e.2 = 0) then None else Some (instrument, e.1, e.2).

Definition oi_entries (p : Paper) (market_key : string) : list (Z * string * PaperInstrumentOi) :=
  (map_to_list (map_imap (fun k oi => oi_entry market_key (k, oi)) (p_oi p))).*2.

Definition exposure (p : Paper) (e : Z * string * PaperInstrumentOi) : PaperInstrumentExposure :=
  let '(instrument, key, oi) := e in
  let net := oi_long oi - oi_short oi in
  {| pe_instrument := instrument;
     pe_name := match p_instruments p !! key with Some m => im_name m | None => ("#" +:+ dec instrument)%string end;
     pe_long := format_token_amount (oi_long oi); pe_long_raw := oi_long oi;
     pe_short := format_token_amount (oi_short oi); pe_short_raw := oi_short oi;
     pe_net := format_i128_token net; pe_net_raw := net |}.

Definition exposure_le (a b : PaperInstrumentExposure) : Prop := pe_instrument a <= pe_instrument b.
#[global] Instance exposure_le_dec : RelDecision exposure_le.
Proof. intros a b. unfold exposure_le. apply _. Defined.

Definition amount_or_empty (raw : Z) : string := if decide (0 < raw) then format_token_amount raw else ""%string.

Definition paper_house_view (p : Paper) (market : string) : PaperHouseView :=
  let market_key := addr_key market in
  let snap := default house_zero (p_house p !! market_key) in
  let rows := positions_of p market_key in
  let open_margin_raw := sat_sum po_margin_raw rows in
  let open_house_pnl_raw := foldl (fun pnl row => as_i128 (pnl - user_pnl p row)) 0 rows in
  let entries := oi_entries p market_key in
  let open_interest_raw := foldl (fun x e => sat_add (sat_add x (oi_long e.2)) (oi_short e.2)) 0 entries in
  let lp_balance_raw := sat_add (sat_add (free_cash snap) (side_bucket snap)) (buyback_cash snap) in
  let queue_debt_raw := total_queued snap in
  let house_funds_raw := as_i128 (lp_balance_raw + open_house_pnl_raw - queue_debt_raw) in
  let volume_raw := default 0 (p_volume p !! market_key) in
  let claims := paper_queue_claims_for_market p market in
  let queue_largest_raw := foldl (fun m c => Z.max m (qc_amount c)) 0 claims in
  let paid_next := match head (filter (fun c => qc_index c = queue_head snap) claims) with Some c => Some c | None => head claims end in
  let '(paid_raw, paid_user) := match paid_next with Some c => (qc_amount c, qc_user c) | None => (0, ""%string) end in
  {| hv_market := market;
     hv_free_cash := format_token_amount (free_cash snap); hv_free_cash_raw := free_cash snap;
     hv_side_bucket := format_token_amount (side_bucket snap); hv_side_bucket_raw := side_bucket snap;
     hv_tracked_lp := format_i128_token (tracked_lp snap); hv_tracked_lp_raw := tracked_lp snap;
     hv_tail_hwm := format_token_amount (tail_hwm snap); hv_tail_hwm_raw := tail_hwm snap;
     hv_queue_head := queue_head snap; hv_queue_tail := queue_tail snap;
     hv_total_queued := format_token_amount (total_queued snap); hv_total_queued_raw := total_queued snap;
     hv_staker_fee_acc := format_token_amount (staker_fee_acc snap); hv_staker_fee_acc_raw := staker_fee_acc snap;
     hv_dev_fee_acc := format_token_amount (dev_fee_acc snap); hv_dev_fee_acc_raw := dev_fee_acc snap;
     hv_buyback_cash := format_token_amount (buyback_cash snap); hv_buyback_cash_raw := buyback_cash snap;
     hv_queue_nonempty := bool_decide (0 < total_queued snap);
     hv_open_interest := format_token_amount open_interest_raw; hv_open_interest_raw := open_interest_raw;
     hv_open_margin := format_token_amount open_margin_raw; hv_open_margin_raw := open_margin_raw;
     hv_open_positions := Z.of_nat (length rows);
     hv_instruments := merge_sort exposure_le (exposure p <$> entries);
     hv_lp_balance := format_token_amount lp_balance_raw; hv_lp_balance_raw := lp_balance_raw;
     hv_open_house_pnl := format_i128_token open_house_pnl_raw; hv_open_house_pnl_raw := clamp i64_min i64_max open_house_pnl_raw;
     hv_queue_debt := format_token_amount queue_debt_raw; hv_queue_debt_raw := queue_debt_raw;
     hv_queue_debt_positions := Z.of_nat (length claims);
     hv_queue_largest := amount_or_empty queue_largest_raw; hv_queue_largest_raw := queue_largest_raw;
     hv_queue_paid_next := amount_or_empty paid_raw; hv_queue_paid_next_raw := paid_raw; hv_queue_paid_next_user := paid_user;
     hv_house_funds := format_i128_token house_funds_raw; hv_house_funds_raw := house_funds_raw;
     hv_volume := format_token_amount volume_raw; hv_volume_raw := volume_raw |}.

Definition house_tick (ts_ms : Z) (house : PaperHouseView) : PaperHouseTick :=
  {| hk_ts_ms := ts_ms; hk_house_funds := hv_house_funds_raw house; hk_lp_balance := hv_lp_balance_raw house;
     hk_open_house_pnl := hv_open_house_pnl_raw house; hk_queue_debt := hv_queue_debt_raw house |}.

Definition push_paper_house_history (market : string) (ts_ms : Z) (house : PaperHouseView) (p : Paper) : Paper :=
  let key := addr_key market in
  if decide (key = "")%string then p
  else
    let p := on_house_history (fun h =>
      <[key := record_tick hk_ts_ms PAPER_HOUSE_HISTORY_LIMIT (default [] (h !! key)) (house_tick ts_ms house)]> h) p in
    if p_persist p
    then on_house_rows (fun rows => rows ++
           [{| phr_market := market; phr_ts_ms := ts_ms; phr_house_funds_raw := hv_house_funds_raw house;
               phr_lp_balance_raw := hv_lp_balance_raw house; phr_open_house_pnl_raw := hv_open_house_pnl_raw house;
               phr_queue_debt_raw := hv_queue_debt_raw house |}]) p
    else p.

(** One market of the end-of-block flush. *)
Definition flush_house (publish_ws : bool) (ts_ms : Z) (p : Paper) (market : string) : Paper :=
  let house := paper_house_view p market in
  let p := push_paper_house_history market ts_ms house p in
  if publish_ws then publish (MsgPaperHouse {| hw_market := hv_market house; hw_ts_ms := ts_ms; hw_house := house |}) p else p.

Definition flush_paper_house_ws (block_ms now : Z) (publish_ws : bool) (p : Paper) : Paper :=
  let markets := elements (p_house_dirty p) in
  if decide (markets = []) then p
  else foldl (flush_house publish_ws (event_time block_ms now)) (on_house_dirty (fun _ => ∅) p) markets.

Definition paper_house_ws (block_ms now : Z) (p : Paper) (market : string) : option PaperHouseWsMessage :=
  let market := trim market in
  if decide (market = "")%string then None
  else let house := paper_house_view p market in
       Some {| hw_market := hv_market house; hw_ts_ms := event_time block_ms now; hw_house := house |}.

(** Loading the stored history: every market with rows, ticks in stored order. *)
Definition row_tick (row : PaperHouseHistoryRow) : PaperHouseTick :=
  {| hk_ts_ms := phr_ts_ms row; hk_house_funds := phr_house_funds_raw row; hk_lp_balance := phr_lp_balance_raw row;
     hk_open_house_pnl := phr_open_house_pnl_raw row; hk_queue_debt := phr_queue_debt_raw row |}.

Definition hydrate_paper_house_history_from_persist (load : list (string * list PaperHouseHistoryRow)) (p : Paper) : Paper :=
  foldl (fun p e => match e.2 with [] => p | rows => on_house_history (<[addr_key e.1 := row_tick <$> rows]>) p end) p load.

(** The stored rows since the asked time are read, and kept, when there is no
    history in memory. *)
Definition paper_house_history (load : option Z -> list PaperHouseHistoryRow) (p : Paper) (market : string) (from_ms : option Z) (limit : nat)
    : Paper * list PaperHouseTick :=
  let key := addr_key market in
  let p := match p_house_history p !! key, load from_ms with
           | None, (_ :: _) as rows => on_house_history (<[key := row_tick <$> rows]>) p
           | _, _ => p
           end in
  (p, match p_house_history p !! key with
      | Some hist => history_tail hk_ts_ms PAPER_HOUSE_HISTORY_LIMIT hist from_ms limit
      | None => []
      end).

(** ** Positions *)

Definition publish_paper_lifecycle (event user_address market : string) (position block_num : Z) (instrument : option Z)
    (is_long : option bool) (bust_price_raw : option Z) (notional : option string) (notional_raw : option Z)
    (margin : option string) (margin_raw : option Z) (entry_price : option string) (entry_price_raw : option Z)
    (pnl : option string) (pnl_raw : option Z) (p : Paper) : Paper :=
  let instrument_name := id ← instrument; im_name <$> p_instruments p !! paper_instr_key market id in
  publish (MsgPaperPosition
    {| pp_event := event; pp_user_address := user_address; pp_market := market; pp_position := position; pp_block_num := block_num;
       pp_instrument := instrument; pp_is_long := is_long; pp_bust_price_raw := bust_price_raw; pp_notional := notional;
       pp_notional_raw := notional_raw; pp_margin := margin; pp_margin_raw := margin_raw; pp_entry_price := entry_price;
       pp_entry_price_raw := entry_price_raw; pp_instrument_name := instrument_name; pp_pnl := pnl; pp_pnl_raw := pnl_raw |})
    (publish (MsgPaperUser {| pu_event := event; pu_user_address := user_address; pu_market := market; pu_position := position;
                              pu_block_num := block_num |}) p).

Definition upsert_paper_position_open (block_ms now : Z) (row : PaperPositionOpen) (p : Paper) : Paper :=
  let key := paper_position_key (po_market row) (po_position row) in
  let p := apply_paper_oi_delta block_ms now (po_market row) (po_instrument row) (po_is_long row) (po_notional_raw row) p in
  let p := record_paper_volume (po_market row) (po_notional_raw row) p in
  let p := publish_paper_lifecycle "opened" (po_owner row) (po_market row) (po_position row) (po_opened_block row)
             (Some (po_instrument row)) (Some (po_is_long row)) (Some (po_bust_price_raw row)) (Some (po_notional row))
             (Some (po_notional_raw row)) (Some (po_margin row)) (Some (po_margin_raw row)) (Some (po_entry_price row))
             (Some (po_entry_price_raw row)) None None p in
  let p := mark_paper_house_dirty (po_market row) p in
  on_positions (<[key := row]>) p.

(** What a close shows of a position the index does not know. *)
Definition unknown_position (owner_fallback : string) : PaperPositionOpen :=
  {| po_market := ""; po_position := 0; po_owner := owner_fallback; po_instrument := 0; po_is_long := true; po_margin := "0";
     po_notional := "0"; po_entry_price := "0"; po_bust_price := "0"; po_margin_raw := 0; po_notional_raw := 0;
     po_entry_price_raw := 0; po_bust_price_raw := 0; po_funded_from_queued := false; po_opened_block := 0 |}.

Record CloseDetails := {
  cd_exit_price : string;
  cd_fee : string;
  cd_payout : string;
  cd_queued : string;
  cd_minted : string;
  cd_pnl : string;
  cd_pnl_raw : Z;
  cd_kind : PaperCloseKind;
  cd_liquidator : option string;
  cd_known_margin : option Z
}.

Definition close_margin (known_margin : option Z) (o : PaperPositionOpen) : string * Z :=
  match known_margin with
  | Some raw => if decide (0 < raw) then (format_token_amount raw, raw) else (po_margin o, po_margin_raw o)
  | None => (po_margin o, po_margin_raw o)
  end.

Definition history_row (market : string) (position closed_block : Z) (margin : string) (o : PaperPositionOpen) (d : CloseDetails) : PaperPositionHistory :=
  {| ph_market := addr_key market; ph_position := position; ph_owner := user_key (po_owner o); ph_instrument := po_instrument o;
     ph_is_long := po_is_long o; ph_margin := margin; ph_notional := po_notional o; ph_entry_price := po_entry_price o;
     ph_bust_price := po_bust_price o; ph_exit_price := cd_exit_price d; ph_pnl := cd_pnl d; ph_fee := cd_fee d;
     ph_payout := cd_payout d; ph_queued := cd_queued d; ph_minted := cd_minted d; ph_kind := cd_kind d;
     ph_liquidator := cd_liquidator d; ph_opened_block := po_opened_block o; ph_closed_block := closed_block |}.

Definition close_paper_position (block_ms now : Z) (market : string) (position : Z) (owner_fallback : string) (closed_block : Z)
    (d : CloseDetails) (p : Paper) : Paper :=
  let key := paper_position_key market position in
  let open := p_positions p !! key in
  let p := on_positions (delete key) p in
  let p := match open with
           | Some o => apply_paper_oi_delta block_ms now market (po_instrument o) (po_is_long o) (- po_notional_raw o) p
           | None => p
           end in
  let o := default (unknown_position owner_fallback) open in
  let '(margin, margin_raw) := close_margin (cd_known_margin d) o in
  let event := match cd_kind d with Liquidated => "liquidated"%string | Closed => "closed"%string end in
  let p := publish_paper_lifecycle event (po_owner o) market position closed_block (Some (po_instrument o)) (Some (po_is_long o)) None
             (Some (po_notional o)) (Some (po_notional_raw o)) (Some margin) (Some margin_raw) (Some (po_entry_price o))
             (Some (po_entry_price_raw o)) (Some (cd_pnl d)) (Some (cd_pnl_raw d)) p in
  let p := mark_paper_house_dirty market p in
  if p_persist p then on_history (fun h => h ++ [history_row market position closed_block margin o d]) p else p.

(** ** Position queries *)

Definition owned (owner : string) (market : option string) (row : PaperPositionOpen) : bool :=
  bool_decide (user_key (po_owner row) = user_key owner) &&
  match market with Some m => bool_decide (addr_key (po_market row) = addr_key m) | None => true end.

Definition open_rows_of (p : Paper) (owner : string) (market : option string) : list PaperPositionOpen :=
  filter (fun row => owned owner market row = true) (map_to_list (p_positions p)).*2.

Definition sum_open_margin (p : Paper) (owner : string) (market : option string) : Z := sum_u64 po_margin_raw (open_rows_of p owner market).
Definition count_open_positions (p : Paper) (owner : string) (market : option string) : Z := Z.of_nat (length (open_rows_of p owner market)).

Definition row_matches (owner market : option string) (row : PaperPositionOpen) : bool :=
  match owner with Some o => bool_decide (user_key (po_owner row) = o) | None => true end &&
  match market with Some m => bool_decide (addr_key (po_market row) = m) | None => true end.

Definition open_cmp (a b : PaperPositionOpen) : comparison :=
  then_with (fun a b => Z.compare (po_opened_block b) (po_opened_block a)) (fun a b => Z.compare (po_position b) (po_position a)) a b.

(** [closed] answers the history query: owner, market, limit, offset. *)
Definition query_paper_positions (closed : option string -> option string -> nat -> nat -> list PaperPositionHistory * nat)
    (p : Paper) (q : PaperPositionQuery) : list PaperPositionOpen * list PaperPositionHistory * nat :=
  let owner := user_key <$> pq_owner q in
  let market := addr_key <$> pq_market q in
  let limit := Z.to_nat (Z.max (pq_limit q) 1) in
  let offset := Z.to_nat (pq_offset q) in
  let open_rows := merge_sort (le_of open_cmp) (filter (fun row => row_matches owner market row = true) (map_to_list (p_positions p)).*2) in
  match pq_status q with
  | StOpen => (take limit (drop offset open_rows), [], length open_rows)
  | StClosed => let '(rows, total) := closed owner market limit offset in ([], rows, total)
  | StAll =>
      let page_open := take limit (drop offset open_rows) in
      let '(page_hist, hist_total) := closed owner market (limit - length page_open)%nat (offset - length open_rows)%nat in
      (page_open, page_hist, (length open_rows + hist_total)%nat)
  end.

(** ** Staking history *)

Definition record_paper_stake_tick (market : string) (tick : PaperStakeTick) : Paper -> Paper :=
  on_stake_history (fun h => <[addr_key market := record_stake_tick sk_ts_ms PAPER_STAKE_HISTORY_LIMIT (default [] (h !! addr_key market)) tick]> h).

Definition paper_stake_history (p : Paper) (market : string) (from_ms : option Z) (limit : nat) : list PaperStakeTick :=
  match p_stake_history p !! addr_key market with
  | Some hist => history_rev_take sk_ts_ms PAPER_STAKE_HISTORY_LIMIT hist from_ms limit
  | None => []
  end.

End Paper.

(** The node: the paper token of a paper market, the total supply of a token. *)
Class PaperChain `{!Sdk} := {
  get_paper_token : ContractAddress -> option (option ContractAddress);
  get_total_supply : Address -> ContractAddress -> option Z
}.

Section Stake.
Context {S : Sdk} {C : PaperChain}.

(** A node error counts as no token, or no supply. *)
Definition paper_supply (paper_market : ContractAddress) : Z :=
  match default None (get_paper_token paper_market) with
  | Some token => default 0 (get_total_supply address_zero token)
  | None => 0
  end.

Definition flush_stake (publish_ws : bool) (ts_ms : Z) (p : Paper) (market : string) : Paper :=
  match parse_token_contract market with
  | None => p
  | Some paper_market =>
      let reward := paper_total_staker_rewards p market in
      let tick := {| sk_ts_ms := ts_ms; sk_staking_revenue := reward; sk_total_paper_supply := paper_supply paper_market;
                     sk_total_staking_reward := reward |} in
      let p := record_paper_stake_tick market tick p in
      if publish_ws then publish (MsgPaperStake market tick) p else p
  end.

Definition flush_paper_stake_history (block_ms now : Z) (publish_ws : bool) (p : Paper) : Paper :=
  let markets := elements (p_stake_dirty p) in
  if decide (markets = []) then p
  else foldl (flush_stake publish_ws (event_time block_ms now)) (on_stake_dirty (fun _ => ∅) p) markets.

End Stake.
