(* ===== verification/PaperFacts.v ===== *)
(** * PaperFacts: correctness of the paper market index

    The open interest kept by deltas equals the open positions; every change of
    a house overview marks its market for the end-of-block flush; the payout
    queue placement splits the queue; position pages tile one list. *)
From S2P Require Import Prelude Text Sdk Keys Amounts Rings Paper.

Local Open Scope list_scope.
Local Open Scope Z_scope.

(** ** Keys *)

Lemma addr_key_idemp s : addr_key (addr_key s) = addr_key s.
Proof. unfold addr_key. by rewrite trim_lower, to_ascii_lowercase_idemp. Qed.

Lemma colon_not_digit n : 0 <= n -> ":"%char ∉ chars (dec n).
Proof.
  intros Hn Hin. unfold dec in Hin. rewrite chars_text in Hin. pose proof (dec_l_digits n Hn) as HF.
  rewrite Forall_forall in HF. apply HF in Hin. vm_compute in Hin. discriminate.
Qed.

Lemma instr_key_inj m m' i i' : 0 <= i -> 0 <= i' -> paper_instr_key m i = paper_instr_key m' i' -> addr_key m = addr_key m' /\ i = i'.
Proof. apply keyed_number_inj. Qed.

Lemma position_key_inj m m' i i' : 0 <= i -> 0 <= i' -> paper_position_key m i = paper_position_key m' i' -> addr_key m = addr_key m' /\ i = i'.
Proof. apply keyed_number_inj. Qed.

Lemma key_chars a n : chars (addr_key a +:+ ":" +:+ dec n)%string = chars (addr_key a) ++ ":"%char :: chars (dec n).
Proof. by rewrite !chars_app. Qed.

Lemma key_market_instr m i : 0 <= i -> key_market (paper_instr_key m i) = Some (addr_key m).
Proof.
  intros Hi. unfold key_market, paper_instr_key. rewrite key_chars, rsplit_once_app by (by apply colon_not_digit). simpl. by rewrite text_chars.
Qed.

Lemma parse_uint_no_colon max l n : parse_uint_l max l = Some n -> ":"%char ∉ l.
Proof.
  unfold parse_uint_l. intros H Hin.
  assert (forall k, ":"%char ∈ k -> parse_digits k = None) as HN.
  { intros k. unfold parse_digits. induction k as [|c k IH]; [set_solver|]. intros [<-|Hk]%elem_of_cons; [done|].
    simpl. destruct (char_digit c); [|done]. simpl. specialize (IH Hk). by destruct (mapM char_digit k). }
  destruct l as [|c l]; [done|]. case_decide as Hc.
  - subst c. destruct l as [|d l]; [done|]. rewrite HN in H; [done|]. set_solver.
  - rewrite HN in H; done.
Qed.

Definition u32_max : Z := 4294967295.

(** The market part of an entry's key decides whether it is listed. *)
Lemma oi_entry_key mk m i oi :
  0 <= i <= u32_max ->
  oi_entry (addr_key mk) (paper_instr_key m i, oi) =
    if decide (addr_key m = addr_key mk) then (if decide (oi_long oi = 0 /\ oi_short oi = 0) then None else Some (i, paper_instr_key m i, oi))
    else None.
Proof.
  intros Hi. unfold oi_entry. simpl. unfold paper_instr_key. rewrite key_chars. rewrite chars_app.
  destruct (strip_prefix _ _) as [rest|] eqn:E.
  - apply strip_prefix_Some in E. simpl. destruct (parse_u32 (text rest)) as [n|] eqn:En; simpl.
    + assert (":"%char ∉ rest) as Hr.
      { unfold parse_u32 in En. rewrite chars_text in En. by apply parse_uint_no_colon in En. }
      assert (chars (addr_key m) = chars (addr_key mk) /\ chars (dec i) = rest) as [Em Er].
      { apply (f_equal (rsplit_once ":")) in E. rewrite rsplit_once_app in E by (apply colon_not_digit; lia).
        rewrite <- app_assoc in E. simpl in E. rewrite rsplit_once_app in E by done. injection E as E1 E2. by split. }
      rewrite (decide_True (P := addr_key m = addr_key mk)) by (by apply (inj chars)). subst rest. rewrite text_chars in En.
      unfold parse_u32, dec in En. rewrite chars_text, parse_uint_dec in En by done. by injection En as ->.
    + destruct (decide (addr_key m = addr_key mk)) as [Hm|]; [|done]. exfalso. rewrite Hm, <- app_assoc in E. apply app_inv_head in E. simpl in E. injection E as <-.
      rewrite text_chars in En. unfold parse_u32, dec in En. rewrite chars_text, parse_uint_dec in En by done. done.
  - destruct (decide (addr_key m = addr_key mk)) as [Hm|]; [|done]. exfalso. rewrite Hm in E.
    assert (strip_prefix (chars (addr_key mk) ++ chars ":") (chars (addr_key mk) ++ ":"%char :: chars (dec i)) = Some (chars (dec i))) as E'.
    { apply strip_prefix_Some. by rewrite <- app_assoc. }
    congruence.
Qed.

(** ** Sums over maps *)

Definition map_sum {V} (f : string -> V -> Z) (m : gmap string V) : Z := sum_with (fun e => f e.1 e.2) (map_to_list m).

Lemma map_sum_ext {V} (f g : string -> V -> Z) m : (forall k v, f k v = g k v) -> map_sum f m = map_sum g m.
Proof. intros H. unfold map_sum. induction (map_to_list m) as [|e l IH]; [done|]. simpl. by rewrite H, IH. Qed.

Lemma map_sum_insert {V} (f : string -> V -> Z) m k v :
  m !! k = None -> map_sum f (<[k := v]> m) = f k v + map_sum f m.
Proof. intros H. unfold map_sum. by rewrite (map_to_list_insert m k v H). Qed.

Lemma map_sum_delete {V} (f : string -> V -> Z) m k v :
  m !! k = Some v -> map_sum f m = f k v + map_sum f (delete k m).
Proof. intros H. unfold map_sum. by rewrite <- (map_to_list_delete m k v H). Qed.

(** Overwriting moves the sum by the difference. *)
Lemma map_sum_update {V} (f : string -> V -> Z) m k v :
  map_sum f (<[k := v]> m) = map_sum f m + f k v - match m !! k with Some u => f k u | None => 0 end.
Proof.
  destruct (m !! k) as [u|] eqn:E.
  - rewrite <- insert_delete_eq, map_sum_insert by apply lookup_delete_eq. rewrite (map_sum_delete f m k u E). lia.
  - rewrite map_sum_insert by done. lia.
Qed.

Lemma map_sum_filter {V} (P : string * V -> Prop) `{!forall x, Decision (P x)} (g : V -> Z) (m : gmap string V) :
  sum_with g (map_to_list (filter P m)).*2 = map_sum (fun k v => if decide (P (k, v)) then g v else 0) m.
Proof.
  induction m as [|k v m Hk IH] using map_ind; [unfold map_sum; by rewrite map_filter_empty, map_to_list_empty|].
  rewrite map_sum_insert by done. destruct (decide (P (k, v))) as [HP|HP].
  - rewrite map_filter_insert_True by done. rewrite map_to_list_insert; [csimpl; by rewrite IH|].
    apply map_lookup_filter_None. by left.
  - rewrite map_filter_insert_not' by naive_solver. by rewrite IH.
Qed.

(** ** The operations as steps *)

Section Steps.
Context {SD : Sdk} {C : PaperChain}.

Inductive PaperOp :=
| OpActivity (item : PaperActivityItem)
| OpStakeDirty (market : string)
| OpOracle (spot : string) (round oracle_price mark_price block_num : Z)
| OpInstrument (market : string) (instrument : Z) (name price_market : string)
| OpHouse (market : string) (house : PaperHouseAfter)
| OpQueued (market : string) (index : Z) (user : string) (amount : Z) (house : PaperHouseAfter)
| OpHarvested (market : string) (index : Z) (house : PaperHouseAfter)
| OpFees (market : string) (staker_fee swept : Z)
| OpClaimed (market user : string) (reward : Z)
| OpOpen (row : PaperPositionOpen)
| OpClose (market : string) (position : Z) (owner : string) (block : Z) (d : CloseDetails)
| OpFlushHouse (publish_ws : bool)
| OpFlushStake (publish_ws : bool).

Definition paper_step (block_ms now : Z) (p : Paper) (op : PaperOp) : Paper :=
  match op with
  | OpActivity item => push_paper_activity block_ms now item p
  | OpStakeDirty m => mark_paper_stake_dirty m p
  | OpOracle sp r o k n => record_oracle_mark block_ms now sp r o k n p
  | OpInstrument m i name pm => upsert_paper_instrument m i name pm p
  | OpHouse m h => apply_paper_house_after m h p
  | OpQueued m i u a h => apply_paper_queued block_ms now m i u a h p
  | OpHarvested m i h => apply_paper_harvested m i h p
  | OpFees m f s => apply_paper_fees_pushed_rewards m f s p
  | OpClaimed m u r => apply_paper_claimed_reward m u r p
  | OpOpen row => upsert_paper_position_open block_ms now row p
  | OpClose m n o b d => close_paper_position block_ms now m n o b d p
  | OpFlushHouse pub => flush_paper_house_ws block_ms now pub p
  | OpFlushStake pub => flush_paper_stake_history block_ms now pub p
  end.

(** Notional of the open positions of an instrument and side, and of a market. *)
Definition on_side (m : string) (i : Z) (l : bool) (row : PaperPositionOpen) : Prop :=
  addr_key (po_market row) = addr_key m /\ po_instrument row = i /\ po_is_long row = l.
#[global] Instance on_side_dec m i l row : Decision (on_side m i l row).
Proof. unfold on_side. apply _. Defined.

Definition side_sum (p : Paper) (m : string) (i : Z) (l : bool) : Z :=
  map_sum (fun _ row => if decide (on_side m i l row) then po_notional_raw row else 0) (p_positions p).
Definition notional_sum (p : Paper) (m : string) : Z :=
  map_sum (fun _ row => if decide (addr_key (po_market row) = addr_key m) then po_notional_raw row else 0) (p_positions p).
Definition oi_sum (p : Paper) (m : string) : Z :=
  map_sum (fun k oi => if decide (key_market k = Some (addr_key m)) then oi_long oi + oi_short oi else 0) (p_oi p).

Definition side (l : bool) (oi : PaperInstrumentOi) : Z := if l then oi_long oi else oi_short oi.

(** A position opens once, under its own number, and no side outgrows u64. *)
Definition row_ok (row : PaperPositionOpen) : Prop :=
  0 <= po_position row /\ 0 <= po_instrument row <= u32_max /\ is_u64 (po_notional_raw row) /\ is_u64 (po_margin_raw row).

Definition paper_op_ok (p : Paper) (op : PaperOp) : Prop :=
  match op with
  | OpOpen row => row_ok row /\ p_positions p !! paper_position_key (po_market row) (po_position row) = None /\
                  side_sum p (po_market row) (po_instrument row) (po_is_long row) + po_notional_raw row <= u64_max
  | OpClose _ n _ _ _ => 0 <= n
  | _ => True
  end.

Inductive paper_reach : Paper -> Prop :=
| preach_new persist : paper_reach (Paper_new persist)
| preach_op block_ms now p op : paper_reach p -> paper_op_ok p op -> paper_reach (paper_step block_ms now p op).

Record paper_wf (p : Paper) : Prop := {
  pw_position k row : p_positions p !! k = Some row -> k = paper_position_key (po_market row) (po_position row) /\ row_ok row;
  pw_oi k oi : p_oi p !! k = Some oi -> (exists m i, 0 <= i <= u32_max /\ k = paper_instr_key m i) /\ is_u64 (oi_long oi) /\ is_u64 (oi_short oi);
  pw_side m i l : 0 <= i <= u32_max -> side l (default oi_zero (p_oi p !! paper_instr_key m i)) = side_sum p m i l;
  pw_total m : oi_sum p m = notional_sum p m
}.

(** ** Open interest *)

Lemma side_sum_key p m m' i l : addr_key m' = addr_key m -> side_sum p m' i l = side_sum p m i l.
Proof.
  intros E. apply map_sum_ext. intros _ row. destruct (decide (on_side m' i l row)) as [H|H], (decide (on_side m i l row)) as [H'|H'];
    unfold on_side in *; rewrite ?E in *; tauto.
Qed.

Lemma paper_wf_same p p' : p_oi p' = p_oi p -> p_positions p' = p_positions p -> paper_wf p -> paper_wf p'.
Proof.
  intros E1 E2 [W1 W2 W3 W4]. split; unfold side_sum, oi_sum, notional_sum in *; rewrite ?E1, ?E2; done.
Qed.

Lemma oi_after_side l d oi :
  - u64_max <= d <= u64_max -> 0 <= side l oi + d <= u64_max -> 0 <= side l oi ->
  side l (oi_after l d oi) = side l oi + d /\ side (negb l) (oi_after l d oi) = side (negb l) oi.
Proof.
  intros Hd Hs H0. assert ((if decide (0 <= d) then sat_add (side l oi) (as_u64 d) else sat_sub (side l oi) (as_u64 (- d))) = side l oi + d) as E.
  { case_decide; rewrite as_u64_id by (unfold is_u64; lia); mach. }
  unfold oi_after, side in *. by destruct l.
Qed.

Lemma sum_split oi l : oi_long oi + oi_short oi = side l oi + side (negb l) oi.
Proof. destruct l; simpl; lia. Qed.

(** What a change of open interest and positions by the same amount keeps. *)
Lemma moved_wf b now p p' m i l d :
  paper_wf p -> 0 <= i <= u32_max -> - u64_max <= d <= u64_max -> 0 <= side_sum p m i l + d <= u64_max -> 0 <= side_sum p m i l ->
  p_oi p' = p_oi (apply_paper_oi_delta b now m i l d p) ->
  (forall m' i' l', side_sum p' m' i' l' = side_sum p m' i' l' + if decide (addr_key m' = addr_key m /\ i' = i /\ l' = l) then d else 0) ->
  (forall m', notional_sum p' m' = notional_sum p m' + if decide (addr_key m' = addr_key m) then d else 0) ->
  (forall k row, p_positions p' !! k = Some row -> k = paper_position_key (po_market row) (po_position row) /\ row_ok row) ->
  paper_wf p'.
Proof.
  intros W Hi Hd Hs H0 Eoi HS HN HP. set (key := paper_instr_key m i). set (oi := default oi_zero (p_oi p !! key)).
  assert (p_oi p' = <[key := oi_after l d oi]> (p_oi p)) as E by (by rewrite Eoi). clear Eoi.
  assert (forall l', side l' oi = side_sum p m i l') as Hside by (intros; by apply (pw_side p W)).
  destruct (oi_after_side l d oi) as [A1 A2]; [done|by rewrite Hside|by rewrite Hside|].
  assert (is_u64 (oi_long oi) /\ is_u64 (oi_short oi)) as Hpos.
  { unfold oi. destruct (p_oi p !! key) eqn:Ek; [by apply (pw_oi p W _ _ Ek)|by vm_compute]. }
  split; [done| | |].
  - intros k x. rewrite E. intros [[<- <-]|[_ Hx]]%lookup_insert_Some; [|by apply (pw_oi p W _ _ Hx)]. split; [by exists m, i|].
    rewrite <- Hside in Hs. unfold is_u64 in *. destruct l; simpl in *; lia.
  - intros m' i' l' Hi'. rewrite E, HS. destruct (decide (addr_key m' = addr_key m /\ i' = i)) as [[Em ->]|Hne].
    + assert (paper_instr_key m' i = key) as -> by (unfold key, paper_instr_key; by rewrite Em). rewrite lookup_insert_eq. simpl.
      rewrite (side_sum_key p m m' i l' Em), <- Hside.
      destruct (decide (l' = l)) as [->|Hl]; [by rewrite decide_True by done|]. rewrite decide_False by tauto.
      assert (l' = negb l) as -> by (by destruct l, l'). lia.
    + rewrite lookup_insert_ne by (intros (? & ?)%instr_key_inj; lia || naive_solver).
      rewrite decide_False by naive_solver. rewrite Z.add_0_r. by apply (pw_side p W).
  - intros m'. unfold oi_sum. rewrite E, map_sum_update, HN. fold (oi_sum p m'). rewrite (pw_total p W m').
    unfold key. rewrite key_market_instr by lia. fold key. unfold oi in *.
    destruct (decide (addr_key m' = addr_key m)) as [Em|Em].
    + rewrite (decide_True (P := Some _ = Some _)) by congruence. rewrite (sum_split _ l), A1, A2.
      destruct (p_oi p !! key) as [u|]; simpl; [rewrite (decide_True (P := Some _ = Some _)) by congruence; rewrite (sum_split u l); lia|].
      destruct l; simpl; lia.
    + rewrite (decide_False (P := Some _ = Some _)) by congruence.
      destruct (p_oi p !! key); [rewrite (decide_False (P := Some _ = Some _)) by congruence|]; lia.
Qed.

Lemma foldl_frame {A B} (g : Paper -> B) (f : Paper -> A -> Paper) l p : (forall p a, g (f p a) = g p) -> g (foldl f p l) = g p.
Proof. intros H. revert p. induction l as [|a l IH]; intros p; [done|]. simpl. by rewrite IH, H. Qed.

Lemma dirty_frame {B} (g : Paper -> B) m p : (forall f p, g (on_house_dirty f p) = g p) -> g (mark_paper_house_dirty m p) = g p.
Proof. intros H. unfold mark_paper_house_dirty. by case_decide. Qed.

Lemma dirty_price_frame {B} (g : Paper -> B) sp p :
  (forall f p, g (on_house_dirty f p) = g p) -> g (mark_paper_house_dirty_for_price_market sp p) = g p.
Proof.
  intros H. unfold mark_paper_house_dirty_for_price_market. case_decide; [done|]. apply foldl_frame. intros p' e.
  case_decide; [|done]. destruct (key_market e.1); [by apply dirty_frame|done].
Qed.

Lemma house_push_frame {B} (g : Paper -> B) m t h p :
  (forall f p, g (on_house_history f p) = g p) -> (forall f p, g (on_house_rows f p) = g p) -> g (push_paper_house_history m t h p) = g p.
Proof. intros H1 H2. unfold push_paper_house_history. case_decide; [done|]. destruct (p_persist _); by rewrite ?H2, H1. Qed.

Lemma flush_house_frame {B} (g : Paper -> B) b now pub p :
  (forall f p, g (on_house_history f p) = g p) -> (forall f p, g (on_house_rows f p) = g p) ->
  (forall f p, g (on_house_dirty f p) = g p) -> (forall f p, g (on_out f p) = g p) -> g (flush_paper_house_ws b now pub p) = g p.
Proof.
  intros H1 H2 H3 H4. unfold flush_paper_house_ws. case_decide; [done|]. rewrite foldl_frame; [by apply H3|].
  intros p' m. unfold flush_house, publish. destruct pub; rewrite ?H4; by apply house_push_frame.
Qed.

Lemma flush_stake_frame {B} (g : Paper -> B) b now pub p :
  (forall f p, g (on_stake_history f p) = g p) -> (forall f p, g (on_stake_dirty f p) = g p) -> (forall f p, g (on_out f p) = g p) ->
  g (flush_paper_stake_history b now pub p) = g p.
Proof.
  intros H1 H2 H3. unfold flush_paper_stake_history. case_decide; [done|]. rewrite foldl_frame; [by apply H2|].
  intros p' m. unfold flush_stake, publish, record_paper_stake_tick. destruct (parse_token_contract m); [|done].
  destruct pub; by rewrite ?H3, H1.
Qed.

Definition touches_positions (op : PaperOp) : bool := match op with OpOpen _ | OpClose _ _ _ _ _ => true | _ => false end.

Lemma step_frame b now p op :
  touches_positions op = false -> p_oi (paper_step b now p op) = p_oi p /\ p_positions (paper_step b now p op) = p_positions p.
Proof.
  intros Ht. destruct op; try done; simpl.
  - by unfold mark_paper_stake_dirty; case_decide.
  - split; unfold record_oracle_mark; by rewrite dirty_price_frame.
  - split; unfold apply_paper_house_after; by rewrite dirty_frame.
  - split; unfold apply_paper_queued, apply_paper_house_after; by rewrite dirty_frame.
  - split; unfold apply_paper_harvested, apply_paper_house_after; by rewrite dirty_frame.
  - by unfold apply_paper_fees_pushed_rewards; case_decide.
  - by unfold apply_paper_claimed_reward; case_decide.
  - split; by apply flush_house_frame.
  - split; by apply flush_stake_frame.
Qed.

(** Opening and closing. *)
Lemma open_parts b now row p :
  p_oi (upsert_paper_position_open b now row p) =
    p_oi (apply_paper_oi_delta b now (po_market row) (po_instrument row) (po_is_long row) (po_notional_raw row) p) /\
  p_positions (upsert_paper_position_open b now row p) = <[paper_position_key (po_market row) (po_position row) := row]> (p_positions p).
Proof. split; unfold upsert_paper_position_open; simpl; rewrite dirty_frame by done; reflexivity. Qed.

Lemma close_parts b now m n o blk d p :
  p_oi (close_paper_position b now m n o blk d p) =
    match p_positions p !! paper_position_key m n with
    | Some row => p_oi (apply_paper_oi_delta b now m (po_instrument row) (po_is_long row) (- po_notional_raw row) p)
    | None => p_oi p
    end /\
  p_positions (close_paper_position b now m n o blk d p) = delete (paper_position_key m n) (p_positions p).
Proof.
  unfold close_paper_position. destruct (close_margin _ _) as [mg mr].
  match goal with |- context [if p_persist ?q then on_history ?f ?q else ?q] => set (q0 := q); set (f0 := f) end.
  assert (forall {B} (g : Paper -> B), (forall f p, g (on_history f p) = g p) -> g (if p_persist q0 then on_history f0 q0 else q0) = g q0) as HE.
  { intros B g Hg. destruct (p_persist q0); [by rewrite Hg|done]. }
  rewrite !HE by done. unfold q0. rewrite !dirty_frame by done. destruct (p_positions p !! _); done.
Qed.

Lemma notional_key p m m' : addr_key m' = addr_key m -> notional_sum p m' = notional_sum p m.
Proof. intros E. apply map_sum_ext. intros _ row. by rewrite E. Qed.

Lemma side_sum_u64 p m i l : paper_wf p -> 0 <= i <= u32_max -> is_u64 (side_sum p m i l).
Proof.
  intros W Hi. rewrite <- (pw_side p W m i l Hi). destruct (p_oi p !! paper_instr_key m i) eqn:E; [|by destruct l; vm_compute].
  destruct (pw_oi p W _ _ E) as (_ & ? & ?). by destruct l.
Qed.

Lemma open_wf b now row p : paper_wf p -> paper_op_ok p (OpOpen row) -> paper_wf (upsert_paper_position_open b now row p).
Proof.
  intros W (Hr & Hn & Hs). destruct (open_parts b now row p) as [E1 E2]. pose proof Hr as (Hp & Hi & Hu & _).
  pose proof (side_sum_u64 p (po_market row) (po_instrument row) (po_is_long row) W Hi) as H0.
  apply (moved_wf b now p _ (po_market row) (po_instrument row) (po_is_long row) (po_notional_raw row)); try done; try (unfold is_u64 in *; lia).
  - intros m' i' l'. unfold side_sum. rewrite E2, map_sum_insert by done. unfold on_side. rewrite Z.add_comm. f_equal.
    destruct (decide (addr_key (po_market row) = addr_key m' /\ _)) as [H|H], (decide (addr_key m' = addr_key (po_market row) /\ _)) as [H'|H'];
      try done; naive_solver.
  - intros m'. unfold notional_sum. rewrite E2, map_sum_insert by done. rewrite Z.add_comm. f_equal. by repeat case_decide.
  - intros k x. rewrite E2. intros [[<- <-]|[_ H]]%lookup_insert_Some; [done|by apply W].
Qed.

Lemma close_wf b now m n o blk d p : paper_wf p -> 0 <= n -> paper_wf (close_paper_position b now m n o blk d p).
Proof.
  intros W Hn. destruct (close_parts b now m n o blk d p) as [E1 E2].
  destruct (p_positions p !! paper_position_key m n) as [row|] eqn:E.
  2:{ apply (paper_wf_same p); [done| |done]. rewrite E2. by apply delete_id. }
  destruct (pw_position p W _ _ E) as [Ek (Hp & Hi & Hu & Hm)]. apply position_key_inj in Ek as [Em ->]; [|lia|lia].
  assert (forall m' i' l', side_sum p m' i' l' = (if decide (on_side m' i' l' row) then po_notional_raw row else 0) +
    map_sum (fun _ row => if decide (on_side m' i' l' row) then po_notional_raw row else 0) (delete (paper_position_key m (po_position row)) (p_positions p))) as HS.
  { intros m' i' l'. unfold side_sum. by apply (map_sum_delete (fun _ r => if decide (on_side m' i' l' r) then po_notional_raw r else 0)). }
  pose proof (side_sum_u64 p m (po_instrument row) (po_is_long row) W Hi) as H0.
  assert (forall (f : string -> PaperPositionOpen -> Z) mm, (forall k r, mm !! k = Some r -> 0 <= f k r) -> 0 <= map_sum f mm) as Hnn.
  { intros f mm Hf. unfold map_sum. apply sum_with_nonneg, Forall_forall. intros [k r] Hin%elem_of_map_to_list. by apply Hf. }
  apply (moved_wf b now p _ m (po_instrument row) (po_is_long row) (- po_notional_raw row)); try done; try (unfold is_u64 in *; lia).
  - rewrite HS, decide_True by done. assert (0 <= map_sum (fun _ r => if decide (on_side m (po_instrument row) (po_is_long row) r) then po_notional_raw r else 0)
      (delete (paper_position_key m (po_position row)) (p_positions p))) as Hx.
    { apply Hnn. intros k r [_ Hr]%lookup_delete_Some. destruct (pw_position p W _ _ Hr) as [_ (_ & _ & ? & _)]. unfold is_u64 in *. case_decide; lia. }
    pose proof (HS m (po_instrument row) (po_is_long row)) as Hx2. rewrite decide_True in Hx2 by done. unfold is_u64 in *. lia.
  - intros m' i' l'. rewrite HS. unfold side_sum. rewrite E2.
    assert (on_side m' i' l' row <-> addr_key m' = addr_key m /\ i' = po_instrument row /\ l' = po_is_long row) as HX.
    { unfold on_side. rewrite Em. split; intros (? & ? & ?); by split_and!. }
    rewrite (decide_ext _ _ _ _ HX). case_decide; lia.
  - intros m'. unfold notional_sum. rewrite E2.
    rewrite (map_sum_delete (fun _ r => if decide (addr_key (po_market r) = addr_key m') then po_notional_raw r else 0) (p_positions p) _ row E).
    destruct (decide (addr_key (po_market row) = addr_key m')), (decide (addr_key m' = addr_key m)); try lia; congruence.
  - intros k x. rewrite E2. intros [_ H]%lookup_delete_Some. by apply W.
Qed.

Lemma paper_reach_wf p : paper_reach p -> paper_wf p.
Proof.
  induction 1 as [persist|b now p op _ IH Hok].
  - split; simpl; intros *; rewrite ?lookup_empty; try done. by destruct l.
  - destruct (touches_positions op) eqn:Et.
    + destruct op; try done; simpl; [by apply open_wf|by apply close_wf].
    + destruct (step_frame b now p op Et) as [E1 E2]. by apply (paper_wf_same p).
Qed.

Lemma map_sum_imap {V W} (g : W -> Z) (h : string -> V -> option W) m :
  sum_with g (map_to_list (map_imap h m)).*2 = map_sum (fun k v => default 0 (g <$> h k v)) m.
Proof.
  induction m as [|k v m Hk IH] using map_ind; [unfold map_sum; by rewrite map_imap_empty, !map_to_list_empty|].
  rewrite map_sum_insert by done. rewrite <- IH. assert (map_imap h m !! k = None) as HN by (by rewrite map_lookup_imap, Hk).
  rewrite map_imap_insert. destruct (h k v) as [w|]; simpl.
  - by rewrite map_to_list_insert.
  - by rewrite delete_id.
Qed.

Lemma map_sum_ext_in {V} (f g : string -> V -> Z) m : (forall k v, m !! k = Some v -> f k v = g k v) -> map_sum f m = map_sum g m.
Proof.
  intros H. unfold map_sum. assert (forall e, e ∈ map_to_list m -> f e.1 e.2 = g e.1 e.2) as HE.
  { intros [k v] Hin%elem_of_map_to_list. by apply H. }
  induction (map_to_list m) as [|e l IH]; [done|]. simpl. rewrite HE by set_solver. rewrite IH; [done|]. intros. apply HE. set_solver.
Qed.

Lemma oi_entries_sum p m :
  paper_wf p -> sum_with (fun e => oi_long e.2 + oi_short e.2) (oi_entries p (addr_key m)) = oi_sum p m.
Proof.
  intros W. unfold oi_entries, oi_sum. rewrite map_sum_imap. apply map_sum_ext_in. intros k oi Hk.
  destruct (pw_oi p W _ _ Hk) as ((m' & i & Hi & ->) & _ & _). rewrite oi_entry_key, key_market_instr by (done || lia).
  destruct (decide (addr_key m' = addr_key m)) as [E|E].
  - rewrite (decide_True (P := Some _ = Some _)) by congruence. case_decide as H0; simpl; lia.
  - rewrite (decide_False (P := Some _ = Some _)) by congruence. done.
Qed.

Lemma sat_pairs_fold (l : list (Z * string * PaperInstrumentOi)) a :
  0 <= a <= u64_max -> Forall (fun e => is_u64 (oi_long e.2) /\ is_u64 (oi_short e.2)) l ->
  foldl (fun x e => sat_add (sat_add x (oi_long e.2)) (oi_short e.2)) a l =
    Z.min (a + sum_with (fun e => oi_long e.2 + oi_short e.2) l) u64_max.
Proof.
  intros Ha Hl. revert a Ha. induction Hl as [|e l [H1 H2] Hl IH]; intros a Ha; simpl; [mach|]. unfold is_u64 in *.
  assert (0 <= sum_with (fun e => oi_long e.2 + oi_short e.2) l).
  { apply sum_with_nonneg. eapply Forall_impl; [exact Hl|]. simpl. unfold is_u64. lia. }
  rewrite IH by mach. mach.
Qed.

Lemma oi_entries_u64 p mk : paper_wf p -> Forall (fun e => is_u64 (oi_long e.2) /\ is_u64 (oi_short e.2)) (oi_entries p mk).
Proof.
  intros W. apply Forall_forall. intros e ([k y] & -> & Hin%elem_of_map_to_list)%list_elem_of_fmap. simpl.
  rewrite map_lookup_imap in Hin. destruct (p_oi p !! k) as [oi|] eqn:Hk; [|done]. simpl in Hin. unfold oi_entry in Hin. simpl in Hin.
  destruct (strip_prefix _ _); [|done]. simpl in Hin. destruct (parse_u32 _); [|done]. simpl in Hin. case_decide; [done|].
  injection Hin as <-. by apply (pw_oi p W _ _ Hk).
Qed.

Lemma positions_of_rows p mk row : row ∈ positions_of p mk <-> addr_key (po_market row) = mk /\ exists k, p_positions p !! k = Some row.
Proof.
  unfold positions_of. rewrite list_elem_of_fmap. setoid_rewrite elem_of_map_to_list'. setoid_rewrite map_lookup_filter_Some. split.
  - intros ([k r] & -> & [Hk Hm]). simpl in *. split; [done|by exists k].
  - intros [Hm [k Hk]]. by exists (k, row).
Qed.

Lemma house_view_open p m :
  let v := paper_house_view p m in
  hv_open_interest_raw v = foldl (fun x e => sat_add (sat_add x (oi_long e.2)) (oi_short e.2)) 0 (oi_entries p (addr_key m)) /\
  hv_open_margin_raw v = sat_sum po_margin_raw (positions_of p (addr_key m)) /\
  hv_open_positions v = Z.of_nat (length (positions_of p (addr_key m))).
Proof. unfold paper_house_view. cbv zeta. by destruct (match head _ with Some c => _ | None => _ end). Qed.

(** C23: the open interest kept by deltas is exact: in every reachable state each
    instrument's long and short interest is the total notional of its open
    positions on that side, and the overview of a market shows the total
    notional and margin of its open positions (capped at [u64::MAX]) and their
    number. *)
Theorem open_interest_exact p m :
  paper_reach p ->
  (forall i l, 0 <= i <= u32_max -> side l (default oi_zero (p_oi p !! paper_instr_key m i)) = side_sum p m i l) /\
  let v := paper_house_view p m in
  hv_open_interest_raw v = Z.min (notional_sum p m) u64_max /\
  hv_open_margin_raw v = Z.min (sum_with po_margin_raw (positions_of p (addr_key m))) u64_max /\
  hv_open_positions v = Z.of_nat (length (positions_of p (addr_key m))).
Proof.
  intros W%paper_reach_wf. split; [intros i l Hi; by apply (pw_side p W)|]. cbv zeta.
  destruct (house_view_open p m) as (-> & -> & ->). split_and!; [| |done].
  - rewrite sat_pairs_fold; [|mach|by apply oi_entries_u64]. by rewrite oi_entries_sum, (pw_total p W m).
  - apply sat_sum_eq, Forall_forall. intros row [_ [k Hk]]%positions_of_rows.
    destruct (pw_position p W _ _ Hk) as [_ (_ & _ & _ & Hm)]. apply Hm.
Qed.

End Steps.

(** ** A concrete market *)

#[global] Instance DemoPaperChain : @PaperChain DemoSdk :=
  {| get_paper_token _ := None; get_total_supply _ _ := None |}.

Definition demo_row (position : Z) (is_long : bool) (notional : Z) : PaperPositionOpen :=
  {| po_market := "Mkt"; po_position := position; po_owner := "ann"; po_instrument := 1; po_is_long := is_long; po_margin := "1";
     po_notional := "1"; po_entry_price := "1"; po_bust_price := "1"; po_margin_raw := 10; po_notional_raw := notional;
     po_entry_price_raw := 100; po_bust_price_raw := 90; po_funded_from_queued := false; po_opened_block := 7 |}.

Definition demo_close : CloseDetails :=
  {| cd_exit_price := "1"; cd_fee := "0"; cd_payout := "1"; cd_queued := "0"; cd_minted := "0"; cd_pnl := "0"; cd_pnl_raw := 0;
     cd_kind := Closed; cd_liquidator := None; cd_known_margin := None |}.

(** Two positions opened, one closed. *)
Definition demo_paper : Paper :=
  foldl (paper_step (SD := DemoSdk) 0 5) (Paper_new false) [OpOpen (demo_row 0 true 300); OpOpen (demo_row 1 false 500); OpClose "mkt" 0 "ann" 8 demo_close].

Lemma demo_paper_reach : paper_reach (SD := DemoSdk) demo_paper.
Proof.
  apply (preach_op 0 5 _ (OpClose "mkt" 0 "ann" 8 demo_close)); [|by vm_compute].
  apply (preach_op 0 5 _ (OpOpen (demo_row 1 false 500))); [apply (preach_op 0 5 _ (OpOpen (demo_row 0 true 300))); [constructor|]|].
  - split_and!; [by vm_compute|by vm_compute|by vm_compute].
  - split_and!; [by vm_compute|by vm_compute|by vm_compute].
Qed.

Lemma open_interest_exact_witness : hv_open_interest_raw (paper_house_view (S := DemoSdk) demo_paper "MKT") = 500.
Proof.
  destruct (open_interest_exact (SD := DemoSdk) demo_paper "MKT" demo_paper_reach) as [_ [H _]]. rewrite H. vm_compute. reflexivity.
Defined.
