(* ===== verification/PaperViews.v ===== *)
(** * PaperViews: the house overview and its feed

    A change of a market's overview always leaves the market dirty, so the
    end-of-block flush publishes it: the last overview sent for a clean market
    is its current one.  The payout queue and the position pages. *)
From S2P Require Import Prelude Text Sdk Keys Amounts Rings Paper PaperFacts.

Local Open Scope list_scope.
Local Open Scope Z_scope.

Section Views.
Context {SD : Sdk} {L : SdkLaws} {C : PaperChain}.

(** ** What a view reads *)

Definition in_market (key : string) (e : string * PaperPositionOpen) : Prop := addr_key (po_market e.2) = key.
Definition claim_in (key : string) (e : string * PaperQueueClaim) : Prop := addr_key (qc_market e.2) = key.

Record same_inputs (m : string) (p p' : Paper) : Prop := {
  si_house : p_house p' !! addr_key m = p_house p !! addr_key m;
  si_positions k row : addr_key (po_market row) = addr_key m -> p_positions p' !! k = Some row <-> p_positions p !! k = Some row;
  si_marks row : row ∈ positions_of p (addr_key m) -> position_mark p' row = position_mark p row;
  si_entries k : (oi ← p_oi p' !! k; oi_entry (addr_key m) (k, oi)) = (oi ← p_oi p !! k; oi_entry (addr_key m) (k, oi));
  si_exposures e : e ∈ oi_entries p (addr_key m) -> exposure p' e = exposure p e;
  si_volume : p_volume p' !! addr_key m = p_volume p !! addr_key m;
  si_claims k c : addr_key (qc_market c) = addr_key m -> p_queue p' !! k = Some c <-> p_queue p !! k = Some c
}.

Lemma foldl_ext_in {A B} (f g : B -> A -> B) (l : list A) b : (forall b a, a ∈ l -> f b a = g b a) -> foldl f b l = foldl g b l.
Proof. revert b. induction l as [|a l IH]; intros b H; [done|]. simpl. rewrite H by set_solver. apply IH. intros. apply H. set_solver. Qed.

Lemma fmap_ext_in {A B} (f g : A -> B) (l : list A) : (forall a, a ∈ l -> f a = g a) -> f <$> l = g <$> l.
Proof. induction l as [|a l IH]; intros H; [done|]. csimpl. rewrite H by set_solver. f_equal. apply IH. intros. apply H. set_solver. Qed.

Lemma same_view m p p' : same_inputs m p p' -> paper_house_view p' m = paper_house_view p m.
Proof.
  intros [H1 H2 H3 H4 H5 H6 H7].
  assert (positions_of p' (addr_key m) = positions_of p (addr_key m)) as EP.
  { unfold positions_of. do 2 f_equal. apply map_filter_strong_ext. intros k row. simpl. split; intros [? ?]; (split; [done|]); by apply H2. }
  assert (oi_entries p' (addr_key m) = oi_entries p (addr_key m)) as EO.
  { unfold oi_entries. do 2 f_equal. apply map_eq. intros k. rewrite !map_lookup_imap. apply H4. }
  assert (paper_queue_claims_for_market p' m = paper_queue_claims_for_market p m) as EC.
  { unfold paper_queue_claims_for_market. do 3 f_equal. apply map_filter_strong_ext. intros k c. simpl.
    split; intros [? ?]; (split; [done|]); by apply H7. }
  assert (foldl (fun pnl row => as_i128 (pnl - user_pnl p' row)) 0 (positions_of p (addr_key m)) =
          foldl (fun pnl row => as_i128 (pnl - user_pnl p row)) 0 (positions_of p (addr_key m))) as EU.
  { apply foldl_ext_in. intros x row Hin. unfold user_pnl. by rewrite H3. }
  assert (exposure p' <$> oi_entries p (addr_key m) = exposure p <$> oi_entries p (addr_key m)) as EE by (by apply fmap_ext_in).
  unfold paper_house_view. by rewrite EP, EO, EC, H1, H6, EU, EE.
Qed.

(** Nothing a view reads has changed. *)
Lemma same_inputs_frame m p p' :
  p_house p' = p_house p -> p_positions p' = p_positions p -> p_marks p' = p_marks p -> p_instruments p' = p_instruments p ->
  p_oi p' = p_oi p -> p_volume p' = p_volume p -> p_queue p' = p_queue p -> same_inputs m p p'.
Proof.
  intros E1 E2 E3 E4 E5 E6 E7. split; intros; unfold position_mark, exposure; rewrite ?E1, ?E2, ?E3, ?E4, ?E5, ?E6, ?E7; done.
Qed.

(** ** Dirty marks *)

Lemma dirty_mono m p : p_house_dirty p ⊆ p_house_dirty (mark_paper_house_dirty m p).
Proof. unfold mark_paper_house_dirty. case_decide; simpl; set_solver. Qed.

Lemma dirty_marked m p : addr_key m <> ""%string -> addr_key m ∈ p_house_dirty (mark_paper_house_dirty m p).
Proof. intros H. unfold mark_paper_house_dirty. rewrite decide_False by done. simpl. set_solver. Qed.

Lemma dirty_house m h p : addr_key m <> ""%string -> addr_key m ∈ p_house_dirty (apply_paper_house_after m h p).
Proof. apply dirty_marked. Qed.

(** A mark reaches every market with an instrument priced by it. *)
Lemma dirty_price sp p m i meta :
  0 <= i -> addr_key m <> ""%string -> normalize_spot_market_key sp <> ""%string ->
  p_instruments p !! paper_instr_key m i = Some meta -> im_price_market meta = normalize_spot_market_key sp ->
  addr_key m ∈ p_house_dirty (mark_paper_house_dirty_for_price_market sp p).
Proof.
  intros Hi Hm Hsp Hk Hp. unfold mark_paper_house_dirty_for_price_market. rewrite decide_False by done.
  apply elem_of_map_to_list in Hk. revert Hk. generalize (map_to_list (p_instruments p)). intros l Hin.
  set (f := fun (p0 : Paper) (e : string * PaperInstrumentMeta) => _).
  assert (forall l p0, p_house_dirty p0 ⊆ p_house_dirty (foldl f p0 l)) as HM.
  { intros k. induction k as [|e k IH]; intros p0; [done|]. simpl. etrans; [|apply IH]. unfold f. case_decide; [|done].
    destruct (key_market e.1); [apply dirty_mono|done]. }
  revert p. induction l as [|e l IH]; intros p; [set_solver|]. apply elem_of_cons in Hin as [<-|Hin]; simpl; [|by apply IH].
  apply HM. unfold f. simpl. rewrite decide_True by done. rewrite key_market_instr by done.
  pose proof (dirty_marked (addr_key m) p) as H. rewrite addr_key_idemp in H. by apply H.
Qed.

(** ** The steps that a view depends on *)

(** An instrument is described before anything is open in it. *)
Definition view_op_ok (p : Paper) (op : PaperOp) : Prop :=
  paper_op_ok p op /\
  match op with
  | OpInstrument m i _ _ => p_oi p !! paper_instr_key m i = None /\
      forall k row, p_positions p !! k = Some row -> paper_instr_key (po_market row) (po_instrument row) <> paper_instr_key m i
  | OpOracle sp _ _ _ _ => normalize_spot_market_key sp <> ""%string
  | _ => True
  end.

Lemma house_inputs m m' h p :
  addr_key m <> ""%string -> addr_key m ∉ p_house_dirty (apply_paper_house_after m' h p) -> same_inputs m p (apply_paper_house_after m' h p).
Proof.
  intros Hm Hd. assert (addr_key m <> addr_key m') as Hne.
  { intros E. apply Hd. rewrite E. apply dirty_house. by rewrite <- E. }
  unfold apply_paper_house_after. split; intros; unfold position_mark, exposure; rewrite ?dirty_frame by done; simpl; try done.
  by rewrite lookup_insert_ne.
Qed.

Lemma same_inputs_trans m p1 p2 p3 : same_inputs m p1 p2 -> same_inputs m p2 p3 -> same_inputs m p1 p3.
Proof.
  intros A B.
  assert (positions_of p2 (addr_key m) = positions_of p1 (addr_key m)) as EP.
  { unfold positions_of. do 2 f_equal. apply map_filter_strong_ext. intros k row. simpl.
    split; intros [? ?]; (split; [done|]); by apply (si_positions _ _ _ A). }
  assert (oi_entries p2 (addr_key m) = oi_entries p1 (addr_key m)) as EO.
  { unfold oi_entries. do 2 f_equal. apply map_eq. intros k. rewrite !map_lookup_imap. apply (si_entries _ _ _ A k). }
  split.
  - by rewrite (si_house _ _ _ B), (si_house _ _ _ A).
  - intros k row H. by rewrite (si_positions _ _ _ B), (si_positions _ _ _ A).
  - intros row H. rewrite (si_marks _ _ _ B) by (by rewrite EP). by apply A.
  - intros k. by rewrite (si_entries _ _ _ B), (si_entries _ _ _ A).
  - intros e H. rewrite (si_exposures _ _ _ B) by (by rewrite EO). by apply A.
  - by rewrite (si_volume _ _ _ B), (si_volume _ _ _ A).
  - intros k c H. by rewrite (si_claims _ _ _ B), (si_claims _ _ _ A).
Qed.

Lemma instr_entry_other m m' i oi : 0 <= i <= u32_max -> addr_key m' <> addr_key m -> oi_entry (addr_key m) (paper_instr_key m' i, oi) = None.
Proof. intros Hi Hne. rewrite oi_entry_key by done. by rewrite decide_False. Qed.

(** A change of positions and open interest elsewhere. *)
Lemma elsewhere_inputs m m' i l d b now p p' :
  0 <= i <= u32_max -> addr_key m <> addr_key m' ->
  p_house p' = p_house p -> p_marks p' = p_marks p -> p_instruments p' = p_instruments p -> p_queue p' = p_queue p ->
  p_oi p' = p_oi (apply_paper_oi_delta b now m' i l d p) \/ p_oi p' = p_oi p ->
  p_volume p' !! addr_key m = p_volume p !! addr_key m ->
  (forall k row, addr_key (po_market row) = addr_key m -> p_positions p' !! k = Some row <-> p_positions p !! k = Some row) ->
  same_inputs m p p'.
Proof.
  intros Hi Hne E1 E3 E4 E7 Eoi E6 HP. split; intros; unfold position_mark, exposure; rewrite ?E1, ?E3, ?E4, ?E6, ?E7; try done; [by apply HP|].
  destruct Eoi as [Eoi|Eoi]; rewrite Eoi; [|done]. simpl. destruct (decide (k = paper_instr_key m' i)) as [->|Hk].
  - rewrite lookup_insert_eq. simpl. rewrite instr_entry_other by (done || congruence).
    destruct (p_oi p !! _); simpl; [|done]. by rewrite instr_entry_other by (done || congruence).
  - by rewrite lookup_insert_ne.
Qed.

(** Claims sit under their market and index. *)
Definition queue_wf (p : Paper) : Prop :=
  forall k c, p_queue p !! k = Some c -> k = paper_queue_key (qc_market c) (qc_index c) /\ 0 <= qc_index c.

Definition queue_op_ok (op : PaperOp) : Prop :=
  match op with OpQueued _ i _ _ _ | OpHarvested _ i _ => 0 <= i | _ => True end.

Definition is_flush (op : PaperOp) : bool := match op with OpFlushHouse _ | OpFlushStake _ => true | _ => false end.

Lemma open_frame {B} (g : Paper -> B) b now row p :
  (forall f p, g (on_oi f p) = g p) -> (forall f p, g (on_oi_history f p) = g p) -> (forall f p, g (on_volume f p) = g p) ->
  (forall f p, g (on_out f p) = g p) -> (forall f p, g (on_house_dirty f p) = g p) -> (forall f p, g (on_positions f p) = g p) ->
  g (upsert_paper_position_open b now row p) = g p.
Proof.
  intros H1 H2 H3 H4 H5 H6. unfold upsert_paper_position_open. rewrite H6, dirty_frame by done.
  unfold publish_paper_lifecycle, publish. rewrite !H4. unfold record_paper_volume. rewrite H3.
  unfold apply_paper_oi_delta, push_paper_oi_history. by rewrite H2, H1.
Qed.

Lemma close_frame {B} (g : Paper -> B) b now m n o blk d p :
  (forall f p, g (on_oi f p) = g p) -> (forall f p, g (on_oi_history f p) = g p) -> (forall f p, g (on_history f p) = g p) ->
  (forall f p, g (on_out f p) = g p) -> (forall f p, g (on_house_dirty f p) = g p) -> (forall f p, g (on_positions f p) = g p) ->
  g (close_paper_position b now m n o blk d p) = g p.
Proof.
  intros H1 H2 H3 H4 H5 H6. unfold close_paper_position. destruct (close_margin _ _) as [mg mr].
  match goal with |- g (if ?c then on_history ?f ?q else ?q) = _ => assert (g (if c then on_history f q else q) = g q) as -> by (destruct c; [by rewrite H3|done]) end.
  rewrite dirty_frame by done. unfold publish_paper_lifecycle, publish. rewrite !H4.
  destruct (p_positions p !! _); [unfold apply_paper_oi_delta, push_paper_oi_history; rewrite H2, H1|]; by rewrite H6.
Qed.

Lemma open_dirty b now row p : addr_key (po_market row) <> ""%string -> addr_key (po_market row) ∈ p_house_dirty (upsert_paper_position_open b now row p).
Proof. intros H. by apply (dirty_marked (po_market row)). Qed.

Lemma close_dirty b now m n o blk d p : addr_key m <> ""%string -> addr_key m ∈ p_house_dirty (close_paper_position b now m n o blk d p).
Proof.
  intros H. unfold close_paper_position. destruct (close_margin _ _) as [mg mr].
  match goal with |- _ ∈ p_house_dirty (if ?c then on_history ?f ?q else ?q) =>
    assert (p_house_dirty (if c then on_history f q else q) = p_house_dirty q) as -> by (by destruct c) end.
  by apply dirty_marked.
Qed.

(** What leaves a market clean leaves its overview alone. *)
(** An operation leaves the inputs of a market's overview alone unless it marks
    the market. *)
Definition keeps_inputs (b now : Z) (p : Paper) (m : string) (op : PaperOp) : Prop :=
  paper_wf p -> queue_wf p -> view_op_ok p op -> queue_op_ok op -> addr_key m <> ""%string ->
  addr_key m ∉ p_house_dirty (paper_step b now p op) -> same_inputs m p (paper_step b now p op).

Lemma oracle_inputs b now p m spot round oracle_price mark_price block_num : keeps_inputs b now p m (OpOracle spot round oracle_price mark_price block_num).
Proof.
  intros W Q [Hok Hv] Hq Hm Hd. simpl in *.
  unfold record_oracle_mark in *. set (p1 := publish _ _) in *. set (key := normalize_spot_market_key spot) in *.
  split; intros; unfold exposure; rewrite ?dirty_price_frame by done; try done.
  unfold position_mark, p1. simpl.
  destruct (p_instruments p !! _) as [meta|] eqn:Em; simpl; [|done].
  rewrite lookup_insert_ne; [done|]. intros Ek. apply positions_of_rows in H as (Ea & k & Hk).
  destruct (pw_position p W _ _ Hk) as [_ (_ & Hi & _)]. apply Hd.
  apply (dirty_price _ _ _ (po_instrument row) meta); [lia|done| | |].
  - unfold key. by rewrite normalize_idemp.
  - simpl. rewrite <- Em. unfold paper_instr_key. by rewrite Ea.
  - unfold key. rewrite normalize_idemp. done.
Qed.

Lemma instrument_inputs b now p m market instrument name price_market : keeps_inputs b now p m (OpInstrument market instrument name price_market).
Proof.
  intros W Q [Hok Hv] Hq Hm Hd. simpl in *.
  destruct Hv as [Hv1 Hv2]. split; intros; try done.
  - unfold position_mark. simpl. apply positions_of_rows in H as (_ & k & Hk). rewrite lookup_insert_ne; [done|].
    intros E. by apply (Hv2 k row Hk).
  - unfold exposure. destruct e as [[i k] oi]. simpl. rewrite lookup_insert_ne; [done|]. intros E.
    unfold oi_entries in H. apply list_elem_of_fmap in H as ([k' y] & Ey & Hin%elem_of_map_to_list). simpl in Ey. subst y.
    rewrite map_lookup_imap in Hin. destruct (p_oi p !! k') as [x|] eqn:Ek; [|done]. simpl in Hin. unfold oi_entry in Hin. simpl in Hin.
    destruct (strip_prefix _ _); [|done]. simpl in Hin. destruct (parse_u32 _); [|done]. simpl in Hin. case_decide; [done|]. simplify_eq.
Qed.

Lemma queued_inputs b now p m market index user amount house : keeps_inputs b now p m (OpQueued market index user amount house).
Proof.
  intros W Q [Hok Hv] Hq Hm Hd. simpl in *.
  unfold apply_paper_queued in *. eapply same_inputs_trans; [|by apply house_inputs].
  assert (addr_key m <> addr_key market) as Hne.
  { intros E. apply Hd. rewrite E. apply dirty_house. by rewrite <- E. }
  split; intros; try done. simpl. split.
  - intros [[_ <-]|[_ H']]%lookup_insert_Some; [by destruct Hne|done].
  - intros H'. rewrite lookup_insert_ne; [done|]. intros E. destruct (Q _ _ H') as [E' Hi]. rewrite <- E in E'.
    apply position_key_inj in E' as [E' _]; [|done|done]. congruence.
Qed.

Lemma harvested_inputs b now p m market index house : keeps_inputs b now p m (OpHarvested market index house).
Proof.
  intros W Q [Hok Hv] Hq Hm Hd. simpl in *.
  unfold apply_paper_harvested in *. eapply same_inputs_trans; [|by apply house_inputs].
  assert (addr_key m <> addr_key market) as Hne.
  { intros E. apply Hd. rewrite E. apply dirty_house. by rewrite <- E. }
  split; intros; try done. simpl. rewrite lookup_delete_Some. split; [by intros [_ ?]|]. intros H'. split; [|done].
  intros E. destruct (Q _ _ H') as [E' Hi]. rewrite <- E in E'. apply position_key_inj in E' as [E' _]; [|done|done]. congruence.
Qed.

Lemma open_inputs b now p m row : keeps_inputs b now p m (OpOpen row).
Proof.
  intros W Q [Hok Hv] Hq Hm Hd. simpl in *.
  destruct (open_parts b now row p) as [E1 E2]. destruct Hok as (Hr & Hn & _).
  assert (addr_key m <> addr_key (po_market row)) as Hne.
  { intros E. apply Hd. rewrite E. apply open_dirty. by rewrite <- E. }
  eapply (elsewhere_inputs m (po_market row) (po_instrument row)); [apply Hr|done|by apply open_frame..|by left| |].
  - unfold upsert_paper_position_open. simpl. rewrite dirty_frame by done. simpl. by rewrite lookup_insert_ne.
  - intros k x Hx. rewrite E2. split.
    + intros [[_ <-]|[_ H]]%lookup_insert_Some; [by destruct Hne|done].
    + intros H. rewrite lookup_insert_ne; [done|]. congruence.
Qed.

Lemma close_inputs b now p m market position owner block d : keeps_inputs b now p m (OpClose market position owner block d).
Proof.
  intros W Q [Hok Hv] Hq Hm Hd. simpl in *.
  destruct (close_parts b now market position owner block d p) as [E1 E2].
  assert (addr_key m <> addr_key market) as Hne.
  { intros E. apply Hd. rewrite E. apply close_dirty. by rewrite <- E. }
  assert (forall k x, addr_key (po_market x) = addr_key m ->
    p_positions (close_paper_position b now market position owner block d p) !! k = Some x <-> p_positions p !! k = Some x) as HP.
  { intros k x Hx. rewrite E2, lookup_delete_Some. split; [by intros [_ ?]|]. intros H. split; [|done]. intros E.
    destruct (pw_position p W _ _ H) as [Ek (Hp & _)]. rewrite <- E in Ek. apply position_key_inj in Ek as [Ek _]; [|done|done]. congruence. }
  destruct (p_positions p !! paper_position_key market position) as [row|] eqn:Er.
  - destruct (pw_position p W _ _ Er) as [_ (_ & Hi & _)].
    eapply (elsewhere_inputs m market (po_instrument row)); [done|done|by apply close_frame..|left; exact E1| |done].
    by rewrite close_frame.
  - eapply (elsewhere_inputs m market 0 true 0 b now); [by vm_compute|done|by apply close_frame..|by right| |done].
    by rewrite close_frame.
Qed.

Lemma step_inputs b now p op m :
  paper_wf p -> queue_wf p -> view_op_ok p op -> queue_op_ok op -> is_flush op = false -> addr_key m <> ""%string ->
  addr_key m ∉ p_house_dirty (paper_step b now p op) -> same_inputs m p (paper_step b now p op).
Proof.
  intros W Q Hv Hq Hfl Hm Hd. destruct op; try done.
  - simpl in *. unfold mark_paper_stake_dirty. by case_decide; apply same_inputs_frame.
  - by apply oracle_inputs.
  - by apply instrument_inputs.
  - simpl in *. by apply house_inputs.
  - by apply queued_inputs.
  - by apply harvested_inputs.
  - simpl in *. unfold apply_paper_fees_pushed_rewards. by case_decide; apply same_inputs_frame.
  - simpl in *. unfold apply_paper_claimed_reward. by case_decide; apply same_inputs_frame.
  - by apply open_inputs.
  - by apply close_inputs.
Qed.

(** ** The feed *)

Definition house_message (m : string) (msg : PaperMessage) : option PaperHouseView :=
  match msg with MsgPaperHouse h => if decide (hw_market h = m) then Some (hw_house h) else None | _ => None end.

(** The overviews of a market sent so far. *)
Definition house_messages (m : string) (p : Paper) : list PaperHouseView := omap (house_message m) (p_out p).

Lemma messages_publish m msg p : house_messages m (publish msg p) = house_messages m p ++ option_list (house_message m msg).
Proof. unfold house_messages, publish. simpl. rewrite omap_app. simpl. by destruct (house_message m msg). Qed.

Lemma messages_quiet m msg p : house_message m msg = None -> house_messages m (publish msg p) = house_messages m p.
Proof. intros H. by rewrite messages_publish, H, app_nil_r. Qed.

(** Only the flush sends overviews. *)
Lemma step_messages b now p op m :
  (forall pub, op <> OpFlushHouse pub) -> house_messages m (paper_step b now p op) = house_messages m p.
Proof.
  intros Hop. destruct op; simpl; try (exfalso; by eapply Hop); try done.
  - unfold push_paper_activity. by rewrite messages_quiet.
  - unfold mark_paper_stake_dirty. by case_decide.
  - unfold record_oracle_mark. rewrite dirty_price_frame by done. by rewrite messages_quiet.
  - unfold apply_paper_house_after. by rewrite dirty_frame.
  - unfold apply_paper_queued, apply_paper_house_after. by rewrite dirty_frame.
  - unfold apply_paper_harvested, apply_paper_house_after. by rewrite dirty_frame.
  - unfold apply_paper_fees_pushed_rewards. by case_decide.
  - unfold apply_paper_claimed_reward. by case_decide.
  - unfold upsert_paper_position_open. change (house_messages m (on_positions ?f ?q)) with (house_messages m q).
    rewrite dirty_frame by done. unfold publish_paper_lifecycle. by rewrite !messages_quiet.
  - unfold close_paper_position. destruct (close_margin _ _) as [mg mr].
    match goal with |- house_messages _ (if ?c then on_history ?f ?q else ?q) = _ =>
      assert (house_messages m (if c then on_history f q else q) = house_messages m q) as -> by (by destruct c) end.
    rewrite dirty_frame by done. unfold publish_paper_lifecycle. rewrite !messages_quiet by done. by destruct (p_positions p !! _).
  - unfold flush_paper_stake_history. case_decide; [done|].
    rewrite (foldl_frame (house_messages m)); [done|]. intros p' a. unfold flush_stake.
    destruct (parse_token_contract a); [|done]. destruct publish_ws; [by rewrite messages_quiet|done].
Qed.

Lemma flush_house_view pub ts p a m : paper_house_view (flush_house pub ts p a) m = paper_house_view p m.
Proof.
  apply same_view, same_inputs_frame; unfold flush_house, publish; destruct pub; simpl; by apply house_push_frame.
Qed.

Lemma flush_house_messages ts p a m :
  house_messages m (flush_house true ts p a) = house_messages m p ++ (if decide (a = m) then [paper_house_view p m] else []).
Proof.
  unfold flush_house. rewrite messages_publish. unfold house_messages at 1. rewrite house_push_frame by done.
  f_equal. simpl. assert (hv_market (paper_house_view p a) = a) as E.
  { unfold paper_house_view. by destruct (match head _ with Some c => _ | None => _ end). }
  rewrite E. by case_decide as Ha; [subst|].
Qed.

Lemma flush_fold_messages ts l p m : NoDup l ->
  house_messages m (foldl (flush_house true ts) p l) = house_messages m p ++ (if decide (m ∈ l) then [paper_house_view p m] else []).
Proof.
  intros Hl. revert p. induction Hl as [|a l Ha Hl IH]; intros p; cbn [foldl]; [by rewrite app_nil_r|].
  rewrite IH, flush_house_messages, flush_house_view, <- app_assoc. f_equal.
  destruct (decide (a = m)) as [->|Hne].
  - rewrite (decide_False (P := m ∈ l)), decide_True by set_solver. done.
  - destruct (decide (m ∈ l)); [rewrite decide_True by set_solver|rewrite decide_False by set_solver]; done.
Qed.

Lemma flush_messages b now p m :
  house_messages m (flush_paper_house_ws b now true p) =
    house_messages m p ++ (if decide (m ∈ p_house_dirty p) then [paper_house_view p m] else []).
Proof.
  unfold flush_paper_house_ws. case_decide as Hn.
  - rewrite decide_False by (apply elements_empty_inv in Hn; set_solver). by rewrite app_nil_r.
  - rewrite flush_fold_messages by apply NoDup_elements. f_equal.
    rewrite (decide_ext _ (m ∈ p_house_dirty p)) by apply elem_of_elements. by case_decide.
Qed.

Lemma flush_view b now pub p m : paper_house_view (flush_paper_house_ws b now pub p) m = paper_house_view p m.
Proof. apply same_view, same_inputs_frame; by apply flush_house_frame. Qed.

Lemma flush_clean b now pub p : p_house_dirty (flush_paper_house_ws b now pub p) = ∅.
Proof.
  unfold flush_paper_house_ws. case_decide as Hn; [apply elements_empty_inv in Hn; by apply leibniz_equiv|].
  rewrite foldl_frame; [done|]. intros p' a. unfold flush_house, publish. destruct pub; simpl; by apply house_push_frame.
Qed.

(** Marks are never lost before a flush. *)
Lemma step_dirty_mono b now p op : (forall pub, op <> OpFlushHouse pub) -> p_house_dirty p ⊆ p_house_dirty (paper_step b now p op).
Proof.
  assert (forall sp q, p_house_dirty q ⊆ p_house_dirty (mark_paper_house_dirty_for_price_market sp q)) as HP.
  { intros sp q. unfold mark_paper_house_dirty_for_price_market. case_decide; [done|].
    generalize (map_to_list (p_instruments q)). intros l. revert q. induction l as [|e l IH]; intros q; [done|]. simpl.
    etrans; [|apply IH]. case_decide; [|done]. destruct (key_market e.1); [apply dirty_mono|done]. }
  intros Hop. destruct op; simpl; try (exfalso; by eapply Hop); try done.
  - unfold mark_paper_stake_dirty. by case_decide.
  - unfold record_oracle_mark. etrans; [|apply HP]. done.
  - unfold apply_paper_house_after. etrans; [|apply dirty_mono]. done.
  - unfold apply_paper_queued, apply_paper_house_after. etrans; [|apply dirty_mono]. done.
  - unfold apply_paper_harvested, apply_paper_house_after. etrans; [|apply dirty_mono]. done.
  - unfold apply_paper_fees_pushed_rewards. by case_decide.
  - unfold apply_paper_claimed_reward. by case_decide.
  - unfold upsert_paper_position_open. simpl. etrans; [|apply dirty_mono]. done.
  - unfold close_paper_position. destruct (close_margin _ _) as [mg mr].
    match goal with |- _ ⊆ p_house_dirty (if ?c then on_history ?f ?q else ?q) =>
      assert (p_house_dirty (if c then on_history f q else q) = p_house_dirty q) as -> by (by destruct c) end.
    etrans; [|apply dirty_mono]. unfold publish_paper_lifecycle, publish. simpl. by destruct (p_positions p !! _).
  - rewrite flush_stake_frame by done. done.
Qed.

Lemma step_queue b now p op : queue_wf p -> queue_op_ok op -> queue_wf (paper_step b now p op).
Proof.
  intros Q Hop. assert (forall p', p_queue p' = p_queue p -> queue_wf p') as HE by (intros p' E k c; rewrite E; apply Q).
  destruct op; simpl in *; try (by apply HE).
  - apply HE. unfold mark_paper_stake_dirty. by case_decide.
  - apply HE. unfold record_oracle_mark. by rewrite dirty_price_frame.
  - apply HE. unfold apply_paper_house_after. by rewrite dirty_frame.
  - intros k c. unfold apply_paper_queued, apply_paper_house_after. rewrite dirty_frame by done. simpl.
    intros [[<- <-]|[_ H]]%lookup_insert_Some; [done|by apply Q].
  - intros k c. unfold apply_paper_harvested, apply_paper_house_after. rewrite dirty_frame by done. simpl.
    intros [_ H]%lookup_delete_Some. by apply Q.
  - apply HE. unfold apply_paper_fees_pushed_rewards. by case_decide.
  - apply HE. unfold apply_paper_claimed_reward. by case_decide.
  - apply HE. by apply open_frame.
  - apply HE. by apply close_frame.
  - apply HE. by apply flush_house_frame.
  - apply HE. by apply flush_stake_frame.
Qed.

(** A node that publishes: every flush sends. *)
Inductive feed_reach : Paper -> Prop :=
| feed_new persist : feed_reach (Paper_new persist)
| feed_op block_ms now p op :
    feed_reach p -> view_op_ok p op -> queue_op_ok op -> op <> OpFlushHouse false -> feed_reach (paper_step block_ms now p op).

Definition untouched_view (m : string) : PaperHouseView := paper_house_view (Paper_new false) m.

Definition told (p : Paper) (m : string) : Prop :=
  match last (house_messages m p) with Some v => v = paper_house_view p m | None => paper_house_view p m = untouched_view m end.

Lemma feed_reach_inv p :
  feed_reach p -> paper_reach p /\ queue_wf p /\
  (forall m, addr_key m = m -> m <> ""%string -> m ∉ p_house_dirty p -> told p m).
Proof.
  induction 1 as [persist|b now p op _ (R & Q & IH) [Hok Hv] Hq Hpub].
  - split_and!; [constructor|by intros k c|]. intros m _ _ _. red. simpl. apply same_view. by apply same_inputs_frame.
  - split_and!; [by constructor|by apply step_queue|]. intros m Em Hm Hd. unfold told.
    destruct (match op with OpFlushHouse _ => true | _ => false end) eqn:Ef.
    + destruct op as [| | | | | | | | | | |[]|]; try done. simpl. rewrite flush_messages, flush_view, last_app.
      case_decide as Hin; [done|]. simpl. by apply IH.
    + assert (forall pub, op <> OpFlushHouse pub) as Hfl by (intros pub ->; done).
      rewrite step_messages by done.
      assert (m ∉ p_house_dirty p) as Hd0 by (intros Hin; apply Hd; revert Hin; by apply step_dirty_mono).
      assert (paper_house_view (paper_step b now p op) m = paper_house_view p m) as ->; [|by apply IH].
      apply same_view. destruct (is_flush op) eqn:Ei.
      * destruct op; try done. apply same_inputs_frame; by apply flush_stake_frame.
      * apply step_inputs; try done; [by apply paper_reach_wf|by rewrite Em|by rewrite Em].
Qed.

(** The overview feed is never stale: when a block ends with the flush of a
    publishing node, no market is left dirty and for every market the last
    overview sent is the one a query now answers; a market about which nothing
    was ever sent still has the overview of an empty market. *)
Lemma house_feed_current block_ms now p m :
  feed_reach p -> addr_key m = m -> m <> ""%string ->
  let p' := flush_paper_house_ws block_ms now true p in
  p_house_dirty p' = ∅ /\
  match last (house_messages m p') with
  | Some v => v = paper_house_view p' m
  | None => paper_house_view p' m = untouched_view m
  end.
Proof.
  intros R Em Hm p'. unfold p'. rewrite flush_clean. split; [done|]. rewrite flush_messages, flush_view, last_app.
  case_decide as Hin; [done|]. apply feed_reach_inv in R as (_ & _ & H). by apply H.
Qed.

(** ** The payout queue *)

Lemma sum_filter_split {A} (g : A -> Z) (P : A -> Prop) `{!forall a, Decision (P a)} l :
  sum_with g l = sum_with g (filter P l) + sum_with g (filter (fun a => ~ P a) l).
Proof.
  induction l as [|a l IH]; [done|]. rewrite !filter_cons. simpl. rewrite IH.
  destruct (decide (P a)); [rewrite decide_False by tauto|rewrite decide_True by done]; simpl; lia.
Qed.

Lemma sum_filter_le {A} (g : A -> Z) (P : A -> Prop) `{!forall a, Decision (P a)} l :
  Forall (fun a => 0 <= g a) l -> 0 <= sum_with g (filter P l) <= sum_with g l.
Proof.
  intros Hl. assert (forall (Q : A -> Prop) (dQ : forall a, Decision (Q a)), 0 <= sum_with g (filter Q l)) as HN.
  { intros Q ?. apply sum_with_nonneg. apply Forall_forall; intros a [_ Ha]%list_elem_of_filter; rewrite Forall_forall in Hl; by apply Hl. }
  pose proof (HN P _). pose proof (HN (fun a => ~ P a) _). pose proof (sum_filter_split g P l). lia.
Qed.

(** The least index of a list of claims. *)
Lemma first_index (l : list PaperQueueClaim) z x :
  x < foldl (fun m d => Z.min m (qc_index d)) z l <-> x < z /\ Forall (fun d => x < qc_index d) l.
Proof.
  revert z. induction l as [|d l IH]; intros z; simpl; [intuition|]. rewrite IH, Forall_cons. intuition lia.
Qed.

(** The claims of a user, and those of others that are paid before the first
    of them. *)
Definition claims_of (p : Paper) (market owner : string) : list PaperQueueClaim :=
  filter (fun c => qc_user c = user_key owner) (paper_queue_claims_for_market p market).
Definition claims_ahead (p : Paper) (market owner : string) : list PaperQueueClaim :=
  match claims_of p market owner with
  | [] => []
  | mine => filter (fun c => Forall (fun d => qc_index c < qc_index d) mine) (paper_queue_claims_for_market p market)
  end.

Lemma sum_u64_exact (l : list PaperQueueClaim) : 0 <= sum_with qc_amount l <= u64_max -> sum_u64 qc_amount l = sum_with qc_amount l.
Proof. intros H. unfold sum_u64. apply as_u64_id. unfold is_u64. lia. Qed.

(** Nothing of the user's is ahead of all of the user's claims. *)
Lemma ahead_of_others (mine : list PaperQueueClaim) user l :
  Forall (fun c => 0 <= qc_amount c) l -> (forall x, x ∈ l -> qc_user x = user -> x ∈ mine) ->
  sum_with qc_amount (filter (fun c => Forall (fun d => qc_index c < qc_index d) mine) l) <=
  sum_with qc_amount (filter (fun c => ~ qc_user c = user) l).
Proof.
  induction 1 as [|x l Hx Hl IH]; intros Hin; [done|]. rewrite !filter_cons.
  assert (forall y, y ∈ l -> qc_user y = user -> y ∈ mine) as Hin' by (intros; apply Hin; set_solver).
  specialize (IH Hin'). case_decide as Hf; case_decide as Hu; simpl; try lia.
  exfalso. assert (x ∈ mine) as Hxm by (apply Hin; [set_solver|tauto]).
  rewrite Forall_forall in Hf. specialize (Hf x Hxm). lia.
Qed.

(** A user's place in the payout queue: what is queued before the first of
    the user's claims, the user's own claims and the rest add up to the whole
    queue of the market, no 64-bit sum having wrapped. *)
Theorem queue_placement_partitions p m o :
  let claims := paper_queue_claims_for_market p m in
  Forall (fun c => 0 <= qc_amount c) claims -> sum_with qc_amount claims <= u64_max ->
  let q := paper_queue_placement p m o in
  qp_ahead_raw q = sum_with qc_amount (claims_ahead p m o) /\
  qp_yours_raw q = sum_with qc_amount (claims_of p m o) /\
  qp_ahead_raw q + qp_yours_raw q + qp_behind_raw q = sum_with qc_amount claims /\
  qp_in_queue q = bool_decide (claims_of p m o <> []).
Proof.
  cbv zeta. set (claims := paper_queue_claims_for_market p m). intros Ha Ht. unfold paper_queue_placement. fold claims.
  pose proof (sum_filter_le qc_amount (fun c => qc_user c = user_key o) claims Ha) as Hm.
  assert (0 <= sum_with qc_amount claims) as H0 by (by apply sum_with_nonneg).
  unfold claims_ahead. unfold claims_of in *. fold claims in Hm |- *.
  destruct (filter (fun c => qc_user c = user_key o) claims) as [|c rest] eqn:Emine.
  - assert (sum_u64 qc_amount claims = sum_with qc_amount claims) as E by (apply sum_u64_exact; lia). simpl. rewrite E. split_and!; try done.
  - set (mine := c :: rest) in *. assert (bool_decide (mine <> []) = true) as -> by done. simpl.
    rewrite (list_filter_iff (fun c0 => qc_index c0 < _) (fun c0 => Forall (fun d => qc_index c0 < qc_index d) mine)).
    2:{ intros x. rewrite first_index. unfold mine. by rewrite Forall_cons. }
    pose proof (sum_filter_le qc_amount (fun c0 => Forall (fun d => qc_index c0 < qc_index d) mine) claims Ha) as Hb.
    assert (sum_with qc_amount (filter (fun c0 => Forall (fun d => qc_index c0 < qc_index d) mine) claims) +
            sum_with qc_amount mine <= sum_with qc_amount claims) as Hab.
    { rewrite (sum_filter_split qc_amount (fun c0 => qc_user c0 = user_key o) claims), Emine.
      pose proof (ahead_of_others mine (user_key o) claims Ha) as HL.
      assert (forall x, x ∈ claims -> qc_user x = user_key o -> x ∈ mine) as HM.
      { intros x Hx Hu. rewrite <- Emine. by apply list_elem_of_filter. }
      specialize (HL HM). lia. }
    rewrite !sum_u64_exact by lia. split_and!; [done|done| |].
    + unfold sat_sub. lia.
    + done.
Qed.

(** ** Position pages *)

Lemma take_drop_app {A} (l k : list A) limit offset :
  take limit (drop offset (l ++ k)) =
    take limit (drop offset l) ++ take (limit - length (take limit (drop offset l))) (drop (offset - length l) k).
Proof.
  rewrite drop_app, take_app. f_equal. f_equal. rewrite length_take. lia.
Qed.

(** What a page shows, as one list. *)
Definition page_rows (r : list PaperPositionOpen * list PaperPositionHistory * nat) : list (PaperPositionOpen + PaperPositionHistory) :=
  (inl <$> r.1.1) ++ (inr <$> r.1.2).

(** The history table answers a page of its matching rows. *)
Definition answers (closed : option string -> option string -> nat -> nat -> list PaperPositionHistory * nat)
    (hist : option string -> option string -> list PaperPositionHistory) : Prop :=
  forall o m limit offset, closed o m limit offset = (take limit (drop offset (hist o m)), length (hist o m)).

(** Pages of a query for all positions tile one list, the open positions,
    latest first, followed by the closed ones: each page is the slice at its
    offset, at least one row long when there is one, and the total counts both. *)
Theorem positions_all_pages closed hist p q :
  answers closed hist -> pq_status q = StAll ->
  let open_rows := merge_sort (le_of open_cmp)
    (filter (fun row => row_matches (user_key <$> pq_owner q) (addr_key <$> pq_market q) row = true) (map_to_list (p_positions p)).*2) in
  let all := (inl <$> open_rows) ++ (inr <$> hist (user_key <$> pq_owner q) (addr_key <$> pq_market q)) in
  let r := query_paper_positions closed p q in
  page_rows r = take (Z.to_nat (Z.max (pq_limit q) 1)) (drop (Z.to_nat (pq_offset q)) all) /\ r.2 = length all.
Proof.
  cbv zeta. intros Hc Hs. unfold query_paper_positions. rewrite Hs, Hc. unfold page_rows. simpl. split.
  - rewrite take_drop_app. rewrite <- !fmap_drop, <- !fmap_take, !length_fmap. done.
  - by rewrite length_app, !length_fmap.
Qed.

End Views.

(** ** Concrete inputs *)

Definition demo_house : PaperHouseAfter :=
  {| free_cash := 1000; side_bucket := 20; tracked_lp := 1020; tail_hwm := 0; queue_head := 0; queue_tail := 2; total_queued := 30;
     staker_fee_acc := 0; dev_fee_acc := 0; buyback_cash := 0 |}.

(** A position, two claims and a flush. *)
Definition demo_feed : Paper :=
  foldl (paper_step (SD := DemoSdk) 0 5) (Paper_new false)
    [OpOpen (demo_row 0 true 300); OpQueued "mkt" 0 "bob" 10 demo_house; OpFlushHouse true; OpQueued "mkt" 1 "Ann" 20 demo_house].

Lemma demo_feed_reach : feed_reach (SD := DemoSdk) demo_feed.
Proof.
  apply (feed_op 0 5 _ (OpQueued "mkt" 1 "Ann" 20 demo_house)); [|done..].
  apply (feed_op 0 5 _ (OpFlushHouse true)); [|done..].
  apply (feed_op 0 5 _ (OpQueued "mkt" 0 "bob" 10 demo_house)); [|done..].
  apply (feed_op 0 5 _ (OpOpen (demo_row 0 true 300))); [constructor| |done..].
  split; [|done]. split_and!; by vm_compute.
Qed.

Lemma queue_placement_partitions_witness :
  let q := paper_queue_placement (S := DemoSdk) demo_feed "MKT" "ANN" in
  qp_ahead_raw q = 10 /\ qp_yours_raw q = 20 /\ qp_ahead_raw q + qp_yours_raw q + qp_behind_raw q = 30.
Proof.
  destruct (queue_placement_partitions (SD := DemoSdk) demo_feed "MKT" "ANN") as (H1 & H2 & H3 & _); [by apply (bool_decide_unpack _); vm_compute|by vm_compute|].
  split_and!; [rewrite H1|rewrite H2|rewrite H3]; vm_compute; reflexivity.
Defined.

Definition demo_history : PaperPositionHistory := history_row "mkt" 4 9 "1" (demo_row 4 true 100) demo_close.

Lemma positions_all_pages_witness :
  let closed := fun (_ _ : option string) limit offset => (take limit (drop offset [demo_history]), 1%nat) in
  page_rows (query_paper_positions closed demo_feed
    {| pq_owner := Some "ann"%string; pq_market := None; pq_status := StAll; pq_limit := 1; pq_offset := 1 |}) = [inr demo_history].
Proof.
  intros closed.
  destruct (positions_all_pages closed (fun _ _ => [demo_history]) demo_feed
    {| pq_owner := Some "ann"%string; pq_market := None; pq_status := StAll; pq_limit := 1; pq_offset := 1 |}) as [H _]; [done|done|].
  rewrite H. vm_compute. reflexivity.
Defined.
