(* ===== verification/Submit.v ===== *)
(** * Submit: [submit_wait.rs] and [submit_queue.rs], waiting for receipts

    The registry of waiters keyed by transaction digest, with the one-shot
    channels it hands out, and the submit queue: the ingress task, the mempool's
    answers, the receipt wait tasks, block completions and time-outs as events of
    one transition system, in any order. *)
From S2P Require Import Prelude Text Errors.

Local Open Scope list_scope.
Local Open Scope Z_scope.

Section Submit.
Context {Receipt : Type}.

Record SubmitWaitResult := { wr_block_num : Z; wr_receipt : Receipt }.

(** A one-shot channel: nothing sent yet, a value sent, the sender dropped
    without sending, the receiver gone. *)
Inductive Channel := ChOpen | ChSent (r : SubmitWaitResult) | ChDropped | ChClosed.

(** [pending] holds senders; the channels are numbered as they are made. *)
Record SubmitWaitRegistry := {
  sw_pending : gmap string nat;
  sw_channels : gmap nat Channel;
  sw_next : nat
}.

Definition SubmitWaitRegistry_new : SubmitWaitRegistry := {| sw_pending := ∅; sw_channels := ∅; sw_next := 0 |}.

Definition set_pending (f : gmap string nat -> gmap string nat) (r : SubmitWaitRegistry) : SubmitWaitRegistry :=
  {| sw_pending := f (sw_pending r); sw_channels := sw_channels r; sw_next := sw_next r |}.

(** Only an open channel changes. *)
Definition settle_channel (ch : nat) (to : Channel) (r : SubmitWaitRegistry) : SubmitWaitRegistry :=
  match sw_channels r !! ch with
  | Some ChOpen => {| sw_pending := sw_pending r; sw_channels := <[ch := to]> (sw_channels r); sw_next := sw_next r |}
  | _ => r
  end.

(** [pending.insert] drops the sender it replaces. *)
Definition register (r : SubmitWaitRegistry) (digest_hex : string) : SubmitWaitRegistry * nat :=
  let ch := sw_next r in
  let r := match sw_pending r !! digest_hex with Some old => settle_channel old ChDropped r | None => r end in
  ({| sw_pending := <[digest_hex := ch]> (sw_pending r); sw_channels := <[ch := ChOpen]> (sw_channels r); sw_next := S ch |}, ch).

Definition cancel (r : SubmitWaitRegistry) (digest_hex : string) : SubmitWaitRegistry :=
  match sw_pending r !! digest_hex with
  | Some ch => settle_channel ch ChDropped (set_pending (delete digest_hex) r)
  | None => r
  end.

(** Whether a waiter received the result. *)
Definition complete (r : SubmitWaitRegistry) (digest_hex : string) (block_num : Z) (receipt : Receipt) : SubmitWaitRegistry * bool :=
  match sw_pending r !! digest_hex with
  | None => (r, false)
  | Some ch =>
      let r' := set_pending (delete digest_hex) r in
      match sw_channels r !! ch with
      | Some ChOpen => (settle_channel ch (ChSent {| wr_block_num := block_num; wr_receipt := receipt |}) r', true)
      | _ => (r', false)
      end
  end.

(** ** The submit queue *)

Record SubmitTransactionResponse := { sr_digest : string; sr_block_num : Z; sr_receipt : Receipt }.

(** [respond_to] is the number of the request. *)
Record SubmitJob := { sj_request : nat; sj_digest : string }.

(** Queued jobs, the job at the mempool, the wait tasks (each with its channel)
    and the answers given. *)
Record SubmitQueue := {
  sq_capacity : nat;
  sq_requests : nat;
  sq_jobs : list SubmitJob;
  sq_ingress : option (SubmitJob * nat);
  sq_tasks : list (SubmitJob * nat);
  sq_wait : SubmitWaitRegistry;
  sq_answers : list (nat * AppResult SubmitTransactionResponse)
}.

Definition SubmitQueue_create (capacity : nat) : SubmitQueue :=
  {| sq_capacity := capacity; sq_requests := 0; sq_jobs := []; sq_ingress := None; sq_tasks := [];
     sq_wait := SubmitWaitRegistry_new; sq_answers := [] |}.

Inductive SubmitEvent :=
| SeSubmit (digest : string)
| SeTake
| SeMempoolOk
| SeMempoolErr (error : AppError)
| SeComplete (digest : string) (block_num : Z) (receipt : Receipt)
| SeTask (n : nat)
| SeTimeout (n : nat).

(** What a wait task answers once its channel has settled. *)
Definition waiter_dropped (digest : string) : AppError := Internal ("submit waiter dropped for transaction " +:+ digest)%string.
Definition waiter_timeout (digest : string) : AppError :=
  Timeout ("timed out waiting for transaction " +:+ digest +:+ " to be committed")%string.

(** Task [n] ends with an answer. *)
Definition end_task (s : SubmitQueue) (n : nat) (wait : SubmitWaitRegistry) (job : SubmitJob)
    (answer : AppResult SubmitTransactionResponse) : SubmitQueue :=
  {| sq_capacity := sq_capacity s; sq_requests := sq_requests s; sq_jobs := sq_jobs s; sq_ingress := sq_ingress s;
     sq_tasks := delete n (sq_tasks s); sq_wait := wait; sq_answers := sq_answers s ++ [(sj_request job, answer)] |}.

(** [wait_for_receipt]. *)
Definition wait_for_receipt (s : SubmitQueue) (n : nat) : option SubmitQueue :=
  '(job, ch) ← sq_tasks s !! n;
  match sw_channels (sq_wait s) !! ch with
  | Some (ChSent r) =>
      Some (end_task s n (sq_wait s) job
        (Ok {| sr_digest := sj_digest job; sr_block_num := wr_block_num r; sr_receipt := wr_receipt r |}))
  | Some ChDropped => Some (end_task s n (cancel (sq_wait s) (sj_digest job)) job (Err (waiter_dropped (sj_digest job))))
  | _ => None
  end.

(** The time-out wins only while nothing has arrived; the receiver goes with it. *)
Definition wait_timed_out (s : SubmitQueue) (n : nat) : option SubmitQueue :=
  '(job, ch) ← sq_tasks s !! n;
  match sw_channels (sq_wait s) !! ch with
  | Some ChOpen =>
      Some (end_task s n (cancel (settle_channel ch ChClosed (sq_wait s)) (sj_digest job)) job (Err (waiter_timeout (sj_digest job))))
  | _ => None
  end.

(** The queue accepts while it has room; the ingress task registers the waiter
    before it pushes to the mempool. *)
Definition submit_step (s : SubmitQueue) (e : SubmitEvent) : option SubmitQueue :=
  match e with
  | SeSubmit digest =>
      if decide (length (sq_jobs s) < sq_capacity s)%nat then
        Some {| sq_capacity := sq_capacity s; sq_requests := S (sq_requests s);
                sq_jobs := sq_jobs s ++ [{| sj_request := sq_requests s; sj_digest := digest |}]; sq_ingress := sq_ingress s;
                sq_tasks := sq_tasks s; sq_wait := sq_wait s; sq_answers := sq_answers s |}
      else None
  | SeTake =>
      match sq_ingress s, sq_jobs s with
      | None, job :: jobs =>
          let '(wait, ch) := register (sq_wait s) (sj_digest job) in
          Some {| sq_capacity := sq_capacity s; sq_requests := sq_requests s; sq_jobs := jobs; sq_ingress := Some (job, ch);
                  sq_tasks := sq_tasks s; sq_wait := wait; sq_answers := sq_answers s |}
      | _, _ => None
      end
  | SeMempoolOk =>
      match sq_ingress s with
      | Some t => Some {| sq_capacity := sq_capacity s; sq_requests := sq_requests s; sq_jobs := sq_jobs s; sq_ingress := None;
                          sq_tasks := sq_tasks s ++ [t]; sq_wait := sq_wait s; sq_answers := sq_answers s |}
      | None => None
      end
  | SeMempoolErr error =>
      match sq_ingress s with
      | Some (job, ch) =>
          Some {| sq_capacity := sq_capacity s; sq_requests := sq_requests s; sq_jobs := sq_jobs s; sq_ingress := None;
                  sq_tasks := sq_tasks s; sq_wait := cancel (sq_wait s) (sj_digest job);
                  sq_answers := sq_answers s ++ [(sj_request job, Err error)] |}
      | None => None
      end
  | SeComplete digest block_num receipt =>
      Some {| sq_capacity := sq_capacity s; sq_requests := sq_requests s; sq_jobs := sq_jobs s; sq_ingress := sq_ingress s;
              sq_tasks := sq_tasks s; sq_wait := (complete (sq_wait s) digest block_num receipt).1; sq_answers := sq_answers s |}
  | SeTask n => wait_for_receipt s n
  | SeTimeout n => wait_timed_out s n
  end.

Fixpoint submit_run (s : SubmitQueue) (l : list SubmitEvent) : option SubmitQueue :=
  match l with [] => Some s | e :: l => s' ← submit_step s e; submit_run s' l end.

End Submit.
Arguments SubmitWaitResult : clear implicits.
Arguments Channel : clear implicits.
Arguments SubmitWaitRegistry : clear implicits.
Arguments SubmitTransactionResponse : clear implicits.
Arguments SubmitQueue : clear implicits.
Arguments SubmitEvent : clear implicits.
