(* ===== verification/SubmitFacts.v ===== *)
(** * SubmitFacts: every submission is answered once, by its own receipt

    An invariant ties the registry to the waits in flight; the theorems say what
    clients are answered, that nothing leaks, and what a duplicate submission of
    one transaction does. *)
From S2P Require Import Prelude Text Errors Submit.

Local Open Scope list_scope.
Local Open Scope Z_scope.

Section Registry.
Context {Receipt : Type}.
Implicit Types (r : SubmitWaitRegistry Receipt) (T : list (string * nat)).

(** The registry against the waits in flight, their digests and channels. *)
Record reg_inv r T : Prop := {
  ri_pending d ch : sw_pending r !! d = Some ch -> (d, ch) ∈ T /\ sw_channels r !! ch = Some ChOpen;
  ri_live d ch : (d, ch) ∈ T -> exists st, sw_channels r !! ch = Some st /\ st <> ChClosed /\ (st = ChOpen -> sw_pending r !! d = Some ch);
  ri_inj d d' ch : (d, ch) ∈ T -> (d', ch) ∈ T -> d = d';
  ri_next ch : is_Some (sw_channels r !! ch) -> (ch < sw_next r)%nat
}.

Lemma reg_inv_set r T T' : (forall x, x ∈ T <-> x ∈ T') -> reg_inv r T -> reg_inv r T'.
Proof.
  intros E [H1 H2 H3 H4]. split; [|setoid_rewrite <- E..|]; try done. intros d ch Hp. rewrite <- E. by apply H1.
Qed.

Lemma reg_inv_new : reg_inv SubmitWaitRegistry_new [].
Proof. split; simpl; [intros *; by rewrite lookup_empty|set_solver|set_solver|]. intros ch [? H]. by rewrite lookup_empty in H. Qed.

(** Settling one open channel. *)
Lemma settle_lookup r ch to ch' :
  sw_channels r !! ch = Some ChOpen ->
  sw_channels (settle_channel ch to r) !! ch' = if decide (ch' = ch) then Some to else sw_channels r !! ch'.
Proof.
  intros E. unfold settle_channel. rewrite E. simpl. case_decide as H; [by rewrite H, lookup_insert_eq|by rewrite lookup_insert_ne].
Qed.

Lemma settle_pending r ch to : sw_pending (settle_channel ch to r) = sw_pending r.
Proof. unfold settle_channel. by destruct (sw_channels r !! ch) as [[]|]. Qed.

Lemma settle_next r ch to : sw_next (settle_channel ch to r) = sw_next r.
Proof. unfold settle_channel. by destruct (sw_channels r !! ch) as [[]|]. Qed.

(** A digest leaves the registry and its channel settles. *)
Lemma settle_inv r T d ch to :
  reg_inv r T -> sw_pending r !! d = Some ch -> to <> ChOpen -> to <> ChClosed ->
  reg_inv (settle_channel ch to (set_pending (delete d) r)) T.
Proof.
  intros [H1 H2 H3 H4] Hp Ho Hc. destruct (H1 _ _ Hp) as [HT Hch].
  assert (forall ch', sw_channels (settle_channel ch to (set_pending (delete d) r)) !! ch' = if decide (ch' = ch) then Some to else sw_channels r !! ch') as HL
    by (intros; by rewrite settle_lookup).
  split.
  - intros d' ch'. rewrite settle_pending, HL. simpl. intros [Hne Hp']%lookup_delete_Some. destruct (H1 _ _ Hp') as [HT' Hch'].
    split; [done|]. case_decide as E; [|done]. subst ch'. by destruct Hne; apply (H3 _ _ ch).
  - intros d' ch' HT'. destruct (H2 _ _ HT') as (st & Hst & Hcl & Hop). rewrite HL, settle_pending. simpl.
    case_decide as E; [by exists to|]. exists st. split_and!; [done|done|]. intros ->. rewrite lookup_delete_ne; [by apply Hop|].
    intros <-. apply E. specialize (Hop eq_refl). congruence.
  - done.
  - intros ch'. rewrite HL, settle_next. simpl. case_decide as E; [|apply H4]. subst ch'. intros _. by apply H4.
Qed.

Lemma cancel_inv r T d : reg_inv r T -> reg_inv (cancel r d) T.
Proof. intros H. unfold cancel. destruct (sw_pending r !! d) as [ch|] eqn:E; [|done]. by apply settle_inv. Qed.

Lemma complete_inv r T d n x : reg_inv r T -> reg_inv (complete r d n x).1 T.
Proof.
  intros H. unfold complete. destruct (sw_pending r !! d) as [ch|] eqn:E; [|done].
  destruct (ri_pending _ _ H _ _ E) as [_ Ho]. rewrite Ho. by apply settle_inv.
Qed.

Lemma register_keeps_inv r T d : reg_inv r T -> reg_inv (register r d).1 ((d, sw_next r) :: T).
Proof.
  intros H. unfold register. set (r1 := match sw_pending r !! d with Some old => _ | None => _ end).
  set (r2 := set_pending (delete d) r1). assert (reg_inv r2 T) as [H1 H2 H3 H4].
  { unfold r2, r1. destruct (sw_pending r !! d) as [old|] eqn:E.
    - assert (set_pending (delete d) (settle_channel old ChDropped r) = settle_channel old ChDropped (set_pending (delete d) r)) as ->.
      { unfold settle_channel. simpl. by destruct (sw_channels r !! old) as [[]|]. }
      by apply settle_inv.
    - destruct H as [G1 G2 G3 G4]. split; simpl; try done; rewrite delete_id by done; done. }
  assert (sw_next r1 = sw_next r) as En by (unfold r1; destruct (sw_pending r !! d); [apply settle_next|done]).
  assert (forall x, is_Some (sw_channels r1 !! x) -> (x < sw_next r)%nat) as Hlt by (intros x; rewrite <- En; apply (H4 x)).
  assert (sw_channels r1 !! sw_next r = None) as Hfresh by (apply eq_None_not_Some; intros Hs; apply Hlt in Hs; lia).
  assert (forall d', (d', sw_next r) ∉ T) as HnT.
  { intros d' HT. destruct (H2 _ _ HT) as (st & Hst & _). simpl in Hst. congruence. }
  split; simpl.
  - intros d' ch' [[<- <-]|[Hne Hp]]%lookup_insert_Some; [rewrite lookup_insert_eq; split; [set_solver|done]|].
    destruct (H1 d' ch') as [HT Ho]; [simpl; by rewrite lookup_delete_ne|]. split; [set_solver|].
    rewrite lookup_insert_ne; [done|]. intros <-. by apply (HnT d').
  - intros d' ch' [[= -> ->]|HT]%elem_of_cons; [exists ChOpen; rewrite !lookup_insert_eq; split_and!; done|].
    destruct (H2 _ _ HT) as (st & Hst & Hcl & Hop). exists st. rewrite lookup_insert_ne by (intros <-; by apply (HnT d')).
    split_and!; [done|done|]. intros ->. specialize (Hop eq_refl). simpl in Hop. apply lookup_delete_Some in Hop as [Hne Hp].
    by rewrite lookup_insert_ne.
  - intros d1 d2 ch [E1|HT1]%elem_of_cons [E2|HT2]%elem_of_cons; simplify_eq; try done; [by destruct (HnT d2)|by destruct (HnT d1)|].
    by apply (H3 _ _ ch).
  - intros ch'. rewrite lookup_insert_is_Some'. intros [<-|Hs]; [lia|]. apply Hlt in Hs. lia.
Qed.

(** A wait ends: its channel has settled or its digest has been cancelled. *)
Lemma leave_inv r T T' d ch :
  reg_inv r T -> (forall x, x ∈ T' -> x ∈ T) -> (forall x, x ∈ T -> x = (d, ch) \/ x ∈ T') -> sw_pending r !! d <> Some ch ->
  reg_inv r T'.
Proof.
  intros [H1 H2 H3 H4] Hs Hs' Hp. split; [|intros; by apply H2, Hs|intros d1 d2 c ? ?; eapply H3; by apply Hs|done].
  intros d' ch' Hp'. destruct (H1 _ _ Hp') as [HT Ho]. split; [|done]. destruct (Hs' _ HT) as [[= -> ->]|]; [by destruct Hp|done].
Qed.

Lemma close_cancel r d ch :
  sw_pending r !! d = Some ch -> sw_channels r !! ch = Some ChOpen ->
  cancel (settle_channel ch ChClosed r) d = set_pending (delete d) (settle_channel ch ChClosed r).
Proof.
  intros Hp Ho. unfold cancel. rewrite settle_pending, Hp. unfold settle_channel at 1. simpl. rewrite settle_lookup by done.
  by rewrite decide_True by done.
Qed.

Lemma timeout_inv r T T' d ch :
  reg_inv r T -> (d, ch) ∈ T -> sw_channels r !! ch = Some ChOpen ->
  (forall x, x ∈ T' -> x ∈ T /\ x.2 <> ch) -> (forall x, x ∈ T -> x = (d, ch) \/ x ∈ T') ->
  reg_inv (cancel (settle_channel ch ChClosed r) d) T'.
Proof.
  intros H HT Ho Hs Hs'. pose proof H as [H1 H2 H3 H4]. destruct (H2 _ _ HT) as (st & Hst & _ & Hop).
  assert (sw_pending r !! d = Some ch) as Hp by (apply Hop; congruence). rewrite close_cancel by done. split; simpl; rewrite ?settle_pending.
  - intros d' ch' [Hne Hp']%lookup_delete_Some. destruct (H1 _ _ Hp') as [HT' Ho']. split.
    + destruct (Hs' _ HT') as [[= -> ->]|]; done.
    + rewrite settle_lookup by done. rewrite decide_False; [done|]. intros ->. by destruct Hne; apply (H3 _ _ ch).
  - intros d' ch' HT'. destruct (Hs _ HT') as [HT0 Hne]. simpl in Hne. destruct (H2 _ _ HT0) as (st' & Hst' & Hcl & Hop').
    exists st'. rewrite settle_lookup, decide_False by done. split_and!; [done|done|]. intros ->. rewrite lookup_delete_ne; [by apply Hop'|].
    intros <-. specialize (Hop' eq_refl). congruence.
  - intros d1 d2 c HT1 HT2. eapply H3; by apply Hs.
  - intros ch'. rewrite settle_lookup, settle_next by done. case_decide as E; [|apply H4]. subst ch'. intros _. by apply H4.
Qed.

End Registry.

(** ** The queue *)

Section Queue.
Context {Receipt : Type}.
Implicit Types (s : SubmitQueue Receipt) (l : list (SubmitEvent Receipt)).

(** States with the events that led to them. *)
Inductive submit_reach (cap : nat) : list (SubmitEvent Receipt) -> SubmitQueue Receipt -> Prop :=
| sr_init : submit_reach cap [] (SubmitQueue_create cap)
| sr_step l s e s' : submit_reach cap l s -> submit_step s e = Some s' -> submit_reach cap (l ++ [e]) s'.

Lemma run_reach cap l l0 s s' : submit_reach cap l0 s -> submit_run s l = Some s' -> submit_reach cap (l0 ++ l) s'.
Proof.
  revert l0 s. induction l as [|e l IH]; intros l0 s Hr Hs; simpl in Hs; [injection Hs as <-; by rewrite app_nil_r|].
  destruct (submit_step s e) as [s1|] eqn:E; [|done]. replace (l0 ++ e :: l) with ((l0 ++ [e]) ++ l) by (by rewrite <- app_assoc).
  eapply IH; [|exact Hs]. by eapply sr_step.
Qed.

Definition tickets s : list (SubmitJob * nat) := option_list (sq_ingress s) ++ sq_tasks s.
Definition waits s : list (string * nat) := (fun t => (sj_digest t.1, t.2)) <$> tickets s.
Definition job_requests s : list nat := (sj_request <$> sq_jobs s) ++ (sj_request ∘ fst <$> tickets s) ++ (sq_answers s).*1.

(** The digest of each request, by number. *)
Definition submitted l : list string := omap (fun e => match e with SeSubmit d => Some d | _ => None end) l.

Record submit_inv l s : Prop := {
  si_reg : reg_inv (sq_wait s) (waits s);
  si_nodup : NoDup (tickets s).*2;
  si_count : sq_requests s = length (submitted l);
  si_requests : job_requests s ≡ₚ seq 0 (sq_requests s);
  si_jobs j : j ∈ sq_jobs s -> submitted l !! sj_request j = Some (sj_digest j);
  si_tickets t : t ∈ tickets s -> submitted l !! sj_request t.1 = Some (sj_digest t.1);
  si_sent t r : t ∈ tickets s -> sw_channels (sq_wait s) !! t.2 = Some (ChSent r) ->
    SeComplete (sj_digest t.1) (wr_block_num r) (wr_receipt r) ∈ l;
  si_answers q x : (q, Ok x) ∈ sq_answers s ->
    submitted l !! q = Some (sr_digest x) /\ SeComplete (sr_digest x) (sr_block_num x) (sr_receipt x) ∈ l
}.

Lemma submitted_app l e : submitted (l ++ [e]) = submitted l ++ (match e with SeSubmit d => [d] | _ => [] end).
Proof. unfold submitted. rewrite omap_app. by destruct e. Qed.

(** A later event leaves what was known of the requests. *)
Lemma submitted_mono l e q d : submitted l !! q = Some d -> submitted (l ++ [e]) !! q = Some d.
Proof. intros H. rewrite submitted_app. by apply lookup_app_l_Some. Qed.

Lemma elem_snoc l e (x : SubmitEvent Receipt) : x ∈ l -> x ∈ l ++ [e].
Proof. set_solver. Qed.

Lemma waits_elem s d ch : (d, ch) ∈ waits s <-> exists j, (j, ch) ∈ tickets s /\ sj_digest j = d.
Proof.
  unfold waits. rewrite list_elem_of_fmap. split.
  - intros ([j c] & [= -> ->] & H). by exists j.
  - intros (j & H & <-). by exists (j, ch).
Qed.

(** Channels whose status a registry operation on a digest may change. *)
Lemma cancel_sent (r : SubmitWaitRegistry Receipt) d ch x : sw_channels (cancel r d) !! ch = Some (ChSent x) -> sw_channels r !! ch = Some (ChSent x).
Proof.
  unfold cancel. destruct (sw_pending r !! d) as [c|]; [|done]. unfold settle_channel. simpl.
  destruct (sw_channels r !! c) as [[]|] eqn:E; simpl; try done. rewrite lookup_insert_Some. intros [[<- ?]|[_ H]]; done.
Qed.

Lemma settle_sent (r : SubmitWaitRegistry Receipt) c to ch x :
  sw_channels (settle_channel c to r) !! ch = Some (ChSent x) -> (c = ch /\ to = ChSent x) \/ sw_channels r !! ch = Some (ChSent x).
Proof.
  unfold settle_channel. destruct (sw_channels r !! c) as [[]|] eqn:E; simpl; try (by right). rewrite lookup_insert_Some.
  intros [[<- ?]|[_ H]]; [by left|by right].
Qed.

Lemma register_sent (r : SubmitWaitRegistry Receipt) d ch x :
  sw_channels (register r d).1 !! ch = Some (ChSent x) -> sw_channels r !! ch = Some (ChSent x).
Proof.
  unfold register. simpl. intros [[_ ?]|[_ H]]%lookup_insert_Some; [done|]. destruct (sw_pending r !! d); [|done].
  by apply settle_sent in H as [[_ ?]|H].
Qed.

Lemma complete_sent (r : SubmitWaitRegistry Receipt) d n x ch y :
  sw_channels (complete r d n x).1 !! ch = Some (ChSent y) ->
  sw_channels r !! ch = Some (ChSent y) \/ (sw_pending r !! d = Some ch /\ y = {| wr_block_num := n; wr_receipt := x |}).
Proof.
  unfold complete. destruct (sw_pending r !! d) as [c|]; [|by left]. destruct (sw_channels r !! c) as [[]|] eqn:E; simpl; try (by left).
  intros [[<- [= <-]]|H]%settle_sent; [by right|by left].
Qed.

(** The parts of the invariant that only grow with the trace. *)
Lemma inv_weaken l e s :
  submit_inv l s -> (forall d, e <> SeSubmit d) -> submit_inv (l ++ [e]) s.
Proof.
  intros [I1 I2 I3 I4 I5 I6 I7 I8] He. assert (submitted (l ++ [e]) = submitted l) as E.
  { rewrite submitted_app. destruct e; try apply app_nil_r. by destruct (He digest). }
  split; rewrite ?E; try done.
  - intros t r Ht Hr. by apply elem_snoc, I7.
  - intros q x Hx. destruct (I8 _ _ Hx). split; [done|by apply elem_snoc].
Qed.

(** A wait that ends: everything but the registry and the answer. *)
Lemma answer_inv l s s' job ch answer :
  submit_inv l s -> tickets s ≡ₚ (job, ch) :: tickets s' ->
  sq_jobs s' = sq_jobs s -> sq_requests s' = sq_requests s -> sq_answers s' = sq_answers s ++ [(sj_request job, answer)] ->
  (forall T', (forall x, x ∈ T' -> x ∈ waits s /\ x.2 <> ch) -> (forall x, x ∈ waits s -> x = (sj_digest job, ch) \/ x ∈ T') -> reg_inv (sq_wait s') T') ->
  (forall c x, sw_channels (sq_wait s') !! c = Some (ChSent x) -> sw_channels (sq_wait s) !! c = Some (ChSent x)) ->
  (forall x, answer = Ok x -> sr_digest x = sj_digest job /\ SeComplete (sr_digest x) (sr_block_num x) (sr_receipt x) ∈ l) ->
  submit_inv l s'.
Proof.
  intros [I1 I2 I3 I4 I5 I6 I7 I8] HP EJ EN EA HR HS HA.
  assert (forall t, t ∈ tickets s' -> t ∈ tickets s) as Hsub by (intros t Ht; rewrite HP; apply elem_of_cons; by right).
  assert ((job, ch) ∈ tickets s) as Hin by (rewrite HP; apply elem_of_cons; by left).
  rewrite HP in I2. simpl in I2. apply NoDup_cons in I2 as [Hnew I2].
  assert (submitted l !! sj_request job = Some (sj_digest job)) as Hjob by (by apply (I6 _ Hin)).
  split; rewrite ?EJ, ?EN, ?EA; try done.
  - apply HR.
    + intros [d c] (j & Hj & <-)%waits_elem. split; [apply waits_elem; exists j; by split; [apply Hsub|]|].
      simpl. intros ->. apply Hnew, list_elem_of_fmap. by exists (j, ch).
    + intros [d c] (j & Hj & <-)%waits_elem. rewrite HP in Hj. apply elem_of_cons in Hj as [[= -> ->]|Hj]; [by left|].
      right. apply waits_elem. by exists j.
  - rewrite <- I4. unfold job_requests. rewrite EJ, EA, HP, fmap_app. simpl.
    apply Permutation_app_head. rewrite (assoc_L (++)). by rewrite <- Permutation_cons_append.
  - intros t Ht. by apply I6, Hsub.
  - intros t r Ht Hr. apply (I7 t r); [by apply Hsub|by apply HS].
  - intros q x [Hx|[= -> Hx]%list_elem_of_singleton]%elem_of_app; [by apply I8|]. destruct (HA x) as [E1 E2]; [done|]. by rewrite E1 in *.
Qed.

Lemma task_ticket s n t wait job answer : sq_tasks s !! n = Some t -> tickets s ≡ₚ t :: tickets (end_task s n wait job answer).
Proof. intros H. unfold tickets. simpl. rewrite Permutation_middle. f_equiv. by apply delete_Permutation. Qed.

(** Cancelling the digest of a wait that is leaving. *)
Lemma cancel_leaves (r : SubmitWaitRegistry Receipt) T d ch T' :
  reg_inv r T -> (forall x, x ∈ T' -> x ∈ T /\ x.2 <> ch) -> (forall x, x ∈ T -> x = (d, ch) \/ x ∈ T') -> reg_inv (cancel r d) T'.
Proof.
  intros H Hs Hs'. apply (leave_inv _ T _ d ch); [by apply cancel_inv|by intros x Hx; apply Hs|done|].
  unfold cancel. destruct (sw_pending r !! d) as [c|] eqn:E; [|congruence]. rewrite settle_pending. simpl. by rewrite lookup_delete_eq.
Qed.

(** One lemma per event; the trace matters to two of them only. *)
Lemma submit_keeps l s d s' : submit_inv l s -> submit_step s (SeSubmit d) = Some s' -> submit_inv (l ++ [SeSubmit d]) s'.
Proof.
  intros I Hs. simpl in Hs. case_decide as Hc; [|done]. injection Hs as <-.
  destruct I as [I1 I2 I3 I4 I5 I6 I7 I8]. split; simpl; try done.
  - rewrite submitted_app, length_app, I3. simpl. lia.
  - change (0%nat :: seq 1 (sq_requests s)) with (seq 0 (S (sq_requests s))). rewrite seq_S, <- I4.
    unfold job_requests. simpl. rewrite fmap_app. simpl.
    rewrite <- (assoc_L (++)). simpl. rewrite <- Permutation_middle. apply Permutation_cons_append.
  - intros j [Hj| ->%list_elem_of_singleton]%elem_of_app; [by apply submitted_mono, I5|]. simpl.
    rewrite submitted_app, lookup_app_r by lia. by rewrite I3, Nat.sub_diag.
  - intros t Ht. by apply submitted_mono, I6.
  - intros t r Ht Hr. by apply elem_snoc, I7.
  - intros q x Hx. destruct (I8 _ _ Hx). split; [by apply submitted_mono|by apply elem_snoc].
Qed.

Lemma take_keeps l s s' : submit_inv l s -> submit_step s SeTake = Some s' -> submit_inv l s'.
Proof.
  intros I Hs. unfold submit_step in Hs. destruct (sq_ingress s) as [t|] eqn:Ei; [done|]. destruct (sq_jobs s) as [|job jobs] eqn:Ej; [done|].
  pose proof (register_keeps_inv (sq_wait s) (waits s) (sj_digest job) (si_reg _ _ I)) as HR.
  pose proof (register_sent (sq_wait s) (sj_digest job)) as HS.
  destruct (register (sq_wait s) (sj_digest job)) as [w ch] eqn:Er. injection Hs as <-.
  assert (ch = sw_next (sq_wait s)) as -> by (unfold register in Er; congruence).
  assert (tickets s = sq_tasks s) as Et by (unfold tickets; by rewrite Ei).
  destruct I as [I1 I2 I3 I4 I5 I6 I7 I8]. rewrite Ej in I5. split; simpl; try done.
  - unfold waits in *. rewrite Et in HR. exact HR.
  - unfold tickets. simpl. rewrite Et in I2. apply NoDup_cons. split; [|done]. intros ([j c] & E & Hc)%list_elem_of_fmap. simpl in E. subst c.
    destruct (ri_live _ _ I1 (sj_digest j) (sw_next (sq_wait s))) as (st & Hst & _); [apply waits_elem; exists j; by rewrite Et|].
    assert (sw_next (sq_wait s) < sw_next (sq_wait s))%nat by (by apply (ri_next _ _ I1)). lia.
  - rewrite <- I4. unfold job_requests, tickets. simpl. rewrite Ej, Ei. simpl. by rewrite <- Permutation_middle.
  - intros j Hj. apply I5. set_solver.
  - intros t [->|Ht]%elem_of_cons; simpl; [apply I5; set_solver|]. apply I6. by rewrite Et.
  - intros t r [->|Ht]%elem_of_cons Hr; simpl in *.
    + exfalso. apply HS in Hr. assert (sw_next (sq_wait s) < sw_next (sq_wait s))%nat by (by apply (ri_next _ _ I1)). lia.
    + apply (I7 t r); [by rewrite Et|by apply HS].
Qed.

Lemma mempool_ok_keeps l s s' : submit_inv l s -> submit_step s SeMempoolOk = Some s' -> submit_inv l s'.
Proof.
  intros I Hs. unfold submit_step in Hs. destruct (sq_ingress s) as [t|] eqn:Ei; [|done]. injection Hs as <-.
  set (s' := Build_SubmitQueue _ _ _ _ _ _ _). assert (tickets s' ≡ₚ tickets s) as HP.
  { unfold tickets, s'. simpl. rewrite Ei. simpl. symmetry; apply Permutation_cons_append. }
  destruct I as [I1 I2 I3 I4 I5 I6 I7 I8]. split; simpl; try done.
  - apply (reg_inv_set _ (waits s)); [|done]. intros [d c]. rewrite !waits_elem. by setoid_rewrite HP.
  - by rewrite HP.
  - rewrite <- I4. unfold job_requests. simpl. by rewrite HP.
  - intros t' Ht. rewrite HP in Ht. by apply I6.
  - intros t' r Ht. rewrite HP in Ht. by apply I7.
Qed.

Lemma mempool_err_keeps l s err s' : submit_inv l s -> submit_step s (SeMempoolErr err) = Some s' -> submit_inv l s'.
Proof.
  intros I Hs. unfold submit_step in Hs. destruct (sq_ingress s) as [[job ch]|] eqn:Ei; [|done]. injection Hs as <-.
  eapply (answer_inv _ s _ job ch); [done|unfold tickets; simpl; by rewrite Ei|done|done|done| |simpl; intros c x; apply cancel_sent|done].
  intros T' HT HT'. eapply cancel_leaves; [apply (si_reg _ _ I)|done|done].
Qed.

Lemma complete_keeps l s d n x s' : SeComplete d n x ∈ l -> submit_inv l s -> submit_step s (SeComplete d n x) = Some s' -> submit_inv l s'.
Proof.
  intros Hin I Hs. unfold submit_step in Hs. injection Hs as <-. pose proof (complete_inv (sq_wait s) (waits s) d n x (si_reg _ _ I)) as HR.
  pose proof (complete_sent (sq_wait s) d n x) as HC. pose proof (si_reg _ _ I) as Hreg.
  destruct I as [I1 I2 I3 I4 I5 I6 I7 I8]. split; simpl; try done. intros [j c] r Ht Hr. simpl in *.
  destruct (HC _ _ Hr) as [Hr'|[Hp ->]]; [by apply (I7 (j, c))|]. simpl.
  destruct (ri_pending _ _ Hreg _ _ Hp) as [HT _]. assert (sj_digest j = d) as ->; [|exact Hin].
  apply (ri_inj _ _ Hreg _ _ c); [apply waits_elem; by exists j|done].
Qed.

Lemma task_keeps l s n s' : submit_inv l s -> submit_step s (SeTask n) = Some s' -> submit_inv l s'.
Proof.
  intros I Hs. unfold submit_step in Hs. unfold wait_for_receipt in Hs. destruct (sq_tasks s !! n) as [[job ch]|] eqn:En; [|done]. simpl in Hs.
  assert ((job, ch) ∈ tickets s) as Ht by (unfold tickets; apply elem_of_app; right; by eapply list_elem_of_lookup_2).
  destruct (sw_channels (sq_wait s) !! ch) as [[|r| |]|] eqn:Ec; try done; injection Hs as <-;
    (eapply (answer_inv _ s _ job ch); [done|by apply task_ticket|done|done|done|..]); simpl; try done.
  - intros T' HT HT'. apply (leave_inv _ (waits s) _ (sj_digest job) ch); [apply (si_reg _ _ I)|by intros y Hy; apply HT|done|].
    intros Hp. destruct (ri_pending _ _ (si_reg _ _ I) _ _ Hp) as [_ Ho]. congruence.
  - intros y [= <-]. simpl. split; [done|]. by apply (si_sent _ _ I (job, ch) r).
  - intros T' HT HT'. eapply cancel_leaves; [apply (si_reg _ _ I)|done|done].
  - intros c y. apply cancel_sent.
Qed.

Lemma timeout_keeps l s n s' : submit_inv l s -> submit_step s (SeTimeout n) = Some s' -> submit_inv l s'.
Proof.
  intros I Hs. unfold submit_step in Hs. unfold wait_timed_out in Hs. destruct (sq_tasks s !! n) as [[job ch]|] eqn:En; [|done]. simpl in Hs.
  assert ((job, ch) ∈ tickets s) as Ht by (unfold tickets; apply elem_of_app; right; by eapply list_elem_of_lookup_2).
  destruct (sw_channels (sq_wait s) !! ch) as [[|r| |]|] eqn:Ec; try done; injection Hs as <-.
  eapply (answer_inv _ s _ job ch); [done|by apply task_ticket|done|done|done|..]; simpl; try done.
  - intros T' HT HT'. eapply timeout_inv; [apply (si_reg _ _ I)| |done|exact HT|exact HT']. apply waits_elem. by exists job.
  - intros c y Hy%cancel_sent. by apply settle_sent in Hy as [[_ ?]|?].
Qed.

Lemma step_inv l s e s' : submit_inv l s -> submit_step s e = Some s' -> submit_inv (l ++ [e]) s'.
Proof.
  intros I Hs. destruct (match e with SeSubmit _ => true | _ => false end) eqn:Es.
  { destruct e as [d| | | | | |]; try done. by eapply submit_keeps. }
  apply (inv_weaken l e) in I; [|intros d ->; done].
  destruct e; [done|by eapply take_keeps|by eapply mempool_ok_keeps|by eapply mempool_err_keeps|..|by eapply task_keeps|by eapply timeout_keeps].
  eapply complete_keeps; [|exact I|exact Hs]. set_solver.
Qed.

Lemma reach_inv cap l s : submit_reach cap l s -> submit_inv l s.
Proof.
  induction 1 as [|l s e s' _ IH Hs]; [|by eapply step_inv].
  split; simpl; try done; [apply reg_inv_new|by constructor|set_solver..].
Qed.

(** C14: clients are answered faithfully: under every interleaving of requests,
    mempool answers, blocks, wait tasks and time-outs, each request is answered
    at most once, a receipt answers only the request of its own digest and is one
    that a block completed that digest with, and the registry holds only waits
    still in flight. *)
Theorem submit_answers_faithful cap l s :
  submit_reach cap l s ->
  NoDup (sq_answers s).*1 /\
  (forall q x, (q, Ok x) ∈ sq_answers s ->
     submitted l !! q = Some (sr_digest x) /\ SeComplete (sr_digest x) (sr_block_num x) (sr_receipt x) ∈ l) /\
  (forall d ch, sw_pending (sq_wait s) !! d = Some ch -> exists job, (job, ch) ∈ tickets s /\ sj_digest job = d).
Proof.
  intros I%reach_inv. split_and!.
  - pose proof (NoDup_seq 0 (sq_requests s)) as H. rewrite <- (si_requests _ _ I) in H. unfold job_requests in H.
    by apply NoDup_app in H as (_ & _ & (_ & _ & H)%NoDup_app).
  - apply (si_answers _ _ I).
  - intros d ch Hp. destruct (ri_pending _ _ (si_reg _ _ I) _ _ Hp) as [H _]. by apply waits_elem.
Qed.

(** ** One submission at a time of each transaction *)

Definition in_flight s (d : string) : Prop := d ∈ (sj_digest <$> sq_jobs s) ++ (waits s).*1.

Inductive unique_reach (cap : nat) : list (SubmitEvent Receipt) -> SubmitQueue Receipt -> Prop :=
| ur_init : unique_reach cap [] (SubmitQueue_create cap)
| ur_step l s e s' : unique_reach cap l s -> (forall d, e = SeSubmit d -> ~ in_flight s d) -> submit_step s e = Some s' ->
    unique_reach cap (l ++ [e]) s'.

Lemma unique_submit cap l s : unique_reach cap l s -> submit_reach cap l s.
Proof. induction 1; [constructor|by eapply sr_step]. Qed.

Record unique_inv s : Prop := {
  un_distinct : NoDup ((sj_digest <$> sq_jobs s) ++ (waits s).*1);
  un_live t : t ∈ waits s -> sw_channels (sq_wait s) !! t.2 <> Some ChDropped
}.

(** A channel is dropped only by an operation on the digest it is pending under. *)
Lemma cancel_dropped (r : SubmitWaitRegistry Receipt) d ch :
  sw_channels (cancel r d) !! ch = Some ChDropped -> sw_channels r !! ch = Some ChDropped \/ sw_pending r !! d = Some ch.
Proof.
  unfold cancel. destruct (sw_pending r !! d) as [c|]; [|by left]. unfold settle_channel. simpl.
  destruct (sw_channels r !! c) as [[]|]; simpl; try (by left). intros [[<- _]|[_ H]]%lookup_insert_Some; [by right|by left].
Qed.

Lemma settle_dropped (r : SubmitWaitRegistry Receipt) c to ch :
  to <> ChDropped -> sw_channels (settle_channel c to r) !! ch = Some ChDropped -> sw_channels r !! ch = Some ChDropped.
Proof.
  intros Hto. unfold settle_channel. destruct (sw_channels r !! c) as [[]|]; simpl; try done.
  by intros [[_ ?]|[_ H]]%lookup_insert_Some.
Qed.

Lemma unique_leaves s s' job ch :
  unique_inv s -> tickets s ≡ₚ (job, ch) :: tickets s' -> sq_jobs s' = sq_jobs s ->
  (forall c, sw_channels (sq_wait s') !! c = Some ChDropped -> sw_channels (sq_wait s) !! c = Some ChDropped \/
     sw_pending (sq_wait s) !! sj_digest job = Some c) ->
  reg_inv (sq_wait s) (waits s) -> unique_inv s'.
Proof.
  intros [U1 U2] HP EJ HC HR.
  assert (waits s ≡ₚ (sj_digest job, ch) :: waits s') as HW by (unfold waits; by rewrite HP).
  pose proof HW as HW1. apply (fmap_Permutation fst) in HW1. simpl in HW1.
  assert (NoDup ((sj_digest job) :: (sj_digest <$> sq_jobs s') ++ (waits s').*1)) as HN.
  { rewrite EJ, Permutation_middle. by rewrite <- HW1. }
  apply NoDup_cons in HN as [Hnew HN]. split; [done|]. intros [d c] Hx Hd. simpl in Hd.
  assert ((d, c) ∈ waits s) as Hin by (rewrite HW; apply elem_of_cons; by right).
  destruct (HC _ Hd) as [H|Hp]; [by apply (U2 _ Hin)|]. destruct (ri_pending _ _ HR _ _ Hp) as [Hin' _].
  assert (d = sj_digest job) as -> by (by apply (ri_inj _ _ HR _ _ c)). apply Hnew, elem_of_app. right.
  apply list_elem_of_fmap. by exists (sj_digest job, c).
Qed.

Lemma unique_step l s e s' :
  submit_inv l s -> unique_inv s -> (forall d, e = SeSubmit d -> ~ in_flight s d) -> submit_step s e = Some s' -> unique_inv s'.
Proof.
  intros I U He Hs. pose proof (si_reg _ _ I) as HR. destruct e as [d| | |err|d n x|n|n]; unfold submit_step in Hs.
  - case_decide; [|done]. injection Hs as <-. destruct U as [U1 U2]. split; [|done]. simpl. specialize (He d eq_refl). unfold in_flight in He.
    rewrite fmap_app. simpl. rewrite <- (assoc_L (++)). simpl. rewrite <- Permutation_middle. by apply NoDup_cons.
  - destruct (sq_ingress s) as [t|] eqn:Ei; [done|]. destruct (sq_jobs s) as [|job jobs] eqn:Ej; [done|].
    assert (tickets s = sq_tasks s) as Et by (unfold tickets; by rewrite Ei). destruct U as [U1 U2]. rewrite Ej in U1.
    assert (sw_pending (sq_wait s) !! sj_digest job = None) as Hn.
    { apply eq_None_not_Some. intros [ch Hp]. destruct (ri_pending _ _ HR _ _ Hp) as [Hin _]. simpl in U1.
      apply NoDup_cons in U1 as [Hnew _]. apply Hnew, elem_of_app. right. apply list_elem_of_fmap. by exists (sj_digest job, ch). }
    unfold register in Hs. rewrite Hn in Hs. injection Hs as <-. set (s' := Build_SubmitQueue _ _ _ _ _ _ _).
    assert (waits s' = (sj_digest job, sw_next (sq_wait s)) :: waits s) as Ew by (unfold waits; by rewrite Et).
    split; [rewrite Ew|]; simpl.
    + by rewrite <- Permutation_middle.
    + intros t Ht. rewrite Ew in Ht. intros [[_ ?]|[_ Hd]]%lookup_insert_Some; [done|].
      apply elem_of_cons in Ht as [->|Ht]; simpl in *; [|by apply (U2 t)].
      assert (sw_next (sq_wait s) < sw_next (sq_wait s))%nat by (by apply (ri_next _ _ HR)). lia.
  - destruct (sq_ingress s) as [t|] eqn:Ei; [|done]. injection Hs as <-.
    set (s' := Build_SubmitQueue _ _ _ _ _ _ _). assert (tickets s' ≡ₚ tickets s) as HP.
    { unfold tickets, s'. simpl. rewrite Ei. simpl. symmetry. apply Permutation_cons_append. }
    assert (waits s' ≡ₚ waits s) as HW by (unfold waits; by rewrite HP). destruct U as [U1 U2]. split; simpl.
    + by rewrite HW.
    + intros t'. rewrite HW. apply U2.
  - destruct (sq_ingress s) as [[job ch]|] eqn:Ei; [|done]. injection Hs as <-.
    eapply (unique_leaves s _ job ch); [done|unfold tickets; simpl; by rewrite Ei|done|simpl; apply cancel_dropped|done].
  - injection Hs as <-. destruct U as [U1 U2]. split; [done|]. intros t Ht Hd. apply (U2 t Ht). simpl in Hd.
    unfold complete in Hd. destruct (sw_pending (sq_wait s) !! d) as [c|]; [|done].
    destruct (sw_channels (sq_wait s) !! c) as [[]|]; simpl in Hd; try done. by apply settle_dropped in Hd.
  - unfold wait_for_receipt in Hs. destruct (sq_tasks s !! n) as [[job ch]|] eqn:En; [|done]. simpl in Hs.
    destruct (sw_channels (sq_wait s) !! ch) as [[|r| |]|]; try done; injection Hs as <-;
      (eapply (unique_leaves s _ job ch); [done|by apply task_ticket|done| |done]); simpl; [by left|apply cancel_dropped].
  - unfold wait_timed_out in Hs. destruct (sq_tasks s !! n) as [[job ch]|] eqn:En; [|done]. simpl in Hs.
    destruct (sw_channels (sq_wait s) !! ch) as [[|r| |]|]; try done; injection Hs as <-.
    eapply (unique_leaves s _ job ch); [done|by apply task_ticket|done| |done]. simpl.
    intros c [H|H]%cancel_dropped; [left; by apply settle_dropped in H|right; by rewrite settle_pending in H].
Qed.

Lemma unique_reach_inv cap l s : unique_reach cap l s -> unique_inv s.
Proof.
  induction 1 as [|l s e s' Hr IH He Hs]; [split; [constructor|set_solver]|].
  eapply unique_step; [by eapply reach_inv, unique_submit|done|done|done].
Qed.

(** Where an error answer comes from. *)
Lemma step_error s e s' q err :
  submit_step s e = Some s' -> (q, Err err) ∈ sq_answers s' ->
  (q, Err err) ∈ sq_answers s \/ e = SeMempoolErr err \/ (exists d, err = waiter_timeout d) \/
  exists t, t ∈ waits s /\ sw_channels (sq_wait s) !! t.2 = Some ChDropped.
Proof.
  intros Hs Hin. destruct e as [d| | |e|d n x|n|n]; unfold submit_step in Hs.
  - case_decide; [|done]. injection Hs as <-. by left.
  - destruct (sq_ingress s); [done|]. destruct (sq_jobs s); [done|]. destruct (register _ _). injection Hs as <-. by left.
  - destruct (sq_ingress s); [|done]. injection Hs as <-. by left.
  - destruct (sq_ingress s) as [[job ch]|]; [|done]. injection Hs as <-. simpl in Hin.
    apply elem_of_app in Hin as [Hin|[= -> ->]%list_elem_of_singleton]; [by left|by right; left].
  - injection Hs as <-. by left.
  - unfold wait_for_receipt in Hs. destruct (sq_tasks s !! n) as [[job ch]|] eqn:En; [|done]. simpl in Hs.
    assert ((sj_digest job, ch) ∈ waits s) as Ht.
    { apply waits_elem. exists job. split; [|done]. unfold tickets. apply elem_of_app. right. by eapply list_elem_of_lookup_2. }
    destruct (sw_channels (sq_wait s) !! ch) as [[|r| |]|] eqn:Ec; try done; injection Hs as <-; simpl in Hin;
      apply elem_of_app in Hin as [Hin|Hin%list_elem_of_singleton]; try (by left).
    right; right; right. by exists (sj_digest job, ch).
  - unfold wait_timed_out in Hs. destruct (sq_tasks s !! n) as [[job ch]|] eqn:En; [|done]. simpl in Hs.
    destruct (sw_channels (sq_wait s) !! ch) as [[|r| |]|] eqn:Ec; try done; injection Hs as <-. simpl in Hin.
    apply elem_of_app in Hin as [Hin|[= -> ->]%list_elem_of_singleton]; [by left|]. right; right; left. by eexists.
Qed.

Lemma dropped_not_timeout d d' : waiter_dropped d <> waiter_timeout d'.
Proof. done. Qed.

(** C18: as long as no transaction is submitted again while it is in flight,
    every waiting request is served: its wait is registered, or holds a receipt
    that a block completed its digest with; a block that completes its digest
    makes the receipt its only possible answer, a time-out no longer being one;
    and no request is told that its waiter was dropped (a mempool's own error
    apart). *)
Theorem unique_waiters_served cap l s :
  unique_reach cap l s ->
  (forall job ch, (job, ch) ∈ tickets s ->
     (sw_channels (sq_wait s) !! ch = Some ChOpen /\ sw_pending (sq_wait s) !! sj_digest job = Some ch) \/
     exists r, sw_channels (sq_wait s) !! ch = Some (ChSent r) /\ SeComplete (sj_digest job) (wr_block_num r) (wr_receipt r) ∈ l) /\
  (forall n job ch b x, sq_tasks s !! n = Some (job, ch) -> sw_channels (sq_wait s) !! ch = Some ChOpen ->
     exists s1 s2, submit_step s (SeComplete (sj_digest job) b x) = Some s1 /\ submit_step s1 (SeTimeout n) = None /\
       submit_step s1 (SeTask n) = Some s2 /\
       sq_answers s2 = sq_answers s ++ [(sj_request job, Ok {| sr_digest := sj_digest job; sr_block_num := b; sr_receipt := x |})]) /\
  (forall q d, (q, Err (waiter_dropped d)) ∈ sq_answers s -> SeMempoolErr (waiter_dropped d) ∈ l).
Proof.
  intros H. pose proof (reach_inv _ _ _ (unique_submit _ _ _ H)) as I. pose proof (unique_reach_inv _ _ _ H) as U. split_and!.
  - intros job ch Ht. assert ((sj_digest job, ch) ∈ waits s) as Hw by (apply waits_elem; by exists job).
    destruct (ri_live _ _ (si_reg _ _ I) _ _ Hw) as (st & Hst & Hcl & Hop). destruct st as [|r| |]; try done.
    + left. split; [done|by apply Hop].
    + right. exists r. split; [done|]. by apply (si_sent _ _ I (job, ch) r).
    + by destruct (un_live _ U _ Hw).
  - intros n job ch b x Hn Ho. assert ((sj_digest job, ch) ∈ waits s) as Hw.
    { apply waits_elem. exists job. split; [|done]. unfold tickets. apply elem_of_app. right. by eapply list_elem_of_lookup_2. }
    destruct (ri_live _ _ (si_reg _ _ I) _ _ Hw) as (st & Hst & _ & Hop). assert (st = ChOpen) as -> by congruence.
    eexists _, _. split; [done|]. unfold submit_step, wait_timed_out, wait_for_receipt. simpl. unfold complete. rewrite (Hop eq_refl), Ho. simpl.
    rewrite Hn. simpl. rewrite settle_lookup by done. rewrite decide_True by done. split_and!; done.
  - clear I U. induction H as [|l s e s' Hr IH He Hs]; [set_solver|]. intros q d Hin.
    destruct (step_error _ _ _ _ _ Hs Hin) as [Hin'|[->|[[d' Hd]|(t & Ht & Hd)]]].
    + apply elem_snoc. by eapply IH.
    + set_solver.
    + by destruct (dropped_not_timeout d d').
    + by destruct (un_live _ (unique_reach_inv _ _ _ Hr) _ Ht).
Qed.

Lemma run_cons s e s1 l r : submit_step s e = Some s1 -> submit_run s1 l = r -> submit_run s (e :: l) = r.
Proof. intros E H. simpl. by rewrite E. Qed.

#[local] Ltac run_step :=
  eapply run_cons;
  [unfold submit_step, wait_for_receipt, wait_timed_out, end_task, register, cancel, complete, settle_channel, set_pending; simpl;
   repeat (first [rewrite lookup_empty | rewrite lookup_insert_eq | rewrite lookup_delete_eq | rewrite lookup_insert_ne by done |
                  rewrite lookup_delete_ne by done]; simpl);
   reflexivity|].

(** Submitting a transaction again while its first submission waits loses
    the receipt for both: the second registration drops the first waiter, whose
    failure path cancels the digest, and with it the second registration; the
    block that then carries the transaction finds no waiter and both requests
    are answered with an error. *)
Theorem duplicate_submit_loses_both d b (x : Receipt) :
  exists s,
    submit_run (SubmitQueue_create 8)
      [SeSubmit d; SeSubmit d; SeTake; SeMempoolOk; SeTake; SeMempoolOk; SeTask 0; SeComplete d b x; SeTask 0] = Some s /\
    sq_tasks s = [] /\ sq_answers s = [(0%nat, Err (waiter_dropped d)); (1%nat, Err (waiter_dropped d))].
Proof.
  eexists. split; [|split].
  { unfold SubmitQueue_create, SubmitWaitRegistry_new. do 9 run_step. reflexivity. }
  all: done.
Qed.

(** Traces by evaluation. *)
#[global] Instance in_flight_dec s d : Decision (in_flight s d).
Proof. unfold in_flight. apply _. Defined.

Definition resubmits s (e : SubmitEvent Receipt) : bool := match e with SeSubmit d => bool_decide (in_flight s d) | _ => false end.

Fixpoint unique_run s l : option (SubmitQueue Receipt) :=
  match l with
  | [] => Some s
  | e :: l => if resubmits s e then None else s' ← submit_step s e; unique_run s' l
  end.

Lemma unique_run_reach cap l l0 s s' : unique_reach cap l0 s -> unique_run s l = Some s' -> unique_reach cap (l0 ++ l) s'.
Proof.
  revert l0 s. induction l as [|e l IH]; intros l0 s Hr Hs; cbn [unique_run] in Hs; [injection Hs as <-; by rewrite app_nil_r|].
  destruct (resubmits s e) eqn:Hd; [done|]. destruct (submit_step s e) as [s1|] eqn:E; [|done].
  replace (l0 ++ e :: l) with ((l0 ++ [e]) ++ l) by (by rewrite <- app_assoc).
  eapply IH; [|exact Hs]. eapply ur_step; [done| |done]. intros d ->. by apply bool_decide_eq_false in Hd.
Qed.

End Queue.

(** A request served and one timed out. *)
Definition demo_trace : list (SubmitEvent unit) :=
  [SeSubmit "d1"; SeSubmit "d2"; SeTake; SeMempoolOk; SeTake; SeMempoolOk; SeComplete "d1" 7 tt; SeTask 0; SeTimeout 0].
Definition demo_queue : SubmitQueue unit := default (SubmitQueue_create 4) (unique_run (SubmitQueue_create 4) demo_trace).

Lemma demo_queue_reach : unique_reach 4 demo_trace demo_queue.
Proof. apply (unique_run_reach 4 demo_trace [] (SubmitQueue_create 4)); [constructor|]. vm_compute. reflexivity. Qed.

Lemma submit_answers_faithful_witness :
  sq_answers demo_queue !! 0%nat = Some (0%nat, Ok {| sr_digest := "d1"; sr_block_num := 7; sr_receipt := tt |}) /\
  submitted demo_trace !! 0%nat = Some "d1"%string.
Proof.
  split; [vm_compute; reflexivity|].
  destruct (submit_answers_faithful 4 demo_trace demo_queue (unique_submit _ _ _ demo_queue_reach)) as (_ & H & _).
  apply (H 0%nat {| sr_digest := "d1"; sr_block_num := 7; sr_receipt := tt |}). vm_compute. left.
Defined.

(** Before the block: the first wait is registered. *)
Definition demo_waiting : SubmitQueue unit := default (SubmitQueue_create 4) (unique_run (SubmitQueue_create 4) (take 4 demo_trace)).

Lemma unique_waiters_served_witness :
  exists s1 s2, submit_step demo_waiting (SeComplete "d1" 7 tt) = Some s1 /\ submit_step s1 (SeTimeout 0) = None /\
    submit_step s1 (SeTask 0) = Some s2 /\ sq_answers s2 = [(0%nat, Ok {| sr_digest := "d1"; sr_block_num := 7; sr_receipt := tt |})].
Proof.
  assert (unique_reach 4 (take 4 demo_trace) demo_waiting) as H.
  { apply (unique_run_reach 4 (take 4 demo_trace) [] (SubmitQueue_create 4)); [constructor|]. vm_compute. reflexivity. }
  destruct (unique_waiters_served 4 _ _ H) as (_ & H2 & _).
  apply (H2 0%nat {| sj_request := 0; sj_digest := "d1" |} 0%nat 7 tt); vm_compute; reflexivity.
Defined.
