(* ===== verification/Events.v ===== *)
(** * Events: receipt blocks and the events the processor decodes

    The chain's receipts as the SDK delivers them ([ReceiptBlock], its
    transactions and their events), the event payloads with the fields the code
    reads, and [bincode::deserialize] for each payload, a parameter. *)
From Stdlib Require Import Strings.Byte.
From S2P Require Import Prelude Text Errors Sdk Books Paper.

Local Open Scope list_scope.
Local Open Scope Z_scope.

Section Events.
Context {SD : Sdk}.

(** ** Order events *)

Inductive OrderEventType := OtLimit (price : Z) | OtMarket | OtTrigger (limit_price : Z).

Record OrderCreatedEvent := {
  oc_order_id : OrderId; oc_creator : Address; oc_market : Address; oc_side : OrderSide; oc_amount : Z;
  oc_order_type : OrderEventType; oc_cloid : option string
}.
Record OrderCancelledEvent := { on_order_id : OrderId; on_side : OrderSide; on_price : Z; on_cancelled_amount : Z }.
Record OrderUpdatedEvent := {
  ou_order_id : OrderId; ou_side : OrderSide; ou_price : Z; ou_old_amount : Z; ou_new_amount : Z; ou_remaining_amount : Z
}.
Record OrderFilledEvent := {
  of_order_id : OrderId; of_market : ContractAddress; of_side : OrderSide; of_price : Z; of_fill_amount : Z;
  of_remaining_amount : Z; of_is_fully_filled : bool; of_cloid : option string
}.
Record MarketOrderExecutedEvent := {
  oe_order_id : OrderId; oe_creator : Address; oe_side : OrderSide; oe_amount : Z; oe_filled_amount : Z;
  oe_avg_filled_price : option Z
}.

(** ** Market, vault, oracle and paper events *)

Record EventContractCreatedEvent := {
  ec_market_address : ContractAddress; ec_question : string; ec_collateral_token : ContractAddress; ec_yes_token : ContractAddress;
  ec_no_token : ContractAddress; ec_yes_spot_market : ContractAddress; ec_no_spot_market : ContractAddress; ec_state : string;
  ec_resolution_deadline : Z; ec_creator : Address
}.
Record VaultCreatedEvent := {
  vc_vault : ContractAddress; vc_name : string; vc_manager : Address; vc_quote_token : ContractAddress; vc_share_token : ContractAddress
}.
Record OracleCommittedEvent := { or_round : Z; or_oracle_price : Z; or_mark_price : Z }.
Record PaperInstrumentAddedEvent := {
  ia_market : ContractAddress; ia_instrument : Z; ia_name : string; ia_price_market : ContractAddress
}.
Record PaperOpenedEvent := {
  pd_market : ContractAddress; pd_position : Z; pd_owner : Address; pd_instrument : Z; pd_is_long : bool; pd_margin : Z;
  pd_notional : Z; pd_entry_price : Z; pd_bust_price : Z; pd_funded_from_queued : bool; pd_house : PaperHouseAfter
}.
Record PaperClosedEvent := {
  pc_market : ContractAddress; pc_position : Z; pc_owner : Address; pc_exit_price : Z; pc_fee : Z; pc_payout : Z; pc_queued : Z;
  pc_minted : Z; pc_pnl : Z; pc_house : PaperHouseAfter
}.
Record PaperLiquidatedEvent := {
  pl_market : ContractAddress; pl_position : Z; pl_owner : Address; pl_exit_price : Z; pl_minted : Z; pl_margin : Z;
  pl_liquidator : Address; pl_house : PaperHouseAfter
}.
Record PaperQueuedEvent := {
  qu_market : ContractAddress; qu_index : Z; qu_user : Address; qu_amount : Z; qu_house : PaperHouseAfter
}.
Record PaperHarvestedEvent := { hv_event_market : ContractAddress; hv_event_index : Z; hv_event_house : PaperHouseAfter }.
Record PaperFeesPushedEvent := {
  fp_market : ContractAddress; fp_staker_fee : Z; fp_swept_stakers : Z; fp_house : PaperHouseAfter
}.
Record PaperClaimedEvent := { cl_market : ContractAddress; cl_user : Address; cl_reward : Z }.
(** [PaperStakedEvent] and [PaperUnstakedEvent]. *)
Record PaperStakeEvent := { ps_market : ContractAddress; ps_user : Address; ps_amount : Z }.

(** ** Receipts *)

Inductive EventType := Call (action_name : string) | OtherType.
Inductive EventData := Bytes (data : list byte) | OtherData.

Record TransactionEvent := { ev_event_type : EventType; ev_data : EventData; ev_contract : option ContractAddress }.
Record TransactionReceipt := { rc_events : list TransactionEvent; rc_is_success : bool }.
(** Digests are hex-encoded, as the code uses them. *)
Record TransactionResult := {
  tr_signed_digest : string; tr_sender : Address; tr_is_success : bool; tr_receipt : TransactionReceipt
}.
Record ReceiptBlock := {
  rb_block_num : Z; rb_digest : string; rb_timestamp : Z; rb_transaction_outputs : list TransactionResult
}.

(** [bincode::deserialize], per payload; an error is [None]. *)
Class Bincode := {
  de_order_created : list byte -> option OrderCreatedEvent;
  de_order_cancelled : list byte -> option OrderCancelledEvent;
  de_order_updated : list byte -> option OrderUpdatedEvent;
  de_order_filled : list byte -> option OrderFilledEvent;
  de_market_order_executed : list byte -> option MarketOrderExecutedEvent;
  de_event_contract_created : list byte -> option EventContractCreatedEvent;
  de_event_contract_resolved : list byte -> option ContractAddress;
  de_vault_created : list byte -> option VaultCreatedEvent;
  de_vault_deposited : list byte -> option (ContractAddress * Z);
  de_vault_withdrawn : list byte -> option (ContractAddress * Z);
  de_vault_manager_updated : list byte -> option (ContractAddress * Address);
  de_vault_deposit_permission_updated : list byte -> option (ContractAddress * bool);
  de_vault_closed : list byte -> option ContractAddress;
  de_market_created : list byte -> option (string * ContractAddress * Address);
  de_oracle_committed : list byte -> option OracleCommittedEvent;
  de_paper_instrument_added : list byte -> option PaperInstrumentAddedEvent;
  de_paper_opened : list byte -> option PaperOpenedEvent;
  de_paper_closed : list byte -> option PaperClosedEvent;
  de_paper_liquidated : list byte -> option PaperLiquidatedEvent;
  de_paper_queued : list byte -> option PaperQueuedEvent;
  de_paper_harvested : list byte -> option PaperHarvestedEvent;
  de_paper_fees_pushed : list byte -> option PaperFeesPushedEvent;
  de_paper_claimed : list byte -> option PaperClaimedEvent;
  de_paper_staked : list byte -> option PaperStakeEvent;
  de_paper_unstaked : list byte -> option PaperStakeEvent
}.

End Events.
