(* ===== verification/Store.v ===== *)
(** * Store: [persist/store.rs] and [persist/op.rs], the SQLite stores

    Each table is a map from its primary key to the other columns, so that
    [INSERT OR REPLACE] and [ON CONFLICT DO UPDATE] are insertions; columns of
    type INTEGER hold i64 values.  The stores of receipt blocks and of history
    (closed candles, house history, order history, position history), with the
    operations queued for them and their encoding.  JSON (serde) and the wire
    format of blocks (bincode) are the parameters [Json] and [BlockCodec].  The
    copies of the index tables in the history database, which no code path
    reads or writes any more, are in IndexSqlite.  I/O errors are left out. *)
From Stdlib Require Import Strings.Byte.
From S2P Require Import Prelude Text Errors Sdk Keys Domain WriteSet Rings Paper Events.

Local Open Scope list_scope.
Local Open Scope Z_scope.

(** [serde_json::to_string] and [from_str] of the two payloads stored as text. *)
Class Json := {
  order_to_json : Order -> option string;
  order_from_json : string -> option Order;
  position_to_json : PaperPositionHistory -> option string;
  position_from_json : string -> option PaperPositionHistory
}.

(** What is written can be read back. *)
Class JsonLaws `{J : Json} : Prop := {
  order_json o s : order_to_json o = Some s -> order_from_json s = Some o;
  position_json h s : position_to_json h = Some s -> position_from_json s = Some h
}.

(** [bincode] and [serde_json] of a receipt block. *)
Class BlockCodec `{!Sdk} := {
  bincode_serialize : ReceiptBlock -> option (list byte);
  bincode_deserialize : list byte -> option ReceiptBlock;
  json_deserialize : list byte -> option ReceiptBlock
}.

Class BlockCodecLaws `{K : BlockCodec} : Prop := {
  block_codec b p : bincode_serialize b = Some p -> bincode_deserialize p = Some b
}.

(** ** Time series tables: a group and a timestamp are the primary key *)

Notation Series G V := (gmap (G * Z) V).

Section Series.
Context {G V : Type} `{Countable G}.

(** The rows of one group, [ORDER BY ts ASC] and [DESC]. *)
Definition group_rows (t : Series G V) (g : G) : list (Z * V) :=
  (fun p => (p.1.2, p.2)) <$> filter (fun p => p.1.1 = g) (map_to_list t).
Definition asc (x y : Z * V) : Prop := x.1 <= y.1.
Definition desc (x y : Z * V) : Prop := y.1 <= x.1.
#[global] Instance asc_dec x y : Decision (asc x y) := decide (x.1 <= y.1).
#[global] Instance desc_dec x y : Decision (desc x y) := decide (y.1 <= x.1).
Definition rows_desc (t : Series G V) (g : G) : list (Z * V) := merge_sort desc (group_rows t g).

(** [DELETE ... WHERE ts < (SELECT MIN(ts) FROM (... ORDER BY ts DESC LIMIT keep))];
    the minimum of no rows is NULL, which deletes nothing. *)
Definition trim_rows (t : Series G V) (g : G) (keep : nat) : Series G V :=
  match last (take keep (rows_desc t g)) with
  | Some oldest => filter (fun p => ~ (p.1.1 = g /\ p.1.2 < oldest.1)) t
  | None => t
  end.

(** [SELECT ... WHERE ts >= from AND ts <= to ORDER BY ts DESC LIMIT limit], the
    result reversed. *)
Definition range_query (t : Series G V) (g : G) (from to : Z) (limit : nat) : list (Z * V) :=
  reverse (take limit (merge_sort desc (filter (fun x => from <= x.1 <= to) (group_rows t g)))).

End Series.

(** ** Rows *)

Record BlockRow := { br_digest : string; br_payload : list byte; br_saved_at_ms : Z }.
Notation BlockStore := (gmap Z BlockRow).

Record BarRow := {
  bw_open : Z; bw_high : Z; bw_low : Z; bw_close : Z; bw_volume : Z; bw_trade_count : Z
}.
Record HouseRow := { hr_funds : string; hr_lp_balance : Z; hr_open_house_pnl : Z; hr_queue_debt : Z }.
Record HistoryRow := {
  hi_user_address : string; hi_chain_order_id : string; hi_spot_market : string; hi_size_raw : Z; hi_filled_raw : Z;
  hi_status : string; hi_payload : string; hi_status_ts_ms : Z
}.
Record PositionRow := { pr_owner : string; pr_closed_block : Z; pr_payload : string }.

Record StateStore := {
  ss_bars : Series (string * string) BarRow;
  ss_house : Series string HouseRow;
  ss_orders : gmap string HistoryRow;
  ss_positions : gmap (string * Z) PositionRow
}.

Definition StateStore_empty : StateStore := {| ss_bars := ∅; ss_house := ∅; ss_orders := ∅; ss_positions := ∅ |}.

Definition with_bars f (s : StateStore) : StateStore :=
  {| ss_bars := f (ss_bars s); ss_house := ss_house s; ss_orders := ss_orders s; ss_positions := ss_positions s |}.
Definition with_house f (s : StateStore) : StateStore :=
  {| ss_bars := ss_bars s; ss_house := f (ss_house s); ss_orders := ss_orders s; ss_positions := ss_positions s |}.
Definition with_history f (s : StateStore) : StateStore :=
  {| ss_bars := ss_bars s; ss_house := ss_house s; ss_orders := f (ss_orders s); ss_positions := ss_positions s |}.
Definition with_positions f (s : StateStore) : StateStore :=
  {| ss_bars := ss_bars s; ss_house := ss_house s; ss_orders := ss_orders s; ss_positions := f (ss_positions s) |}.

Section Store.
Context {SD : Sdk} {J : Json} {K : BlockCodec}.

(** ** Receipt blocks: [BlockStore] *)

Definition delete_blocks_through (s : BlockStore) (block_num : Z) : BlockStore :=
  filter (fun p => ~ p.1 <= as_i64 block_num) s.

Definition save_block (now_ms : Z) (s : BlockStore) (block_num : Z) (digest : string) (payload : list byte) : BlockStore :=
  <[as_i64 block_num := {| br_digest := digest; br_payload := payload; br_saved_at_ms := now_ms |}]> s.

Definition by_block_num (x y : Z * BlockRow) : Prop := x.1 <= y.1.
#[global] Instance by_block_num_dec x y : Decision (by_block_num x y) := decide (x.1 <= y.1).

Definition block_entry (p : Z * BlockRow) : Z * string * list byte := (as_u64 p.1, br_digest p.2, br_payload p.2).

(** [limit] is tested after a row has been pushed. *)
Definition load_blocks_after (s : BlockStore) (after_block_num : option Z) (limit : option nat) : list (Z * string * list byte) :=
  let rows := match after_block_num with
              | Some n => filter (fun p => as_i64 n < p.1) (map_to_list s)
              | None => map_to_list s
              end in
  let out := block_entry <$> merge_sort by_block_num rows in
  match limit with Some lim => take (Nat.max 1 lim) out | None => out end.

Definition delete_blocks_after (s : BlockStore) (after_block_num : Z) : BlockStore :=
  filter (fun p => ~ as_i64 after_block_num < p.1) s.

(** ** Queued operations: [persist/op.rs] *)

Inductive PersistOp :=
| SaveReceiptBlock (block : ReceiptBlock)
| UpsertOrderHistory (row : PersistOrderRow)
| SaveClosedBar (bar : ClosedBarRow)
| SavePaperHouseHistory (row : PaperHouseHistoryRow)
| SavePaperPositionHistory (row : PaperPositionHistory)
| IndexWrite (ws : IndexWriteSet).

Inductive EncodedPersistOp :=
| EncSaveBlockBytes (block_num : Z) (digest : string) (payload : list byte)
| EncUpsertOrderHistory (order_id user_address chain_order_id spot_market : string) (size_raw filled_raw : Z)
    (status payload : string)
| EncSaveClosedBar (bar : ClosedBarRow)
| EncSavePaperHouseHistory (row : PaperHouseHistoryRow)
| EncSavePaperPositionHistory (market : string) (position : Z) (owner : string) (closed_block : Z) (payload : string).

Definition encode_block_payload (block : ReceiptBlock) : AppResult (list byte) :=
  match bincode_serialize block with Some p => Ok p | None => Err (Internal "encode block payload") end.

(** Bincode first, then JSON. *)
Definition decode_block_payload (block_num : Z) (payload : list byte) : AppResult ReceiptBlock :=
  match bincode_deserialize payload with
  | Some block => Ok block
  | None => match json_deserialize payload with
            | Some block => Ok block
            | None => Err (Internal ("decode peer block " +:+ dec block_num)%string)
            end
  end.

Definition encode_persist_op (op : PersistOp) : AppResult EncodedPersistOp :=
  match op with
  | SaveReceiptBlock block =>
      payload ← encode_block_payload block; Ok (EncSaveBlockBytes (rb_block_num block) (rb_digest block) payload)
  | UpsertOrderHistory row =>
      match order_to_json (por_order row) with
      | Some payload =>
          Ok (EncUpsertOrderHistory (uuid_to_string (ord_id (por_order row))) (to_ascii_lowercase (trim (por_user_address row)))
                (por_chain_order_id row) (normalize_spot_market_key (por_spot_market row)) (as_i64 (por_size_raw row))
                (as_i64 (por_filled_raw row)) (ord_status (por_order row)) payload)
      | None => Err (Internal "serialize order history")
      end
  | SaveClosedBar bar => Ok (EncSaveClosedBar bar)
  | SavePaperHouseHistory row => Ok (EncSavePaperHouseHistory row)
  | SavePaperPositionHistory row =>
      match position_to_json row with
      | Some payload => Ok (EncSavePaperPositionHistory (ph_market row) (as_i64 (ph_position row)) (ph_owner row)
                              (as_i64 (ph_closed_block row)) payload)
      | None => Err (Internal "serialize paper position history")
      end
  | IndexWrite _ => Err (Internal "index write must use dedicated index-write pipeline")
  end.

(** One transaction: an operation of the wrong kind rolls everything back. *)
Definition apply_encoded_blocks_batch (now_ms : Z) (s : BlockStore) (ops : list EncodedPersistOp) : AppResult BlockStore :=
  foldl (fun r op =>
    s ← r;
    match op with
    | EncSaveBlockBytes n digest payload => Ok (save_block now_ms s n digest payload)
    | _ => Err (Internal "non-block op in blocks batch")
    end) (Ok s) ops.

(** ** History: [StateStore] *)

Definition bar_key (bar : ClosedBarRow) : string * string := (normalize_spot_market_key (cb_spot_market bar), cb_interval bar).
Definition bar_row (bar : ClosedBarRow) : BarRow :=
  {| bw_open := as_i64 (cb_open_raw bar); bw_high := as_i64 (cb_high_raw bar); bw_low := as_i64 (cb_low_raw bar);
     bw_close := as_i64 (cb_close_raw bar); bw_volume := as_i64 (cb_volume_raw bar);
     bw_trade_count := as_i64 (cb_trade_count bar) |}.
Definition save_closed_bar (t : Series (string * string) BarRow) (bar : ClosedBarRow) : Series (string * string) BarRow :=
  <[(bar_key bar, as_i64 (cb_start_ts bar)) := bar_row bar]> t.
Definition trim_bars (t : Series (string * string) BarRow) (spot_market interval : string) (keep : nat) :
    Series (string * string) BarRow :=
  trim_rows t (normalize_spot_market_key spot_market, interval) (Nat.max keep 1).

Definition house_key (market : string) : string := to_ascii_lowercase (trim market).
Definition house_row (row : PaperHouseHistoryRow) : HouseRow :=
  {| hr_funds := dec_signed (phr_house_funds_raw row); hr_lp_balance := as_i64 (phr_lp_balance_raw row);
     hr_open_house_pnl := phr_open_house_pnl_raw row; hr_queue_debt := as_i64 (phr_queue_debt_raw row) |}.
Definition save_paper_house_history (t : Series string HouseRow) (row : PaperHouseHistoryRow) : Series string HouseRow :=
  <[(house_key (phr_market row), as_i64 (phr_ts_ms row)) := house_row row]> t.
Definition trim_paper_house_history (t : Series string HouseRow) (market : string) (keep : nat) : Series string HouseRow :=
  trim_rows t (house_key market) (Nat.max keep 1).

(** What the transaction writes, and the trims after its commit. *)
Definition state_op (now_ms : Z) (r : AppResult StateStore) (op : EncodedPersistOp) : AppResult StateStore :=
  s ← r;
  match op with
  | EncUpsertOrderHistory id user chain spot size filled status payload =>
      Ok (with_history (<[id := {| hi_user_address := user; hi_chain_order_id := chain; hi_spot_market := spot;
        hi_size_raw := size; hi_filled_raw := filled; hi_status := status; hi_payload := payload;
        hi_status_ts_ms := now_ms |}]>) s)
  | EncSaveClosedBar bar => Ok (with_bars (fun t => save_closed_bar t bar) s)
  | EncSavePaperHouseHistory row => Ok (with_house (fun t => save_paper_house_history t row) s)
  | EncSavePaperPositionHistory market position owner closed_block payload =>
      Ok (with_positions (<[(market, position) := {| pr_owner := owner; pr_closed_block := closed_block; pr_payload := payload |}]>) s)
  | EncSaveBlockBytes _ _ _ => Err (Internal "block op in secondary state batch")
  end.

Definition trim_after (s : StateStore) (op : EncodedPersistOp) : StateStore :=
  match op with
  | EncSaveClosedBar bar => with_bars (fun t => trim_bars t (cb_spot_market bar) (cb_interval bar) BAR_HISTORY_LIMIT) s
  | EncSavePaperHouseHistory row => with_house (fun t => trim_paper_house_history t (phr_market row) PAPER_HOUSE_HISTORY_LIMIT) s
  | _ => s
  end.

Definition apply_encoded_state_batch (now_ms : Z) (s : StateStore) (ops : list EncodedPersistOp) : AppResult StateStore :=
  s ← foldl (state_op now_ms) (Ok s) ops; Ok (foldl trim_after s ops).

(** [i128::from_str]. *)
Definition parse_i128 (s : string) : option Z :=
  match chars s with
  | c :: l =>
      if decide (c = "-"%char)
      then match l with [] => None | _ => n ← parse_digits l; if decide (n <= 2 ^ 127) then Some (- n) else None end
      else parse_uint_l (2 ^ 127 - 1) (chars s)
  | [] => None
  end.

Definition house_entry (market : string) (x : Z * HouseRow) : PaperHouseHistoryRow :=
  {| phr_market := market; phr_ts_ms := as_u64 x.1; phr_house_funds_raw := default 0 (parse_i128 (hr_funds x.2));
     phr_lp_balance_raw := as_u64 (hr_lp_balance x.2); phr_open_house_pnl_raw := hr_open_house_pnl x.2;
     phr_queue_debt_raw := as_u64 (hr_queue_debt x.2) |}.

(** No upper bound on the time: [i64::MAX] here. *)
Definition load_paper_house_history (s : StateStore) (market : string) (from_ms : option Z) (limit : nat) : list PaperHouseHistoryRow :=
  let market := house_key market in
  let limit := Nat.min (Nat.max limit 1) PAPER_HOUSE_HISTORY_LIMIT in
  house_entry market <$> range_query (ss_house s) market (as_i64 (default 0 from_ms)) i64_max limit.

Definition list_paper_house_history_markets (s : StateStore) : list string :=
  remove_dups ((fun p => p.1.1) <$> map_to_list (ss_house s)).

Definition bar_entry (spot interval : string) (x : Z * BarRow) : ClosedBarRow :=
  {| cb_spot_market := spot; cb_interval := interval; cb_start_ts := as_u64 x.1;
     cb_open_raw := as_u64 (bw_open x.2); cb_high_raw := as_u64 (bw_high x.2); cb_low_raw := as_u64 (bw_low x.2);
     cb_close_raw := as_u64 (bw_close x.2); cb_volume_raw := as_u64 (bw_volume x.2);
     cb_trade_count := as_u64 (bw_trade_count x.2) |}.

Definition load_closed_bars (s : StateStore) (spot_market interval : string) (from_ts to_ts : option Z) (limit : nat)
    : list ClosedBarRow :=
  let spot := normalize_spot_market_key spot_market in
  let limit := Nat.min (Nat.max limit 1) BAR_HISTORY_LIMIT in
  bar_entry spot interval <$> range_query (ss_bars s) (spot, interval) (as_i64 (default 0 from_ts)) (as_i64 (default i64_max to_ts)) limit.

(** Newest status first. *)
Definition newer (x y : string * HistoryRow) : Prop := hi_status_ts_ms y.2 <= hi_status_ts_ms x.2.
#[global] Instance newer_dec x y : Decision (newer x y) := decide (hi_status_ts_ms y.2 <= hi_status_ts_ms x.2).

Definition history_entry (x : string * HistoryRow) : AppResult PersistOrderRow :=
  match order_from_json (hi_payload x.2) with
  | Some order => Ok {| por_order := order; por_user_address := hi_user_address x.2; por_chain_order_id := hi_chain_order_id x.2;
      por_spot_market := hi_spot_market x.2; por_size_raw := as_u64 (hi_size_raw x.2);
      por_filled_raw := as_u64 (hi_filled_raw x.2); por_status_ts_ms := as_u64 (Z.max (hi_status_ts_ms x.2) 0) |}
  | None => Err (Internal "deserialize order history")
  end.

Fixpoint collect {A B} (f : A -> AppResult B) (l : list A) : AppResult (list B) :=
  match l with [] => Ok [] | a :: l => b ← f a; bs ← collect f l; Ok (b :: bs) end.

Definition list_order_history (s : StateStore) (user_address : string) (limit : nat) : AppResult (list PersistOrderRow) :=
  let user := to_ascii_lowercase (trim user_address) in
  let limit := Nat.min (Nat.max limit 1) ORDER_HISTORY_LIMIT in
  collect history_entry (take limit (merge_sort newer (filter (fun p => hi_user_address p.2 = user) (map_to_list (ss_orders s))))).

(** Latest close first, then the higher position. *)
Definition position_before (x y : string * Z * PositionRow) : Prop :=
  pr_closed_block y.2 < pr_closed_block x.2 \/ (pr_closed_block y.2 = pr_closed_block x.2 /\ y.1.2 <= x.1.2).
#[global] Instance position_before_dec x y : Decision (position_before x y).
Proof. unfold position_before. apply _. Defined.

Definition position_selected (owner market : option string) (p : string * Z * PositionRow) : bool :=
  match owner with Some o => bool_decide (pr_owner p.2 = o) | None => true end &&
  match market with Some m => bool_decide (p.1.1 = m) | None => true end.

Definition position_entry (x : string * Z * PositionRow) : AppResult PaperPositionHistory :=
  match position_from_json (pr_payload x.2) with
  | Some h => Ok h
  | None => Err (Internal "deserialize paper position history")
  end.

Definition query_paper_position_history (s : StateStore) (owner market : option string) (limit offset : nat)
    : AppResult (list PaperPositionHistory * Z) :=
  let rows := filter (fun p => position_selected owner market p = true) (map_to_list (ss_positions s)) in
  let total := Z.min (Z.of_nat (length rows)) 4294967295 in
  match limit with
  | O => Ok ([], total)
  | _ => out ← collect position_entry (take limit (drop offset (merge_sort position_before rows))); Ok (out, total)
  end.

Definition delete_paper_position_history_after (s : StateStore) (block_num : Z) : StateStore :=
  with_positions (filter (fun p => ~ as_i64 block_num < pr_closed_block p.2)) s.

End Store.
