(* ===== verification/StoreFacts.v ===== *)
(** * StoreFacts: what the SQLite stores hold and answer

    A time series table keeps the newest rows of every group, whatever was
    written and in whatever batches, and a query returns the newest of those in
    range; stored receipt blocks are read back in ascending order. *)
From Stdlib Require Import Strings.Byte.
From S2P Require Import Prelude Text Errors Sdk Keys Domain Rings Paper Events Store.

Local Open Scope list_scope.
Local Open Scope Z_scope.

(** ** Strictly sorted lists of stamped rows *)

Section Sorted.
Context {V : Type}.

Definition before (x y : Z * V) : Prop := x.1 < y.1.

(** Overwrite the row of a stamp, or insert it in its place. *)
Fixpoint put (x : Z * V) (l : list (Z * V)) : list (Z * V) :=
  match l with
  | [] => [x]
  | y :: k => if decide (x.1 < y.1) then x :: l else if decide (x.1 = y.1) then x :: k else y :: put x k
  end.

Lemma before_unique l x y : StronglySorted before l -> x ∈ l -> y ∈ l -> x.1 = y.1 -> x = y.
Proof.
  induction 1 as [|a l _ IH Ha]; [by intros ?%not_elem_of_nil|]. rewrite Forall_forall in Ha.
  intros [->|Hx]%elem_of_cons [->|Hy]%elem_of_cons E; [done| | |by apply IH].
  - apply Ha in Hy. unfold before in Hy. lia.
  - apply Ha in Hx. unfold before in Hx. lia.
Qed.

Lemma before_NoDup l : StronglySorted before l -> NoDup l.
Proof.
  induction 1 as [|a l _ IH Ha]; constructor; [|done]. intros Hin. rewrite Forall_forall in Ha. apply Ha in Hin.
  unfold before in Hin. lia.
Qed.

Lemma before_ext l k : StronglySorted before l -> StronglySorted before k -> (forall x, x ∈ l <-> x ∈ k) -> l = k.
Proof.
  intros Hl Hk E. apply (StronglySorted_unique_strong before); [|done|done|].
  - unfold before. intros. lia.
  - by apply NoDup_Permutation; [apply before_NoDup..|].
Qed.

Lemma put_elem x l y : StronglySorted before l -> y ∈ put x l <-> y = x \/ (y ∈ l /\ y.1 <> x.1).
Proof.
  induction 1 as [|a l Hs IH Ha]; simpl.
  { rewrite list_elem_of_singleton. split; [by left|]. intros [?|[[]%not_elem_of_nil _]]; done. }
  rewrite Forall_forall in Ha. unfold before in Ha. case_decide as H1; [|case_decide as H2]; rewrite ?elem_of_cons, ?IH.
  - split; [|naive_solver]. intros [->|[->|Hy]]; [by left|right..]; (split; [naive_solver|]); [lia|]. apply Ha in Hy. lia.
  - split; [|naive_solver congruence]. intros [->|Hy]; [by left|right]. split; [by right|]. apply Ha in Hy. lia.
  - split; [|naive_solver]. intros [->|[->|[Hy Hn]]]; [right|by left|right]; (split; [naive_solver|lia || done]).
Qed.

Lemma put_sorted x l : StronglySorted before l -> StronglySorted before (put x l).
Proof.
  induction 1 as [|a l Hs IH Ha]; simpl; [by repeat constructor|]. case_decide as H1; [|case_decide as H2].
  - constructor; [by constructor|]. constructor; [done|]. eapply Forall_impl; [exact Ha|]. unfold before in *. intros. simpl in *. lia.
  - constructor; [done|]. eapply Forall_impl; [exact Ha|]. unfold before in *. intros. simpl in *. lia.
  - constructor; [done|]. apply Forall_forall. intros y [->|[Hy _]]%put_elem; [unfold before; lia| |done].
    rewrite Forall_forall in Ha. by apply Ha.
Qed.

Lemma put_above x l : Forall (fun y => x.1 < y.1) l -> put x l = x :: l.
Proof. destruct l; [done|]. intros [H _]%Forall_cons. simpl. by rewrite decide_True. Qed.

Lemma length_put x l : (length l <= length (put x l))%nat.
Proof. induction l; simpl; repeat case_decide; simpl; lia. Qed.

Lemma newest_cons {A} n (x : A) l : (n <= length l)%nat -> newest n (x :: l) = newest n l.
Proof. intros H. unfold newest. simpl. by replace (S (length l) - n)%nat with (S (length l - n)) by lia. Qed.

(** Rows that were trimmed away do not matter for what is newest later. *)
Lemma newest_put n x l : StronglySorted before l -> newest n (put x (newest n l)) = newest n (put x l).
Proof.
  induction 1 as [|a l Hs IH Ha]; [done|]. destruct (decide (length l < n)%nat) as [Hn|Hn].
  { by rewrite (newest_all n (a :: l)) by (simpl; lia). }
  rewrite newest_cons by lia. simpl. unfold before in Ha. case_decide as H1; [|case_decide as H2].
  - rewrite put_above; [|apply Forall_drop; eapply Forall_impl; [exact Ha|simpl; intros; lia]].
    rewrite newest_cons by (rewrite length_newest; lia). rewrite !newest_cons by (simpl; lia). by apply newest_newest.
  - rewrite put_above; [|apply Forall_drop; eapply Forall_impl; [exact Ha|simpl; intros; lia]].
    rewrite newest_cons by (rewrite length_newest; lia). rewrite newest_cons by lia. by apply newest_newest.
  - rewrite newest_cons by (pose proof (length_put x l); lia). done.
Qed.

Lemma newest_puts n xs l :
  StronglySorted before l -> newest n (foldl (fun l x => put x l) (newest n l) xs) = newest n (foldl (fun l x => put x l) l xs).
Proof.
  induction xs as [|x xs IH] using rev_ind; intros Hl; [simpl; by apply newest_newest|]. rewrite !foldl_app. simpl.
  assert (forall xs l, StronglySorted before l -> StronglySorted before (foldl (fun l x => put x l) l xs)) as HS.
  { clear. induction xs as [|y xs IH]; intros l Hl; [done|]. simpl. by apply IH, put_sorted. }
  assert (StronglySorted before (newest n l)) as Hl'.
  { rewrite <- (take_drop (length l - n) l) in Hl. by apply StronglySorted_app in Hl as (_ & _ & ?). }
  rewrite <- (newest_put n x (foldl _ (newest n l) xs)), IH, newest_put by (by auto). done.
Qed.

Lemma sorted_reverse (l : list (Z * V)) : StronglySorted before l -> StronglySorted desc (reverse l).
Proof.
  induction 1 as [|a l Hs IH Ha]; [constructor|]. rewrite reverse_cons. apply StronglySorted_app. split_and!; [|done|by repeat constructor].
  intros x y Hx ->%list_elem_of_singleton. rewrite elem_of_reverse in Hx. rewrite Forall_forall in Ha. apply Ha in Hx.
  unfold before, desc in *. lia.
Qed.

(** The rows from the first kept one on. *)
Lemma filter_from c l r :
  StronglySorted before (l ++ c :: r) -> filter (fun x => ~ x.1 < c.1) (l ++ c :: r) = c :: r.
Proof.
  intros (H1 & _ & [Hc _]%StronglySorted_cons)%StronglySorted_app. rewrite filter_app.
  rewrite filter_none, filter_all; [done| |].
  2:{ apply Forall_forall. intros x Hx Hn. apply Hn. apply (H1 x c); [done|left]. }
  constructor; [lia|]. eapply Forall_impl; [exact Hc|]. unfold before. intros. lia.
Qed.

End Sorted.

(** ** The rows of a group, oldest first *)

Section Rows.
Context {G V : Type} `{Countable G}.
Implicit Types (t : Series G V) (g : G).

#[local] Instance asc_trans : Transitive (asc (V := V)).
Proof. intros x y z. unfold asc. lia. Qed.
#[local] Instance asc_total : Total (asc (V := V)).
Proof. intros x y. unfold asc. lia. Qed.
#[local] Instance desc_trans : Transitive (desc (V := V)).
Proof. intros x y z. unfold desc. lia. Qed.
#[local] Instance desc_total : Total (desc (V := V)).
Proof. intros x y. unfold desc. lia. Qed.

Definition rows t g : list (Z * V) := merge_sort asc (group_rows t g).

Lemma elem_group_rows t g x : x ∈ group_rows t g <-> t !! (g, x.1) = Some x.2.
Proof.
  unfold group_rows. rewrite list_elem_of_fmap. split.
  - intros ([[h ts] v] & -> & [E Hin%elem_of_map_to_list]%list_elem_of_filter). simpl in *. by subst h.
  - intros Hx. exists (g, x.1, x.2). split; [by destruct x|]. apply list_elem_of_filter. split; [done|]. by apply elem_of_map_to_list.
Qed.

Lemma NoDup_group_rows t g : NoDup (group_rows t g).*1.
Proof.
  unfold group_rows. rewrite <- list_fmap_compose. apply NoDup_fmap_2_strong.
  - intros [[h ts] v] [[h' ts'] v'] [E Hin%elem_of_map_to_list]%list_elem_of_filter [E' Hin'%elem_of_map_to_list]%list_elem_of_filter.
    simpl in *. intros ->. subst. congruence.
  - apply NoDup_filter, NoDup_map_to_list.
Qed.

Lemma elem_rows t g x : x ∈ rows t g <-> t !! (g, x.1) = Some x.2.
Proof. unfold rows. rewrite merge_sort_Permutation. apply elem_group_rows. Qed.

Lemma strict_sorted (l : list (Z * V)) : NoDup l.*1 -> StronglySorted asc l -> StronglySorted before l.
Proof.
  intros Hnd. induction 1 as [|x l Hs IH Hx]; [constructor|]. csimpl in Hnd. apply NoDup_cons in Hnd as [Hin Hnd].
  constructor; [by apply IH|]. rewrite Forall_forall in Hx |- *. intros y Hy. pose proof (Hx y Hy). unfold asc, before in *.
  destruct (decide (x.1 = y.1)) as [E|]; [|lia]. destruct Hin. rewrite E. by apply list_elem_of_fmap_2.
Qed.

Lemma rows_sorted t g : StronglySorted before (rows t g).
Proof.
  apply strict_sorted; [|by apply StronglySorted_merge_sort; apply _].
  unfold rows. rewrite merge_sort_Permutation. apply NoDup_group_rows.
Qed.

Lemma rows_unique t g l : StronglySorted before l -> (forall x, x ∈ l <-> t !! (g, x.1) = Some x.2) -> rows t g = l.
Proof. intros Hs E. apply before_ext; [apply rows_sorted|done|]. intros x. by rewrite elem_rows, E. Qed.

Lemma rows_empty g : rows ∅ g = [].
Proof. apply rows_unique; [constructor|]. intros x. rewrite lookup_empty. split; [by intros ?%not_elem_of_nil|done]. Qed.

Lemma rows_put t g x : rows (<[(g, x.1) := x.2]> t) g = put x (rows t g).
Proof.
  apply rows_unique; [apply put_sorted, rows_sorted|]. intros y. rewrite put_elem by apply rows_sorted.
  rewrite elem_rows, lookup_insert_Some. split.
  - intros [->|[E Hne]]; [by left|right]. split; [congruence|done].
  - intros [[[= E1] E2]|[Hne E]]; [left; destruct x, y; simpl in *; congruence|right]. split; [done|]. congruence.
Qed.

Lemma rows_put_ne t g h ts v : h <> g -> rows (<[(h, ts) := v]> t) g = rows t g.
Proof.
  intros Hne. apply rows_unique; [apply rows_sorted|]. intros y. rewrite elem_rows, lookup_insert_ne by congruence. done.
Qed.

Lemma desc_reverse t g (P : Z * V -> Prop) `{forall x, Decision (P x)} :
  merge_sort desc (filter P (group_rows t g)) = reverse (filter P (rows t g)).
Proof.
  assert (filter P (group_rows t g) ≡ₚ filter P (rows t g)) as HP by (unfold rows; by rewrite merge_sort_Permutation).
  assert (NoDup (filter P (group_rows t g))) as Hnd.
  { apply NoDup_filter. eapply NoDup_fmap_1, NoDup_group_rows. }
  apply (StronglySorted_unique_strong desc).
  - intros x y. rewrite merge_sort_Permutation, elem_of_reverse, HP. unfold desc.
    intros [_ Hx]%list_elem_of_filter [_ Hy]%list_elem_of_filter ? ?.
    eapply before_unique; [apply (rows_sorted t g)|done|done|lia].
  - apply StronglySorted_merge_sort; apply _.
  - apply sorted_reverse, filter_sorted, rows_sorted.
  - by rewrite merge_sort_Permutation, reverse_Permutation.
Qed.

Lemma rows_desc_reverse t g : rows_desc t g = reverse (rows t g).
Proof.
  unfold rows_desc. pose proof (desc_reverse t g (fun _ => True)) as E.
  by rewrite !filter_all in E by (by apply Forall_true).
Qed.

Lemma rows_filter t g (P : G * Z * V -> Prop) `{forall p, Decision (P p)} :
  rows (filter P t) g = filter (fun x => P (g, x.1, x.2)) (rows t g).
Proof.
  apply rows_unique; [apply filter_sorted, rows_sorted|]. intros x. rewrite list_elem_of_filter, elem_rows, map_lookup_filter_Some. tauto.
Qed.

Lemma rows_trim t g n : (0 < n)%nat -> rows (trim_rows t g n) g = newest n (rows t g).
Proof.
  intros Hn. unfold trim_rows. rewrite rows_desc_reverse, take_reverse, last_reverse. fold (newest n (rows t g)).
  pose proof (take_drop (length (rows t g) - n) (rows t g)) as ED. fold (newest n (rows t g)) in ED.
  destruct (newest n (rows t g)) as [|c r] eqn:E; simpl.
  - apply (f_equal length) in E. rewrite length_newest in E. simpl in E. destruct (rows t g); [done|]. simpl in E. lia.
  - rewrite rows_filter. simpl. rewrite <- ED. pose proof (rows_sorted t g) as Hs. rewrite <- ED in Hs.
    rewrite (list_filter_iff _ (fun x => ~ x.1 < c.1)) by tauto. by apply filter_from.
Qed.

Lemma rows_trim_ne t g h n : h <> g -> rows (trim_rows t g n) h = rows t h.
Proof.
  intros Hne. unfold trim_rows. destruct (last _) as [c|]; [|done]. rewrite rows_filter. apply filter_all, Forall_true.
  intros x [E _]. done.
Qed.

Lemma range_newest t g from to limit :
  range_query t g from to limit = newest limit (filter (fun x => from <= x.1 <= to) (rows t g)).
Proof.
  unfold range_query. rewrite desc_reverse, take_reverse, reverse_involutive. done.
Qed.

(** ** Any sequence of batches *)

(** The rows a batch writes to the table, then its trims. *)
Definition series_batch {A} (key : A -> G) (ts : A -> Z) (val : A -> V) (n : nat) t (batch : list A) : Series G V :=
  foldl (fun t a => trim_rows t (key a) n) (foldl (fun t a => <[(key a, ts a) := val a]> t) t batch) batch.

Lemma rows_puts {A} (key : A -> G) (ts : A -> Z) (val : A -> V) batch t g :
  rows (foldl (fun t a => <[(key a, ts a) := val a]> t) t batch) g =
  foldl (fun l x => put x l) (rows t g) ((fun a => (ts a, val a)) <$> filter (fun a => key a = g) batch).
Proof.
  revert t. induction batch as [|a batch IH]; intros t; [done|]. cbn [foldl]. rewrite IH, filter_cons.
  case_decide as Hk; [|by rewrite rows_put_ne]. subst g. cbn [fmap list_fmap foldl]. by rewrite <- (rows_put t (key a) (ts a, val a)).
Qed.

Lemma rows_trims {A} (key : A -> G) n batch t g :
  (0 < n)%nat -> rows (foldl (fun t a => trim_rows t (key a) n) t batch) g =
    if decide (g ∈ key <$> batch) then newest n (rows t g) else rows t g.
Proof.
  intros Hn. revert t. induction batch as [|a batch IH]; intros t; cbn [foldl fmap list_fmap].
  { rewrite decide_False; [done|]. by intros ?%not_elem_of_nil. }
  rewrite IH. destruct (decide (g = key a)) as [->|Hne].
  - rewrite rows_trim by done. rewrite (decide_True (P := key a ∈ key a :: _)) by left. case_decide; [by apply newest_newest|done].
  - rewrite rows_trim_ne by done. destruct (decide (g ∈ key <$> batch)); [by rewrite decide_True by (by right)|].
    rewrite decide_False; [done|]. by intros [?|?]%elem_of_cons.
Qed.

(** What the table holds: the newest rows of all that was ever written. *)
Lemma series_batches {A} (key : A -> G) (ts : A -> Z) (val : A -> V) n batches g :
  (0 < n)%nat ->
  rows (foldl (series_batch key ts val n) ∅ batches) g =
  newest n (rows (foldl (fun t a => <[(key a, ts a) := val a]> t) ∅ (concat batches)) g).
Proof.
  intros Hn. induction batches as [|batch batches IH] using rev_ind; [simpl; by rewrite rows_empty|].
  rewrite concat_app, !foldl_app. simpl. rewrite app_nil_r. unfold series_batch at 1. rewrite rows_trims by done.
  rewrite !(rows_puts key ts val batch), IH.
  set (xs := (fun a => (ts a, val a)) <$> _). set (l := rows _ g). assert (StronglySorted before l) as Hl by apply rows_sorted.
  case_decide as Hd; [by apply newest_puts|].
  assert (xs = []) as E.
  { unfold xs. rewrite filter_none; [done|]. apply Forall_forall. intros a Ha <-. apply Hd. by apply list_elem_of_fmap_2. }
  rewrite E. done.
Qed.

End Rows.

Section Store.
Context {SD : Sdk} {L : SdkLaws} {J : Json} {K : BlockCodec}.

(** ** History batches *)

Definition bars_of (ops : list EncodedPersistOp) : list ClosedBarRow :=
  omap (fun op => match op with EncSaveClosedBar bar => Some bar | _ => None end) ops.
Definition houses_of (ops : list EncodedPersistOp) : list PaperHouseHistoryRow :=
  omap (fun op => match op with EncSavePaperHouseHistory row => Some row | _ => None end) ops.

(** Batches with the clock readings of their transactions. *)
Definition run_batches (batches : list (Z * list EncodedPersistOp)) : AppResult StateStore :=
  foldl (fun r b => s ← r; apply_encoded_state_batch b.1 s b.2) (Ok StateStore_empty) batches.

Lemma foldl_err {A B} (f : AppResult A -> B -> AppResult A) l e : (forall e b, f (Err e) b = Err e) -> foldl f (Err e) l = Err e.
Proof. intros H. induction l as [|b l IH]; [done|]. simpl. by rewrite H. Qed.

Lemma state_ops now ops s s' :
  foldl (state_op now) (Ok s) ops = Ok s' ->
  ss_bars s' = foldl save_closed_bar (ss_bars s) (bars_of ops) /\
  ss_house s' = foldl save_paper_house_history (ss_house s) (houses_of ops).
Proof.
  revert s. induction ops as [|op ops IH]; intros s; cbn [foldl]; [by intros [= ->]|].
  destruct op; simpl; try (intros H%IH; exact H). rewrite foldl_err by done. done.
Qed.

Lemma trims_after ops s :
  ss_bars (foldl trim_after s ops) = foldl (fun t b => trim_rows t (bar_key b) BAR_HISTORY_LIMIT) (ss_bars s) (bars_of ops) /\
  ss_house (foldl trim_after s ops) =
    foldl (fun t r => trim_rows t (house_key (phr_market r)) PAPER_HOUSE_HISTORY_LIMIT) (ss_house s) (houses_of ops).
Proof.
  revert s. induction ops as [|op ops IH]; intros s; cbn [foldl]; [done|]. destruct (IH (trim_after s op)) as [-> ->].
  destruct op; try done; cbn [trim_after with_bars with_house ss_bars ss_house bars_of houses_of omap list_omap foldl];
    unfold trim_bars, trim_paper_house_history; rewrite Nat.max_l; try done;
    unfold BAR_HISTORY_LIMIT, PAPER_HOUSE_HISTORY_LIMIT; lia.
Qed.

Lemma state_batches batches s :
  run_batches batches = Ok s ->
  ss_bars s = foldl (series_batch bar_key (fun b => as_i64 (cb_start_ts b)) bar_row BAR_HISTORY_LIMIT) ∅ (bars_of <$> batches.*2) /\
  ss_house s = foldl (series_batch (fun r => house_key (phr_market r)) (fun r => as_i64 (phr_ts_ms r)) house_row PAPER_HOUSE_HISTORY_LIMIT)
                 ∅ (houses_of <$> batches.*2).
Proof.
  unfold run_batches. revert s. induction batches as [|b batches IH] using rev_ind; intros s; [by intros [= <-]|].
  rewrite foldl_app, !fmap_app, !foldl_app. cbn [foldl fmap list_fmap]. destruct (foldl _ _ batches) as [s0|]; [|done]. simpl.
  destruct (IH s0 eq_refl) as [<- <-]. unfold apply_encoded_state_batch.
  destruct (foldl (state_op b.1) (Ok s0) b.2) as [s1|] eqn:E; [|done]. apply state_ops in E as [E1 E2]. intros [= <-].
  destruct (trims_after b.2 s1) as [-> ->]. by rewrite E1, E2.
Qed.

(** A u64 row comes back as it was. *)
Definition bar_u64 (b : ClosedBarRow) : Prop :=
  Forall is_u64 [cb_start_ts b; cb_open_raw b; cb_high_raw b; cb_low_raw b; cb_close_raw b; cb_volume_raw b; cb_trade_count b].

Lemma bar_entry_row b :
  bar_u64 b -> normalize_spot_market_key (cb_spot_market b) = cb_spot_market b ->
  bar_entry (bar_key b).1 (bar_key b).2 (as_i64 (cb_start_ts b), bar_row b) = b.
Proof.
  unfold bar_u64. rewrite !Forall_cons. intros (? & ? & ? & ? & ? & ? & ? & _) Hn. unfold bar_entry, bar_row, bar_key. simpl.
  rewrite !as_u64_as_i64 by done. rewrite Hn. by destruct b.
Qed.

(** C26: the history tables keep the newest rows and answer with the newest of
    those asked for: after any sequence of successful batches, a query for the
    closed candles of a market and interval returns, oldest first, the newest
    (at most 5000) of the rows in the asked range among the newest 5000 ever
    written under that key (the last value of each start time), and a query for
    the house history of a market likewise with 3600; rows that were trimmed
    away in between never matter, and a stored candle reads back as it was. *)
Theorem stored_history_newest batches s :
  run_batches batches = Ok s ->
  (forall spot interval from to limit,
    load_closed_bars s spot interval from to limit =
      bar_entry (normalize_spot_market_key spot) interval <$>
        newest (Nat.min (Nat.max limit 1) BAR_HISTORY_LIMIT)
          (filter (fun x => as_i64 (default 0 from) <= x.1 <= as_i64 (default i64_max to))
            (newest BAR_HISTORY_LIMIT
              (rows (foldl save_closed_bar ∅ (concat (bars_of <$> batches.*2))) (normalize_spot_market_key spot, interval))))) /\
  (forall market from limit,
    load_paper_house_history s market from limit =
      house_entry (house_key market) <$>
        newest (Nat.min (Nat.max limit 1) PAPER_HOUSE_HISTORY_LIMIT)
          (filter (fun x => as_i64 (default 0 from) <= x.1 <= i64_max)
            (newest PAPER_HOUSE_HISTORY_LIMIT
              (rows (foldl save_paper_house_history ∅ (concat (houses_of <$> batches.*2))) (house_key market))))) /\
  (forall b, bar_u64 b -> normalize_spot_market_key (cb_spot_market b) = cb_spot_market b ->
    bar_entry (bar_key b).1 (bar_key b).2 (as_i64 (cb_start_ts b), bar_row b) = b).
Proof.
  intros [E1 E2]%state_batches. split_and!; [intros spot interval from to limit|intros market from limit|apply bar_entry_row].
  - unfold load_closed_bars. rewrite range_newest, E1, series_batches by (unfold BAR_HISTORY_LIMIT; lia). done.
  - unfold load_paper_house_history. rewrite range_newest, E2, series_batches by (unfold PAPER_HOUSE_HISTORY_LIMIT; lia). done.
Qed.

(** ** Receipt blocks *)

(** The store holds exactly the blocks of a map, under their numbers. *)
Record stores (s : BlockStore) (m : gmap Z ReceiptBlock) : Prop := {
  st_row n row : s !! n = Some row -> exists b, m !! n = Some b /\ br_digest row = rb_digest b /\
    decode_block_payload n (br_payload row) = Ok b;
  st_block n b : m !! n = Some b -> is_Some (s !! n) /\ rb_block_num b = n /\ 0 <= n <= i64_max
}.

(** The blocks of a map after a number, in ascending order. *)
Definition by_number (x y : Z * ReceiptBlock) : Prop := x.1 <= y.1.
#[global] Instance by_number_dec x y : Decision (by_number x y) := decide (x.1 <= y.1).
Definition is_after (after : option Z) (n : Z) : Prop := match after with Some a => a < n | None => True end.
#[global] Instance is_after_dec after n : Decision (is_after after n).
Proof. destruct after; simpl; apply _. Defined.
Definition blocks_after (m : gmap Z ReceiptBlock) (after : option Z) : list (Z * ReceiptBlock) :=
  merge_sort by_number (filter (fun p => is_after after p.1) (map_to_list m)).

Lemma stores_empty : stores ∅ ∅.
Proof. split; intros n ?; by rewrite lookup_empty. Qed.

Lemma save_block_stores {KL : BlockCodecLaws} now s m b payload :
  stores s m -> bincode_serialize b = Some payload -> 0 <= rb_block_num b <= i64_max ->
  stores (save_block now s (rb_block_num b) (rb_digest b) payload) (<[rb_block_num b := b]> m).
Proof.
  intros [S1 S2] Hp Hn. unfold save_block. rewrite as_i64_id by mach. split; intros n x.
  - intros [[<- <-]|[Hne H]]%lookup_insert_Some; [|rewrite lookup_insert_ne by done; by apply S1].
    exists b. rewrite lookup_insert_eq. split_and!; try done. simpl. unfold decode_block_payload. by rewrite (block_codec b payload Hp).
  - intros [[<- <-]|[Hne H]]%lookup_insert_Some; [|rewrite lookup_insert_ne by done; by apply S2].
    split; [|done]. rewrite lookup_insert_eq. by eexists.
Qed.

Lemma delete_after_stores s m n :
  stores s m -> is_i64 n -> stores (delete_blocks_after s n) (filter (fun p => ~ n < p.1) m).
Proof.
  intros [S1 S2] Hn. unfold delete_blocks_after. rewrite as_i64_id by done. split; intros k x; rewrite map_lookup_filter_Some; simpl.
  - intros [(b & ? & ?)%S1 Hk]. exists b. by rewrite map_lookup_filter_Some.
  - intros [([row Hr] & ? & ?)%S2 Hk]. split; [|done]. exists row. by rewrite map_lookup_filter_Some.
Qed.

Lemma delete_through_stores s m n :
  stores s m -> is_i64 n -> stores (delete_blocks_through s n) (filter (fun p => ~ p.1 <= n) m).
Proof.
  intros [S1 S2] Hn. unfold delete_blocks_through. rewrite as_i64_id by done. split; intros k x; rewrite map_lookup_filter_Some; simpl.
  - intros [(b & ? & ?)%S1 Hk]. exists b. by rewrite map_lookup_filter_Some.
  - intros [([row Hr] & ? & ?)%S2 Hk]. split; [|done]. exists row. by rewrite map_lookup_filter_Some.
Qed.

Lemma collect_Forall2 {A B} (f : A -> AppResult B) l k : Forall2 (fun a b => f a = Ok b) l k -> collect f l = Ok k.
Proof. induction 1 as [|a b l k E _ IH]; [done|]. simpl. rewrite E. simpl. by rewrite IH. Qed.

Lemma keys_Forall2 {A B} (l : list (Z * A)) (k : list (Z * B)) (P : Z * A -> Z * B -> Prop) :
  l.*1 = k.*1 -> (forall x y, x ∈ l -> y ∈ k -> x.1 = y.1 -> P x y) -> Forall2 P l k.
Proof.
  revert k. induction l as [|x l IH]; intros [|y k] E HP; try done. csimpl in E. injection E as E1 E2.
  constructor; [apply HP; [left|left|done]|]. apply IH; [done|]. intros x' y' ? ?. apply HP; by right.
Qed.

Lemma sorted_keys {A} (R : Z * A -> Z * A -> Prop) `{forall x y, Decision (R x y)} l :
  (forall x y, R x y <-> x.1 <= y.1) -> StronglySorted Z.le (merge_sort R l).*1.
Proof.
  intros HR. apply (StronglySorted_fmap fst R Z.le); [intros x y; apply HR|].
  apply StronglySorted_merge_sort; [intros x y z|intros x y]; rewrite !HR; lia.
Qed.

Lemma NoDup_sorted_keys {A} (R : Z * A -> Z * A -> Prop) `{forall x y, Decision (R x y)} (Q : Z * A -> Prop)
    `{forall x, Decision (Q x)} (m : gmap Z A) : NoDup (merge_sort R (filter Q (map_to_list m))).*1.
Proof.
  rewrite merge_sort_Permutation. apply NoDup_fmap_2_strong; [|apply NoDup_filter, NoDup_map_to_list].
  intros [k v] [k' v'] [_ H1%elem_of_map_to_list]%list_elem_of_filter [_ H2%elem_of_map_to_list]%list_elem_of_filter.
  simpl. intros ->. by simplify_eq.
Qed.

(** Reading the log back. *)
Lemma stores_load s m after :
  stores s m -> (forall n, after = Some n -> is_i64 n) ->
  collect (fun p => b ← decode_block_payload p.1.1 p.2; Ok (p.1.1, b)) (load_blocks_after s after None) = Ok (blocks_after m after).
Proof.
  intros [S1 S2] Ha. unfold load_blocks_after, blocks_after. 
  assert (match after with Some n => filter (fun p => as_i64 n < p.1) (map_to_list s) | None => map_to_list s end =
    filter (fun p => is_after after p.1) (map_to_list s)) as ->.
  { destruct after as [n|]; [by rewrite as_i64_id by auto|]. symmetry. by apply filter_all, Forall_true. }
  apply collect_Forall2. rewrite Forall2_fmap_l. apply keys_Forall2.
  - apply (StronglySorted_unique Z.le); [by apply sorted_keys|by apply sorted_keys|].
    apply NoDup_Permutation; [apply NoDup_sorted_keys|apply NoDup_sorted_keys|].
    intros n. rewrite !merge_sort_Permutation, !list_elem_of_fmap. split.
    + intros ([k row] & -> & [Hk Hr%elem_of_map_to_list]%list_elem_of_filter). destruct (S1 _ _ Hr) as (b & Hb & _).
      exists (k, b). split; [done|]. apply list_elem_of_filter. split; [done|]. by apply elem_of_map_to_list.
    + intros ([k b] & -> & [Hk Hr%elem_of_map_to_list]%list_elem_of_filter). destruct (S2 _ _ Hr) as ([row Hb] & _).
      exists (k, row). split; [done|]. apply list_elem_of_filter. split; [done|]. by apply elem_of_map_to_list.
  - intros [n row] [k b]. rewrite !merge_sort_Permutation.
    intros [_ Hr%elem_of_map_to_list]%list_elem_of_filter [_ Hb%elem_of_map_to_list]%list_elem_of_filter. simpl. intros ->.
    destruct (S1 _ _ Hr) as (b' & Hb' & _ & E), (S2 _ _ Hb) as (_ & _ & Hn). simplify_eq. unfold compose, block_entry. simpl.
    rewrite as_u64_id by mach. by rewrite E.
Qed.

Lemma collect_Ok {A B} (f : A -> AppResult B) a l k :
  collect f (a :: l) = Ok k -> exists b k', f a = Ok b /\ collect f l = Ok k' /\ k = b :: k'.
Proof.
  simpl. destruct (f a) as [b|]; simpl; [|done]. destruct (collect f l) as [k'|]; simpl; [|done].
  intros [= <-]. by exists b, k'.
Qed.

Lemma save_batch_stores {KL : BlockCodecLaws} now s m blocks ops :
  stores s m -> Forall (fun b => 0 <= rb_block_num b <= i64_max) blocks ->
  collect encode_persist_op (SaveReceiptBlock <$> blocks) = Ok ops ->
  exists s', apply_encoded_blocks_batch now s ops = Ok s' /\ stores s' (foldl (fun m b => <[rb_block_num b := b]> m) m blocks).
Proof.
  intros HS HF. revert s m ops HS. induction HF as [|b blocks Hb HF IH]; intros s m ops HS; cbn [fmap list_fmap].
  { intros [= <-]. by exists s. }
  intros (op & ops' & Eop & Eops & ->)%collect_Ok. simpl in Eop. unfold encode_block_payload in Eop.
  destruct (bincode_serialize b) as [payload|] eqn:Ep; [|done]. injection Eop as <-.
  apply (IH (save_block now s (rb_block_num b) (rb_digest b) payload)); [|done]. by apply save_block_stores.
Qed.

(** C27: the log of receipt blocks reads back: encoding blocks, writing them in
    one batch to a store that holds a map of blocks, and loading what is after
    some number gives, decoded, exactly the blocks of the updated map after that
    number, each once, in ascending order, a later save of a number replacing
    the earlier one. *)
Theorem block_log_reads_back {KL : BlockCodecLaws} now s m blocks ops after :
  stores s m -> Forall (fun b => 0 <= rb_block_num b <= i64_max) blocks -> (forall n, after = Some n -> is_i64 n) ->
  collect encode_persist_op (SaveReceiptBlock <$> blocks) = Ok ops ->
  exists s', apply_encoded_blocks_batch now s ops = Ok s' /\
    let m' := foldl (fun m b => <[rb_block_num b := b]> m) m blocks in
    stores s' m' /\ StronglySorted Z.le (blocks_after m' after).*1 /\ NoDup (blocks_after m' after).*1 /\
    collect (fun p => b ← decode_block_payload p.1.1 p.2; Ok (p.1.1, b)) (load_blocks_after s' after None) =
      Ok (blocks_after m' after).
Proof.
  intros HS HF Ha He. destruct (save_batch_stores now s m blocks ops HS HF He) as (s' & E & HS'). exists s'. split; [done|].
  split_and!; [done|by apply sorted_keys|apply NoDup_sorted_keys|by apply stores_load].
Qed.

End Store.

(** ** Witnesses *)

#[local] Instance DemoJson : Json.
Proof. refine (Build_Json (fun _ => None) (fun _ => None) (fun _ => None) (fun _ => None)). Defined.

(** A codec of empty blocks with one-byte numbers. *)
Definition demo_block (n : Z) : ReceiptBlock (SD := DemoSdk) := Build_ReceiptBlock (SD := DemoSdk) n "d" 0 [].
#[local] Instance DemoCodec : BlockCodec (H := DemoSdk).
Proof.
  refine (Build_BlockCodec DemoSdk
    (fun b => match b with
      | Build_ReceiptBlock n d t [] => if decide (0 <= n /\ d = "d"%string /\ t = 0) then (fun x => [x]) <$> Byte.of_N (Z.to_N n) else None
      | _ => None end)
    (fun p => match p with [x] => Some (demo_block (Z.of_N (Byte.to_N x))) | _ => None end) (fun _ => None)).
Defined.
#[local] Instance DemoCodecLaws : BlockCodecLaws (H := DemoSdk) (K := DemoCodec).
Proof.
  constructor. intros [n d t [|]] p; simpl; [|done]. case_decide as Hd; [|done]. destruct Hd as (Hn & -> & ->).
  destruct (Byte.of_N (Z.to_N n)) as [x|] eqn:E; [|done]. intros [= <-]. apply Byte.to_of_N in E. rewrite E, Z2N.id by done. done.
Qed.

Lemma block_log_reads_back_witness :
  exists s', apply_encoded_blocks_batch 5 ∅ [EncSaveBlockBytes 9 "d" [x09]; EncSaveBlockBytes 4 "d" [x04]; EncSaveBlockBytes 7 "d" [x07]] = Ok s' /\
    collect (fun p => b ← decode_block_payload (SD := DemoSdk) (K := DemoCodec) p.1.1 p.2; Ok (p.1.1, b)) (load_blocks_after s' (Some 4) None) =
      Ok [(7, demo_block 7); (9, demo_block 9)].
Proof.
  destruct (block_log_reads_back (SD := DemoSdk) (J := DemoJson) (K := DemoCodec) 5 ∅ ∅ [demo_block 9; demo_block 4; demo_block 7]
    [EncSaveBlockBytes 9 "d" [x09]; EncSaveBlockBytes 4 "d" [x04]; EncSaveBlockBytes 7 "d" [x07]] (Some 4)) as (s' & E & _ & _ & _ & H).
  - apply stores_empty.
  - apply Forall_forall. intros b [->|[->|[->|[]%not_elem_of_nil]%elem_of_cons]%elem_of_cons]%elem_of_cons; vm_compute; split; congruence.
  - intros n [= <-]. unfold is_i64, i64_min, i64_max. lia.
  - reflexivity.
  - exists s'. split; [exact E|]. etransitivity; [exact H|]. reflexivity.
Defined.

Definition demo_bar (start price : Z) : ClosedBarRow := Build_ClosedBarRow "c7" "1m" start price price price price 1 1.

Definition demo_batches : list (Z * list EncodedPersistOp) :=
  [(5, [EncSaveClosedBar (demo_bar 120 3); EncSaveClosedBar (demo_bar 60 2)]); (6, [EncSaveClosedBar (demo_bar 60 4)])].

Lemma stored_history_newest_witness :
  exists s, run_batches (SD := DemoSdk) demo_batches = Ok s /\
    load_closed_bars (SD := DemoSdk) s "c7" "1m" None None 1 = [demo_bar 120 3].
Proof.
  eexists. split; [reflexivity|].
  etransitivity; [exact (proj1 (stored_history_newest (SD := DemoSdk) demo_batches _ eq_refl) "c7" "1m" None None 1%nat)|].
  vm_compute. reflexivity.
Defined.
