(* ===== verification/Persist.v ===== *)
(** * Persist: [persist/shared.rs] and [persist/workers.rs]

    The handle the indexer persists through and the tasks behind it.  Two lanes
    lead to SQLite (receipt blocks and history): a bounded queue, four encode
    workers that take from it, a channel of encoded operations, a task that
    coalesces them into batches, a channel of batches, and a task that writes
    one batch per transaction.  The index write sets go through the ordered
    writer of [Tables].  One step of one task is one event; a send waits while
    its channel is full, so its event is not enabled.  The counter [pending] is
    what [wait_idle] polls; an operation leaves it however its write ends.  A
    transaction, the building of an index batch and its commit may fail; what
    SQLite and RocksDB answer is part of the event.  A blocking task that panics
    ends as a failure does; channels that close at shut-down are left out; the timing of the operations is in Timing. *)
From Stdlib Require Import Strings.Byte.
From S2P Require Import Prelude Text Errors Sdk Keys Domain WriteSet Tables Rings Paper Events Store StoreFacts.

Local Open Scope list_scope.
Local Open Scope Z_scope.

(** [persist/types.rs] *)
Definition DEFAULT_PERSIST_BATCH_MAX : nat := 128.
Definition DEFAULT_PERSIST_QUEUE_CAPACITY : nat := 64.
Definition DEFAULT_PERSIST_ENCODE_WORKERS : nat := 4.
Definition INDEX_WRITE_QUEUE : nat := 32.
Definition BATCH_QUEUE : nat := 2.

Section Persist.
Context {SD : Sdk} {J : Json} {K : BlockCodec}.

(** ** One SQLite lane *)

(** The queue, the operations the encode workers hold, the encoded ones, the
    batch being coalesced and the batches waiting for the writer. *)
Record Lane := {
  ln_rx : list PersistOp;
  ln_hands : list PersistOp;
  ln_encoded : list EncodedPersistOp;
  ln_building : list EncodedPersistOp;
  ln_batches : list (list EncodedPersistOp)
}.

Definition Lane_new : Lane := {| ln_rx := []; ln_hands := []; ln_encoded := []; ln_building := []; ln_batches := [] |}.

(** [try_send], and [send] once there is room. *)
Definition lane_submit (op : PersistOp) (l : Lane) : option Lane :=
  if decide (length (ln_rx l) < DEFAULT_PERSIST_QUEUE_CAPACITY)%nat
  then Some {| ln_rx := ln_rx l ++ [op]; ln_hands := ln_hands l; ln_encoded := ln_encoded l; ln_building := ln_building l;
               ln_batches := ln_batches l |}
  else None.

(** A free encode worker takes the next operation. *)
Definition lane_take (l : Lane) : option Lane :=
  match ln_rx l with
  | op :: rx =>
      if decide (length (ln_hands l) < DEFAULT_PERSIST_ENCODE_WORKERS)%nat
      then Some {| ln_rx := rx; ln_hands := ln_hands l ++ [op]; ln_encoded := ln_encoded l; ln_building := ln_building l;
                   ln_batches := ln_batches l |}
      else None
  | [] => None
  end.

(** Some worker finishes: its operation moves on, or is dropped (the flag). *)
Definition lane_encode (worker : nat) (l : Lane) : option (Lane * bool) :=
  op ← ln_hands l !! worker;
  let hands := delete worker (ln_hands l) in
  match encode_persist_op op with
  | Ok e =>
      if decide (length (ln_encoded l) < DEFAULT_PERSIST_ENCODE_WORKERS * 2)%nat
      then Some ({| ln_rx := ln_rx l; ln_hands := hands; ln_encoded := ln_encoded l ++ [e]; ln_building := ln_building l;
                    ln_batches := ln_batches l |}, false)
      else None
  | Err _ => Some ({| ln_rx := ln_rx l; ln_hands := hands; ln_encoded := ln_encoded l; ln_building := ln_building l;
                      ln_batches := ln_batches l |}, true)
  end.

Definition lane_coalesce (l : Lane) : option Lane :=
  match ln_encoded l with
  | e :: encoded =>
      if decide (length (ln_building l) < DEFAULT_PERSIST_BATCH_MAX)%nat
      then Some {| ln_rx := ln_rx l; ln_hands := ln_hands l; ln_encoded := encoded; ln_building := ln_building l ++ [e];
                   ln_batches := ln_batches l |}
      else None
  | [] => None
  end.

(** The batch is full or its wait is over. *)
Definition lane_flush (l : Lane) : option Lane :=
  match ln_building l with
  | [] => None
  | building =>
      if decide (length (ln_batches l) < BATCH_QUEUE)%nat
      then Some {| ln_rx := ln_rx l; ln_hands := ln_hands l; ln_encoded := ln_encoded l; ln_building := [];
                   ln_batches := ln_batches l ++ [building] |}
      else None
  end.

Definition lane_write (l : Lane) : option (Lane * list EncodedPersistOp) :=
  match ln_batches l with
  | b :: batches => Some ({| ln_rx := ln_rx l; ln_hands := ln_hands l; ln_encoded := ln_encoded l; ln_building := ln_building l;
                             ln_batches := batches |}, b)
  | [] => None
  end.

(** ** The shared handle *)

Record SharedPersist := {
  sp_blocks : BlockStore;
  sp_state : StateStore;
  sp_writer : Writer;
  sp_blocks_lane : option Lane;
  sp_history_lane : Lane;
  sp_index_write : bool;
  sp_pending : Z;
  sp_secondary_enabled : bool;
  sp_epoch_ckpt_enabled : bool;
  sp_epoch_ckpt_configured : bool;
  sp_epoch_length : Z
}.

(** [open]: the stores as found on disk, the configured pipelines. *)
Definition SharedPersist_open (blocks : BlockStore) (state : StateStore) (db : IndexStateTables) (epoch_length : Z)
    (enable_blocks_persist enable_index_state_persist enable_epoch_checkpoint : bool) : SharedPersist :=
  let enable_epoch := enable_index_state_persist && enable_epoch_checkpoint in
  {| sp_blocks := blocks; sp_state := state; sp_writer := writer_init db;
     sp_blocks_lane := if enable_blocks_persist then Some Lane_new else None; sp_history_lane := Lane_new;
     sp_index_write := enable_index_state_persist; sp_pending := 0; sp_secondary_enabled := true;
     sp_epoch_ckpt_enabled := enable_epoch; sp_epoch_ckpt_configured := enable_epoch; sp_epoch_length := epoch_length |}.

Definition set_secondary_persist (enabled : bool) (p : SharedPersist) : SharedPersist :=
  {| sp_blocks := sp_blocks p; sp_state := sp_state p; sp_writer := sp_writer p; sp_blocks_lane := sp_blocks_lane p;
     sp_history_lane := sp_history_lane p; sp_index_write := sp_index_write p; sp_pending := sp_pending p;
     sp_secondary_enabled := enabled; sp_epoch_ckpt_enabled := sp_epoch_ckpt_enabled p;
     sp_epoch_ckpt_configured := sp_epoch_ckpt_configured p; sp_epoch_length := sp_epoch_length p |}.

Definition set_epoch_checkpoint (enabled : bool) (p : SharedPersist) : SharedPersist :=
  {| sp_blocks := sp_blocks p; sp_state := sp_state p; sp_writer := sp_writer p; sp_blocks_lane := sp_blocks_lane p;
     sp_history_lane := sp_history_lane p; sp_index_write := sp_index_write p; sp_pending := sp_pending p;
     sp_secondary_enabled := sp_secondary_enabled p; sp_epoch_ckpt_enabled := sp_epoch_ckpt_configured p && enabled;
     sp_epoch_ckpt_configured := sp_epoch_ckpt_configured p; sp_epoch_length := sp_epoch_length p |}.

Definition with_stores (blocks : BlockStore) (state : StateStore) (w : Writer) (p : SharedPersist) : SharedPersist :=
  {| sp_blocks := blocks; sp_state := state; sp_writer := w; sp_blocks_lane := sp_blocks_lane p;
     sp_history_lane := sp_history_lane p; sp_index_write := sp_index_write p; sp_pending := sp_pending p;
     sp_secondary_enabled := sp_secondary_enabled p; sp_epoch_ckpt_enabled := sp_epoch_ckpt_enabled p;
     sp_epoch_ckpt_configured := sp_epoch_ckpt_configured p; sp_epoch_length := sp_epoch_length p |}.

(** The lanes and the counter after a step. *)
Definition with_lanes (blocks : option Lane) (history : Lane) (delta : Z) (p : SharedPersist) : SharedPersist :=
  {| sp_blocks := sp_blocks p; sp_state := sp_state p; sp_writer := sp_writer p; sp_blocks_lane := blocks;
     sp_history_lane := history; sp_index_write := sp_index_write p; sp_pending := sp_pending p + delta;
     sp_secondary_enabled := sp_secondary_enabled p; sp_epoch_ckpt_enabled := sp_epoch_ckpt_enabled p;
     sp_epoch_ckpt_configured := sp_epoch_ckpt_configured p; sp_epoch_length := sp_epoch_length p |}.

Definition secondary_ok (p : SharedPersist) : bool :=
  sp_secondary_enabled p && bool_decide (sp_pending p <= SECONDARY_PENDING_LIMIT).

Definition on_blocks (f : Lane -> option Lane) (p : SharedPersist) (delta : Z) : option SharedPersist :=
  l ← sp_blocks_lane p; l' ← f l; Some (with_lanes (Some l') (sp_history_lane p) delta p).
Definition on_history (f : Lane -> option Lane) (p : SharedPersist) (delta : Z) : option SharedPersist :=
  l' ← f (sp_history_lane p); Some (with_lanes (sp_blocks_lane p) l' delta p).

(** [submit_nowait]: dropped when the queue is full. *)
Definition submit_nowait (op : PersistOp) (p : SharedPersist) : SharedPersist := default p (on_history (lane_submit op) p 1).

Definition enqueue_secondary (op : PersistOp) (p : SharedPersist) : SharedPersist :=
  if secondary_ok p then submit_nowait op p else p.
Definition enqueue_order_history (row : PersistOrderRow) := enqueue_secondary (UpsertOrderHistory row).
Definition enqueue_closed_bar (bar : ClosedBarRow) := enqueue_secondary (SaveClosedBar bar).
Definition enqueue_paper_house_history (row : PaperHouseHistoryRow) := enqueue_secondary (SavePaperHouseHistory row).

(** [submit_async]: [None] while the queue is full. *)
Definition enqueue_receipt_block (block : ReceiptBlock) (p : SharedPersist) : option SharedPersist :=
  match sp_blocks_lane p with
  | None => Some p
  | Some _ => on_blocks (lane_submit (SaveReceiptBlock block)) p 1
  end.
Definition enqueue_paper_position_history (row : PaperPositionHistory) (p : SharedPersist) : option SharedPersist :=
  on_history (lane_submit (SavePaperPositionHistory row)) p 1.
Definition enqueue_index_write (ws : IndexWriteSet) (p : SharedPersist) : option SharedPersist :=
  if negb (sp_index_write p) then Some p
  else if decide (length (wr_rx (sp_writer p)) < INDEX_WRITE_QUEUE)%nat
       then Some (with_lanes (sp_blocks_lane p) (sp_history_lane p) 1
                    (with_stores (sp_blocks p) (sp_state p) (writer_enqueue (sp_writer p) ws) p))
       else None.

(** ** The tasks *)

Inductive LaneEvent := LTake | LEncode (worker : nat) | LCoalesce | LFlush.

Definition lane_step (e : LaneEvent) (l : Lane) : option (Lane * Z) :=
  match e with
  | LTake => (fun l => (l, 0)) <$> lane_take l
  | LEncode worker => (fun r : Lane * bool => (r.1, if r.2 then -1 else 0)) <$> lane_encode worker l
  | LCoalesce => (fun l => (l, 0)) <$> lane_coalesce l
  | LFlush => (fun l => (l, 0)) <$> lane_flush l
  end.

Inductive PersistEvent :=
| PeBlock (block : ReceiptBlock)
| PeHistory (op : PersistOp)
| PePosition (row : PaperPositionHistory)
| PeIndex (ws : IndexWriteSet)
| PeBlocksLane (e : LaneEvent)
| PeHistoryLane (e : LaneEvent)
| PeBlocksWrite (now_ms : Z) (committed : bool)
| PeHistoryWrite (now_ms : Z) (committed : bool)
| PeIndexBuild (built : bool)
| PeIndexSend
| PeIndexWrite (outcome : WriteOutcome).

(** A failed transaction leaves its store; its operations leave the count. *)
Definition ok_or {A} (a : A) (r : AppResult A) : A := match r with Ok b => b | Err _ => a end.

Definition persist_step (p : SharedPersist) (e : PersistEvent) : option SharedPersist :=
  match e with
  | PeBlock block => enqueue_receipt_block block p
  | PeHistory op => Some (enqueue_secondary op p)
  | PePosition row => enqueue_paper_position_history row p
  | PeIndex ws => enqueue_index_write ws p
  | PeBlocksLane e => l ← sp_blocks_lane p; r ← lane_step e l; Some (with_lanes (Some r.1) (sp_history_lane p) r.2 p)
  | PeHistoryLane e => r ← lane_step e (sp_history_lane p); Some (with_lanes (sp_blocks_lane p) r.1 r.2 p)
  | PeBlocksWrite now_ms committed =>
      l ← sp_blocks_lane p; r ← lane_write l;
      let blocks := if committed then ok_or (sp_blocks p) (apply_encoded_blocks_batch now_ms (sp_blocks p) r.2) else sp_blocks p in
      Some (with_lanes (Some r.1) (sp_history_lane p) (- Z.of_nat (length r.2)) (with_stores blocks (sp_state p) (sp_writer p) p))
  | PeHistoryWrite now_ms committed =>
      r ← lane_write (sp_history_lane p);
      let state := if committed then ok_or (sp_state p) (apply_encoded_state_batch now_ms (sp_state p) r.2) else sp_state p in
      Some (with_lanes (sp_blocks_lane p) r.1 (- Z.of_nat (length r.2)) (with_stores (sp_blocks p) state (sp_writer p) p))
  | PeIndexBuild built =>
      w ← writer_build built (sp_writer p);
      Some (with_lanes (sp_blocks_lane p) (sp_history_lane p) (if built then 0 else -1) (with_stores (sp_blocks p) (sp_state p) w p))
  | PeIndexSend => w ← writer_send (sp_writer p); Some (with_stores (sp_blocks p) (sp_state p) w p)
  | PeIndexWrite outcome =>
      w ← writer_write (sp_epoch_ckpt_enabled p) (sp_epoch_length p) outcome (sp_writer p);
      Some (with_lanes (sp_blocks_lane p) (sp_history_lane p) (-1) (with_stores (sp_blocks p) (sp_state p) w p))
  end.

(** Only history operations go to the history lane. *)
Definition is_history (op : PersistOp) : bool :=
  match op with UpsertOrderHistory _ | SaveClosedBar _ | SavePaperHouseHistory _ => true | _ => false end.

(** [wait_idle]'s condition. *)
Definition is_idle (p : SharedPersist) : bool := bool_decide (sp_pending p <= 0).

End Persist.
