(* ===== verification/PersistFacts.v ===== *)
(** * PersistFacts: what an idle persistence handle has done

    The counter of pending operations is exact under every interleaving and
    every outcome of the databases: an idle handle has given every accepted
    operation to one transaction, and its stores are those that succeeded. *)
From Stdlib Require Import Strings.Byte.
From S2P Require Import Prelude Text Errors Sdk Keys Domain WriteSet Tables Rings Paper Events Store StoreFacts Persist.

Local Open Scope list_scope.
Local Open Scope Z_scope.

Section Facts.
Context {SD : Sdk} {J : Json} {K : BlockCodec}.

(** ** What a lane holds, as the outcomes of its encodings *)

Definition flow (l : Lane) : list (AppResult EncodedPersistOp) :=
  (Ok <$> (concat (ln_batches l) ++ ln_building l ++ ln_encoded l)) ++ (encode_persist_op <$> (ln_hands l ++ ln_rx l)).

Lemma submit_flow op l l' : lane_submit op l = Some l' -> flow l' ≡ₚ encode_persist_op op :: flow l.
Proof.
  unfold lane_submit. case_decide; [|done]. intros [= <-]. unfold flow. simpl. rewrite !fmap_app. simpl.
  rewrite !app_assoc. by rewrite <- Permutation_cons_append.
Qed.

Lemma take_flow l l' : lane_take l = Some l' -> flow l' ≡ₚ flow l.
Proof.
  unfold lane_take. destruct (ln_rx l) as [|op rx] eqn:E; [done|]. case_decide; [|done]. intros [= <-]. unfold flow. simpl.
  by rewrite E, <- app_assoc.
Qed.

Lemma encode_flow worker l r :
  lane_encode worker l = Some r ->
  exists e, flow l ≡ₚ (if r.2 then [Err e] else []) ++ flow r.1.
Proof.
  unfold lane_encode. destruct (ln_hands l !! worker) as [op|] eqn:Eh; [|done]. simpl.
  assert (forall xs, (encode_persist_op <$> (ln_hands l ++ xs)) ≡ₚ encode_persist_op op :: (encode_persist_op <$> (delete worker (ln_hands l) ++ xs))) as HP.
  { intros xs. rewrite (delete_Permutation (ln_hands l) worker op Eh) at 1. done. }
  destruct (encode_persist_op op) as [e|e] eqn:Eo.
  - case_decide; [|done]. intros [= <-]. exists (Internal ""). unfold flow. simpl. rewrite HP, !app_assoc, !fmap_app. simpl.
    rewrite !app_assoc. by rewrite (Permutation_app_comm _ [Ok e]), <- Permutation_middle, !app_assoc.
  - intros [= <-]. exists e. unfold flow. simpl. rewrite HP. by rewrite <- Permutation_middle.
Qed.

Lemma coalesce_flow l l' : lane_coalesce l = Some l' -> flow l' ≡ₚ flow l.
Proof.
  unfold lane_coalesce. destruct (ln_encoded l) as [|e es] eqn:E; [done|]. case_decide; [|done]. intros [= <-].
  unfold flow. simpl. rewrite E. by rewrite <- !app_assoc.
Qed.

Lemma flush_flow l l' : lane_flush l = Some l' -> flow l' ≡ₚ flow l.
Proof.
  unfold lane_flush. destruct (ln_building l) as [|e es] eqn:E; [done|]. case_decide; [|done]. intros [= <-].
  unfold flow. simpl. rewrite E, concat_app. simpl. by rewrite app_nil_r, <- !app_assoc.
Qed.

Lemma write_flow l r : lane_write l = Some r -> flow l ≡ₚ (Ok <$> r.2) ++ flow r.1.
Proof.
  unfold lane_write. destruct (ln_batches l) as [|b bs] eqn:E; [done|]. intros [= <-]. unfold flow. simpl. rewrite E. simpl.
  by rewrite !fmap_app, <- !app_assoc.
Qed.

Definition failed (x : AppResult EncodedPersistOp) : Prop := exists e, x = Err e.

Lemma lane_step_flow e l r :
  lane_step e l = Some r -> exists errs, flow l ≡ₚ errs ++ flow r.1 /\ Forall failed errs /\ r.2 = - Z.of_nat (length errs).
Proof.
  destruct e as [|worker| |]; simpl.
  - intros (l' & E%take_flow & ->)%fmap_Some. exists []. by rewrite E.
  - intros ([l' d] & E & ->)%fmap_Some. destruct (encode_flow _ _ _ E) as [err HP]. simpl in *.
    exists (if d then [Err err] else []). destruct d; (split_and!; [done| |done]); repeat constructor. by exists err.
  - intros (l' & E%coalesce_flow & ->)%fmap_Some. exists []. by rewrite E.
  - intros (l' & E%flush_flow & ->)%fmap_Some. exists []. by rewrite E.
Qed.

(** ** Every interleaving, with the log of what was accepted and written *)

(** A batch given to a transaction, and whether that committed. *)
Record Attempt := { at_now : Z; at_ops : list EncodedPersistOp; at_committed : bool }.

Record Log := {
  lg_blocks : list PersistOp;
  lg_history : list PersistOp;
  lg_index : Fate;
  lg_block_batches : list Attempt;
  lg_state_batches : list Attempt
}.

Definition Log_empty : Log :=
  {| lg_blocks := []; lg_history := []; lg_index := Fate_new; lg_block_batches := []; lg_state_batches := [] |}.

(** A store after the transactions that committed, in order. *)
Definition committed_batches {S} (write : Z -> S -> list EncodedPersistOp -> AppResult S) (s : S) (l : list Attempt) : AppResult S :=
  foldl (fun r b => s ← r; if at_committed b then write (at_now b) s (at_ops b) else Ok s) (Ok s) l.

Lemma batches_snoc {S} (write : Z -> S -> list EncodedPersistOp -> AppResult S) s l b :
  committed_batches write s (l ++ [b]) =
  (s ← committed_batches write s l; if at_committed b then write (at_now b) s (at_ops b) else Ok s).
Proof. unfold committed_batches. by rewrite foldl_app. Qed.

(** The batch a write task is about to write. *)
Definition next_batch (l : option Lane) : list EncodedPersistOp := default [] (l ≫= fun l => head (ln_batches l)).

(** What a step adds to the log: a request counts when [pending] counted it. *)
Definition log_step (p p' : SharedPersist) (e : PersistEvent) (lg : Log) : Log :=
  let blocks := lg_blocks lg in let history := lg_history lg in let index := lg_index lg in
  let bb := lg_block_batches lg in let sb := lg_state_batches lg in
  let counted := bool_decide (sp_pending p' = sp_pending p + 1) in
  match e with
  | PeBlock block => Build_Log (if counted then blocks ++ [SaveReceiptBlock block] else blocks) history index bb sb
  | PeHistory op => Build_Log blocks (if counted then history ++ [op] else history) index bb sb
  | PePosition row => Build_Log blocks (history ++ [SavePaperPositionHistory row]) index bb sb
  | PeIndex ws => Build_Log blocks history (if counted then fate_step (sp_writer p) (WEnqueue ws) index else index) bb sb
  | PeBlocksWrite now ok => Build_Log blocks history index (bb ++ [Build_Attempt now (next_batch (sp_blocks_lane p)) ok]) sb
  | PeHistoryWrite now ok => Build_Log blocks history index bb (sb ++ [Build_Attempt now (next_batch (Some (sp_history_lane p))) ok])
  | PeIndexBuild built => Build_Log blocks history (fate_step (sp_writer p) (WBuild built) index) bb sb
  | PeIndexSend => Build_Log blocks history (fate_step (sp_writer p) WSend index) bb sb
  | PeIndexWrite outcome => Build_Log blocks history (fate_step (sp_writer p) (WWrite (sp_epoch_ckpt_enabled p) outcome) index) bb sb
  | _ => lg
  end.

(** Only history operations are offered through the secondary methods. *)
Definition persist_event_ok (e : PersistEvent) : Prop :=
  match e with PeHistory op => is_history op = true | _ => True end.

Inductive persist_run (p0 : SharedPersist) : Log -> SharedPersist -> Prop :=
| prun_nil : persist_run p0 Log_empty p0
| prun_step lg p e p' :
    persist_run p0 lg p -> persist_event_ok e -> persist_step p e = Some p' -> persist_run p0 (log_step p p' e lg) p'.

(** ** The invariant *)

(** Accepted operations were given to a transaction, failed to encode, or are in the lane. *)
Definition lane_inv (accepted : list PersistOp) (written : list Attempt) (l : list (AppResult EncodedPersistOp)) : Prop :=
  exists errs, Forall failed errs /\ encode_persist_op <$> accepted ≡ₚ (Ok <$> concat (at_ops <$> written)) ++ errs ++ l.

Definition lane_flow (l : option Lane) : list (AppResult EncodedPersistOp) := default [] (flow <$> l).

Definition writer_load (w : Writer) : nat := (length (wr_rx w) + length (option_list (wr_hand w)) + length (wr_chan w))%nat.

Lemma lane_inv_submit acc written l l' op :
  l' ≡ₚ encode_persist_op op :: l -> lane_inv acc written l -> lane_inv (acc ++ [op]) written l'.
Proof.
  intros E (errs & HF & HP). exists errs. split; [done|]. rewrite fmap_app, HP, E. simpl.
  by rewrite <- Permutation_cons_append, <- !Permutation_middle.
Qed.

Lemma lane_inv_errs acc written l l' errs : l ≡ₚ errs ++ l' -> Forall failed errs -> lane_inv acc written l -> lane_inv acc written l'.
Proof.
  intros E HF (errs0 & HF0 & HP). exists (errs0 ++ errs). split; [by apply Forall_app|]. by rewrite HP, E, <- !app_assoc.
Qed.

Lemma lane_inv_write acc written l l' now b ok :
  l ≡ₚ (Ok <$> b) ++ l' -> lane_inv acc written l -> lane_inv acc (written ++ [Build_Attempt now b ok]) l'.
Proof.
  intros E (errs & HF & HP). exists errs. split; [done|]. rewrite HP, E, fmap_app, concat_app. simpl.
  rewrite app_nil_r, fmap_app, <- !app_assoc. f_equiv. by rewrite !app_assoc, (Permutation_app_comm errs).
Qed.

Lemma lane_inv_elem acc written l e : lane_inv acc written l -> Ok e ∈ l -> exists op, op ∈ acc /\ encode_persist_op op = Ok e.
Proof.
  intros (errs & _ & HP) He. assert (Ok e ∈ encode_persist_op <$> acc) as (op & E & H)%list_elem_of_fmap; [|by exists op].
  rewrite HP, !elem_of_app. auto.
Qed.

Lemma write_elem l r e : lane_write l = Some r -> e ∈ r.2 -> Ok e ∈ flow l.
Proof. intros E%write_flow He. rewrite E, elem_of_app. left. by apply list_elem_of_fmap_2. Qed.

(** Batches of the right kind never fail. *)
Lemma blocks_batch_ok now s b :
  Forall (fun e => exists n d payload, e = EncSaveBlockBytes n d payload) b -> exists s', apply_encoded_blocks_batch now s b = Ok s'.
Proof.
  intros HF. unfold apply_encoded_blocks_batch. revert s. induction HF as [|e b (n & d & payload & ->) _ IH]; intros s; [by exists s|].
  apply (IH (save_block now s n d payload)).
Qed.

Lemma state_batch_ok now s b :
  Forall (fun e => forall n d payload, e <> EncSaveBlockBytes n d payload) b -> exists s', apply_encoded_state_batch now s b = Ok s'.
Proof.
  intros HF. unfold apply_encoded_state_batch.
  assert (exists s', foldl (state_op now) (Ok s) b = Ok s') as [s' ->]; [|by eexists].
  revert s. induction HF as [|e b He _ IH]; intros s; [by exists s|]. destruct e; try apply IH. by destruct (He block_num digest payload).
Qed.

Definition is_block_op (op : PersistOp) : Prop := exists block, op = SaveReceiptBlock block.
Definition is_history_op (op : PersistOp) : Prop := ~ is_block_op op.

Lemma block_op_enc op e : is_block_op op -> encode_persist_op op = Ok e -> exists n d payload, e = EncSaveBlockBytes n d payload.
Proof. intros [block ->]. simpl. destruct (encode_block_payload block); [|done]. intros [= <-]. by eexists _, _, _. Qed.

Lemma history_op_enc op e n d payload : is_history_op op -> encode_persist_op op = Ok e -> e <> EncSaveBlockBytes n d payload.
Proof.
  intros Hop. destruct op; simpl; try (intros [= <-]; done); [by destruct Hop; eexists|..];
    (destruct (order_to_json _) || destruct (position_to_json _)); intros [= <-]; done.
Qed.

Record persist_inv (blocks0 : BlockStore) (state0 : StateStore) (db0 : IndexStateTables) (epoch_length : Z) (lg : Log) (p : SharedPersist) : Prop := {
  pi_pending : sp_pending p = Z.of_nat (length (lane_flow (sp_blocks_lane p)) + length (flow (sp_history_lane p)) + writer_load (sp_writer p));
  pi_blocks : lane_inv (lg_blocks lg) (lg_block_batches lg) (lane_flow (sp_blocks_lane p));
  pi_history : lane_inv (lg_history lg) (lg_state_batches lg) (flow (sp_history_lane p));
  pi_block_ops : Forall is_block_op (lg_blocks lg);
  pi_history_ops : Forall is_history_op (lg_history lg);
  pi_block_store : committed_batches apply_encoded_blocks_batch blocks0 (lg_block_batches lg) = Ok (sp_blocks p);
  pi_state_store : committed_batches apply_encoded_state_batch state0 (lg_state_batches lg) = Ok (sp_state p);
  pi_writer : writer_run epoch_length db0 (lg_index lg) (sp_writer p);
  pi_epoch : sp_epoch_length p = epoch_length
}.

Lemma open_inv blocks state db n be ie ee : persist_inv blocks state db n Log_empty (SharedPersist_open blocks state db n be ie ee).
Proof.
  split; simpl; try done; [by destruct be|..]; try (exists []; by destruct be). constructor.
Qed.

Lemma flow_new : flow Lane_new = [].
Proof. done. Qed.

(** Offering a history operation: dropped, or counted and queued. *)
Lemma secondary_cases op p :
  enqueue_secondary op p = p \/
  exists l', lane_submit op (sp_history_lane p) = Some l' /\ enqueue_secondary op p = with_lanes (sp_blocks_lane p) l' 1 p.
Proof.
  unfold enqueue_secondary, submit_nowait, on_history. destruct (secondary_ok p); [|by left].
  destruct (lane_submit op (sp_history_lane p)) as [l'|] eqn:E; [right|by left]. by exists l'.
Qed.

Lemma writer_load_steps w w' :
  (forall built, writer_build built w = Some w' -> writer_load w = (writer_load w' + if built then 0 else 1)%nat) /\
  (writer_send w = Some w' -> writer_load w = writer_load w') /\
  (forall e n o, writer_write e n o w = Some w' -> writer_load w = S (writer_load w')).
Proof.
  unfold writer_build, writer_send, writer_write, writer_load. split_and!.
  - intros built H. destruct (wr_hand w); [done|]. destruct (wr_rx w); [done|]. injection H as <-. destruct built; simpl; lia.
  - intros H. destruct (wr_hand w); [|done]. case_decide; [|done]. injection H as <-. simpl. rewrite length_app. simpl. lia.
  - intros e n o H. destruct (wr_chan w); [done|]. injection H as <-. simpl. lia.
Qed.

(** The counter after an accepted request, and after work in a lane. *)
Lemma length_submit op l l' : lane_submit op l = Some l' -> length (flow l') = S (length (flow l)).
Proof. intros ->%submit_flow. done. Qed.

Lemma length_errs (l : list (AppResult EncodedPersistOp)) errs l' : l ≡ₚ errs ++ l' -> length l = (length errs + length l')%nat.
Proof. intros ->. apply length_app. Qed.

Lemma step_requests b0 s0 db n lg p p' e :
  persist_inv b0 s0 db n lg p -> persist_event_ok e ->
  match e with PeBlock _ | PeHistory _ | PePosition _ | PeIndex _ => True | _ => False end ->
  persist_step p e = Some p' -> persist_inv b0 s0 db n (log_step p p' e lg) p'.
Proof.
  intros [I1 I2 I3 I4 I5 I6 I7 I8 I9] Hok Hreq. destruct e as [block|op|row|ws| | | | | | | ]; try done; simpl in *.
  - unfold enqueue_receipt_block, on_blocks. destruct (sp_blocks_lane p) as [l|] eqn:El; simpl.
    2:{ intros [= <-]. rewrite bool_decide_eq_false_2 by lia. split; simpl; rewrite ?El; done. }
    destruct (lane_submit _ l) as [l'|] eqn:E; [|done]. intros [= <-]. pose proof (length_submit _ _ _ E). apply submit_flow in E.
    simpl in *. rewrite bool_decide_eq_true_2 by done. split; simpl; try done; [unfold lane_flow in *; simpl in *; lia|by eapply lane_inv_submit|].
    apply Forall_app. split; [done|]. repeat constructor. by eexists.
  - intros [= <-]. destruct (secondary_cases op p) as [->|(l' & E & ->)].
    { rewrite bool_decide_eq_false_2 by lia. by split. }
    pose proof (length_submit _ _ _ E). apply submit_flow in E. simpl. rewrite bool_decide_eq_true_2 by done.
    split; simpl; try done; [lia|by eapply lane_inv_submit|]. apply Forall_app. split; [done|]. constructor; [|constructor].
    intros [block ->]. done.
  - unfold enqueue_paper_position_history, on_history. destruct (lane_submit _ _) as [l'|] eqn:E; [|done]. intros [= <-].
    pose proof (length_submit _ _ _ E). apply submit_flow in E. split; simpl; try done; [lia|by eapply lane_inv_submit|].
    apply Forall_app. split; [done|]. constructor; [|constructor]. by intros [block ?].
  - unfold enqueue_index_write. destruct (sp_index_write p); simpl.
    2:{ intros [= <-]. rewrite bool_decide_eq_false_2 by lia. by split. }
    case_decide; [|done]. intros [= <-]. simpl. rewrite bool_decide_eq_true_2 by done. split; simpl; try done.
    + unfold writer_load in *. simpl. rewrite length_app. simpl. lia.
    + exact (run_step n db _ _ (WEnqueue ws) _ I8 eq_refl).
Qed.

Lemma step_tasks b0 s0 db n lg p p' e :
  persist_inv b0 s0 db n lg p -> match e with PeBlock _ | PeHistory _ | PePosition _ | PeIndex _ => False | _ => True end ->
  persist_step p e = Some p' -> persist_inv b0 s0 db n (log_step p p' e lg) p'.
Proof.
  intros [I1 I2 I3 I4 I5 I6 I7 I8 I9] Hreq. destruct e as [ | | | |e|e|now ok|now ok|built| |outcome]; try done; simpl in *.
  - destruct (sp_blocks_lane p) as [l|]; [|done]. simpl in *. destruct (lane_step e l) as [r|] eqn:E; [|done]. intros [= <-].
    destruct (lane_step_flow _ _ _ E) as (errs & HP & HF & Hr). pose proof (length_errs _ _ _ HP).
    split; simpl; try done; [unfold lane_flow in *; simpl in *; lia|by eapply lane_inv_errs].
  - destruct (lane_step e (sp_history_lane p)) as [r|] eqn:E; [|done]. intros [= <-].
    destruct (lane_step_flow _ _ _ E) as (errs & HP & HF & Hr). pose proof (length_errs _ _ _ HP).
    split; simpl; try done; [lia|by eapply lane_inv_errs].
  - destruct (sp_blocks_lane p) as [l|]; [|done]. simpl in *. destruct (lane_write l) as [r|] eqn:E; [|done]. intros [= <-].
    pose proof (write_flow _ _ E) as HP. pose proof (length_errs _ _ _ HP) as Hlen. rewrite length_fmap in Hlen.
    assert (next_batch (Some l) = r.2) as Er.
    { unfold next_batch, lane_write in *. simpl. destruct (ln_batches l); [done|]. by injection E as <-. }
    destruct (blocks_batch_ok now (sp_blocks p) r.2) as [s' Es].
    { apply Forall_forall. intros x Hx. destruct (lane_inv_elem _ _ _ x I2) as (op & Hop & Henc); [by eapply write_elem|].
      eapply block_op_enc; [|exact Henc]. rewrite Forall_forall in I4. by apply I4. }
    rewrite Er. split; simpl; try done; [unfold lane_flow in *; simpl in *; lia|by eapply lane_inv_write|].
    rewrite batches_snoc, I6. simpl. destruct ok; [|done]. by rewrite Es.
  - destruct (lane_write (sp_history_lane p)) as [r|] eqn:E; [|done]. intros [= <-].
    pose proof (write_flow _ _ E) as HP. pose proof (length_errs _ _ _ HP) as Hlen. rewrite length_fmap in Hlen.
    assert (next_batch (Some (sp_history_lane p)) = r.2) as Er.
    { unfold next_batch, lane_write in *. simpl. destruct (ln_batches _); [done|]. by injection E as <-. }
    destruct (state_batch_ok now (sp_state p) r.2) as [s' Es].
    { apply Forall_forall. intros x Hx k d pl. destruct (lane_inv_elem _ _ _ x I3) as (op & Hop & Henc); [by eapply write_elem|].
      eapply history_op_enc; [|exact Henc]. rewrite Forall_forall in I5. by apply I5. }
    rewrite Er. split; simpl; try done; [lia|by eapply lane_inv_write|].
    rewrite batches_snoc, I7. simpl. destruct ok; [|done]. by rewrite Es.
  - destruct (writer_build built _) as [w|] eqn:E; [|done]. intros [= <-].
    pose proof (proj1 (writer_load_steps (sp_writer p) w) built E) as Hl.
    split; simpl; try done; [destruct built; lia|exact (run_step n db _ _ (WBuild built) w I8 E)].
  - destruct (writer_send _) as [w|] eqn:E; [|done]. intros [= <-].
    pose proof (proj1 (proj2 (writer_load_steps (sp_writer p) w)) E) as Hl. split; simpl; try done; [lia|exact (run_step n db _ _ WSend w I8 E)].
  - destruct (writer_write _ _ _ _) as [w|] eqn:E; [|done]. intros [= <-].
    pose proof (proj2 (proj2 (writer_load_steps (sp_writer p) w)) _ _ _ E) as Hl.
    split; simpl; try done; [lia|].
    refine (run_step n db _ _ (WWrite (sp_epoch_ckpt_enabled p) outcome) w I8 _). simpl. by rewrite <- I9.
Qed.

Lemma persist_run_inv blocks state db n be ie ee lg p :
  persist_run (SharedPersist_open blocks state db n be ie ee) lg p -> persist_inv blocks state db n lg p.
Proof.
  induction 1 as [|lg p e p' _ IH Hok Hs]; [apply open_inv|]. destruct e; eauto using step_requests, step_tasks.
Qed.

(** C13: [wait_idle] means that nothing is under way, not that all is written.
    Under every interleaving of requests and tasks and every outcome of the
    databases, when the pending count is zero: every accepted operation has been
    in exactly one batch given to a transaction, or was dropped because it has no
    encoding; the two SQLite stores are the transactions that committed, in
    order; every write set has been committed or is one whose batch or commit
    failed, and the index tables are those committed, in the order handed over.
    So if no transaction, batch or commit has failed, everything is written. *)
Theorem idle_means_settled blocks state db n be ie ee lg p :
  persist_run (SharedPersist_open blocks state db n be ie ee) lg p -> is_idle p = true ->
  (exists errs, Forall failed errs /\ encode_persist_op <$> lg_blocks lg ≡ₚ (Ok <$> concat (at_ops <$> lg_block_batches lg)) ++ errs) /\
  (exists errs, Forall failed errs /\ encode_persist_op <$> lg_history lg ≡ₚ (Ok <$> concat (at_ops <$> lg_state_batches lg)) ++ errs) /\
  committed_batches apply_encoded_blocks_batch blocks (lg_block_batches lg) = Ok (sp_blocks p) /\
  committed_batches apply_encoded_state_batch state (lg_state_batches lg) = Ok (sp_state p) /\
  (Forall (fun ws => ws_full_replace ws = false) (ft_log (lg_index lg)) ->
   wr_db (sp_writer p) = replay db (ft_committed (lg_index lg)) /\
   ft_committed (lg_index lg) `sublist_of` ft_log (lg_index lg) /\
   ft_log (lg_index lg) ≡ₚ ft_committed (lg_index lg) ++ ft_lost (lg_index lg) /\
   (ft_lost (lg_index lg) = [] -> ft_committed (lg_index lg) = ft_log (lg_index lg))).
Proof.
  intros [I1 I2 I3 _ _ I6 I7 I8 _]%persist_run_inv Hi%bool_decide_eq_true.
  assert (lane_flow (sp_blocks_lane p) = [] /\ flow (sp_history_lane p) = [] /\ writer_load (sp_writer p) = 0%nat) as (E1 & E2 & E3).
  { split_and!; [apply length_zero_iff_nil|apply length_zero_iff_nil|]; lia. }
  rewrite E1 in I2. rewrite E2 in I3.
  split_and!; [destruct I2 as (errs & HF & HP)|destruct I3 as (errs & HF & HP)|done|done|]; [exists errs; by rewrite app_nil_r in HP..|].
  intros HF. destruct (writer_run_inv _ _ _ _ I8 HF) as [W1 W2 W3 W4 _]. unfold writer_load in E3.
  apply Forall2_length in W4. rewrite length_app in W4. destruct (ft_flight (lg_index lg)); [|simpl in *; lia].
  destruct (wr_rx (sp_writer p)); [|simpl in *; lia]. simpl in W1, W2. rewrite app_nil_r in W1.
  split_and!; try done. intros El. rewrite El, app_nil_r in W2. apply sublist_full; [done|]. by rewrite W2.
Qed.

(** Runs can be computed. *)
Fixpoint run_events (st : Log * SharedPersist) (es : list PersistEvent) : option (Log * SharedPersist) :=
  match es with
  | [] => Some st
  | e :: es => p' ← persist_step st.2 e; run_events (log_step st.2 p' e st.1, p') es
  end.

Lemma run_events_sound p0 st st' es :
  Forall persist_event_ok es -> persist_run p0 st.1 st.2 -> run_events st es = Some st' -> persist_run p0 st'.1 st'.2.
Proof.
  intros HF. revert st. induction HF as [|e es He _ IH]; intros st Hr; simpl; [by intros [= <-]|].
  destruct (persist_step st.2 e) as [p'|] eqn:E; [|done]. simpl. apply IH. by eapply prun_step.
Qed.

End Facts.

(** ** Witness: one block is written, the transaction of the next one fails *)

Definition demo_persist : SharedPersist (SD := DemoSdk) :=
  SharedPersist_open (SD := DemoSdk) ∅ StateStore_empty tables_empty 1000 true true true.
Definition demo_lane_events (now : Z) (ok : bool) : list (PersistEvent (SD := DemoSdk)) :=
  [PeBlocksLane LTake; PeBlocksLane (LEncode 0); PeBlocksLane LCoalesce; PeBlocksLane LFlush; PeBlocksWrite now ok].
Definition demo_persist_events : list (PersistEvent (SD := DemoSdk)) :=
  [PeBlock (demo_block 9)] ++ demo_lane_events 5 true ++ [PeBlock (demo_block 10)] ++ demo_lane_events 6 false ++
  [PeIndex (ws_default 9 "d" false); PeIndexBuild true; PeIndexSend; PeIndexWrite CommitFailed].

Definition demo_persist_run : Log * SharedPersist :=
  default (Log_empty, demo_persist)
    (run_events (SD := DemoSdk) (J := DemoJson) (K := DemoCodec) (Log_empty, demo_persist) demo_persist_events).

Lemma demo_persist_reached :
  persist_run (SD := DemoSdk) (J := DemoJson) (K := DemoCodec) demo_persist demo_persist_run.1 demo_persist_run.2.
Proof.
  apply (run_events_sound (SD := DemoSdk) (J := DemoJson) (K := DemoCodec) _ (Log_empty, demo_persist) demo_persist_run demo_persist_events).
  - apply Forall_forall. intros e He. repeat (apply elem_of_cons in He as [->|He]; [exact I|]). by apply not_elem_of_nil in He.
  - apply prun_nil.
  - unfold demo_persist_run. destruct (run_events _ _) eqn:E; [done|].
    apply (f_equal some_b) in E. vm_compute in E. discriminate E.
Qed.

Lemma idle_means_settled_witness :
  dom (sp_blocks demo_persist_run.2) = {[9]} /\ length (lg_blocks demo_persist_run.1) = 2%nat /\
  committed_batches apply_encoded_blocks_batch ∅ (lg_block_batches demo_persist_run.1) = Ok (sp_blocks demo_persist_run.2) /\
  wr_db (sp_writer demo_persist_run.2) = tables_empty.
Proof.
  pose proof (idle_means_settled (SD := DemoSdk) (J := DemoJson) (K := DemoCodec) ∅ StateStore_empty tables_empty 1000
    true true true demo_persist_run.1 demo_persist_run.2 demo_persist_reached eq_refl) as (_ & _ & H & _ & HI).
  split; [by vm_compute|]. split; [by vm_compute|]. split; [exact H|].
  destruct HI as [-> _]; [|by vm_compute]. vm_compute. by repeat constructor.
Defined.
