(* ===== verification/Peer.v ===== *)
(** * Peer: [peer/mod.rs] and [http/routes/peer.rs]

    What a node tells its peers (its tip, its checkpoint, its block log by
    pages) and what a node that lags takes from them: the choice of a peer and
    the download loop.  A peer is the answer of its [blocks] route, so the
    transport (HTTP, JSON, base64) is left out. *)
From Stdlib Require Import Strings.Byte.
From S2P Require Import Prelude Text Errors Sdk Keys Domain WriteSet Tables Rings Paper Events Store StoreFacts.

Local Open Scope list_scope.
Local Open Scope Z_scope.

Record IndexedBlockHead := {
  hd_block_num : Z;
  hd_digest : string;
  hd_tx_count : nat;
  hd_connected : bool;
  hd_catching_up : bool;
  hd_last_indexed_at_ms : Z
}.

Definition new_head : IndexedBlockHead :=
  {| hd_block_num := 0; hd_digest := ""; hd_tx_count := 0; hd_connected := false; hd_catching_up := false; hd_last_indexed_at_ms := 0 |}.

Record CheckpointSnapshot := {
  cs_block_num : Z;
  cs_digest : string;
  cs_markets : list Market;
  cs_orders : list PersistOrderRow;
  cs_last_trades : list (string * Z);
  cs_book_levels : list PersistBookLevel;
  cs_book_metas : list PersistBookMeta;
  cs_vaults : list Vault;
  cs_vault_portfolio : list PersistVaultPortfolioRow
}.

Record PeerTip := {
  tip_block_num : Z;
  tip_digest : string;
  tip_connected : bool;
  tip_checkpoint_block_num : option Z;
  tip_checkpoint_digest : option string
}.

(** A downloaded block: number, digest, payload. *)
Definition PeerBlock : Type := Z * string * list byte.

Section Peer.
Context {SD : Sdk} {K : BlockCodec}.

(** ** The serving side *)

Definition export_checkpoint_snapshot (t : IndexStateTables) : AppResult (option CheckpointSnapshot) :=
  meta ← read_meta t;
  match meta with
  | None => Ok None
  | Some meta =>
      Ok (Some {| cs_block_num := pm_block_num meta; cs_digest := pm_digest meta; cs_markets := load_markets t;
                  cs_orders := load_orders t; cs_last_trades := load_last_trades t; cs_book_levels := load_book_levels t;
                  cs_book_metas := load_book_meta t; cs_vaults := load_vaults t; cs_vault_portfolio := load_vault_portfolio t |})
  end.

(** [GET /peer/tip]; [persist] is what is open, if anything. *)
Definition tip (head : IndexedBlockHead) (persist : option IndexStateTables) : AppResult PeerTip :=
  meta ← match persist with Some t => read_meta t | None => Ok None end;
  Ok {| tip_block_num := hd_block_num head; tip_digest := hd_digest head; tip_connected := hd_connected head;
        tip_checkpoint_block_num := pm_block_num <$> meta; tip_checkpoint_digest := pm_digest <$> meta |}.

(** [GET /peer/checkpoint]. *)
Definition checkpoint_route (persist : option IndexStateTables) : AppResult CheckpointSnapshot :=
  match persist with
  | None => Err (ServiceUnavailable "sqlite persist disabled")
  | Some t =>
      snapshot ← export_checkpoint_snapshot t;
      match snapshot with Some s => Ok s | None => Err (NotFound "no checkpoint materialized yet") end
  end.

(** [GET /peer/blocks?after=..&limit=..]. *)
Definition blocks_route (persist : option BlockStore) (after : option Z) (limit : option nat) : AppResult (list PeerBlock) :=
  match persist with
  | None => Err (ServiceUnavailable "sqlite persist disabled")
  | Some s => Ok (load_blocks_after s after (Some (Nat.max 1 (Nat.min 500 (default 200%nat limit)))))
  end.

(** ** The asking side *)

Definition PAGE : nat := 200.

(** The download loop, one page per turn; [None] when the fuel runs out. *)
Fixpoint download_blocks (fuel : nat) (blocks_after : Z -> nat -> AppResult (list PeerBlock)) (after : Z) (all : list PeerBlock)
    : option (AppResult (list PeerBlock)) :=
  match fuel with
  | O => None
  | S fuel =>
      match blocks_after after PAGE with
      | Err e => Some (Err e)
      | Ok [] => Some (Ok all)
      | Ok page =>
          let after := default after ((fun b => b.1.1) <$> last page) in
          let all := all ++ page in
          if decide (length page < PAGE)%nat then Some (Ok all) else download_blocks fuel blocks_after after all
      end
  end.

Definition eligible (local_block_num threshold : Z) (t : PeerTip) : bool :=
  bool_decide (sat_add local_block_num threshold < tip_block_num t) && bool_decide (is_Some (tip_checkpoint_block_num t)).

(** [max_by_key] keeps the last of the greatest. *)
Definition select_catchup_peer (tips : list (string * PeerTip)) (local_block_num threshold : Z) : option (string * PeerTip) :=
  foldl (fun best t =>
    match best with
    | Some b => if decide (tip_block_num b.2 <= tip_block_num t.2) then Some t else Some b
    | None => Some t
    end) None (filter (fun t => eligible local_block_num threshold t.2 = true) tips).

Definition digest_set_from_blocks (blocks : list PeerBlock) : gset string := list_to_set ((fun b => b.1.2) <$> blocks).

(** ** What they guarantee *)

Lemma select_spec tips local threshold :
  match select_catchup_peer tips local threshold with
  | Some t => t ∈ tips /\ eligible local threshold t.2 = true /\
      (forall u, u ∈ tips -> eligible local threshold u.2 = true -> tip_block_num u.2 <= tip_block_num t.2)
  | None => forall u, u ∈ tips -> eligible local threshold u.2 = false
  end.
Proof.
  unfold select_catchup_peer. set (l := filter _ tips).
  assert (forall u, u ∈ l <-> u ∈ tips /\ eligible local threshold u.2 = true) as Hl.
  { intros u. unfold l. rewrite list_elem_of_filter. tauto. }
  assert (match foldl (fun best t => match best with
      | Some b => if decide (tip_block_num b.2 <= tip_block_num t.2) then Some t else Some b | None => Some t end) None l with
    | Some t => t ∈ l /\ forall u, u ∈ l -> tip_block_num u.2 <= tip_block_num t.2 | None => l = [] end) as H.
  { clear Hl. induction l as [|x l IH] using rev_ind; [done|]. rewrite foldl_app. simpl.
    destruct (foldl _ None l) as [b|].
    - destruct IH as [IH1 IH2]. case_decide as Hd; (split; [apply elem_of_app; (by left) || (right; apply list_elem_of_singleton; done)|]);
        intros u [Hu| ->%list_elem_of_singleton]%elem_of_app; try apply IH2 in Hu; lia.
    - subst l. split; [left|]. intros u ->%list_elem_of_singleton. lia. }
  destruct (foldl _ None l) as [t|].
  - destruct H as [H1 H2]. apply Hl in H1 as [? ?]. split_and!; try done. intros u ? ?. apply H2, Hl. done.
  - intros u Hu. destruct (eligible local threshold u.2) eqn:E; [|done]. assert (u ∈ l) as Hin by by apply Hl.
    rewrite H in Hin. by apply not_elem_of_nil in Hin.
Qed.

(** ** Downloading a whole log *)

(** The log in ascending order, and what is after a number. *)
Definition log (s : BlockStore) : list (Z * BlockRow) := merge_sort by_block_num (map_to_list s).
Definition log_after (s : BlockStore) (n : Z) : list (Z * BlockRow) := filter (fun p => n < p.1) (log s).
Definition numbers_ok (s : BlockStore) : Prop := forall k row, s !! k = Some row -> 0 <= k <= i64_max.

Lemma by_block_num_sorted l : NoDup l.*1 -> StronglySorted before (merge_sort by_block_num l).
Proof.
  intros Hnd. apply strict_sorted; [by rewrite merge_sort_Permutation|].
  apply StronglySorted_merge_sort; [intros x y z|intros x y]; unfold by_block_num; lia.
Qed.

Lemma log_sorted s : StronglySorted before (log s).
Proof. apply by_block_num_sorted, NoDup_fst_map_to_list. Qed.

Lemma load_after_log s n : is_i64 n -> load_blocks_after s (Some n) None = block_entry <$> log_after s n.
Proof.
  intros Hn. unfold load_blocks_after, log_after. rewrite as_i64_id by done. f_equal. apply before_ext.
  - apply by_block_num_sorted, NoDup_fmap_2_strong; [|apply NoDup_filter, NoDup_map_to_list].
    intros [k v] [k' v'] [_ H1%elem_of_map_to_list]%list_elem_of_filter [_ H2%elem_of_map_to_list]%list_elem_of_filter.
    simpl. intros ->. by simplify_eq.
  - apply filter_sorted, log_sorted.
  - intros x. rewrite merge_sort_Permutation, !list_elem_of_filter. unfold log. by rewrite merge_sort_Permutation.
Qed.

(** The blocks after the last one of a page are the rest. *)
Lemma log_after_last s n a x d : log_after s n = a ++ x :: d -> log_after s x.1 = d.
Proof.
  intros E. assert (x ∈ log_after s n) as Hx by (rewrite E, elem_of_app; right; left).
  apply list_elem_of_filter in Hx as [Hx _]. unfold log_after in *.
  rewrite <- (list_filter_filter_l (fun p => x.1 < p.1) (fun p => n < p.1)) by (intros; lia). rewrite E.
  pose proof (filter_sorted (fun p => n < p.1) (log s) (log_sorted s)) as Hs. rewrite E in Hs.
  apply StronglySorted_app in Hs as (H1 & _ & [H2 _]%StronglySorted_cons). rewrite filter_app, filter_none.
  - rewrite filter_cons_False by lia. by apply filter_all.
  - apply Forall_forall. intros y Hy. pose proof (H1 y x Hy (list_elem_of_here _ _)). unfold before in *. lia.
Qed.

Lemma route_page s n : blocks_route (Some s) (Some n) (Some PAGE) = Ok (take PAGE (load_blocks_after s (Some n) None)).
Proof. done. Qed.

Lemma entry_number s n x : numbers_ok s -> x ∈ log_after s n -> (block_entry x).1.1 = x.1 /\ is_i64 x.1.
Proof.
  intros Hs [_ Hx]%list_elem_of_filter. unfold log in Hx. rewrite merge_sort_Permutation in Hx. destruct x as [k row].
  apply elem_of_map_to_list in Hx. apply Hs in Hx. unfold block_entry. simpl. split; [apply as_u64_id|]; mach.
Qed.

Lemma download_step s n fuel all :
  numbers_ok s -> is_i64 n -> (length (log_after s n) < fuel)%nat ->
  download_blocks fuel (fun n k => blocks_route (Some s) (Some n) (Some k)) n all = Some (Ok (all ++ (block_entry <$> log_after s n))).
Proof.
  intros Hs. revert n all. induction fuel as [|fuel IH]; intros n all Hn Hf; [lia|]. cbn [download_blocks].
  rewrite route_page, load_after_log, <- fmap_take by done. set (R := log_after s n) in *.
  destruct (decide (length R < PAGE)%nat) as [Hl|Hl].
  { rewrite take_ge by lia. destruct R as [|x R'] eqn:ER; [by rewrite app_nil_r|].
    rewrite <- ER in *. rewrite length_fmap, decide_True by done. rewrite ER. done. }
  assert (length (take PAGE R) = PAGE) as Hp by (rewrite length_take; lia).
  destruct (exists_last (l := take PAGE R)) as (a & x & Ea); [intros E; rewrite E in Hp; done|].
  assert (R = a ++ x :: drop PAGE R) as ER.
  { rewrite <- (take_drop PAGE R) at 1. by rewrite Ea, <- app_assoc. }
  destruct (entry_number s n x Hs) as [Ex Hx]; [fold R; rewrite ER, elem_of_app; right; left|].
  pose proof (log_after_last s n a x _ ER) as Er.
  destruct (block_entry <$> take PAGE R) as [|y page] eqn:Ep; [apply (f_equal length) in Ep; rewrite length_fmap, Hp in Ep; done|].
  rewrite <- Ep, length_fmap, Hp, decide_False by lia.
  match goal with |- context [default n ?o] => assert (default n o = x.1) as -> end.
  { rewrite Ea, fmap_app. cbn [fmap list_fmap]. by rewrite last_snoc. }
  rewrite IH by (rewrite ?Er; try done; rewrite length_drop; unfold PAGE in *; lia).
  rewrite Er, <- app_assoc, <- fmap_app, take_drop. done.
Qed.

(** C29: a peer is chosen and read completely: the choice is a peer that is ahead
    by more than the threshold and has a checkpoint, and no such peer has a
    higher tip; and downloading by pages of 200 from a node whose log holds
    ordinary block numbers ends, with exactly the blocks of that log after the
    checkpoint, ascending, as one unpaged query would give them. *)
Theorem peer_download_complete s n fuel tips local threshold :
  numbers_ok s -> is_i64 n -> (length (log_after s n) < fuel)%nat ->
  download_blocks fuel (fun n k => blocks_route (Some s) (Some n) (Some k)) n [] = Some (Ok (load_blocks_after s (Some n) None)) /\
  match select_catchup_peer tips local threshold with
  | Some t => t ∈ tips /\ eligible local threshold t.2 = true /\
      (forall u, u ∈ tips -> eligible local threshold u.2 = true -> tip_block_num u.2 <= tip_block_num t.2)
  | None => forall u, u ∈ tips -> eligible local threshold u.2 = false
  end.
Proof. intros Hs Hn Hf. split; [|apply select_spec]. rewrite download_step, load_after_log by done. done. Qed.

End Peer.

Definition demo_log : BlockStore := foldl (fun s n => save_block 5 s n "d" [x00]) ∅ (Z.of_nat <$> seq 1 250).

Lemma demo_log_numbers : numbers_ok demo_log.
Proof.
  intros k row Hk. assert (map_Forall (fun k _ => 0 <= k <= i64_max) demo_log) as H; [|by apply (H k row)].
  apply (bool_decide_unpack _). vm_compute. exact I.
Qed.

Lemma peer_download_complete_witness :
  download_blocks 300 (fun n k => blocks_route (Some demo_log) (Some n) (Some k)) 20 [] = Some (Ok (load_blocks_after demo_log (Some 20) None)) /\
  length (load_blocks_after demo_log (Some 20) None) = 230%nat.
Proof.
  split; [|vm_compute; reflexivity]. refine (proj1 (peer_download_complete demo_log 20 300 [] 0 0 demo_log_numbers _ _)).
  - unfold is_i64, i64_min, i64_max. lia.
  - apply Nat.ltb_lt. vm_compute. reflexivity.
Defined.
