(* ===== verification/Hydrate.v ===== *)
(** * Hydrate: [book_hydrate.rs], filling order books from the chain

    The node is a remote service: [Chain] lists the two calls the hydration
    makes, as parameters answered by an order book, a price or an error.  The
    in-memory index ([IndexState]) is composed here of its modelled parts. *)
From S2P Require Import Prelude Text Errors Sdk Keys Domain WriteSet Books Bars Orders Markets Vaults Paper.

Local Open Scope list_scope.
Local Open Scope Z_scope.

(** [ws/models/user.rs]: what the user event hub sends. *)
Inductive UserWsMessage :=
| UserOrderMessage (event user_address chain_order_id spot_market : string) (order : Order) (block_num : Z)
| UserTradeMessage (user_address chain_order_id : string) (order_id : Uuid)
    (market_slug outcome side price fill_amount remaining_amount : string) (is_fully_filled : bool)
    (spot_market : string) (block_num : Z) (cloid : option string).

(** [IndexState], its modelled parts, with the messages the user hub has sent. *)
Record Index := {
  ix_books : Books;
  ix_bars : Bars.Bars;
  ix_markets : Markets;
  ix_orders : Orders;
  ix_vaults : Vaults;
  ix_paper : Paper;
  ix_hub : list UserWsMessage
}.

Definition Index_new (persist : bool) : Index :=
  {| ix_books := Books_new; ix_bars := Bars_new persist; ix_markets := Markets_new; ix_orders := Orders_new persist;
     ix_vaults := Vaults_new; ix_paper := Paper_new persist; ix_hub := [] |}.

Definition set_books (b : Books) (i : Index) : Index :=
  {| ix_books := b; ix_bars := ix_bars i; ix_markets := ix_markets i; ix_orders := ix_orders i; ix_vaults := ix_vaults i;
     ix_paper := ix_paper i; ix_hub := ix_hub i |}.
Definition set_bars (b : Bars.Bars) (i : Index) : Index :=
  {| ix_books := ix_books i; ix_bars := b; ix_markets := ix_markets i; ix_orders := ix_orders i; ix_vaults := ix_vaults i;
     ix_paper := ix_paper i; ix_hub := ix_hub i |}.
Definition set_markets (m : Markets) (i : Index) : Index :=
  {| ix_books := ix_books i; ix_bars := ix_bars i; ix_markets := m; ix_orders := ix_orders i; ix_vaults := ix_vaults i;
     ix_paper := ix_paper i; ix_hub := ix_hub i |}.
Definition set_orders (o : Orders) (i : Index) : Index :=
  {| ix_books := ix_books i; ix_bars := ix_bars i; ix_markets := ix_markets i; ix_orders := o; ix_vaults := ix_vaults i;
     ix_paper := ix_paper i; ix_hub := ix_hub i |}.
Definition set_vaults (v : Vaults) (i : Index) : Index :=
  {| ix_books := ix_books i; ix_bars := ix_bars i; ix_markets := ix_markets i; ix_orders := ix_orders i; ix_vaults := v;
     ix_paper := ix_paper i; ix_hub := ix_hub i |}.
Definition set_paper (p : Paper) (i : Index) : Index :=
  {| ix_books := ix_books i; ix_bars := ix_bars i; ix_markets := ix_markets i; ix_orders := ix_orders i; ix_vaults := ix_vaults i;
     ix_paper := p; ix_hub := ix_hub i |}.
Definition add_hub (msgs : list UserWsMessage) (i : Index) : Index :=
  {| ix_books := ix_books i; ix_bars := ix_bars i; ix_markets := ix_markets i; ix_orders := ix_orders i; ix_vaults := ix_vaults i;
     ix_paper := ix_paper i; ix_hub := ix_hub i ++ msgs |}.

(** The node: [get_book] at a depth, and the last price of [get_market_info]. *)
Class Chain `{!Sdk} := {
  get_book : Address -> ContractAddress -> Z -> AppResult GetOrderBook;
  get_market_last_price : Address -> ContractAddress -> AppResult (option Z)
}.

Definition DEFAULT_BOOK_DEPTH : Z := 20.

Section Hydrate.
Context {SD : Sdk} {C : Chain}.

Definition parse_query_account (value : string) : Address := default address_zero (address_from_str (trim value)).

(** The loop halves the depth down to ten while the node refuses; [None] is out
    of fuel, which [book_fallback_terminates] excludes. *)
Fixpoint book_fallback (fuel : nat) (account : Address) (spot : ContractAddress) (attempt_depth : Z) : option (AppResult GetOrderBook) :=
  match fuel with
  | O => None
  | S fuel' =>
      match get_book account spot attempt_depth with
      | Ok book => Some (Ok book)
      | Err error =>
          if decide (10 < attempt_depth)
          then book_fallback fuel' account spot (Z.max (attempt_depth / 2) 10)
          else Some (Err error)
      end
  end.

Definition book_fallback_fuel (depth : Z) : nat := S (Z.to_nat depth).

Definition get_book_with_depth_fallback (account : Address) (spot : ContractAddress) (depth : Z) : AppResult GetOrderBook :=
  default (Err (Internal "out of fuel")) (book_fallback (book_fallback_fuel depth) account spot depth).

(** [depth.clamp(1, DEFAULT_BOOK_DEPTH).max(DEFAULT_BOOK_DEPTH)]. *)
Definition effective_depth (depth : Z) : Z := Z.max (clamp 1 DEFAULT_BOOK_DEPTH depth) DEFAULT_BOOK_DEPTH.

(** The state changes only when every call has succeeded. *)
Definition hydrate_spot_from_chain (i : Index) (query_account spot_market : string) (depth : Z)
    (ws : option IndexWriteSet) : AppResult (Index * option IndexWriteSet) :=
  let account := parse_query_account query_account in
  spot ← ok_or (BadRequest ("invalid spot market: " +:+ parse_token_contract_error spot_market)%string)
           (parse_token_contract spot_market);
  chain_book ← get_book_with_depth_fallback account spot (effective_depth depth);
  last_trade_price ← match last_trade_price_of (ix_markets i) spot_market with
                     | Some price => Ok (Some price)
                     | None => get_market_last_price account spot
                     end;
  let '(b, ws) := hydrate_from_chain (ix_books i) spot_market chain_book last_trade_price ws in
  Ok (set_books b i, ws).

Definition ensure_chain_hydrated (i : Index) (query_account spot_market : string) (depth : Z)
    (ws : option IndexWriteSet) : AppResult (Index * option IndexWriteSet) :=
  if is_chain_hydrated (ix_books i) spot_market then Ok (i, ws)
  else hydrate_spot_from_chain i query_account spot_market depth ws.

Definition rehydrate_spot_from_chain := hydrate_spot_from_chain.

(** A failure is logged and the state kept. *)
Definition or_unchanged (st : Index * option IndexWriteSet) (r : AppResult (Index * option IndexWriteSet)) : Index * option IndexWriteSet :=
  match r with Ok st' => st' | Err _ => st end.

Definition hydrate_each (query_account : string) (st : Index * option IndexWriteSet) (spots : list string) : Index * option IndexWriteSet :=
  foldl (fun st spot => or_unchanged st (hydrate_spot_from_chain st.1 query_account spot DEFAULT_BOOK_DEPTH st.2)) st spots.

Definition hydrate_all_spot_markets (i : Index) (query_account : string) (ws : option IndexWriteSet) : Index * option IndexWriteSet :=
  hydrate_each query_account (i, ws) (list_spot_markets (ix_markets i)).

Definition hydrate_market_spots (i : Index) (query_account yes_spot_market no_spot_market : string)
    (ws : option IndexWriteSet) : Index * option IndexWriteSet :=
  hydrate_each query_account (i, ws) [yes_spot_market; no_spot_market].

End Hydrate.

(** ** The retry loop *)

Section Facts.
Context {SD : Sdk} {C : Chain}.

(** The depths the loop asks for, in order. *)
Fixpoint attempt (depth : Z) (n : nat) : Z := match n with O => depth | S n' => attempt (Z.max (depth / 2) 10) n' end.

Lemma book_fallback_spec fuel account spot depth :
  0 <= depth -> (Z.to_nat depth < fuel)%nat ->
  exists n, (n < fuel)%nat /\
    book_fallback fuel account spot depth = Some (get_book account spot (attempt depth n)) /\
    (forall j, (j < n)%nat -> 10 < attempt depth j /\ exists e, get_book account spot (attempt depth j) = Err e) /\
    (forall e, get_book account spot (attempt depth n) = Err e -> attempt depth n <= 10).
Proof.
  revert depth. induction fuel as [|fuel IH]; intros depth Hd Hf; [lia|]. simpl.
  destruct (get_book account spot depth) as [book|e] eqn:E.
  - exists O. simpl. rewrite E. split_and!; [lia|done|intros; lia|done].
  - case_decide as H10.
    + destruct (IH (Z.max (depth / 2) 10)) as (n & Hn & E1 & E2 & E3).
      * lia.
      * assert (depth / 2 < depth) by (apply Z.div_lt; lia). lia.
      * exists (S n). simpl. split; [lia|]. split; [done|]. split; [|done].
        intros [|j] Hj; [split; [done|by exists e]|]. apply E2. lia.
    + exists O. simpl. rewrite E. split_and!; [lia|done|intros; lia|]. intros; lia.
Qed.

(** The depth fallback terminates: it returns the answer of the first depth
    of the halving sequence the node accepts, or the refusal at the last one,
    which is at most ten; no depth is asked after an answer. *)
Theorem book_fallback_terminates account spot depth :
  0 <= depth ->
  exists n, get_book_with_depth_fallback account spot depth = get_book account spot (attempt depth n) /\
    (forall j, (j < n)%nat -> 10 < attempt depth j /\ exists e, get_book account spot (attempt depth j) = Err e) /\
    (forall e, get_book account spot (attempt depth n) = Err e -> attempt depth n <= 10).
Proof.
  intros Hd. destruct (book_fallback_spec (book_fallback_fuel depth) account spot depth Hd) as (n & _ & E & H1 & H2).
  { unfold book_fallback_fuel. lia. }
  exists n. unfold get_book_with_depth_fallback. by rewrite E.
Qed.

(** Whatever the caller asks, twenty levels are requested. *)
Lemma effective_depth_constant depth : effective_depth depth = DEFAULT_BOOK_DEPTH.
Proof. unfold effective_depth, clamp, DEFAULT_BOOK_DEPTH. lia. Qed.

Lemma hydrate_marks b spot cb price ws :
  is_chain_hydrated (hydrate_from_chain b spot cb price ws).1 spot = true.
Proof.
  unfold hydrate_from_chain, is_chain_hydrated, try_shard.
  destruct (hydrate_levels _ Buy _ _) as [bids' ws1]. destruct (hydrate_levels _ Sell _ _) as [asks' ws2].
  unfold put_shard. simpl. by rewrite lookup_insert_eq.
Qed.

Lemma hydrate_spot_Ok i q spot depth ws i' ws' :
  hydrate_spot_from_chain i q spot depth ws = Ok (i', ws') ->
  exists cb price, let r := hydrate_from_chain (ix_books i) spot cb price ws in i' = set_books r.1 i /\ ws' = r.2.
Proof.
  unfold hydrate_spot_from_chain. destruct (parse_token_contract spot) as [c|]; simpl; [|done].
  destruct (get_book_with_depth_fallback _ c _) as [cb|]; simpl; [|done].
  destruct (match last_trade_price_of _ _ with Some p => _ | None => _ end) as [price|]; simpl; [|done].
  destruct (hydrate_from_chain _ _ _ _ _) as [b w] eqn:E. intros [= <- <-]. exists cb, price. by rewrite E.
Qed.

(** Ensuring hydration works once: when it succeeds the book is marked as
    hydrated, only the books have changed, and from then on the call answers at
    once, without asking the node and without touching the state. *)
Theorem ensure_hydrated_once i q spot depth ws i' ws' :
  ensure_chain_hydrated i q spot depth ws = Ok (i', ws') ->
  is_chain_hydrated (ix_books i') spot = true /\ i' = set_books (ix_books i') i /\
  forall depth2 ws2, ensure_chain_hydrated i' q spot depth2 ws2 = Ok (i', ws2).
Proof.
  intros H. assert (is_chain_hydrated (ix_books i') spot = true /\ i' = set_books (ix_books i') i) as [H1 H2].
  { unfold ensure_chain_hydrated in H. destruct (is_chain_hydrated (ix_books i) spot) eqn:E.
    - injection H as <- <-. split; [done|]. by destruct i.
    - apply hydrate_spot_Ok in H as (cb & price & -> & _). split; [apply hydrate_marks|done]. }
  split; [done|]. split; [done|]. intros. unfold ensure_chain_hydrated. by rewrite H1.
Qed.

End Facts.

(** ** Witnesses: a node with one book that refuses more than twelve levels *)

Definition DemoChain : Chain (H := DemoSdk) := {|
  get_book _ _ depth := if decide (depth <= 12)
                        then Ok {| best_bids := [{| cl_price := 5; cl_total_quantity := 7 |}]; best_asks := [] |}
                        else Err (Internal "call get_book failed");
  get_market_last_price _ _ := Ok (Some 5)
|}.

Lemma book_fallback_terminates_witness :
  exists n, get_book_with_depth_fallback (C := DemoChain) 0%N (demo_contract_of 7) 20 =
            get_book (Chain := DemoChain) 0%N (demo_contract_of 7) (attempt 20 n) /\
    (forall j, (j < n)%nat -> 10 < attempt 20 j /\ exists e, get_book (Chain := DemoChain) 0%N (demo_contract_of 7) (attempt 20 j) = Err e) /\
    (forall e, get_book (Chain := DemoChain) 0%N (demo_contract_of 7) (attempt 20 n) = Err e -> attempt 20 n <= 10).
Proof. apply (book_fallback_terminates (C := DemoChain) 0%N (demo_contract_of 7) 20). lia. Defined.

Lemma ensure_hydrated_once_witness :
  match ensure_chain_hydrated (C := DemoChain) (Index_new false) "a1" "c7" 20 None with
  | Ok (i', _) => is_chain_hydrated (S := DemoSdk) (ix_books i') "c7" = true
  | Err _ => False
  end.
Proof.
  destruct (ensure_chain_hydrated (C := DemoChain) (Index_new false) "a1" "c7" 20 None) as [[i' ws']|e] eqn:E.
  - exact (proj1 (ensure_hydrated_once (C := DemoChain) _ _ _ _ _ _ _ E)).
  - vm_compute in E. discriminate E.
Defined.
