(* ===== verification/StakeView.v ===== *)
(** * StakeView: the staking and account overviews of a paper market

    [indexer/paper_stake_view.rs] and the records of [domain/paper.rs] it
    fills.  The node's calls are the class [AccountChain]; a refused call
    counts as zeros, as in the code. *)
From S2P Require Import Prelude Text Errors Sdk Keys Amounts Domain Rings Paper Hydrate Orders.

Local Open Scope list_scope.
Local Open Scope Z_scope.

(** ** What the node answers: the fields of the SDK's call results used *)

Record TokenBalance := { tb_total : Z; tb_locked : Z; tb_available : Z }.
Record GetPaperLp := { gl_tracked_lp : Z; gl_tail_hwm : Z; gl_buyback_cash : Z }.
Record GetPaperStake := { gs_staked : Z; gs_claimable : Z; gs_pending_reward : Z; gs_reward_pool : Z; gs_total_staked : Z }.
Record GetPaperAccount := { ga_available : Z; ga_queued : Z; ga_entry_head : Z; ga_entry_tail : Z; ga_queued_truncated : bool }.
Record GetPaperMarket `{!Sdk} := {
  gm_paper_token : option ContractAddress;
  gm_flat_threshold : Z;
  gm_flat_rate_ppm : Z;
  gm_tail_decay_scale : Z
}.

Class AccountChain `{!Sdk} := {
  get_balance : Address -> ContractAddress -> AppResult TokenBalance;
  get_token_supply : Address -> ContractAddress -> AppResult Z;
  get_paper_market : ContractAddress -> AppResult GetPaperMarket;
  get_paper_lp : ContractAddress -> AppResult GetPaperLp;
  get_paper_stake : Address -> ContractAddress -> AppResult GetPaperStake;
  get_paper_account : Address -> ContractAddress -> AppResult GetPaperAccount
}.

(** The same node seen by the end-of-block flush. *)
#[export] Instance account_paper_chain `{AccountChain} : PaperChain | 10 := {|
  get_paper_token c := gm_paper_token <$> ok (get_paper_market c);
  get_total_supply a c := ok (get_token_supply a c)
|}.

(** ** The views *)

Record PaperStakeView := {
  sv_market : string;
  sv_address : string;
  sv_paper_token : string;
  sv_paper : string;
  sv_paper_raw : Z;
  sv_staked : string;
  sv_staked_raw : Z;
  sv_claimable : string;
  sv_claimable_raw : Z;
  sv_pending_reward : string;
  sv_pending_reward_raw : Z;
  sv_reward_pool : string;
  sv_reward_pool_raw : Z;
  sv_buyback_cash : string;
  sv_buyback_cash_raw : Z;
  sv_total_staked : string;
  sv_total_staked_raw : Z;
  sv_stake_share_pct : string;
  sv_rewards_claimed : string;
  sv_rewards_claimed_raw : Z;
  sv_total_staker_rewards : string;
  sv_total_staker_rewards_raw : Z;
  sv_reward_rate : string;
  sv_mint_rate : string;
  sv_mint_rate_raw : Z;
  sv_tracked_lp : string;
  sv_tracked_lp_raw : Z;
  sv_tail_hwm : string;
  sv_tail_hwm_raw : Z;
  sv_flat_threshold : string;
  sv_flat_threshold_raw : Z;
  sv_flat_rate_ppm : Z;
  sv_tail_decay_scale : string;
  sv_tail_decay_scale_raw : Z;
  sv_reward_token : string;
  sv_total_supply : string;
  sv_total_supply_raw : Z;
  sv_staked_supply : string;
  sv_staked_supply_raw : Z;
  sv_stake_ratio_pct : string;
  sv_staking_contract : string
}.

Record PaperAccountView := {
  av_market : string;
  av_address : string;
  av_available : string;
  av_queued : string;
  av_available_raw : Z;
  av_queued_raw : Z;
  av_entry_head : Z;
  av_entry_tail : Z;
  av_queued_truncated : bool;
  av_margin_in_use : string;
  av_margin_in_use_raw : Z;
  av_open_pnl : string;
  av_open_pnl_raw : Z;
  av_equity : string;
  av_equity_raw : Z;
  av_open_positions : Z
}.

(** [ws/models/paper.rs]: the two messages that carry a view. *)
Record PaperStakeWsMessage := {
  pm_market : string;
  pm_ts_ms : Z;
  pm_staking_revenue : string;
  pm_staking_revenue_raw : Z;
  pm_total_paper_supply : string;
  pm_total_paper_supply_raw : Z;
  pm_total_staking_reward : string;
  pm_total_staking_reward_raw : Z;
  pm_stake : option PaperStakeView
}.

Record PaperUserStateWsMessage := {
  us_user_address : string;
  us_market : string;
  us_account : PaperAccountView;
  us_positions : list PaperPositionOpen;
  us_paper : PaperStakeView
}.

Section StakeView.
Context {SD : Sdk} {AC : AccountChain}.

Definition no_stake : GetPaperStake :=
  {| gs_staked := 0; gs_claimable := 0; gs_pending_reward := 0; gs_reward_pool := 0; gs_total_staked := 0 |}.
Definition no_lp : GetPaperLp := {| gl_tracked_lp := 0; gl_tail_hwm := 0; gl_buyback_cash := 0 |}.
Definition no_paper_market : GetPaperMarket :=
  {| gm_paper_token := None; gm_flat_threshold := 0; gm_flat_rate_ppm := 0; gm_tail_decay_scale := 0 |}.
Definition no_account : GetPaperAccount :=
  {| ga_available := 0; ga_queued := 0; ga_entry_head := 0; ga_entry_tail := 0; ga_queued_truncated := false |}.

(** [None] is no view; the inner [None]s of the mint curve are its division by
    a square that wrapped to zero, a panic ([stake_view_answers] excludes it). *)
Definition paper_stake_view (p : Paper) (market_raw address_raw : string) : option PaperStakeView :=
  let market_raw := trim market_raw in
  let address_raw := trim address_raw in
  if decide (market_raw = "" \/ address_raw = "")%string then None
  else
    paper_market ← parse_token_contract market_raw;
    user ← address_from_str address_raw;
    let mkt := default no_paper_market (ok (get_paper_market paper_market)) in
    let paper_raw := match gm_paper_token mkt with
                     | Some token => default 0 (tb_available <$> ok (get_balance user token))
                     | None => 0
                     end in
    let total_supply_raw := match gm_paper_token mkt with
                            | Some token => default 0 (ok (get_token_supply user token))
                            | None => 0
                            end in
    let lp := default no_lp (ok (get_paper_lp paper_market)) in
    let s := default no_stake (ok (get_paper_stake user paper_market)) in
    let rewards_claimed_raw := paper_rewards_claimed p market_raw address_raw in
    let total_staker_rewards_raw := paper_total_staker_rewards p market_raw in
    mint_rate_raw ← mint_rate_ppm (gl_tracked_lp lp) (gl_tail_hwm lp) (gm_flat_threshold mkt) (gm_flat_rate_ppm mkt) (gm_tail_decay_scale mkt);
    reward_rate ← reward_rate_label (gl_tracked_lp lp) (gl_tail_hwm lp) (gm_flat_threshold mkt) (gm_flat_rate_ppm mkt) (gm_tail_decay_scale mkt);
    Some {|
      sv_market := market_raw;
      sv_address := address_raw;
      sv_paper_token := default ""%string (contract_to_string <$> gm_paper_token mkt);
      sv_paper := format_token_amount paper_raw;
      sv_paper_raw := paper_raw;
      sv_staked := format_token_amount (gs_staked s);
      sv_staked_raw := gs_staked s;
      sv_claimable := format_token_amount (gs_claimable s);
      sv_claimable_raw := gs_claimable s;
      sv_pending_reward := format_token_amount (gs_pending_reward s);
      sv_pending_reward_raw := gs_pending_reward s;
      sv_reward_pool := format_token_amount (gs_reward_pool s);
      sv_reward_pool_raw := gs_reward_pool s;
      sv_buyback_cash := format_token_amount (gl_buyback_cash lp);
      sv_buyback_cash_raw := gl_buyback_cash lp;
      sv_total_staked := format_token_amount (gs_total_staked s);
      sv_total_staked_raw := gs_total_staked s;
      sv_stake_share_pct := stake_share_pct (gs_staked s) (gs_total_staked s);
      sv_rewards_claimed := format_token_amount rewards_claimed_raw;
      sv_rewards_claimed_raw := rewards_claimed_raw;
      sv_total_staker_rewards := format_token_amount total_staker_rewards_raw;
      sv_total_staker_rewards_raw := total_staker_rewards_raw;
      sv_reward_rate := reward_rate;
      sv_mint_rate := format_token_amount mint_rate_raw;
      sv_mint_rate_raw := mint_rate_raw;
      sv_tracked_lp := format_i128_token (gl_tracked_lp lp);
      sv_tracked_lp_raw := as_i64 (gl_tracked_lp lp);
      sv_tail_hwm := format_token_amount (gl_tail_hwm lp);
      sv_tail_hwm_raw := gl_tail_hwm lp;
      sv_flat_threshold := format_token_amount (gm_flat_threshold mkt);
      sv_flat_threshold_raw := gm_flat_threshold mkt;
      sv_flat_rate_ppm := gm_flat_rate_ppm mkt;
      sv_tail_decay_scale := format_token_amount (gm_tail_decay_scale mkt);
      sv_tail_decay_scale_raw := gm_tail_decay_scale mkt;
      sv_reward_token := "USDC";
      sv_total_supply := format_token_amount total_supply_raw;
      sv_total_supply_raw := total_supply_raw;
      sv_staked_supply := format_token_amount (gs_total_staked s);
      sv_staked_supply_raw := gs_total_staked s;
      sv_stake_ratio_pct := stake_ratio_pct (gs_total_staked s) total_supply_raw;
      sv_staking_contract := market_raw
    |}.

(** The last sample of the staking history, else the live values. *)
Definition paper_stake_ws (block_ms now : Z) (p : Paper) (market address : string) : option PaperStakeWsMessage :=
  stake ← paper_stake_view p market address;
  let '(rev, supply, reward) :=
    match last (paper_stake_history p market None 1) with
    | Some t => (sk_staking_revenue t, sk_total_paper_supply t, sk_total_staking_reward t)
    | None => (sv_reward_pool_raw stake, sv_total_supply_raw stake, sv_total_staker_rewards_raw stake)
    end in
  Some {| pm_market := sv_market stake; pm_ts_ms := event_time block_ms now;
          pm_staking_revenue := format_token_amount rev; pm_staking_revenue_raw := rev;
          pm_total_paper_supply := format_token_amount supply; pm_total_paper_supply_raw := supply;
          pm_total_staking_reward := format_token_amount reward; pm_total_staking_reward_raw := reward;
          pm_stake := Some stake |}.

(** Open positions are in memory: the history query is never asked. *)
Definition no_closed (owner market : option string) (limit offset : nat) : list PaperPositionHistory * nat := ([], O).

Definition open_page (p : Paper) (user market : string) : list PaperPositionOpen :=
  (query_paper_positions no_closed p
     {| pq_owner := Some user; pq_market := Some market; pq_status := StOpen; pq_limit := 200; pq_offset := 0 |}).1.1.

Definition paper_user_state (p : Paper) (user market : string) : option PaperUserStateWsMessage :=
  paper ← paper_stake_view p market user;
  address ← address_from_str user;
  market_addr ← parse_token_contract market;
  let acct := default no_account (ok (get_paper_account address market_addr)) in
  let margin_in_use := sum_open_margin p user (Some market) in
  let open_positions := count_open_positions p user (Some market) in
  let equity_raw := sat_add (sat_add (ga_available acct) (ga_queued acct)) margin_in_use in
  Some {| us_user_address := user; us_market := market;
          us_account := {|
            av_market := market; av_address := user;
            av_available := format_token_amount (ga_available acct); av_queued := format_token_amount (ga_queued acct);
            av_available_raw := ga_available acct; av_queued_raw := ga_queued acct;
            av_entry_head := ga_entry_head acct; av_entry_tail := ga_entry_tail acct;
            av_queued_truncated := ga_queued_truncated acct;
            av_margin_in_use := format_token_amount margin_in_use; av_margin_in_use_raw := margin_in_use;
            av_open_pnl := "0"; av_open_pnl_raw := 0;
            av_equity := format_token_amount equity_raw; av_equity_raw := as_i64 equity_raw;
            av_open_positions := open_positions |};
          us_positions := open_page p user market;
          us_paper := paper |}.

End StakeView.

(** ** Properties *)

(** What the node reports is u64, and the curve's square stays within u128. *)
Class CurveBounded `{AC : AccountChain} : Prop := {
  curve_bounded c d lp mkt :
    get_paper_lp c = Ok lp -> get_paper_market d = Ok mkt ->
    0 <= gl_tail_hwm lp /\ 0 <= gm_tail_decay_scale mkt /\ gl_tail_hwm lp + gm_tail_decay_scale mkt <= u64_max;
  lp_bounded c lp : get_paper_lp c = Ok lp -> 0 <= gl_tail_hwm lp <= u64_max;
  market_bounded d mkt : get_paper_market d = Ok mkt -> 0 <= gm_tail_decay_scale mkt <= u64_max
}.

Lemma mint_rate_total lp h thr flat s :
  0 <= h -> 0 <= s -> h + s <= u64_max -> is_Some (mint_rate_ppm lp h thr flat s).
Proof.
  intros Hh Hs Ho. unfold mint_rate_ppm, u64_max in *. repeat case_decide; try done.
  exfalso. unfold wrap_u in *. rewrite (Z.mod_small (s + h)) in * by lia.
  assert ((s + h) * (s + h) < 2 ^ 128) by nia. rewrite Z.mod_small in * by nia. nia.
Qed.

Lemma reward_label_total lp h thr flat s :
  0 <= h -> 0 <= s -> h + s <= u64_max -> is_Some (reward_rate_label lp h thr flat s).
Proof.
  intros. unfold reward_rate_label. case_decide; [done|].
  destruct (mint_rate_total lp h thr flat s) as [r ->]; [done..|]. by eexists.
Qed.

Section Facts.
Context {SD : Sdk} {AC : AccountChain}.

Lemma defaults_bounded `{!CurveBounded} c d :
  let lp := default no_lp (ok (get_paper_lp c)) in
  let mkt := default no_paper_market (ok (get_paper_market d)) in
  0 <= gl_tail_hwm lp /\ 0 <= gm_tail_decay_scale mkt /\ gl_tail_hwm lp + gm_tail_decay_scale mkt <= u64_max.
Proof.
  destruct (get_paper_lp c) as [lp|] eqn:El, (get_paper_market d) as [mkt|] eqn:Em; simpl.
  - by apply (curve_bounded c d).
  - pose proof (lp_bounded c lp El). lia.
  - pose proof (market_bounded d mkt Em). lia.
  - unfold u64_max. lia.
Qed.

(** A staking view is answered for exactly the well-formed requests, whatever
    calls the node refuses: the market is a contract, the user an address. *)
Theorem stake_view_answers `{!CurveBounded} p market address :
  is_Some (paper_stake_view p market address) <->
  trim market <> ""%string /\ trim address <> ""%string /\
  is_Some (parse_token_contract (trim market)) /\ is_Some (address_from_str (trim address)).
Proof.
  unfold paper_stake_view. case_decide as Hb; [split; [by intros []|by intros (? & ? & _); destruct Hb]|].
  destruct (parse_token_contract (trim market)) as [c|]; simpl; [|split; [by intros []|intros (_ & _ & [] & _); done]].
  destruct (address_from_str (trim address)) as [a|]; simpl; [|split; [by intros []|intros (_ & _ & _ & []); done]].
  destruct (defaults_bounded c c) as (H1 & H2 & H3).
  destruct (mint_rate_total (gl_tracked_lp (default no_lp (ok (get_paper_lp c)))) _
    (gm_flat_threshold (default no_paper_market (ok (get_paper_market c))))
    (gm_flat_rate_ppm (default no_paper_market (ok (get_paper_market c)))) _ H1 H2 H3) as [r ->].
  destruct (reward_label_total (gl_tracked_lp (default no_lp (ok (get_paper_lp c)))) _
    (gm_flat_threshold (default no_paper_market (ok (get_paper_market c))))
    (gm_flat_rate_ppm (default no_paper_market (ok (get_paper_market c)))) _ H1 H2 H3) as [l ->]. simpl.
  split; [|by eexists]. intros _. split_and!; [| |by eexists|by eexists]; intros E; apply Hb; auto.
Qed.

Lemma owned_row_matches user market row :
  owned user (Some market) row = row_matches (Some (user_key user)) (Some (addr_key market)) row.
Proof. done. Qed.

Lemma sum_u64_perm {A} (f : A -> Z) l k : l ≡ₚ k -> sum_u64 f l = sum_u64 f k.
Proof. intros H. unfold sum_u64. by rewrite H. Qed.

Lemma open_page_rows p user market :
  exists l, l ≡ₚ open_rows_of p user (Some market) /\ open_page p user market = take 200 l.
Proof.
  eexists (merge_sort (le_of open_cmp) (open_rows_of p user (Some market))). split; [apply merge_sort_Permutation|].
  unfold open_page, query_paper_positions, open_rows_of. simpl. rewrite drop_0. do 2 f_equal.
Qed.

(** A user state agrees with itself: the account counts the positions the
    message lists (the first two hundred of them), its margin in use is the sum
    of theirs, and the equity is what is available, queued and in use. *)
Theorem user_state_consistent p user market st :
  paper_user_state p user market = Some st ->
  let a := us_account st in
  Z.of_nat (length (us_positions st)) = Z.min (av_open_positions a) 200 /\
  (av_open_positions a <= 200 -> av_margin_in_use_raw a = sum_u64 po_margin_raw (us_positions st)) /\
  Forall (fun row => owned user (Some market) row = true) (us_positions st) /\
  av_equity_raw a = as_i64 (sat_add (sat_add (av_available_raw a) (av_queued_raw a)) (av_margin_in_use_raw a)).
Proof.
  unfold paper_user_state. destruct (paper_stake_view p market user) as [v|]; simpl; [|done].
  destruct (address_from_str user) as [a|]; simpl; [|done].
  destruct (parse_token_contract market) as [c|]; simpl; [|done]. intros [= <-]. cbn -[sum_open_margin count_open_positions open_page].
  destruct (open_page_rows p user market) as (l & Hl & ->). unfold sum_open_margin, count_open_positions.
  rewrite <- (sum_u64_perm _ _ _ Hl), <- (Permutation_length Hl).
  split_and!; [rewrite length_take; lia| |apply Forall_take|done].
  - intros H. by rewrite take_ge by lia.
  - apply Forall_forall. intros row Hr. apply (elem_of_Permutation_proper row _ _ Hl) in Hr. by apply list_elem_of_filter in Hr as [? _].
Qed.

End Facts.

(** ** Witnesses: a node that knows one market and refuses everything else *)

#[export] Instance DemoAccountChain : AccountChain (H := DemoSdk) := {|
  get_balance _ _ := Ok {| tb_total := 70; tb_locked := 20; tb_available := 50 |};
  get_token_supply _ _ := Ok 1000;
  get_paper_market c := if decide (contract_to_string (Sdk := DemoSdk) c = "c9"%string)
    then Ok (Build_GetPaperMarket DemoSdk (Some (demo_contract_of 5)) 10 1000 20) else Err (Internal "call get_mkt failed");
  get_paper_lp _ := Err (Internal "call get_lp failed");
  get_paper_stake _ _ := Ok {| gs_staked := 5; gs_claimable := 1; gs_pending_reward := 0; gs_reward_pool := 3; gs_total_staked := 40 |};
  get_paper_account _ _ := Ok {| ga_available := 11; ga_queued := 2; ga_entry_head := 0; ga_entry_tail := 1; ga_queued_truncated := false |}
|}.

#[export] Instance DemoCurveBounded : CurveBounded (AC := DemoAccountChain).
Proof.
  split; cbn; intros; try done. case_decide; simplify_eq. unfold u64_max. simpl. lia.
Qed.

Lemma stake_view_answers_witness :
  is_Some (paper_stake_view (AC := DemoAccountChain) (Paper_new false) " c9" "a4 ") /\
  paper_stake_view (AC := DemoAccountChain) (Paper_new false) "x9" "a4" = None.
Proof.
  split.
  - apply (stake_view_answers (AC := DemoAccountChain)). split_and!; [by apply (bool_decide_eq_false_1 (trim " c9" = "")%string)|by apply (bool_decide_eq_false_1 (trim "a4 " = "")%string)| |];
      apply some_b_true; vm_compute; reflexivity.
  - apply eq_None_not_Some. intros H%(stake_view_answers (AC := DemoAccountChain)).
    destruct H as (_ & _ & [c H] & _). apply (f_equal some_b) in H. vm_compute in H. discriminate H.
Defined.

Definition demo_held (n : Z) : PaperPositionOpen :=
  {| po_market := "c9"; po_position := n; po_owner := "A4"; po_instrument := 1; po_is_long := true; po_margin := "0.00001";
     po_notional := "1"; po_entry_price := "1"; po_bust_price := "1"; po_margin_raw := 10 * n; po_notional_raw := 100;
     po_entry_price_raw := 7; po_bust_price_raw := 3; po_funded_from_queued := false; po_opened_block := n |}.

Definition demo_holding : Paper :=
  on_positions (fun _ => list_to_map [("k1"%string, demo_held 1); ("k2"%string, demo_held 2)]) (Paper_new false).

Definition margin_shown (o : option PaperUserStateWsMessage) : Z :=
  match o with Some st => av_margin_in_use_raw (us_account st) | None => -1 end.

Lemma user_state_consistent_witness :
  exists st, paper_user_state (AC := DemoAccountChain) demo_holding "a4" "c9" = Some st /\
    av_margin_in_use_raw (us_account st) = 30 /\
    Z.of_nat (length (us_positions st)) = Z.min (av_open_positions (us_account st)) 200.
Proof.
  assert (margin_shown (paper_user_state (AC := DemoAccountChain) demo_holding "a4" "c9") = 30) as H by (vm_compute; reflexivity).
  destruct (paper_user_state (AC := DemoAccountChain) demo_holding "a4" "c9") as [st|] eqn:E; [|discriminate H].
  exists st. split; [exact eq_refl|]. split; [exact H|].
  exact (proj1 (user_state_consistent (AC := DemoAccountChain) demo_holding "a4" "c9" st E)).
Defined.
