(* ===== verification/Params.v ===== *)
(** * Params: what the HTTP handlers share

    The functions of the SDK only the handlers call ([RouteSdk], with a concrete
    instance), the checks of path and query parameters, and the clamps of
    [limit], with the bounds every page has. *)
From S2P Require Import Prelude Text Errors Sdk Domain Markets.

Local Open Scope list_scope.
Local Open Scope Z_scope.

(** The text of a refused address, addresses from bytes, the address of a
    contract and the contract of the n-th market. *)
Class RouteSdk `{!Sdk} := {
  address_error : string -> string;
  ADDRESS_LENGTH : nat;
  address_from_slice : list Z -> option Address;
  address_slice_error : list Z -> string;
  contract_to_address : ContractAddress -> Address;
  market_contract : Z -> option ContractAddress
}.

#[export] Instance DemoRouteSdk : RouteSdk (H := DemoSdk) := {|
  address_error _ := "bad address";
  ADDRESS_LENGTH := 2;
  address_from_slice l := address_from_str (Sdk := DemoSdk) (tagged "a" (Z.to_N (default 0 (head l))));
  address_slice_error _ := "bad bytes";
  contract_to_address c := `c;
  market_contract n := Some (demo_contract_of (Z.to_N n))
|}.

Section Params.
Context {SD : Sdk} {R : RouteSdk}.

(** [Address::from_str(..).map_err(BadRequest(prefix: error))]. *)
Definition parse_address (prefix value : string) : AppResult Address :=
  ok_or (BadRequest (prefix +:+ address_error value)%string) (address_from_str value).

Definition parse_contract (prefix value : string) : AppResult ContractAddress :=
  ok_or (BadRequest (prefix +:+ parse_token_contract_error value)%string) (parse_token_contract value).

(** [unwrap_or(default).clamp(1, max)]. *)
Definition limit_or (dflt max : Z) (raw : option Z) : Z := clamp 1 max (default dflt raw).

Lemma limit_or_range dflt max raw : 1 <= max -> 1 <= limit_or dflt max raw <= max.
Proof. unfold limit_or. mach. Qed.

(** The address and contract parameters are refused with 400 only. *)
Definition bad_request {A} (r : AppResult A) : Prop := match r with Err (BadRequest _) => True | _ => False end.

Lemma parse_address_spec prefix value :
  match address_from_str value with
  | Some a => parse_address prefix value = Ok a
  | None => bad_request (parse_address prefix value)
  end.
Proof. unfold parse_address. by destruct (address_from_str value). Qed.

Lemma parse_contract_spec prefix value :
  match parse_token_contract value with
  | Some c => parse_contract prefix value = Ok c
  | None => bad_request (parse_contract prefix value)
  end.
Proof. unfold parse_contract. by destruct (parse_token_contract value). Qed.

End Params.

(** A page holds at most its limit. *)
Lemma page_length {A} offset limit (l : list A) : (length (page offset limit l) <= Z.to_nat limit)%nat.
Proof. unfold page. rewrite length_take. lia. Qed.

Lemma page_elem {A} offset limit (l : list A) x : x ∈ page offset limit l -> x ∈ l.
Proof. unfold page. intros (i & Hi & _)%elem_of_take. rewrite lookup_drop in Hi. by eapply list_elem_of_lookup_2. Qed.
