(* ===== verification/Enrich.v ===== *)
(** * Enrich: [vault_enrich.rs], the value of a vault from the node's answers

    The quote balance of the vault's account and its holdings at the last
    prices make the equity; a user's deposit is the share of the supply held.
    The property states both in exact numbers, apart from the code's products,
    which wrap around beyond u64. *)
From S2P Require Import Prelude Text Errors Sdk Keys Amounts Domain Orders Markets Vaults Hydrate StakeView Params.

Local Open Scope list_scope.
Local Open Scope Z_scope.

Section Enrich.
Context {SD : Sdk} {R : RouteSdk} {C : Chain} {AC : AccountChain}.

Definition parse_vault_address (value : string) : AppResult Address :=
  ok_or (BadRequest ("invalid address '" +:+ value +:+ "': " +:+ address_error (trim value))%string) (address_from_str (trim value)).

Definition parse_vault_contract (value : string) : AppResult ContractAddress :=
  ok_or (BadRequest ("invalid contract '" +:+ value +:+ "': " +:+ parse_token_contract_error (trim value))%string)
    (parse_token_contract (trim value)).

(** [get_balance(..).map(|balance| balance.total).unwrap_or(0)]. *)
Definition balance_total (account : Address) (token : ContractAddress) : Z := default 0 (tb_total <$> ok (get_balance account token)).

(** The last trade, else what the node says of the market. *)
Definition holding_price (i : Index) (query_account : Address) (market : string) : option Z :=
  match last_trade_price_of (ix_markets i) market with
  | Some price => Some price
  | None =>
      match parse_vault_contract market with
      | Ok market_contract => default None (ok (get_market_last_price query_account market_contract))
      | Err _ => None
      end
  end.

(** One turn of the loop over the holdings: the equity so far and the assets. *)
Definition price_holding (i : Index) (query_account : Address) (st : Z * list VaultAsset) (holding : string * Z) : Z * list VaultAsset :=
  let '(equity, assets) := st in
  let '(market, amount) := holding in
  let price := if decide (0 < amount) then holding_price i query_account market else None in
  let value := mul_quote amount <$> price in
  (match value with Some v => sat_add equity v | None => equity end,
   assets ++ [{| va_market := market; va_amount := format_amount_2dp amount;
                 va_last_price := format_amount_2dp <$> price; va_quote_value := format_amount_2dp <$> value |}]).

Definition cash_asset (vault : Vault) (quote_balance : Z) : VaultAsset :=
  {| va_market := (vlt_quote_token vault +:+ "(Cash)")%string; va_amount := format_amount_2dp quote_balance;
     va_last_price := Some "1.00"%string; va_quote_value := Some (format_amount_2dp quote_balance) |}.

Definition user_deposit_of (query_account : Address) (share_token : ContractAddress) (equity : Z) (user_account : option string)
    : AppResult string :=
  match user_account with
  | Some account =>
      if decide (trim account = "")%string then Ok "0.00"%string
      else
        user ← parse_vault_address account;
        let user_shares := balance_total user share_token in
        if decide (user_shares = 0 \/ equity = 0) then Ok "0.00"%string
        else
          let total_supply := default 0 (ok (get_token_supply query_account share_token)) in
          if decide (total_supply = 0) then Ok "0.00"%string
          else Ok (format_amount_2dp (mul_div user_shares equity total_supply))
  | None => Ok "0.00"%string
  end.

Definition enrich_vault_inner (i : Index) (query_account : string) (vault : Vault) (user_account : option string)
    : AppResult (string * string * list VaultAsset) :=
  query_account ← parse_vault_address query_account;
  vault_account ← parse_vault_address (vlt_vault_account vault);
  quote_token ← parse_vault_contract (vlt_quote_token vault);
  share_token ← parse_vault_contract (vlt_share_token vault);
  let holdings := vault_portfolio_holdings (ix_vaults i) (vlt_vault_address vault) in
  let quote_balance := balance_total vault_account quote_token in
  let '(equity, assets) := foldl (price_holding i query_account) (quote_balance, [cash_asset vault quote_balance]) holdings in
  user_deposit ← user_deposit_of query_account share_token equity user_account;
  Ok (format_amount_2dp equity, user_deposit, assets).

Definition with_view (equity user_deposit : string) (portfolio : list VaultAsset) (v : Vault) : Vault :=
  {| vlt_id := vlt_id v; vlt_name := vlt_name v; vlt_vault_address := vlt_vault_address v;
     vlt_vault_account := vlt_vault_account v; vlt_manager := vlt_manager v; vlt_quote_token := vlt_quote_token v;
     vlt_share_token := vlt_share_token v; vlt_equity := equity; vlt_user_deposit := user_deposit;
     vlt_portfolio := portfolio; vlt_allow_deposit := vlt_allow_deposit v; vlt_is_closed := vlt_is_closed v |}.

Definition enrich_vault_for_account (i : Index) (query_account : string) (vault : Vault) (user_account : option string) : Vault :=
  match enrich_vault_inner i query_account vault user_account with
  | Ok (equity, user_deposit, portfolio) => with_view equity user_deposit portfolio vault
  | Err _ => with_view (vlt_equity vault) (if decide (vlt_user_deposit vault = "")%string then "0.00" else vlt_user_deposit vault) [] vault
  end.

Definition enrich_vault (i : Index) (query_account : string) (vault : Vault) : Vault := enrich_vault_for_account i query_account vault None.

Definition enrich_vaults_for_account (i : Index) (query_account : string) (vaults : list Vault) (user_account : option string) : list Vault :=
  foldl (fun enriched vault => enriched ++ [enrich_vault_for_account i query_account vault user_account]) [] vaults.

Definition enrich_vaults (i : Index) (query_account : string) (vaults : list Vault) : list Vault :=
  enrich_vaults_for_account i query_account vaults None.

(** ** What the enriched vault shows *)

(** The value of a holding: nothing without a price, no holding or a price
    nobody knows. *)
Definition holding_value (i : Index) (query_account : Address) (holding : string * Z) : Z :=
  if decide (0 < holding.2) then default 0 (mul_quote holding.2 <$> holding_price i query_account holding.1) else 0.

Definition holding_asset (i : Index) (query_account : Address) (holding : string * Z) : VaultAsset :=
  let price := if decide (0 < holding.2) then holding_price i query_account holding.1 else None in
  {| va_market := holding.1; va_amount := format_amount_2dp holding.2;
     va_last_price := format_amount_2dp <$> price; va_quote_value := format_amount_2dp ∘ mul_quote holding.2 <$> price |}.

Lemma mul_quote_u64 a p : is_u64 (mul_quote a p).
Proof. apply as_u64_range. Qed.

Lemma holding_value_nonneg i q h : 0 <= holding_value i q h.
Proof.
  unfold holding_value. case_decide; [|lia]. destruct (holding_price i q h.1) as [p|]; simpl; [|lia].
  pose proof (mul_quote_u64 h.2 p) as H'. unfold is_u64 in H'. lia.
Qed.

Lemma price_holdings i q holdings equity assets :
  is_u64 equity ->
  foldl (price_holding i q) (equity, assets) holdings =
  (Z.min (equity + sum_with (holding_value i q) holdings) u64_max, assets ++ (holding_asset i q <$> holdings)).
Proof.
  revert equity assets. induction holdings as [|[market amount] holdings IH]; intros equity assets He; simpl.
  { rewrite app_nil_r. f_equal. mach. }
  pose proof (sum_with_nonneg (holding_value i q) holdings ltac:(apply Forall_true; intros; apply holding_value_nonneg)) as Hs.
  unfold holding_value at 1, holding_asset at 1. cbn [fst snd].
  case_decide as Ha.
  - destruct (holding_price i q market) as [p|]; simpl.
    + pose proof (mul_quote_u64 amount p) as Hm. rewrite IH by mach. rewrite <- app_assoc. f_equal; mach.
    + rewrite IH by done. rewrite <- app_assoc. f_equal; mach.
  - simpl. rewrite IH by done. rewrite <- app_assoc. f_equal; mach.
Qed.

(** Balances and supplies are u64. *)
Class AccountU64 : Prop := {
  balance_u64 a c b : get_balance a c = Ok b -> is_u64 (tb_total b);
  supply_u64 a c n : get_token_supply a c = Ok n -> is_u64 n
}.

Lemma balance_total_u64 `{!AccountU64} a c : is_u64 (balance_total a c).
Proof.
  unfold balance_total. destruct (get_balance a c) as [b|] eqn:E; simpl; [by eapply balance_u64|].
  mach.
Qed.

(** The raw equity and deposit behind the texts. *)
Definition equity_raw (i : Index) (q a : Address) (quote_token : ContractAddress) (vault : Vault) : Z :=
  Z.min (balance_total a quote_token + sum_with (holding_value i q) (vault_portfolio_holdings (ix_vaults i) (vlt_vault_address vault))) u64_max.

Definition deposit_raw (q user : Address) (share_token : ContractAddress) (equity : Z) : Z :=
  mul_div (balance_total user share_token) equity (default 0 (ok (get_token_supply q share_token))).

Lemma equity_raw_u64 `{!AccountU64} i q a c v : is_u64 (equity_raw i q a c v).
Proof.
  unfold equity_raw. pose proof (balance_total_u64 a c).
  pose proof (sum_with_nonneg (holding_value i q) (vault_portfolio_holdings (ix_vaults i) (vlt_vault_address v))
    ltac:(apply Forall_true; intros; apply holding_value_nonneg)). mach.
Qed.

Lemma mul_div_zero b d : mul_div 0 b d = 0.
Proof. unfold mul_div. by case_decide. Qed.

Lemma mul_div_zero_r a d : mul_div a 0 d = 0.
Proof. unfold mul_div. rewrite Z.mul_0_r. by case_decide. Qed.

Lemma user_deposit_raw q share_token equity account user :
  parse_vault_address account = Ok user -> trim account <> ""%string ->
  user_deposit_of q share_token equity (Some account) = Ok (format_amount_2dp (deposit_raw q user share_token equity)).
Proof.
  intros Hp Ht. unfold user_deposit_of, deposit_raw. rewrite decide_False, Hp by done. cbn [mbind AppResult_bind].
  case_decide as Hz.
  { destruct Hz as [->| ->]; by rewrite ?mul_div_zero, ?mul_div_zero_r. }
  case_decide as Hs; [|done]. rewrite Hs. by unfold mul_div at 1.
Qed.

Lemma enrich_inner_parsed `{!AccountU64} i query vault account q a quote_token share_token :
  parse_vault_address query = Ok q -> parse_vault_address (vlt_vault_account vault) = Ok a ->
  parse_vault_contract (vlt_quote_token vault) = Ok quote_token -> parse_vault_contract (vlt_share_token vault) = Ok share_token ->
  enrich_vault_inner i query vault account =
  (d ← user_deposit_of q share_token (equity_raw i q a quote_token vault) account;
   Ok (format_amount_2dp (equity_raw i q a quote_token vault), d,
       cash_asset vault (balance_total a quote_token) ::
         (holding_asset i q <$> vault_portfolio_holdings (ix_vaults i) (vlt_vault_address vault)))).
Proof.
  intros H1 H2 H3 H4. unfold enrich_vault_inner. rewrite H1, H2, H3, H4. cbn [mbind AppResult_bind].
  by rewrite price_holdings by apply balance_total_u64.
Qed.

(** ** The same, in exact numbers *)

(** What is known of the price of a market: its last trade, else what the node
    answers; nothing when it refuses or the market's name does not parse. *)
Inductive known_price (i : Index) (q : Address) (market : string) : option Z -> Prop :=
| known_trade p : last_trade_price_of (ix_markets i) market = Some p -> known_price i q market (Some p)
| known_node c r : last_trade_price_of (ix_markets i) market = None -> parse_vault_contract market = Ok c ->
    get_market_last_price q c = Ok r -> known_price i q market r
| known_refused c e : last_trade_price_of (ix_markets i) market = None -> parse_vault_contract market = Ok c ->
    get_market_last_price q c = Err e -> known_price i q market None
| known_unnamed e : last_trade_price_of (ix_markets i) market = None -> parse_vault_contract market = Err e -> known_price i q market None.

(** The cash of the account: its balance, or 0 when the node refuses. *)
Inductive known_balance (account : Address) (token : ContractAddress) : Z -> Prop :=
| known_total b : get_balance account token = Ok b -> known_balance account token (tb_total b)
| known_silent e : get_balance account token = Err e -> known_balance account token 0.

(** The exact value of an amount of millionths at a price in millionths; a
    holding is in range when that value is a u64, which the code does not check. *)
Definition worth (amount : Z) (price : option Z) : Z := match price with Some p => amount * p / 1000000 | None => 0 end.
Definition in_range (amount : Z) (price : option Z) : Prop :=
  0 < amount <= u64_max /\ (forall p, price = Some p -> is_u64 p) /\ worth amount price <= u64_max.

Definition asset_line (holding : string * Z) (price : option Z) : VaultAsset :=
  {| va_market := holding.1; va_amount := format_amount_2dp holding.2; va_last_price := format_amount_2dp <$> price;
     va_quote_value := (fun _ => format_amount_2dp (worth holding.2 price)) <$> price |}.

Lemma known_price_is i q market price : known_price i q market price -> holding_price i q market = price.
Proof.
  unfold holding_price. intros [p ->|c r -> -> E|c e -> -> E|e -> ->]; [done|..|done]; by rewrite E.
Qed.

Lemma known_balance_is account token n : known_balance account token n -> balance_total account token = n.
Proof. unfold balance_total. by intros [b ->|e ->]. Qed.

Lemma in_range_value `{!SdkLaws} amount price :
  in_range amount price -> mul_quote amount <$> price = (fun _ => worth amount price) <$> price /\ 0 <= worth amount price.
Proof.
  intros (Ha & Hp & Hw). destruct price as [p|]; simpl in *; [|split; [done|lia]]. specialize (Hp p eq_refl). unfold is_u64 in Hp.
  split; [|apply Z.div_pos; lia]. rewrite mul_quote_floor; rewrite ?token_scale_six; [done|unfold is_u64; lia|done|done].
Qed.

(** The values of the holdings at the known prices. *)
Lemma holdings_worth `{!SdkLaws} i q holdings prices :
  Forall2 (fun h p => known_price i q h.1 p /\ in_range h.2 p) holdings prices ->
  sum_with (holding_value i q) holdings = sum_with (fun x => x) (zip_with (fun h p => worth h.2 p) holdings prices) /\
  (holding_asset i q <$> holdings) = zip_with asset_line holdings prices.
Proof.
  induction 1 as [|[market amount] price holdings prices [Hk Hr] _ [IH1 IH2]]; [done|]. simpl in *.
  destruct (in_range_value amount price Hr) as [Hv _]. rewrite IH1, <- IH2. clear IH1 IH2.
  unfold holding_value, holding_asset, asset_line. simpl. rewrite !decide_True by apply Hr. rewrite (known_price_is _ _ _ _ Hk). split.
  - f_equal. rewrite Hv. by destruct price.
  - f_equal. f_equal. transitivity (format_amount_2dp <$> (mul_quote amount <$> price)); [by destruct price|]. rewrite Hv. by destruct price.
Qed.

(** C30: what the view of a vault says in exact numbers.  When the addresses
    parse, the equity is the quote balance (0 when the node refuses it) plus, for
    every holding whose price is known, from its last trade or else from the
    node, amount times price in millionths, rounded down and capped at u64::MAX;
    the portfolio lists the cash and then every holding with its price and value;
    and a holder is shown its share of the supply of that equity, rounded down.
    These raw deposits of holders whose shares are within the supply add up to
    at most the raw equity; the shown texts are rounded half up to cents, and may
    add up to more.  Assumed: no single value is beyond u64, where the code wraps
    around. *)
Theorem vault_view_balanced `{!SdkLaws} `{!AccountU64} i query vault q a quote_token share_token cash prices supply users :
  parse_vault_address query = Ok q -> parse_vault_address (vlt_vault_account vault) = Ok a ->
  parse_vault_contract (vlt_quote_token vault) = Ok quote_token -> parse_vault_contract (vlt_share_token vault) = Ok share_token ->
  known_balance a quote_token cash ->
  let holdings := vault_portfolio_holdings (ix_vaults i) (vlt_vault_address vault) in
  Forall2 (fun h p => known_price i q h.1 p /\ in_range h.2 p) holdings prices ->
  get_token_supply q share_token = Ok supply -> 0 < supply ->
  Forall (fun u => trim u.1.1 <> ""%string /\ parse_vault_address u.1.1 = Ok u.1.2 /\ known_balance u.1.2 share_token u.2) users ->
  sum_with (fun u => u.2) users <= supply ->
  let equity := Z.min (cash + sum_with (fun x => x) (zip_with (fun h p => worth h.2 p) holdings prices)) u64_max in
  let shown account := enrich_vault_for_account i query vault account in
  vlt_equity (shown None) = format_amount_2dp equity /\
  vlt_portfolio (shown None) = cash_asset vault cash :: zip_with asset_line holdings prices /\
  Forall (fun u => vlt_user_deposit (shown (Some u.1.1)) = format_amount_2dp (u.2 * equity / supply)) users /\
  sum_with (fun u => u.2 * equity / supply) users <= equity.
Proof.
  intros H1 H2 H3 H4 Hcash holdings HP Hsup Hpos HU Hsum. cbn zeta. set (equity := Z.min _ _).
  destruct (holdings_worth i q holdings prices HP) as [Hw Hl].
  assert (equity_raw i q a quote_token vault = equity) as He by (unfold equity_raw; fold holdings; by rewrite (known_balance_is _ _ _ Hcash), Hw).
  pose proof (equity_raw_u64 i q a quote_token vault) as Heu. rewrite He in Heu.
  assert (forall account, enrich_vault_inner i query vault account =
    (d ← user_deposit_of q share_token equity account; Ok (format_amount_2dp equity, d, cash_asset vault cash :: zip_with asset_line holdings prices))) as HI.
  { intros account. rewrite (enrich_inner_parsed _ _ _ _ _ _ _ _ H1 H2 H3 H4), He. fold holdings. by rewrite (known_balance_is _ _ _ Hcash), Hl. }
  assert (Forall (fun u => is_u64 u.2 /\ vlt_user_deposit (enrich_vault_for_account i query vault (Some u.1.1)) =
    format_amount_2dp (mul_div u.2 equity supply)) users) as HD.
  { eapply Forall_impl; [exact HU|]. intros [[account user] shares] (Ht & Hp & Hb). simpl in *.
    apply known_balance_is in Hb. split; [rewrite <- Hb; apply balance_total_u64|].
    unfold enrich_vault_for_account. rewrite (HI (Some account)), (user_deposit_raw q share_token equity account user) by done.
    unfold deposit_raw. by rewrite Hb, Hsup. }
  assert (Forall is_u64 (snd <$> users)) as HS by (apply Forall_fmap; eapply Forall_impl; [exact HD|]; by intros u [? _]).
  destruct (mul_div_pro_rata (snd <$> users) equity supply HS Heu Hpos ltac:(by rewrite sum_with_fmap)) as [_ Hle].
  assert (Forall (fun u => mul_div u.2 equity supply = u.2 * equity / supply) users) as HE.
  { rewrite Forall_forall in HD. apply Forall_forall. intros u Hu. destruct (HD u Hu) as [Hus _].
    assert (u.2 <= supply) by (etransitivity; [|exact Hsum]; apply (sum_with_elem (fun u => u.2)); [|done];
      apply Forall_forall; intros x Hx; destruct (HD x Hx) as [[? _] _]; done).
    unfold is_u64 in *. apply mul_div_floor; [done..|]. apply Z.div_le_upper_bound; nia. }
  unfold enrich_vault_for_account at 1 2. rewrite (HI None). split; [done|]. split; [done|]. split.
  - rewrite Forall_forall in HD, HE |- *. intros u Hu. rewrite <- (HE u Hu). by apply HD.
  - rewrite sum_with_fmap in Hle. rewrite (sum_with_ext _ (fun u => mul_div u.2 equity supply)); [done|].
    eapply Forall_impl; [exact HE|]. by intros u ->.
Qed.

End Enrich.

(** ** Witness: a vault of one holding and two holders *)

#[export] Instance DemoAccountU64 : AccountU64 (AC := DemoAccountChain).
Proof. split; cbn; intros; simplify_eq; split; vm_compute; congruence. Qed.

Definition demo_vault : Vault :=
  {| vlt_id := 1%N; vlt_name := "v"; vlt_vault_address := "c8"; vlt_vault_account := "a8"; vlt_manager := "a1"; vlt_quote_token := "c2";
     vlt_share_token := "c3"; vlt_equity := "0"; vlt_user_deposit := ""; vlt_portfolio := []; vlt_allow_deposit := true; vlt_is_closed := false |}.

Definition demo_vault_index : Index :=
  set_vaults (with_holdings (<[1%N := {["c7"%string := 2000000]}]>) (upsert_vault (S := DemoSdk) Vaults_new demo_vault None).1)
    (set_markets (record_last_trade_price (S := DemoSdk) Markets_new "c7" 3000000 None).1 (Index_new false)).

Lemma vault_view_balanced_witness :
  vlt_equity (enrich_vault_for_account (SD := DemoSdk) (C := DemoChain) demo_vault_index "a1" demo_vault None) = "6.00"%string /\
  sum_with (fun u => u.2 * 6000070 / 1000) [("a4"%string, 4%N, 70); ("a5"%string, 5%N, 70)] <= 6000070.
Proof.
  destruct (vault_view_balanced (SD := DemoSdk) (AC := DemoAccountChain) (C := DemoChain) demo_vault_index "a1" demo_vault 1%N 8%N (demo_contract_of 2)
    (demo_contract_of 3) 70 [Some 3000000] 1000 [("a4"%string, 4%N, 70); ("a5"%string, 5%N, 70)]) as (H1 & _ & _ & H4); [reflexivity..| | | | | | |].
  - apply (known_total (AC := DemoAccountChain) _ _ {| tb_total := 70; tb_locked := 20; tb_available := 50 |}). reflexivity.
  - constructor; [|constructor]. split; [apply known_trade; reflexivity|]. split; [vm_compute; split; congruence|].
    split; [intros p [= <-]; vm_compute; split; congruence|vm_compute; congruence].
  - reflexivity.
  - lia.
  - repeat constructor; (try by apply (bool_decide_eq_true_1 _)); apply (known_total (AC := DemoAccountChain) _ _ {| tb_total := 70; tb_locked := 20; tb_available := 50 |}); reflexivity.
  - vm_compute. congruence.
  - split; [rewrite H1; vm_compute; reflexivity|exact H4].
Defined.
