(* ===== verification/PaperRoutes.v ===== *)
(** * PaperRoutes: [http/routes/paper.rs], the queries of the paper market

    The eleven handlers of [/api/paper] with their parameters and responses.
    [closed_history] and [stored_house] are the two queries of the index that
    read the history database, absent when the node keeps none.  Two handlers
    change the index: asking for the staking history takes a sample, asking for
    the house history keeps what it loads. *)
From S2P Require Import Prelude Text Errors Sdk Keys Amounts Domain Markets Rings Paper PaperViews Events Store StakeView Params.

Local Open Scope list_scope.
Local Open Scope Z_scope.

(** ** Parameters *)

Record PositionsQuery := { poq_owner : option string; poq_market : option string; poq_status : option string; poq_limit : option Z; poq_offset : option Z }.
Record HistoryQuery := { hiq_owner : option string; hiq_market : option string; hiq_limit : option Z; hiq_offset : option Z }.
Record AccountQuery := { acq_market : string; acq_address : string }.
Record OiHistoryQuery := { oiq_market : string; oiq_instrument : option Z; oiq_from_ms : option Z; oiq_limit : option Z }.
Record DebtHistoryQuery := { dhq_market : string; dhq_from_ms : option Z; dhq_limit : option Z }.
Record QueuePlacementQuery := { qpq_market : string; qpq_owner : string }.
Record ActivityQuery := { avq_market : option string; avq_limit : option Z }.
Record StakeHistoryQuery := { shq_market : string; shq_from_ms : option Z; shq_limit : option Z }.

(** ** Responses: [http/models/paper.rs] *)

Record PaperPositionsResponse := {
  ppr_open : list PaperPositionOpen; ppr_history : list PaperPositionHistory; ppr_total : Z; ppr_limit : Z; ppr_offset : Z
}.
Record PaperHistoryResponse := { phs_history : list PaperPositionHistory; phs_total : Z; phs_limit : Z; phs_offset : Z }.
Record PaperOiHistoryTick := { oht_t : Z; oht_long : string; oht_short : string; oht_long_raw : Z; oht_short_raw : Z }.
Record PaperOiHistoryResponse := { oir_market : string; oir_instrument : Z; oir_name : string; oir_ticks : list PaperOiHistoryTick }.
Record PaperHouseHistoryTick := {
  hht_t : Z; hht_house_funds : string; hht_house_funds_raw : Z; hht_lp_balance : string; hht_lp_balance_raw : Z;
  hht_open_house_pnl : string; hht_open_house_pnl_raw : Z; hht_queue_debt : string; hht_queue_debt_raw : Z
}.
Record PaperHouseHistoryResponse := { hhr_market : string; hhr_ticks : list PaperHouseHistoryTick }.
Record PaperDebtHistoryTick := { dht_t : Z; dht_debt : string; dht_debt_raw : Z }.
Record PaperDebtHistoryResponse := { dhr_market : string; dhr_ticks : list PaperDebtHistoryTick }.
Record PaperActivityResponse := { atr_market : string; atr_activities : list PaperActivityItem }.
Record PaperStakeHistoryTick := {
  sht_t : Z; sht_staking_revenue : string; sht_staking_revenue_raw : Z; sht_total_paper_supply : string; sht_total_paper_supply_raw : Z;
  sht_total_staking_reward : string; sht_total_staking_reward_raw : Z
}.
Record PaperStakeHistoryResponse := { shr_market : string; shr_ticks : list PaperStakeHistoryTick }.

Section PaperRoutes.
Context {SD : Sdk} {J : Json} {R : RouteSdk} {AC : AccountChain}.

(** The history database behind the index: [query_closed_history] and the rows
    [paper_house_history] loads. *)
Definition closed_history (store : option StateStore) (owner market : option string) (limit offset : nat) : list PaperPositionHistory * nat :=
  match store with
  | None => ([], O)
  | Some s => match query_paper_position_history s owner market limit offset with
              | Ok (rows, total) => (rows, Z.to_nat total)
              | Err _ => ([], O)
              end
  end.

Definition stored_house (store : option StateStore) (market : string) (from_ms : option Z) : list PaperHouseHistoryRow :=
  match store with None => [] | Some s => load_paper_house_history s market from_ms PAPER_HOUSE_HISTORY_LIMIT end.

Definition page_limit (raw : option Z) : Z := limit_or DEFAULT_PAPER_PAGE_LIMIT MAX_PAPER_PAGE_LIMIT raw.

(** [filter(|s| !s.trim().is_empty())]: the text itself is kept. *)
Definition non_blank (value : option string) : option string :=
  s ← value; if decide (trim s = "")%string then None else Some s.

Definition list_positions (store : option StateStore) (p : Paper) (params : PositionsQuery) : AppResult PaperPositionsResponse :=
  let limit := page_limit (poq_limit params) in
  let offset := default 0 (poq_offset params) in
  let query := {| pq_owner := non_blank (poq_owner params); pq_market := non_blank (poq_market params);
                  pq_status := PaperPositionStatus_parse (poq_status params); pq_limit := limit; pq_offset := offset |} in
  let '(open, history, total) := query_paper_positions (closed_history store) p query in
  Ok {| ppr_open := open; ppr_history := history; ppr_total := Z.of_nat total; ppr_limit := limit; ppr_offset := offset |}.

Definition list_history (store : option StateStore) (p : Paper) (params : HistoryQuery) : AppResult PaperHistoryResponse :=
  let limit := page_limit (hiq_limit params) in
  let offset := default 0 (hiq_offset params) in
  let query := {| pq_owner := non_blank (hiq_owner params); pq_market := non_blank (hiq_market params); pq_status := StClosed;
                  pq_limit := limit; pq_offset := offset |} in
  let '(_, history, total) := query_paper_positions (closed_history store) p query in
  Ok {| phs_history := history; phs_total := Z.of_nat total; phs_limit := limit; phs_offset := offset |}.

(** The checks the handlers open with: the trimmed market, a contract. *)
Definition market_param (market : string) : AppResult string :=
  let market_raw := trim market in
  if decide (market_raw = "")%string then Err (BadRequest "market is required")
  else _ ← parse_contract "invalid paper market: " market_raw; Ok market_raw.

Definition market_user_param (what label market user : string) : AppResult (string * string * ContractAddress * Address) :=
  let market_raw := trim market in
  let user_raw := trim user in
  if decide (market_raw = "" \/ user_raw = "")%string then Err (BadRequest ("market and " +:+ what +:+ " are required")%string)
  else
    paper_market ← parse_contract "invalid paper market: " market_raw;
    user ← parse_address ("invalid " +:+ label +:+ ": ")%string user_raw;
    Ok (market_raw, user_raw, paper_market, user).

(** [available as i64 + queued as i64 + margin_in_use_raw as i64]. *)
Definition account_equity (available queued margin_in_use : Z) : Z :=
  as_i64 (as_i64 (as_i64 available + as_i64 queued) + as_i64 margin_in_use).

Definition get_account (p : Paper) (params : AccountQuery) : AppResult PaperAccountView :=
  '(market_raw, address_raw, paper_market, user) ← market_user_param "address" "address" (acq_market params) (acq_address params);
  let acct := default no_account (ok (get_paper_account user paper_market)) in
  let margin_in_use_raw := sum_open_margin p address_raw (Some market_raw) in
  let open_positions := count_open_positions p address_raw (Some market_raw) in
  let equity_raw := account_equity (ga_available acct) (ga_queued acct) margin_in_use_raw in
  Ok {| av_market := market_raw; av_address := address_raw;
        av_available := format_token_amount (ga_available acct); av_queued := format_token_amount (ga_queued acct);
        av_available_raw := ga_available acct; av_queued_raw := ga_queued acct;
        av_entry_head := ga_entry_head acct; av_entry_tail := ga_entry_tail acct; av_queued_truncated := ga_queued_truncated acct;
        av_margin_in_use := format_token_amount margin_in_use_raw; av_margin_in_use_raw := margin_in_use_raw;
        av_open_pnl := format_token_amount 0; av_open_pnl_raw := 0;
        av_equity := format_i64_token equity_raw; av_equity_raw := equity_raw; av_open_positions := open_positions |}.

Definition get_stake (p : Paper) (params : AccountQuery) : AppResult PaperStakeView :=
  '(market_raw, address_raw, _, _) ← market_user_param "address" "address" (acq_market params) (acq_address params);
  ok_or (BadRequest "failed to build stake view") (paper_stake_view p market_raw address_raw).

Definition get_house (p : Paper) (market : string) : AppResult PaperHouseView :=
  market_raw ← market_param market; Ok (paper_house_view p market_raw).

Definition get_oi_history (p : Paper) (params : OiHistoryQuery) : AppResult PaperOiHistoryResponse :=
  market_raw ← market_param (oiq_market params);
  let instrument := default 0 (oiq_instrument params) in
  let limit := limit_or 600 3600 (oiq_limit params) in
  let ticks := paper_oi_history p market_raw instrument (oiq_from_ms params) (Z.to_nat limit) in
  Ok {| oir_market := market_raw; oir_instrument := instrument; oir_name := paper_instrument_name p market_raw instrument;
        oir_ticks := (fun t => {| oht_t := ok_ts_ms t; oht_long := format_token_amount (ok_long t); oht_short := format_token_amount (ok_short t);
                                  oht_long_raw := ok_long t; oht_short_raw := ok_short t |}) <$> ticks |}.

Definition house_history_tick (t : PaperHouseTick) : PaperHouseHistoryTick :=
  {| hht_t := hk_ts_ms t; hht_house_funds := format_i128_token (hk_house_funds t); hht_house_funds_raw := hk_house_funds t;
     hht_lp_balance := format_token_amount (hk_lp_balance t); hht_lp_balance_raw := hk_lp_balance t;
     hht_open_house_pnl := format_i64_token (hk_open_house_pnl t); hht_open_house_pnl_raw := hk_open_house_pnl t;
     hht_queue_debt := format_token_amount (hk_queue_debt t); hht_queue_debt_raw := hk_queue_debt t |}.

(** Both house queries: the ticks, and the index that keeps what was loaded. *)
Definition house_ticks (store : option StateStore) (p : Paper) (params : DebtHistoryQuery) : Paper * AppResult (string * list PaperHouseTick) :=
  match market_param (dhq_market params) with
  | Err e => (p, Err e)
  | Ok market_raw =>
      let limit := limit_or 600 3600 (dhq_limit params) in
      let '(p, ticks) := paper_house_history (stored_house store market_raw) p market_raw (dhq_from_ms params) (Z.to_nat limit) in
      (p, Ok (market_raw, ticks))
  end.

Definition get_house_history (store : option StateStore) (p : Paper) (params : DebtHistoryQuery) : Paper * AppResult PaperHouseHistoryResponse :=
  let '(p, r) := house_ticks store p params in
  (p, '(market_raw, ticks) ← r; Ok {| hhr_market := market_raw; hhr_ticks := house_history_tick <$> ticks |}).

Definition get_debt_history (store : option StateStore) (p : Paper) (params : DebtHistoryQuery) : Paper * AppResult PaperDebtHistoryResponse :=
  let '(p, r) := house_ticks store p params in
  (p, '(market_raw, ticks) ← r;
      Ok {| dhr_market := market_raw;
            dhr_ticks := (fun t => {| dht_t := hk_ts_ms t; dht_debt := format_token_amount (hk_queue_debt t); dht_debt_raw := hk_queue_debt t |}) <$> ticks |}).

Definition get_queue_placement (p : Paper) (params : QueuePlacementQuery) : AppResult PaperQueuePlacement :=
  '(market_raw, owner_raw, _, _) ← market_user_param "owner" "owner" (qpq_market params) (qpq_owner params);
  Ok (paper_queue_placement p market_raw owner_raw).

Definition list_activity (p : Paper) (params : ActivityQuery) : AppResult PaperActivityResponse :=
  let market := m ← avq_market params; if decide (trim m = "")%string then None else Some (trim m) in
  _ ← match market with Some m => (_ ← parse_contract "invalid paper market: " m; Ok ()) | None => Ok () end;
  let limit := limit_or 60 120 (avq_limit params) in
  Ok {| atr_market := default ""%string market; atr_activities := paper_activity p market (Z.to_nat limit) |}.

(** The sample is taken without publishing it. *)
Definition get_stake_history (block_ms now : Z) (p : Paper) (params : StakeHistoryQuery) : Paper * AppResult PaperStakeHistoryResponse :=
  match market_param (shq_market params) with
  | Err e => (p, Err e)
  | Ok market_raw =>
      let p := flush_paper_stake_history block_ms now false (mark_paper_stake_dirty market_raw p) in
      let limit := limit_or 600 3600 (shq_limit params) in
      let ticks := paper_stake_history p market_raw (shq_from_ms params) (Z.to_nat limit) in
      (p, Ok {| shr_market := market_raw;
                shr_ticks := (fun t => {| sht_t := sk_ts_ms t;
                    sht_staking_revenue := format_token_amount (sk_staking_revenue t); sht_staking_revenue_raw := sk_staking_revenue t;
                    sht_total_paper_supply := format_token_amount (sk_total_paper_supply t); sht_total_paper_supply_raw := sk_total_paper_supply t;
                    sht_total_staking_reward := format_token_amount (sk_total_staking_reward t); sht_total_staking_reward_raw := sk_total_staking_reward t |})
                  <$> ticks |})
  end.

(** ** Which requests are answered *)

Definition well_formed (market user : string) : Prop :=
  trim market <> ""%string /\ trim user <> ""%string /\
  is_Some (parse_token_contract (trim market)) /\ is_Some (address_from_str (trim user)).

Definition is_answer {A} (r : AppResult A) : Prop := exists a, r = Ok a.

Lemma market_param_spec market :
  (trim market <> ""%string -> is_Some (parse_token_contract (trim market)) -> market_param market = Ok (trim market)) /\
  (~ (trim market <> ""%string /\ is_Some (parse_token_contract (trim market))) -> bad_request (market_param market)).
Proof.
  unfold market_param. pose proof (parse_contract_spec "invalid paper market: " (trim market)) as Hc. case_decide as E.
  { split; [done|]. intros _. done. }
  destruct (parse_token_contract (trim market)) as [c|].
  - rewrite Hc. split; [done|]. intros Hn. destruct Hn. split; [done|by eexists].
  - split; [by intros _ []|]. intros _. by destruct (parse_contract _ _) as [|[]].
Qed.

Lemma market_user_param_spec what label market user :
  (well_formed market user -> exists c a, parse_token_contract (trim market) = Some c /\ address_from_str (trim user) = Some a /\
     market_user_param what label market user = Ok (trim market, trim user, c, a)) /\
  (~ well_formed market user -> bad_request (market_user_param what label market user)).
Proof.
  unfold market_user_param, well_formed. cbn zeta. pose proof (parse_contract_spec "invalid paper market: " (trim market)) as Hc.
  pose proof (parse_address_spec ("invalid " +:+ label +:+ ": ")%string (trim user)) as Ha. case_decide as E.
  { split; [|done]. intros (H1 & H2 & _). by destruct E. }
  destruct (parse_token_contract (trim market)) as [c|].
  2:{ split; [by intros (_ & _ & [] & _)|]. intros _. by destruct (parse_contract _ _) as [|[]]. }
  rewrite Hc. cbn [mbind AppResult_bind]. destruct (address_from_str (trim user)) as [a|].
  2:{ split; [by intros (_ & _ & _ & [])|]. intros _. by destruct (parse_address _ _) as [|[]]. }
  rewrite Ha. split; [intros _; by exists c, a|]. intros Hn. destruct Hn.
  split_and!; [intros H; apply E; by left|intros H; apply E; by right|by eexists|by eexists].
Qed.

(** The account, stake and queue queries answer exactly the requests
    whose market is a contract and whose user is an address, and the market
    queries those whose market is a contract; anything else is refused with
    status 400 and leaves the index alone, and no answer of the node, not even
    a refusal, turns into an error. *)
Theorem paper_requests_checked `{!CurveBounded} store block_ms now p market user oi debt stake :
  oiq_market oi = market -> dhq_market debt = market -> shq_market stake = market ->
  let account := {| acq_market := market; acq_address := user |} in
  let placement := {| qpq_market := market; qpq_owner := user |} in
  let known := trim market <> ""%string /\ is_Some (parse_token_contract (trim market)) in
  (well_formed market user ->
     is_answer (get_account p account) /\ is_answer (get_stake p account) /\ is_answer (get_queue_placement p placement)) /\
  (~ well_formed market user ->
     bad_request (get_account p account) /\ bad_request (get_stake p account) /\ bad_request (get_queue_placement p placement)) /\
  (known ->
     is_answer (get_house p market) /\ is_answer (get_oi_history p oi) /\ is_answer (get_house_history store p debt).2 /\
     is_answer (get_debt_history store p debt).2 /\ is_answer (get_stake_history block_ms now p stake).2) /\
  (~ known ->
     bad_request (get_house p market) /\ bad_request (get_oi_history p oi) /\
     (exists e, get_house_history store p debt = (p, Err (BadRequest e))) /\
     (exists e, get_debt_history store p debt = (p, Err (BadRequest e))) /\
     (exists e, get_stake_history block_ms now p stake = (p, Err (BadRequest e)))).
Proof.
  intros Eo Ed Es. cbn zeta.
  destruct (market_user_param_spec "address" "address" market user) as [A1 A2].
  destruct (market_user_param_spec "owner" "owner" market user) as [Q1 Q2].
  destruct (market_param_spec market) as [M1 M2].
  unfold get_account, get_stake, get_queue_placement, get_house, get_oi_history, get_house_history, get_debt_history, house_ticks,
    get_stake_history. rewrite Eo, Ed, Es. cbn [acq_market acq_address qpq_market qpq_owner].
  split; [|split; [|split]].
  - intros Hw. destruct (A1 Hw) as (c & a & Hc & Ha & ->). destruct (Q1 Hw) as (? & ? & _ & _ & ->).
    cbn [mbind AppResult_bind]. split; [by eexists|]. split; [|by eexists].
    assert (is_Some (paper_stake_view p (trim market) (trim user))) as [v ->]; [|by exists v].
    apply stake_view_answers. rewrite !trim_idemp. apply Hw.
  - intros Hw. specialize (A2 Hw). specialize (Q2 Hw).
    destruct (market_user_param "address" _ _ _) as [|[]]; try done. by destruct (market_user_param "owner" _ _ _) as [|[]].
  - intros [H1 H2]. rewrite (M1 H1 H2). cbn [mbind AppResult_bind].
    destruct (paper_house_history _ _ _ _ _) as [p' ticks]. split_and!; by eexists.
  - intros Hk. specialize (M2 Hk). destruct (market_param market) as [|[]]; try done. split_and!; try done; by eexists.
Qed.

(** ** The account, asked for over HTTP and pushed over the websocket *)

Lemma sum_u64_range {A} (f : A -> Z) l : is_u64 (sum_u64 f l).
Proof. apply as_u64_range. Qed.

Lemma account_equity_small a q m :
  is_u64 a -> is_u64 q -> is_u64 m -> a + q + m <= i64_max -> account_equity a q m = a + q + m.
Proof.
  intros. unfold account_equity. rewrite (as_i64_id a), (as_i64_id q), (as_i64_id m), (as_i64_id (a + q)) by mach.
  apply as_i64_id. mach.
Qed.

(** Asking for an account and being sent it are the same: whenever the
    websocket state of a user exists and the equity is at most i64::MAX, the
    account query answers the account of that state, field by field. *)
Theorem account_views_agree `{!SdkLaws} p user market st :
  trim user = user -> trim market = market -> paper_user_state p user market = Some st ->
  let a := us_account st in
  is_u64 (av_available_raw a) -> is_u64 (av_queued_raw a) ->
  av_available_raw a + av_queued_raw a + av_margin_in_use_raw a <= i64_max ->
  get_account p {| acq_market := market; acq_address := user |} = Ok a.
Proof.
  intros Tu Tm Hst. unfold paper_user_state in Hst.
  destruct (paper_stake_view p market user) as [v|] eqn:Ev; [|done]. cbn [mbind option_bind] in Hst.
  destruct (address_from_str user) as [ad|] eqn:Ea; [|done]. cbn [mbind option_bind] in Hst.
  destruct (parse_token_contract market) as [c|] eqn:Ec; [|done]. cbn [mbind option_bind] in Hst. injection Hst as <-. cbn zeta.
  cbn [us_account av_available_raw av_queued_raw av_margin_in_use_raw].
  set (acct := default no_account (ok (get_paper_account ad c))). set (m := sum_open_margin p user (Some market)).
  intros Ha Hq Hsum. assert (is_u64 m) as Hm by apply sum_u64_range.
  assert (well_formed market user) as Hw.
  { unfold well_formed. rewrite Tu, Tm, Ea, Ec. unfold paper_stake_view in Ev. rewrite Tu, Tm in Ev. cbn zeta in Ev.
    case_decide as Hb; [done|]. split_and!; [intros E; apply Hb; by left|intros E; apply Hb; by right|by eexists|by eexists]. }
  destruct (market_user_param_spec "address" "address" market user) as [A1 _].
  destruct (A1 Hw) as (c' & a' & Hc' & Ha' & Hp). rewrite Tm, Tu in *. assert (c' = c) as -> by congruence. assert (a' = ad) as -> by congruence.
  unfold get_account. cbn [acq_market acq_address]. rewrite Hp. cbn [mbind AppResult_bind]. fold acct m.
  rewrite account_equity_small by done.
  assert (format_token_amount 0 = "0"%string) as -> by (unfold format_token_amount; by rewrite token_scale_six).
  assert (format_i64_token (ga_available acct + ga_queued acct + m) = format_token_amount (ga_available acct + ga_queued acct + m)) as ->.
  { unfold format_i64_token, sign_l. rewrite decide_False, Z.abs_eq by mach. done. }
  rewrite !sat_add_exact by mach. by rewrite as_i64_id by mach.
Qed.

(** ** What a query does to the index *)

Lemma flush_stake_quiet ts p market : p_stake_dirty (flush_stake false ts p market) = p_stake_dirty p /\ p_out (flush_stake false ts p market) = p_out p.
Proof. unfold flush_stake. by destruct (parse_token_contract market). Qed.

Lemma flush_stakes_quiet ts markets p :
  p_stake_dirty (foldl (flush_stake false ts) p markets) = p_stake_dirty p /\ p_out (foldl (flush_stake false ts) p markets) = p_out p.
Proof.
  revert p. induction markets as [|m markets IH]; intros p; simpl; [done|]. destruct (IH (flush_stake false ts p m)) as [-> ->].
  apply flush_stake_quiet.
Qed.

(** Asking for one market's staking history takes the updates of every
    market away from its subscribers: the markets the running block has marked
    are sampled without publishing and are no longer marked, so the flush at
    the end of the block sends nothing about them. *)
Theorem stake_history_takes_updates block_ms now end_ms end_now p params r :
  get_stake_history block_ms now p params = (r.1, Ok r.2) ->
  p_stake_dirty r.1 = ∅ /\ p_out r.1 = p_out p /\ flush_paper_stake_history end_ms end_now true r.1 = r.1.
Proof.
  unfold get_stake_history. destruct (market_param (shq_market params)) as [m|e]; [|done]. cbn zeta. intros [= <- _].
  set (p0 := mark_paper_stake_dirty m p).
  assert (p_out p0 = p_out p) as Ho by (unfold p0, mark_paper_stake_dirty; by case_decide).
  assert (p_stake_dirty (flush_paper_stake_history block_ms now false p0) = ∅ /\ p_out (flush_paper_stake_history block_ms now false p0) = p_out p) as [E1 E2].
  { unfold flush_paper_stake_history. case_decide as Ed.
    - split; [|done]. apply leibniz_equiv. by apply elements_empty_iff.
    - destruct (flush_stakes_quiet (event_time block_ms now) (elements (p_stake_dirty p0)) (on_stake_dirty (fun _ => ∅) p0)) as [-> ->]. done. }
  split; [done|]. split; [done|]. unfold flush_paper_stake_history at 1. rewrite E1, elements_empty. by rewrite decide_True.
Qed.

Lemma stored_since s market f rows :
  0 <= f <= i64_max -> load_paper_house_history s market (Some f) PAPER_HOUSE_HISTORY_LIMIT = rows ->
  Forall (fun r => f <= phr_ts_ms r) rows.
Proof.
  intros Hf <-. unfold load_paper_house_history. simpl default. rewrite as_i64_id by mach. apply Forall_fmap, Forall_forall. intros x Hx. unfold compose. simpl.
  unfold range_query in Hx. rewrite elem_of_reverse in Hx. apply elem_of_take in Hx as (n & Hn & _). apply list_elem_of_lookup_2 in Hn.
  apply (elem_of_Permutation_proper x _ _ (merge_sort_Permutation _ _)), list_elem_of_filter in Hn as [Hr _].
  rewrite as_u64_id by mach. lia.
Qed.

Lemma history_tail_elem {A} (ts : A -> Z) max hist from limit x : x ∈ history_tail ts max hist from limit -> x ∈ hist.
Proof.
  unfold history_tail. intros H'. assert (x ∈ since ts from hist) as Hs.
  { case_decide; [done|]. apply list_elem_of_lookup_1 in H' as [i Hi]. rewrite lookup_drop in Hi. by eapply list_elem_of_lookup_2. }
  by apply list_elem_of_filter in Hs as [_ ?].
Qed.

(** The first house history query after the index was cleared decides what
    later ones see: asked from a time on, it keeps only the rows since then, and
    a later query for everything is answered with those alone. *)
Theorem house_history_query_narrows s p market c f limit :
  trim market <> ""%string -> parse_token_contract (trim market) = Some c ->
  p_house_history p !! addr_key (trim market) = None -> 0 <= f <= i64_max ->
  load_paper_house_history s (trim market) (Some f) PAPER_HOUSE_HISTORY_LIMIT <> [] ->
  let p1 := (get_house_history (Some s) p {| dhq_market := market; dhq_from_ms := Some f; dhq_limit := None |}).1 in
  exists ticks, (get_house_history (Some s) p1 {| dhq_market := market; dhq_from_ms := None; dhq_limit := limit |}).2 =
    Ok {| hhr_market := trim market; hhr_ticks := ticks |} /\ Forall (fun t => f <= hht_t t) ticks.
Proof.
  intros Hm Hc Hp Hf Hrows. cbn zeta. unfold get_house_history, house_ticks. cbn [dhq_market dhq_from_ms dhq_limit].
  destruct (market_param_spec market) as [M _]. rewrite (M Hm ltac:(by eexists)).
  assert (exists row rows, stored_house (Some s) (trim market) (Some f) = row :: rows /\
    load_paper_house_history s (trim market) (Some f) PAPER_HOUSE_HISTORY_LIMIT = row :: rows) as (row & rows & Es & El).
  { unfold stored_house. destruct (load_paper_house_history _ _ _ _) as [|row rows]; [done|]. by exists row, rows. }
  unfold paper_house_history. rewrite Hp, Es.
  cbn [fst]. cbn [on_house_history p_house_history]. rewrite lookup_insert_eq. cbn [snd mbind AppResult_bind].
  eexists. split; [reflexivity|]. apply Forall_fmap, Forall_forall. intros t Ht. unfold compose. simpl.
  cbn [on_house_history p_house_history] in Ht. rewrite lookup_insert_eq in Ht. apply history_tail_elem in Ht. apply stored_since in El; [|done]. rewrite Forall_forall in El.
  apply list_elem_of_fmap in Ht as (r & -> & Hr). by apply El.
Qed.

End PaperRoutes.

(** ** Witnesses *)

Lemma paper_requests_checked_witness :
  is_answer (get_account (SD := DemoSdk) (Paper_new false) {| acq_market := " c9"; acq_address := "a4" |}) /\
  bad_request (get_house (SD := DemoSdk) (Paper_new false) "mkt").
Proof.
  pose (ask := fun market => paper_requests_checked (SD := DemoSdk) (AC := DemoAccountChain) None 0 5 (Paper_new false) market "a4"
    {| oiq_market := market; oiq_instrument := None; oiq_from_ms := None; oiq_limit := None |}
    {| dhq_market := market; dhq_from_ms := None; dhq_limit := None |} {| shq_market := market; shq_from_ms := None; shq_limit := None |}
    eq_refl eq_refl eq_refl).
  split.
  - destruct (ask " c9"%string) as (H & _). refine (proj1 (H _)). unfold well_formed.
    split_and!; [by apply (bool_decide_eq_false_1 (trim " c9" = "")%string)|by apply (bool_decide_eq_false_1 (trim "a4" = "")%string)| |];
      apply some_b_true; vm_compute; reflexivity.
  - destruct (ask "mkt"%string) as (_ & _ & _ & H). refine (proj1 (H _)). intros [_ [c Hc]]. apply (f_equal some_b) in Hc. vm_compute in Hc. discriminate Hc.
Defined.

Lemma account_views_agree_witness :
  exists a, get_account (SD := DemoSdk) demo_holding {| acq_market := "c9"; acq_address := "a4" |} = Ok a /\ av_equity_raw a = 43.
Proof.
  assert (match paper_user_state (AC := DemoAccountChain) demo_holding "a4" "c9" with
          | Some st => (av_available_raw (us_account st), av_queued_raw (us_account st), av_margin_in_use_raw (us_account st), av_equity_raw (us_account st))
          | None => (0, 0, 0, 0) end = (11, 2, 30, 43)) as Hst by (vm_compute; reflexivity).
  destruct (paper_user_state (AC := DemoAccountChain) demo_holding "a4" "c9") as [st|] eqn:E; [|discriminate Hst].
  injection Hst as H1 H2 H3 H4. exists (us_account st). split; [|exact H4].
  apply (account_views_agree (SD := DemoSdk) (AC := DemoAccountChain) demo_holding "a4" "c9" st); [vm_compute; reflexivity|vm_compute; reflexivity|exact E| | |];
    rewrite ?H1, ?H2, ?H3; repeat split; vm_compute; congruence.
Defined.

(** A block has marked one market; a query for another one takes its update. *)
Definition demo_marked : Paper := mark_paper_stake_dirty "c5" (Paper_new false).

Lemma stake_history_takes_updates_witness :
  let p1 := (get_stake_history (SD := DemoSdk) 7000 5 demo_marked {| shq_market := "c9"; shq_from_ms := None; shq_limit := None |}).1 in
  length (p_out (flush_paper_stake_history (S := DemoSdk) (C := account_paper_chain (H := DemoSdk)) 8000 5 true demo_marked)) = 1%nat /\
  p_out (flush_paper_stake_history (S := DemoSdk) (C := account_paper_chain (H := DemoSdk)) 8000 5 true p1) = [].
Proof.
  intros p1. split; [vm_compute; reflexivity|].
  assert (is_ok (get_stake_history (SD := DemoSdk) 7000 5 demo_marked {| shq_market := "c9"; shq_from_ms := None; shq_limit := None |}).2 = true) as Hok by (vm_compute; reflexivity).
  destruct (get_stake_history (SD := DemoSdk) 7000 5 demo_marked {| shq_market := "c9"; shq_from_ms := None; shq_limit := None |}) as [p' [r|e]] eqn:E; [|discriminate Hok].
  destruct (stake_history_takes_updates (SD := DemoSdk) (AC := DemoAccountChain) 7000 5 8000 5 demo_marked
    {| shq_market := "c9"; shq_from_ms := None; shq_limit := None |} (p', r) E) as (_ & Ho & Hf).
  unfold p1. cbn [fst] in *. rewrite Hf, Ho. reflexivity.
Defined.

Definition demo_house_rows : StateStore :=
  with_house (fun _ => list_to_map [(("c9"%string, 10), {| hr_funds := "4"; hr_lp_balance := 4; hr_open_house_pnl := 0; hr_queue_debt := 0 |});
                                    (("c9"%string, 20), {| hr_funds := "5"; hr_lp_balance := 5; hr_open_house_pnl := 0; hr_queue_debt := 0 |})]) StateStore_empty.

Lemma house_history_query_narrows_witness :
  let p1 := (get_house_history (SD := DemoSdk) (Some demo_house_rows) (Paper_new true)
    {| dhq_market := "c9"; dhq_from_ms := Some 15; dhq_limit := None |}).1 in
  exists ticks, (get_house_history (SD := DemoSdk) (Some demo_house_rows) p1 {| dhq_market := "c9"; dhq_from_ms := None; dhq_limit := None |}).2 =
    Ok {| hhr_market := "c9"; hhr_ticks := ticks |} /\ Forall (fun t => 15 <= hht_t t) ticks.
Proof.
  apply (house_history_query_narrows (SD := DemoSdk) demo_house_rows (Paper_new true) "c9" (demo_contract_of 9) 15 None);
    [by apply (bool_decide_eq_false_1 (trim "c9" = "")%string)|reflexivity|reflexivity|split; vm_compute; congruence|].
  intros E. apply (f_equal length) in E. vm_compute in E. discriminate E.
Defined.
