(* ===== verification/MarketRoutes.v ===== *)
(** * MarketRoutes: [http/routes/markets.rs] and [http/routes/spot.rs]

    The market catalogue, order books, trades, candles and oracle marks over
    HTTP.  A handler that asks the node first leaves the index changed: book
    queries rehydrate the book, a query by name registers the names the node
    tells. *)
From S2P Require Import Prelude Text Errors Sdk Keys Amounts Domain Calendar Bars Books BooksClient Orders Markets MarketsClient Rings Paper Store Hydrate StakeView Params.

Local Open Scope list_scope.
Local Open Scope Z_scope.

(** What the node says of a market; the price is the one hydration reads. *)
Record MarketInfo := {
  mi_name : string;
  mi_last_price : option Z;
  mi_state : string;
  mi_min_order_size : Z;
  mi_tick_size : Z;
  mi_maker_fee_bps : Z;
  mi_taker_fee_bps : Z;
  mi_allow_market_orders : bool
}.

Class InfoChain `{C : Chain} := {
  get_market_info : Address -> ContractAddress -> AppResult MarketInfo;
  get_market_info_price a c : mi_last_price <$> get_market_info a c = get_market_last_price a c
}.

(** ** Responses and parameters *)

Record MarketsPageResponse := { mpr_markets : list Market; mpr_total : nat; mpr_limit : Z; mpr_offset : Z }.
Record BalanceTokenSpec := { bts_symbol : string; bts_address : string }.
Record MarketInfoResponse := {
  mir_last_price : option string; mir_state : string; mir_min_order_size : string; mir_tick_size : string; mir_maker_fee_bps : Z;
  mir_taker_fee_bps : Z; mir_allow_market_orders : bool
}.
Record OracleMarkResponse := {
  omr_spot_market : string; omr_round : Z; omr_oracle_price : string; omr_mark_price : string; omr_oracle_price_raw : Z;
  omr_mark_price_raw : Z; omr_block_num : Z; omr_ts_ms : Z; omr_source : string
}.
Record OracleMarkHistoryTick := {
  omt_t : Z; omt_mark_price : string; omt_oracle_price : string; omt_mark_price_raw : Z; omt_oracle_price_raw : Z; omt_round : Z;
  omt_block_num : Z
}.
Record OracleMarkHistoryResponse := { omh_spot_market : string; omh_ticks : list OracleMarkHistoryTick }.
Record BarsQuery := { baq_interval : option string; baq_from : option Z; baq_to : option Z; baq_limit : option Z }.
Record OracleHistoryQuery := { ohq_from_ms : option Z; ohq_limit : option Z }.

(** The JSON object of the candle query. *)
Record BarsResponse := {
  brs_spot_market : string; brs_interval : string; brs_bars : list BarWsMessage; brs_forming : option BarWsMessage
}.

Section MarketRoutes.
Context {SD : Sdk} {R : RouteSdk} {C : Chain} {IC : InfoChain}.

(** ** [http/routes/markets.rs] *)

Definition query_markets_page (m : Markets) (params : QueryMarketsParams) : AppResult MarketsPageResponse :=
  query ← build_market_query params;
  let '(markets, total) := query_markets m query in
  Ok {| mpr_markets := markets; mpr_total := total; mpr_limit := mq_limit query; mpr_offset := mq_offset query |}.

Definition with_category (category : MarketCategory) (p : QueryMarketsParams) : QueryMarketsParams :=
  {| qp_limit := qp_limit p; qp_offset := qp_offset p; qp_slug := qp_slug p; qp_slugs := qp_slugs p; qp_market_ids := qp_market_ids p;
     qp_market_addresses := qp_market_addresses p; qp_state := qp_state p; qp_category := Some (MarketCategoryOps.as_str category);
     qp_deployer := qp_deployer p; qp_order := qp_order p; qp_ascending := qp_ascending p |}.

Definition query_markets_with_category (m : Markets) (params : QueryMarketsParams) (category : MarketCategory) : AppResult MarketsPageResponse :=
  query ← build_market_query (with_category category params);
  let '(markets, total) := query_markets m query in
  Ok {| mpr_markets := markets; mpr_total := total; mpr_limit := mq_limit query; mpr_offset := mq_offset query |}.

Definition query_spot_markets m params := query_markets_with_category m params CSpot.
Definition query_event_markets m params := query_markets_with_category m params CEvent.
Definition query_perp_markets m params := query_markets_with_category m params CPerp.

Definition get_market_by_slug (m : Markets) (slug : string) : AppResult Market :=
  ok_or (NotFound ("market " +:+ slug +:+ " not found")%string) (get_event_by_slug m slug).

Definition position_token_specs_route (m : Markets) : list BalanceTokenSpec :=
  (fun s => {| bts_symbol := s.1; bts_address := s.2 |}) <$> position_token_specs m.

(** The loop over the node's sequential markets: it ends at the first market the
    node does not know, or at the name asked for. *)
Fixpoint discover (account : Address) (want : string) (indices : list Z) (m : Markets) : Markets * option string :=
  match indices with
  | [] => (m, None)
  | index :: indices =>
      match market_contract index with
      | None => (m, None)
      | Some spot =>
          let spot_key := normalize_spot_market_key (contract_to_string spot) in
          match get_market_info account spot with
          | Err _ => (m, None)
          | Ok info =>
              let m := register_named_spot_market m (mi_name info) spot_key "" in
              if decide (to_ascii_uppercase (mi_name info) = want) then (m, Some spot_key) else discover account want indices m
          end
      end
  end.

Definition resolve_spot_for_name (m : Markets) (query_account name : string) : Markets * AppResult string :=
  match resolve_spot_market_key m name with
  | Some spot => (m, Ok spot)
  | None =>
      let want := to_ascii_uppercase (trim name) in
      if decide (want = "")%string then (m, Err (BadRequest "name is required"))
      else
        let '(m, found) := discover (parse_query_account query_account) want (seqZ 1 64) m in
        (m, ok_or (NotFound ("spot market '" +:+ name +:+ "' not found; create the market then retry")%string) found)
  end.

(** ** [http/routes/spot.rs] *)

(** [query.depth.unwrap_or(10).clamp(1, DEFAULT_BOOK_DEPTH)]. *)
Definition book_depth (raw : option Z) : Z := limit_or 10 DEFAULT_BOOK_DEPTH raw.

(** A failed rehydration is logged; the book in memory is served. *)
Definition serve_book (i : Index) (query_account spot_market : string) (depth : Z) : Index * AppResult BookSnapshot :=
  let i := match rehydrate_spot_from_chain i query_account spot_market depth None with Ok (i', _) => i' | Err _ => i end in
  (i, ok_or (NotFound ("order book for " +:+ spot_market +:+ " not found")%string) (snapshot (ix_books i) spot_market (Z.to_nat depth))).

Definition get_book_route (i : Index) (query_account spot_market : string) (depth : option Z) : Index * AppResult BookSnapshot :=
  serve_book i query_account spot_market (book_depth depth).

Definition get_book_by_name (i : Index) (query_account name : string) (depth : option Z) : Index * AppResult BookSnapshot :=
  let '(m, r) := resolve_spot_for_name (ix_markets i) query_account name in
  let i := set_markets m i in
  match r with
  | Err e => (i, Err e)
  | Ok spot_market => serve_book i query_account spot_market (book_depth depth)
  end.

Definition get_trades_by_name (i : Index) (query_account name : string) : Index * AppResult (list RecentTrade) :=
  let '(m, r) := resolve_spot_for_name (ix_markets i) query_account name in
  let i := set_markets m i in
  (i, spot_market ← r; Ok (recent_trades (ix_books i) spot_market)).

Definition parse_account (account : string) : AppResult Address :=
  ok_or (BadRequest ("invalid account: " +:+ address_error (trim account))%string) (address_from_str (trim account)).

Definition parse_spot_market (spot_market : string) : AppResult ContractAddress := parse_contract "invalid spot market: " spot_market.

Definition get_market_info_route (spot_market account : string) : AppResult MarketInfoResponse :=
  account ← parse_account account;
  spot_market ← parse_spot_market spot_market;
  info ← get_market_info account spot_market;
  Ok {| mir_last_price := format_price_pieces <$> mi_last_price info; mir_state := mi_state info;
        mir_min_order_size := format_token_amount (mi_min_order_size info); mir_tick_size := format_token_amount (mi_tick_size info);
        mir_maker_fee_bps := mi_maker_fee_bps info; mir_taker_fee_bps := mi_taker_fee_bps info;
        mir_allow_market_orders := mi_allow_market_orders info |}.

Definition get_oracle_mark (p : Paper) (spot_market : string) : AppResult OracleMarkResponse :=
  mark ← ok_or (NotFound ("oracle mark for " +:+ spot_market +:+ " not found")%string) (oracle_mark p spot_market);
  Ok {| omr_spot_market := om_spot_market mark; omr_round := om_round mark; omr_oracle_price := format_oracle_human (om_oracle_price mark);
        omr_mark_price := format_oracle_human (om_mark_price mark); omr_oracle_price_raw := om_oracle_price mark;
        omr_mark_price_raw := om_mark_price mark; omr_block_num := om_block_num mark; omr_ts_ms := om_ts_ms mark;
        omr_source := "oracle_committed" |}.

Definition get_oracle_history (p : Paper) (spot_market : string) (query : OracleHistoryQuery) : OracleMarkHistoryResponse :=
  let limit := limit_or 600 3600 (ohq_limit query) in
  let ticks := oracle_mark_history p spot_market (ohq_from_ms query) (Z.to_nat limit) in
  {| omh_spot_market := normalize_spot_market_key spot_market;
     omh_ticks := (fun t => {| omt_t := ot_ts_ms t; omt_mark_price := format_oracle_human (ot_mark_price t);
                               omt_oracle_price := format_oracle_human (ot_oracle_price t); omt_mark_price_raw := ot_mark_price t;
                               omt_oracle_price_raw := ot_oracle_price t; omt_round := ot_round t; omt_block_num := ot_block_num t |}) <$> ticks |}.

(** The store answers the candle query unless the index keeps none. *)
Definition get_bars (store : StateStore) (b : Bars.Bars) (spot_market : string) (query : BarsQuery) : AppResult BarsResponse :=
  let interval := default INTERVAL_1M (baq_interval query) in
  if negb (is_supported_interval interval)
  then Err (BadRequest ("unsupported interval `" +:+ interval +:+ "`; use " +:+ String.concat "|" BAR_INTERVALS)%string)
  else
    let limit := limit_or 500 (Z.of_nat BAR_HISTORY_LIMIT) (baq_limit query) in
    let bars := load_history (fun s i from to n => Ok (load_closed_bars store s i from to n)) b spot_market interval
                  (baq_from query) (baq_to query) (Z.to_nat limit) in
    Ok {| brs_spot_market := normalize_spot_market_key spot_market; brs_interval := interval;
          brs_bars := (fun x => to_ws_message x "bar_closed") <$> bars;
          brs_forming := (fun x => to_ws_message x "bar") <$> forming_interval b spot_market interval |}.

End MarketRoutes.

(** ** Names *)

Lemma ws_upper_fixed : forallb (fun b => bool_decide (upper_byte b = b)) (concat ws_seqs) = true.
Proof. vm_compute. reflexivity. Qed.

Lemma ws_upper w : w ∈ ws_seqs \/ w ∈ reverse <$> ws_seqs -> upper_byte <$> w = w.
Proof.
  intros Hw. apply list_eq_same_length with (length w); [done|by rewrite length_fmap|]. intros i x y _ Hx Hy.
  rewrite list_lookup_fmap, Hy in Hx. injection Hx as <-. pose proof ws_upper_fixed as HF. rewrite forallb_forall in HF.
  specialize (HF y). apply bool_decide_eq_true in HF; [done|]. apply in_concat. apply list_elem_of_lookup_2 in Hy.
  destruct Hw as [Hw|(w' & -> & Hw)%list_elem_of_fmap].
  - exists w. by rewrite <- !list_elem_of_In.
  - exists w'. rewrite <- !list_elem_of_In. split; [done|]. by apply elem_of_reverse.
Qed.

Lemma strip_one_upper seqs l :
  (forall w, w ∈ seqs -> upper_byte <$> w = w) -> strip_one seqs (upper_byte <$> l) = None -> strip_one seqs l = None.
Proof.
  rewrite !strip_one_None. intros Hf H w r Hw ->. apply (H w (upper_byte <$> r) Hw). by rewrite fmap_app, Hf.
Qed.

(** White space has no letters: what is trimmed in upper case is trimmed. *)
Lemma upper_trimmed x : trim (to_ascii_uppercase x) = to_ascii_uppercase x -> trim x = x.
Proof.
  intros E. unfold trim in *. apply (f_equal chars) in E. rewrite chars_text in E. unfold to_ascii_uppercase in E. rewrite chars_text in E.
  destruct (trim_l_stuck (upper_byte <$> chars x)) as [H1 H2]. rewrite E in H1, H2. rewrite trim_l_id; [apply text_chars| |].
  - apply strip_one_upper; [|done]. intros w Hw. apply ws_upper. by left.
  - apply strip_one_upper; [|by rewrite fmap_reverse]. intros w Hw. apply ws_upper. by right.
Qed.

Section Facts.
Context {SD : Sdk} {L : SdkLaws} {R : RouteSdk} {C : Chain} {IC : InfoChain}.

(** What the node calls its n-th market. *)
Definition named_on_chain (account : Address) (n : Z) (name : string) (spot : string) : Prop :=
  exists c info, market_contract n = Some c /\ get_market_info account c = Ok info /\
    to_ascii_uppercase (mi_name info) = name /\ spot = normalize_spot_market_key (contract_to_string c).

Lemma discover_spec account want indices m :
  match discover account want indices m with
  | (m', Some spot) => exists k n name m0, indices !! k = Some n /\ named_on_chain account n want spot /\
      (forall j i, (j < k)%nat -> indices !! j = Some i -> exists other s, other <> want /\ named_on_chain account i other s) /\
      to_ascii_uppercase name = want /\ m' = register_named_spot_market m0 name spot ""
  | (_, None) => True
  end.
Proof.
  revert m. induction indices as [|n indices IH]; intros m; simpl; [done|].
  destruct (market_contract n) as [c|] eqn:Ec; [|done]. destruct (get_market_info account c) as [info|] eqn:Ei; [|done].
  case_decide as En.
  - exists O, n, (mi_name info), m. split; [done|]. split; [by exists c, info|]. split; [lia|done].
  - specialize (IH (register_named_spot_market m (mi_name info) (normalize_spot_market_key (contract_to_string c)) "")).
    destruct (discover account want indices _) as [m' [spot|]]; [|done]. destruct IH as (k & n' & name & m0 & H1 & H2 & H3 & H4).
    exists (S k), n', name, m0. split; [done|]. split; [done|]. split; [|done].
    intros [|j] i Hj Hi; [|apply (H3 j i); [lia|done]]. simpl in Hi. injection Hi as <-. eexists _, _. split; [exact En|]. by exists c, info.
Qed.

Lemma register_finds m name spot d key :
  to_ascii_uppercase name = to_ascii_uppercase (trim key) -> to_ascii_uppercase (trim key) <> ""%string ->
  normalize_spot_market_key spot = spot -> spot <> ""%string ->
  String.prefix "0x" (trim key) || String.prefix "0X" (trim key) = false ->
  resolve_spot_market_key (register_named_spot_market m name spot d) key = Some spot.
Proof.
  intros Hn Hk Hs Hne Hm.
  assert (trim name = name) as Ht by (apply upper_trimmed; rewrite Hn; apply trim_upper).
  unfold resolve_spot_market_key. rewrite Hm. case_decide as Hb; [by rewrite Hb in Hk|].
  unfold register_named_spot_market. rewrite Hs, Ht, Hn. rewrite decide_False by (by intros []).
  assert (forall m', m_by_name m' = <[to_ascii_uppercase (trim key) := spot]> (m_by_name m) -> m_by_name m' !! to_ascii_uppercase (trim key) = Some spot) as H
    by (intros m' ->; apply lookup_insert_eq).
  destruct (leg_of_other _ _); [by apply H|]. apply H. destruct (m_spot _ !! spot); simpl; by destruct (m_markets m !! _).
Qed.

Lemma normalize_contract_key c : normalize_spot_market_key (contract_to_string c) = contract_to_string c.
Proof. unfold normalize_spot_market_key. by autorewrite with clob_rw. Qed.

(** A market asked for by name is found in the index, or is the first of
    the node's first sixty-four markets with that name, whatever the case; and
    once it was found it is found again at once, without asking the node. What
    is not found is answered with 404, a blank name with 400. *)
Theorem name_resolution m query name :
  match resolve_spot_for_name m query name with
  | (m', Ok spot) =>
      (resolve_spot_market_key m name = Some spot /\ m' = m \/
       exists n, 1 <= n <= 64 /\ named_on_chain (parse_query_account query) n (to_ascii_uppercase (trim name)) spot /\
         forall i, 1 <= i < n -> exists other s, other <> to_ascii_uppercase (trim name) /\ named_on_chain (parse_query_account query) i other s) /\
      resolve_spot_market_key m' name = Some spot /\ resolve_spot_for_name m' query name = (m', Ok spot)
  | (m', Err e) => if decide (trim name = "")%string then m' = m /\ (into_response e).1 = 400 else (into_response e).1 = 404
  end.
Proof.
  unfold resolve_spot_for_name at 1. destruct (resolve_spot_market_key m name) as [spot|] eqn:El.
  { split; [by left|]. split; [done|]. unfold resolve_spot_for_name. by rewrite El. }
  case_decide as Hb.
  { apply to_ascii_uppercase_empty in Hb. rewrite decide_True by done. done. }
  assert (trim name <> ""%string) as Hb' by (intros E; by rewrite E in Hb).
  pose proof (discover_spec (parse_query_account query) (to_ascii_uppercase (trim name)) (seqZ 1 64) m) as HD.
  destruct (discover _ _ _ _) as [m' [spot|]]; cbn [ok_or]; [|by rewrite decide_False].
  destruct HD as (k & n & nm & m0 & Hk & Hn & Hbefore & Hnm & ->). apply lookup_seqZ in Hk as [-> Hk].
  assert (resolve_spot_market_key (register_named_spot_market m0 nm spot "") name = Some spot) as Hfound.
  { destruct Hn as (c & info & _ & _ & _ & ->). rewrite normalize_contract_key.
    apply register_finds; try done; [apply normalize_contract_key|apply contract_to_string_nonempty|].
    unfold resolve_spot_market_key in El. rewrite decide_False in El by done.
    by destruct (String.prefix "0x" (trim name) || String.prefix "0X" (trim name)). }
  split; [|split; [exact Hfound|]].
  - right. exists (1 + Z.of_nat k). split; [lia|]. split; [done|]. intros i Hi. apply (Hbefore (Z.to_nat (i - 1)) i); [lia|].
    apply lookup_seqZ. lia.
  - unfold resolve_spot_for_name. by rewrite Hfound.
Qed.

(** ** Pages *)

Lemma market_page_sound m q x : x ∈ (query_markets m q).1 -> market_matches q x = true /\ exists id, m_markets m !! id = Some x.
Proof.
  unfold query_markets. simpl. intros Hx%page_elem.
  apply (elem_of_Permutation_proper x _ _ (merge_sort_Permutation _ _)), list_elem_of_filter in Hx as [Hm Hx]. split; [done|].
  apply list_elem_of_fmap in Hx as ([id y] & -> & Hy). exists id. by apply elem_of_map_to_list.
Qed.

(** A page of one category holds only markets of that category that are in
    the index and match the other filters, at most a hundred and never more
    than asked for, with the count of all matches; a [category] parameter of
    the request itself is overridden, so it cannot make the request fail. *)
Theorem category_pages m params category :
  match query_markets_with_category m params category with
  | Ok r =>
      Forall (fun x => MarketOps.category x = category /\ exists id, m_markets m !! id = Some x) (mpr_markets r) /\
      1 <= mpr_limit r <= MAX_MARKETS_PAGE_LIMIT /\ Z.of_nat (length (mpr_markets r)) <= mpr_limit r /\
      (length (mpr_markets r) <= mpr_total r)%nat
  | Err e => (into_response e).1 = 400
  end /\
  forall other, query_markets_with_category m (with_category other params) category = query_markets_with_category m params category.
Proof.
  split; [|done]. unfold query_markets_with_category.
  destruct (build_market_query (with_category category params)) as [q|e] eqn:E; cbn [mbind AppResult_bind].
  - assert (mq_category q = Some category /\ 1 <= mq_limit q <= MAX_MARKETS_PAGE_LIMIT) as [Ec El].
    { unfold build_market_query in E. repeat (case_decide; [done|]). unfold parse_category in E. cbn [qp_category with_category] in E.
      rewrite MarketCategoryOps.parse_as_str in E. cbn [mbind AppResult_bind] in E. destruct (parse_uuid_csv _) as [ids|]; [|done].
      cbn [mbind AppResult_bind] in E. injection E as <-. simpl. split; [done|]. unfold MAX_MARKETS_PAGE_LIMIT. mach. }
    destruct (query_markets m q) as [markets total] eqn:Eq. cbn [mpr_markets mpr_limit mpr_total].
    split_and!; [|lia|lia| |].
    + apply Forall_forall. intros x Hx. assert (x ∈ (query_markets m q).1) as H by (by rewrite Eq).
      apply market_page_sound in H as [Hm Hid]. split; [|done]. unfold market_matches in Hm. rewrite Ec in Hm.
      apply andb_true_iff in Hm as [Hm _]. apply andb_true_iff in Hm as [_ Hm]. by apply bool_decide_eq_true in Hm.
    + unfold query_markets in Eq. injection Eq as <- _. pose proof (page_length (mq_offset q) (mq_limit q)
        (merge_sort (le_of (market_sort_cmp q)) (filter (fun m => market_matches q m = true) (map_to_list (m_markets m)).*2))). lia.
    + unfold query_markets in Eq. injection Eq as <- <-. unfold page. rewrite length_take, length_drop. lia.
  - unfold build_market_query in E. repeat (case_decide; [by injection E as <-|]). unfold parse_category in E. cbn [qp_category with_category] in E.
    rewrite MarketCategoryOps.parse_as_str in E. cbn [mbind AppResult_bind] in E. pose proof (parse_uuid_csv_spec (qp_market_ids (with_category category params))) as HU.
    destruct (parse_uuid_csv _) as [ids|]; [done|]. injection E as <-. by destruct HU as [msg ->].
Qed.

(** ** Books *)

(** A book query answers the best levels of each side, best first, as many
    as asked for within the bounds 1 and 20, of the book the node last told if
    it answers at all; it is 404 only when the node refused and no book is in
    memory. *)
Theorem book_served i query spot depth :
  let '(i', r) := get_book_route i query spot depth in
  let d := Z.to_nat (book_depth depth) in
  (1 <= d <= 20)%nat /\
  match r with
  | Ok snap => exists sh, try_shard (ix_books i') spot = Some sh /\ snap_sequence snap = sequence (ms_book sh) /\
      side_view (fun p q => q < p) (bids (ms_book sh)) d (snap_bids snap) /\ side_view (fun p q => p < q) (asks (ms_book sh)) d (snap_asks snap)
  | Err e => (into_response e).1 = 404 /\ i' = i /\ try_shard (ix_books i) spot = None
  end /\
  match rehydrate_spot_from_chain i query spot (book_depth depth) None with
  | Ok (i1, _) => i' = i1 /\ is_ok r = true
  | Err _ => i' = i
  end.
Proof.
  unfold get_book_route, serve_book.
  assert (1 <= book_depth depth <= 20) as Hd by (apply limit_or_range; unfold DEFAULT_BOOK_DEPTH; lia).
  set (i1 := match rehydrate_spot_from_chain _ _ _ _ _ with Ok (i', _) => i' | Err _ => i end). cbn [fst snd].
  split; [lia|].
  assert (forall i0 w, rehydrate_spot_from_chain i query spot (book_depth depth) None = Ok (i0, w) -> is_Some (try_shard (ix_books i0) spot)) as Hs.
  { intros i0 w E. unfold rehydrate_spot_from_chain in E. apply hydrate_spot_Ok in E as (cb & price & -> & _).
    pose proof (hydrate_marks (ix_books i) spot cb price None) as Hm. unfold is_chain_hydrated in Hm. simpl.
    destruct (try_shard _ _); [by eexists|done]. }
  split.
  - destruct (snapshot (ix_books i1) spot _) as [snap|] eqn:E; cbn [ok_or].
    + by apply snapshot_best_levels.
    + split; [done|]. unfold snapshot in E. unfold i1 in *. destruct (rehydrate_spot_from_chain _ _ _ _ _) as [[i0 w]|e].
      * destruct (Hs i0 w eq_refl) as [sh Hsh]. by rewrite Hsh in E.
      * split; [done|]. by destruct (try_shard (ix_books i) spot).
  - unfold i1. destruct (rehydrate_spot_from_chain _ _ _ _ _) as [[i0 w]|e]; [|done]. split; [done|].
    destruct (Hs i0 w eq_refl) as [sh Hsh]. unfold snapshot. by rewrite Hsh.
Qed.

End Facts.

(** ** Witness: a node that names two markets *)

#[export] Instance DemoInfoChain : InfoChain (C := DemoChain).
Proof.
  refine (Build_InfoChain DemoSdk DemoChain (fun _ c =>
    Ok {| mi_name := (if decide (contract_to_string (Sdk := DemoSdk) c = "c1") then "Wbtc" else "weth")%string; mi_last_price := Some 5;
          mi_state := "Active"; mi_min_order_size := 1; mi_tick_size := 1; mi_maker_fee_bps := 0; mi_taker_fee_bps := 0;
          mi_allow_market_orders := true |}) _).
  reflexivity.
Defined.

Lemma name_resolution_witness :
  let '(m', r) := resolve_spot_for_name (SD := DemoSdk) (IC := DemoInfoChain) Markets_new "a1" " WETH" in
  r = Ok "c2"%string /\ resolve_spot_for_name (SD := DemoSdk) (IC := DemoInfoChain) m' "a1" " WETH" = (m', Ok "c2"%string).
Proof.
  pose proof (name_resolution (SD := DemoSdk) (IC := DemoInfoChain) Markets_new "a1" " WETH") as H.
  assert ((resolve_spot_for_name (SD := DemoSdk) (IC := DemoInfoChain) Markets_new "a1" " WETH").2 = Ok "c2"%string) as Hr by (vm_compute; reflexivity).
  destruct (resolve_spot_for_name (SD := DemoSdk) (IC := DemoInfoChain) Markets_new "a1" " WETH") as [m' r]. cbn [snd] in Hr. subst r.
  destruct H as (_ & _ & H). split; [reflexivity|exact H].
Defined.
