(* ===== verification/AccountRoutes.v ===== *)
(** * AccountRoutes: vaults, balances, transactions and readiness over HTTP

    [http/routes/vaults.rs] with [http/process/vaults.rs], [accounts.rs],
    [tx.rs] and [health.rs].  What the node, the submit queue and the process
    environment answer are arguments. *)
From S2P Require Import Prelude Text Errors Sdk Amounts Domain Orders Markets MarketsClient Vaults VaultsFacts Submit SubmitFacts Peer Hydrate StakeView Params Enrich MarketRoutes.

Local Open Scope list_scope.
Local Open Scope Z_scope.

(** ** Vaults *)

Record QueryVaultsParams := {
  vqp_limit : option Z; vqp_offset : option Z; vqp_manager : option string; vqp_vault_addresses : option string; vqp_account : option string
}.

Record VaultsPageResponse := { vpr_vaults : list Vault; vpr_total : nat; vpr_limit : Z; vpr_offset : Z }.

(** Its own copy of the function in [process/markets.rs]. *)
Definition parse_vault_csv (value : option string) : list string := parse_csv value.

Definition build_vault_query (params : QueryVaultsParams) : AppResult VaultQuery :=
  let vault_addresses := parse_vault_csv (vqp_vault_addresses params) in
  if decide (MAX_VAULTS_PAGE_LIMIT < Z.of_nat (length vault_addresses))
  then Err (BadRequest ("vault_addresses accepts at most " +:+ dec MAX_VAULTS_PAGE_LIMIT +:+ " values")%string)
  else Ok {| vq_limit := limit_or DEFAULT_VAULTS_PAGE_LIMIT MAX_VAULTS_PAGE_LIMIT (vqp_limit params);
             vq_offset := default 0 (vqp_offset params); vq_manager := trimmed_filter (vqp_manager params);
             vq_vault_addresses := vault_addresses |}.

Section VaultRoutes.
Context {SD : Sdk} {R : RouteSdk} {C : Chain} {AC : AccountChain}.

Definition query_vaults_route (i : Index) (query_account : string) (params : QueryVaultsParams) : AppResult VaultsPageResponse :=
  let account := trimmed_filter (vqp_account params) in
  query ← build_vault_query params;
  let '(vaults, total) := query_vaults (ix_vaults i) query in
  Ok {| vpr_vaults := enrich_vaults_for_account i query_account vaults account; vpr_total := total; vpr_limit := vq_limit query;
        vpr_offset := vq_offset query |}.

Definition get_vault_by_address_route (i : Index) (query_account address : string) (account : option string) : AppResult Vault :=
  vault ← ok_or (NotFound ("vault " +:+ address +:+ " not found")%string) (get_vault_by_address (ix_vaults i) address);
  Ok (enrich_vault_for_account i query_account vault (trimmed_filter account)).

(** ** Balances *)

Record BalanceEntry := { be_token : string; be_symbol : string; be_total : string; be_locked : string; be_available : string }.

Definition is_position_symbol (symbol : string) : bool := bool_decide (symbol = "YES")%string || bool_decide (symbol = "NO")%string.

Definition zero_balance_entry (symbol token : string) : BalanceEntry :=
  {| be_token := token; be_symbol := symbol; be_total := "0"; be_locked := "0"; be_available := "0" |}.

(** One turn of the loop: a position token without a balance is left out. *)
Definition balance_step (account : Address) (entries : list BalanceEntry) (spec : BalanceTokenSpec) : list BalanceEntry :=
  let is_position := is_position_symbol (bts_symbol spec) in
  let missing := if is_position then entries else entries ++ [zero_balance_entry (bts_symbol spec) (bts_address spec)] in
  match parse_token_contract (bts_address spec) with
  | None => missing
  | Some token_contract =>
      match get_balance account token_contract with
      | Ok balance =>
          if is_position && bool_decide (tb_total balance = 0) && bool_decide (tb_locked balance = 0) then entries
          else entries ++ [{| be_token := bts_address spec; be_symbol := bts_symbol spec; be_total := format_token_amount (tb_total balance);
                              be_locked := format_token_amount (tb_locked balance); be_available := format_token_amount (tb_available balance) |}]
      | Err _ => missing
      end
  end.

Definition get_balances (address : string) (tokens : list BalanceTokenSpec) : AppResult (list BalanceEntry) :=
  account ← ok_or (BadRequest ("invalid address: " +:+ address_error (trim address))%string) (address_from_str (trim address));
  Ok (foldl (balance_step account) [] tokens).

End VaultRoutes.

(** ** Transactions *)

Section TxRoutes.
Context {Receipt : Type} (is_success : Receipt -> bool) (status_text : Receipt -> string).

Record SubmitTxResponse := { str_digest : string; str_block_num : Z; str_receipt : Receipt }.

(** What the queue answered, as the handler answers it. *)
Definition submit_transaction (answer : AppResult (SubmitTransactionResponse Receipt)) : AppResult SubmitTxResponse :=
  response ← answer;
  if negb (is_success (sr_receipt response)) then Err (Internal ("transaction failed: " +:+ status_text (sr_receipt response))%string)
  else Ok {| str_digest := sr_digest response; str_block_num := sr_block_num response; str_receipt := sr_receipt response |}.

(** Without waiting: the digest, once the mempool has the transaction. *)
Definition inject_transaction (digest : string) (answer : AppResult unit) : AppResult string := _ ← answer; Ok digest.

End TxRoutes.

(** ** Readiness *)

Record ReadyResponse := {
  rr_status : string; rr_node : bool; rr_head : IndexedBlockHead; rr_market_count : nat; rr_vault_count : nat; rr_idle_ms : Z;
  rr_persist_pending : Z; rr_apply_busy : bool; rr_persist_busy : bool; rr_busy : bool
}.

Definition market_count (m : Markets) : nat := size (m_markets m).

Definition ready (now_ms : Z) (i : Index) (head : IndexedBlockHead) (persist : option Z) (health_check : AppResult bool) : AppResult ReadyResponse :=
  node_ok ← health_check;
  let persist_pending := default 0 persist in
  let idle_ms := if decide (hd_last_indexed_at_ms head = 0) then 0 else sat_sub now_ms (hd_last_indexed_at_ms head) in
  let apply_busy := hd_catching_up head || (bool_decide (0 < hd_last_indexed_at_ms head) && bool_decide (idle_ms < 1000)) in
  let persist_busy := bool_decide (0 < persist_pending) in
  let busy := apply_busy || persist_busy in
  Ok {| rr_status := if node_ok && negb (hd_catching_up head) && negb busy then "ready" else "degraded";
        rr_node := node_ok; rr_head := head; rr_market_count := market_count (ix_markets i); rr_vault_count := vault_count (ix_vaults i);
        rr_idle_ms := idle_ms; rr_persist_pending := persist_pending; rr_apply_busy := apply_busy; rr_persist_busy := persist_busy;
        rr_busy := busy |}.

(** ** Properties *)

Section Facts.
Context {SD : Sdk} {L : SdkLaws} {R : RouteSdk} {C : Chain} {AC : AccountChain}.

(** The entry of a token, if it has one. *)
Definition balance_entry (account : Address) (spec : BalanceTokenSpec) : option BalanceEntry :=
  match c ← parse_token_contract (bts_address spec); ok (get_balance account c) with
  | Some b =>
      if is_position_symbol (bts_symbol spec) && bool_decide (tb_total b = 0) && bool_decide (tb_locked b = 0) then None
      else Some {| be_token := bts_address spec; be_symbol := bts_symbol spec; be_total := format_token_amount (tb_total b);
                   be_locked := format_token_amount (tb_locked b); be_available := format_token_amount (tb_available b) |}
  | None => if is_position_symbol (bts_symbol spec) then None else Some (zero_balance_entry (bts_symbol spec) (bts_address spec))
  end.

Lemma balance_step_entry account entries spec :
  balance_step account entries spec = entries ++ option_list (balance_entry account spec).
Proof.
  unfold balance_step, balance_entry. destruct (parse_token_contract _) as [c|]; simpl.
  - destruct (get_balance account c) as [b|e]; simpl.
    + destruct (is_position_symbol _ && _ && _); simpl; by rewrite ?app_nil_r.
    + destruct (is_position_symbol _); simpl; by rewrite ?app_nil_r.
  - destruct (is_position_symbol _); simpl; by rewrite ?app_nil_r.
Qed.

Lemma balance_fold account tokens entries :
  foldl (balance_step account) entries tokens = entries ++ omap (balance_entry account) tokens.
Proof.
  revert entries. induction tokens as [|spec tokens IH]; intros entries; simpl; [by rewrite app_nil_r|].
  rewrite balance_step_entry, IH, <- app_assoc. f_equal. by destruct (balance_entry account spec).
Qed.

(** The balances answered are, in the order asked, one entry for every
    token that is not a position, and for the positions that are held: an entry
    names its token and reads back to exactly what the node holds, zero when
    the token is unknown to the node or it refuses; only a bad account is
    refused. *)
Theorem balances_exact address tokens :
  match address_from_str (trim address) with
  | None => bad_request (get_balances address tokens)
  | Some account =>
      get_balances address tokens = Ok (omap (balance_entry account) tokens) /\
      Forall (fun spec => is_position_symbol (bts_symbol spec) = false -> is_Some (balance_entry account spec)) tokens /\
      forall spec e, balance_entry account spec = Some e ->
        be_token e = bts_address spec /\ be_symbol e = bts_symbol spec /\
        let b := default {| tb_total := 0; tb_locked := 0; tb_available := 0 |} (c ← parse_token_contract (bts_address spec); ok (get_balance account c)) in
        is_u64 (tb_total b) -> is_u64 (tb_locked b) -> is_u64 (tb_available b) ->
        denotes (be_total e) (tb_total b) TOKEN_SCALE /\ denotes (be_locked e) (tb_locked b) TOKEN_SCALE /\
        denotes (be_available e) (tb_available b) TOKEN_SCALE
  end.
Proof.
  unfold get_balances. destruct (address_from_str (trim address)) as [account|]; [|done]. cbn [ok_or mbind AppResult_bind].
  rewrite balance_fold. split; [done|]. split.
  - apply Forall_true. intros spec Hp. unfold balance_entry. rewrite Hp. simpl. destruct (c ← _; _); by eexists.
  - intros spec e He. unfold balance_entry in He. destruct (c ← parse_token_contract _; _) as [b|]; simpl in *.
    + destruct (is_position_symbol _ && _ && _); [done|]. injection He as <-. simpl. split; [done|]. split; [done|].
      intros. split_and!; by apply format_token_amount_denotes.
    + destruct (is_position_symbol _); [done|]. injection He as <-. simpl. split; [done|]. split; [done|]. intros _ _ _.
      assert (denotes "0" 0 TOKEN_SCALE) as H0 by (exists 0, O; by vm_compute). done.
Qed.

(** The service is ready exactly when the node is, no catch-up runs, the
    last block was applied at least a second ago and nothing waits to be
    written; a node that cannot be asked is an error, not an answer. *)
Theorem ready_means_idle now_ms i head persist health r :
  0 <= hd_last_indexed_at_ms head -> 0 <= default 0 persist ->
  ready now_ms i head persist health = Ok r ->
  rr_status r = "ready"%string <->
  health = Ok true /\ hd_catching_up head = false /\ (hd_last_indexed_at_ms head = 0 \/ hd_last_indexed_at_ms head + 1000 <= now_ms) /\
  default 0 persist = 0.
Proof.
  intros Hh Hp. unfold ready. destruct health as [node|e]; [|done]. cbn [mbind AppResult_bind]. intros [= <-]. cbn [rr_status].
  destruct node, (hd_catching_up head); cbn [negb andb orb]; try (split; [done|by intros (? & ? & _)]).
  destruct (decide (hd_last_indexed_at_ms head = 0)) as [E|E].
  - rewrite (bool_decide_eq_false_2 (0 < hd_last_indexed_at_ms head)) by lia. cbn [andb orb negb].
    case_bool_decide; cbn [negb]; split; try done; try lia. intros _. split_and!; [done|done|by left|lia].
  - rewrite (bool_decide_eq_true_2 (0 < hd_last_indexed_at_ms head)) by lia. cbn [andb].
    repeat case_bool_decide; cbn [negb orb]; split; try done; try (intros; mach). intros _. split_and!; [done|done|right; mach|lia].
Qed.

(** A vault page answers accepted parameters only, with a limit between 1
    and 100 and at most that many vaults, each one of the index with its view
    filled in, matching the filters of the query. *)
Theorem vault_pages i query_account params :
  match query_vaults_route i query_account params with
  | Ok r =>
      1 <= vpr_limit r <= MAX_VAULTS_PAGE_LIMIT /\ Z.of_nat (length (vpr_vaults r)) <= vpr_limit r /\
      exists q, build_vault_query params = Ok q /\
      Forall (fun v => exists id w, v_vaults (ix_vaults i) !! id = Some w /\ vault_matches q w = true /\
        v = enrich_vault_for_account i query_account w (trimmed_filter (vqp_account params))) (vpr_vaults r)
  | Err e => (into_response e).1 = 400
  end.
Proof.
  unfold query_vaults_route. destruct (build_vault_query params) as [q|e] eqn:E.
  2:{ unfold build_vault_query in E. case_decide; [|done]. by injection E as <-. }
  cbn [mbind AppResult_bind]. destruct (query_vaults (ix_vaults i) q) as [vaults total] eqn:Eq. cbn [vpr_limit vpr_vaults].
  assert (1 <= vq_limit q <= MAX_VAULTS_PAGE_LIMIT) as Hl.
  { unfold build_vault_query in E. case_decide; [done|]. injection E as <-. apply limit_or_range. unfold MAX_VAULTS_PAGE_LIMIT. lia. }
  assert (forall vs acc, foldl (fun enriched vault => enriched ++ [enrich_vault_for_account i query_account vault (trimmed_filter (vqp_account params))]) acc vs =
    acc ++ ((fun v => enrich_vault_for_account i query_account v (trimmed_filter (vqp_account params))) <$> vs)) as HF.
  { induction vs as [|v vs IH]; intros acc; simpl; [by rewrite app_nil_r|]. by rewrite IH, <- app_assoc. }
  unfold enrich_vaults_for_account. rewrite HF, app_nil_l, length_fmap. split; [done|]. unfold query_vaults in Eq. injection Eq as <- _. split.
  - pose proof (page_length (vq_offset q) (vq_limit q) (merge_sort (le_of vault_cmp)
      (filter (fun v => vault_matches q v = true) (map_to_list (v_vaults (ix_vaults i))).*2))). lia.
  - exists q. split; [done|]. apply Forall_fmap, Forall_forall. intros v Hv%page_elem. unfold compose.
    apply (elem_of_Permutation_proper v _ _ (merge_sort_Permutation _ _)), list_elem_of_filter in Hv as [Hm Hv].
    apply list_elem_of_fmap in Hv as ([id w] & -> & Hw). exists id, w. split; [by apply elem_of_map_to_list|done].
Qed.

End Facts.

Section SubmitFacts.
Context {Receipt : Type} (is_success : Receipt -> bool) (status_text : Receipt -> string).

(** A submission answered with success over HTTP was executed: its own
    transaction is in a block with a receipt that is a success, whatever else
    was submitted, whenever blocks and time-outs came. *)
Theorem submit_route_sound cap l s q answer r :
  submit_reach cap l s -> (q, answer) ∈ sq_answers s -> submit_transaction is_success status_text answer = Ok r ->
  submitted l !! q = Some (str_digest r) /\ SeComplete (str_digest r) (str_block_num r) (str_receipt r) ∈ l /\ is_success (str_receipt r) = true.
Proof.
  intros I%reach_inv Hq Hr. unfold submit_transaction in Hr. destruct answer as [x|e]; [|done]. cbn [mbind AppResult_bind] in Hr.
  destruct (is_success (sr_receipt x)) eqn:Es; [|done]. injection Hr as <-. cbn [str_digest str_block_num str_receipt].
  destruct (si_answers _ _ I q x Hq) as [H1 H2]. by split.
Qed.

End SubmitFacts.

(** ** Witnesses *)

Definition demo_tokens : list BalanceTokenSpec := [{| bts_symbol := "USDC"; bts_address := "c2" |}; {| bts_symbol := "YES"; bts_address := "c3" |}].

Lemma balances_exact_witness :
  get_balances (AC := DemoAccountChain) " a4" demo_tokens = Ok (omap (balance_entry (AC := DemoAccountChain) 4%N) demo_tokens) /\
  Forall (fun e => denotes (be_total e) 70 (TOKEN_SCALE (Sdk := DemoSdk))) (omap (balance_entry (AC := DemoAccountChain) 4%N) demo_tokens).
Proof.
  pose proof (balances_exact (AC := DemoAccountChain) " a4" demo_tokens) as H.
  replace (address_from_str (Sdk := DemoSdk) (trim " a4")) with (Some 4%N) in H by reflexivity. destruct H as (H1 & _ & H3).
  split; [exact H1|]. apply Forall_forall. intros e (spec & Hs & He)%list_elem_of_omap. destruct (H3 spec e He) as (_ & _ & H).
  apply elem_of_cons in Hs as [-> | [-> | Hs]%elem_of_cons]; [..|by apply elem_of_nil in Hs];
    refine (proj1 (H _ _ _)); split; vm_compute; congruence.
Defined.

Lemma ready_means_idle_witness :
  match ready 5000 (Index_new false)
    {| hd_block_num := 7; hd_digest := "d"; hd_tx_count := 1; hd_connected := true; hd_catching_up := false; hd_last_indexed_at_ms := 4000 |} (Some 0) (Ok true) with
  | Ok r => rr_status r = "ready"%string
  | Err _ => False
  end.
Proof.
  destruct (ready _ _ _ _ _) as [r|e] eqn:E; [|discriminate E].
  eapply ready_means_idle; [| |exact E|]; [cbn; lia|cbn; lia|]. split_and!; [done|done|right; cbn; lia|done].
Defined.

Lemma submit_route_sound_witness :
  SeComplete "d1" 7 tt ∈ demo_trace.
Proof.
  refine (proj1 (proj2 (submit_route_sound (fun _ => true) (fun _ => "ok"%string) 4 demo_trace demo_queue 0%nat
    (Ok {| sr_digest := "d1"; sr_block_num := 7; sr_receipt := tt |}) {| str_digest := "d1"; str_block_num := 7; str_receipt := tt |}
    (unique_submit _ _ _ demo_queue_reach) _ eq_refl))).
  vm_compute. left.
Defined.
