(* ===== verification/Config.v ===== *)
(** * Config: [config.rs], what the environment and the command line choose

    [env] is the process environment: a variable that is unset or is not
    Unicode is absent.  A value that does not parse counts as absent too. *)
From S2P Require Import Prelude Text Markets MarketsClient.

Local Open Scope list_scope.
Local Open Scope Z_scope.

Section Config.
Context (env : string -> option string).

Definition env_flag (name : string) (dflt : bool) : bool :=
  match env name with
  | Some v =>
      let v := trim v in
      negb (bool_decide (v = "0")%string || eq_ignore_ascii_case v "false" || eq_ignore_ascii_case v "no")
  | None => dflt
  end.

(** [env::var(name).ok().and_then(|v| v.parse().ok()).unwrap_or(default)]. *)
Definition env_uint (max : Z) (name : string) (dflt : Z) : Z := default dflt (v ← env name; parse_uint_l max (chars v)).

Definition env_string (name dflt : string) : string := default dflt (env name).

(** The list of peers: the pieces of [parse_csv] without trailing slashes. *)
Definition peer_urls (name : string) : list string := (fun s => text (trim_end_matches "/" (chars s))) <$> parse_csv (env name).

Record Config := {
  cfg_host : string; cfg_port : Z; cfg_lightpool_rpc_url : string; cfg_lightpool_ws_url : string; cfg_lightpool_mempool_addr : string;
  cfg_enable_indexer : bool; cfg_query_account : string; cfg_submit_queue_capacity : Z; cfg_submit_wait_timeout_ms : Z;
  cfg_sqlite_path : string; cfg_enable_sqlite : bool; cfg_enable_blocks_persist : bool; cfg_enable_index_state_persist : bool;
  cfg_enable_epoch_checkpoint : bool; cfg_checkpoint_every_blocks : Z; cfg_peer_index_urls : list string; cfg_peer_catchup_threshold : Z
}.

Definition default_sqlite_path : string := "data/clob-index.sqlite3".

Definition from_env_with_overrides (no_persist persist_blocks persist_checkpoint : bool) : Config :=
  let enable_sqlite := env_flag "ENABLE_SQLITE" true && negb (env_flag "DISABLE_PERSIST" false) && negb no_persist in
  let want_blocks := persist_blocks || env_flag "PERSIST_BLOCKS" false in
  let want_checkpoint := persist_checkpoint || env_flag "PERSIST_CHECKPOINT" false || env_flag "ENABLE_EPOCH_CHECKPOINT" false in
  {| cfg_host := env_string "HOST" "0.0.0.0";
     cfg_port := env_uint 65535 "PORT" 3002;
     cfg_lightpool_rpc_url := env_string "LIGHTPOOL_RPC_URL" "http://127.0.0.1:26300";
     cfg_lightpool_ws_url := env_string "LIGHTPOOL_WS_URL" "ws://127.0.0.1:26400";
     cfg_lightpool_mempool_addr := env_string "LIGHTPOOL_MEMPOOL_ADDR" "127.0.0.1:26000";
     cfg_enable_indexer := env_flag "ENABLE_INDEXER" true;
     cfg_query_account := env_string "QUERY_ACCOUNT" "0x0000000000000000000000000000000000000000";
     cfg_submit_queue_capacity := env_uint u64_max "SUBMIT_QUEUE_CAPACITY" 1024;
     cfg_submit_wait_timeout_ms := env_uint u64_max "SUBMIT_WAIT_TIMEOUT_MS" 60000;
     cfg_sqlite_path := env_string "SQLITE_PATH" default_sqlite_path;
     cfg_enable_sqlite := enable_sqlite;
     cfg_enable_blocks_persist := enable_sqlite && want_blocks;
     cfg_enable_index_state_persist := enable_sqlite && want_checkpoint;
     cfg_enable_epoch_checkpoint := enable_sqlite && want_checkpoint;
     cfg_checkpoint_every_blocks := env_uint u64_max "CHECKPOINT_EVERY_BLOCKS" 1000;
     cfg_peer_index_urls := peer_urls "PEER_INDEX_URLS";
     cfg_peer_catchup_threshold := env_uint u64_max "PEER_CATCHUP_THRESHOLD" 50 |}.

Definition from_env : Config := from_env_with_overrides false false false.

(** ** What any configuration satisfies *)

Lemma parse_uint_bounded max l n : parse_uint_l max l = Some n -> n <= max.
Proof.
  unfold parse_uint_l. destruct (match l with [] => [] | c :: l' => if decide (c = "+"%char) then l' else l end); [done|].
  destruct (parse_digits _) as [m|]; [|done]. simpl. case_decide; [|done]. by intros [= <-].
Qed.

Lemma env_uint_bounded max name dflt : dflt <= max -> env_uint max name dflt <= max.
Proof.
  intros H. unfold env_uint. destruct (v ← env name; _) as [n|] eqn:E; simpl; [|done].
  destruct (env name) as [v|]; [|done]. by eapply parse_uint_bounded.
Qed.

(** Nothing is kept without the database, which [--no-persist] and
    [DISABLE_PERSIST] turn off whatever else is asked; index tables and
    checkpoints come together. *)
Lemma persistence_switches a b c :
  let cfg := from_env_with_overrides a b c in
  (cfg_enable_blocks_persist cfg || cfg_enable_index_state_persist cfg || cfg_enable_epoch_checkpoint cfg = true -> cfg_enable_sqlite cfg = true) /\
  (a || env_flag "DISABLE_PERSIST" false = true -> cfg_enable_sqlite cfg = false) /\
  cfg_enable_index_state_persist cfg = cfg_enable_epoch_checkpoint cfg /\
  (b = true -> cfg_enable_blocks_persist cfg = cfg_enable_sqlite cfg) /\
  cfg_port cfg <= 65535 /\ cfg_submit_queue_capacity cfg <= u64_max.
Proof.
  cbv zeta. split_and!; simpl.
  - by destruct (env_flag "ENABLE_SQLITE" true), (env_flag "DISABLE_PERSIST" false), a.
  - destruct a, (env_flag "DISABLE_PERSIST" false), (env_flag "ENABLE_SQLITE" true); done.
  - done.
  - intros ->. simpl. by rewrite andb_true_r.
  - by apply env_uint_bounded.
  - by apply env_uint_bounded.
Qed.

End Config.

(** A peer list of one slash keeps an empty address. *)
Example peer_urls_keep_empty : peer_urls (fun _ => Some " http://a:1// ,/,,"%string) "PEER_INDEX_URLS" = ["http://a:1"%string; ""%string].
Proof. vm_compute. reflexivity. Qed.
