(* ===== verification/Broadcast.v ===== *)
(** * Broadcast: the broadcast channels behind every feed

    [tokio::sync::broadcast] is not part of the repository: the class
    [Broadcast] is the one operation its receivers offer, [BroadcastLaws] what
    its documentation promises: a receiver starts at the tail and reads in
    order; one that has fallen behind is told how many messages it missed and
    goes on with the oldest message still kept.  A channel is the list of all
    messages ever sent, a receiver its position in it. *)
From S2P Require Import Prelude.

Local Open Scope list_scope.
Local Open Scope nat_scope.

Inductive Recv (A : Type) :=
| RecvOk (a : A)
| RecvLagged (skipped : nat)
| RecvEmpty.
Arguments RecvOk {A} _.
Arguments RecvLagged {A} _.
Arguments RecvEmpty {A}.

(** [recv capacity log pos]: what a receiver at [pos] gets, and where it is then. *)
Class Broadcast := { recv : forall {A : Type}, nat -> list A -> nat -> Recv A * nat }.

Class BroadcastLaws `{!Broadcast} : Prop := {
  recv_Ok {A} capacity (log : list A) pos a pos' :
    recv capacity log pos = (RecvOk a, pos') -> log !! pos = Some a /\ pos' = S pos;
  recv_Lagged {A} capacity (log : list A) pos n pos' :
    recv capacity log pos = (RecvLagged n, pos') -> pos < pos' <= length log /\ n = pos' - pos;
  recv_Empty {A} capacity (log : list A) pos pos' :
    recv capacity log pos = (RecvEmpty, pos') -> length log <= pos /\ pos' = pos;
  recv_drained {A} capacity (log : list A) : recv capacity log (length log) = (RecvEmpty, length log)
}.

Section Broadcast.
Context {BC : Broadcast} {A : Type}.

(** One turn of a subscription loop: [None] while there is nothing to read. *)
Definition turn {B} (capacity : nat) (log : list A) (pos : nat) (forward : A -> list B) (lagged : list B) : option (nat * list B) :=
  match recv capacity log pos with
  | (RecvOk a, pos') => Some (pos', forward a)
  | (RecvLagged _, pos') => Some (pos', lagged)
  | (RecvEmpty, _) => None
  end.

(** ** A receiver among the sends of others *)

Inductive BroadcastEvent := BSend (a : A) | BRecv.

Record Reading := { rd_log : list A; rd_pos : nat; rd_seen : list A; rd_skipped : nat }.

Definition subscribe_at (log : list A) : Reading := {| rd_log := log; rd_pos := length log; rd_seen := []; rd_skipped := 0 |}.

Definition read_step (capacity : nat) (r : Reading) (e : BroadcastEvent) : Reading :=
  match e with
  | BSend a => {| rd_log := rd_log r ++ [a]; rd_pos := rd_pos r; rd_seen := rd_seen r; rd_skipped := rd_skipped r |}
  | BRecv =>
      match recv capacity (rd_log r) (rd_pos r) with
      | (RecvOk a, pos) => {| rd_log := rd_log r; rd_pos := pos; rd_seen := rd_seen r ++ [a]; rd_skipped := rd_skipped r |}
      | (RecvLagged n, pos) => {| rd_log := rd_log r; rd_pos := pos; rd_seen := rd_seen r; rd_skipped := rd_skipped r + n |}
      | (RecvEmpty, _) => r
      end
  end.

Definition reads (capacity : nat) (log : list A) (es : list BroadcastEvent) : Reading :=
  foldl (read_step capacity) (subscribe_at log) es.

(** ** Facts *)

Context {BL : BroadcastLaws}.

Lemma turn_Some {B} capacity log pos (f : A -> list B) lag pos' out :
  turn capacity log pos f lag = Some (pos', out) ->
  (exists a, log !! pos = Some a /\ pos' = S pos /\ out = f a) \/
  (pos < pos' <= length log /\ out = lag).
Proof.
  unfold turn. destruct (recv capacity log pos) as [[a|n|] q] eqn:E; [| |done]; intros H; simplify_eq.
  - left. exists a. apply recv_Ok in E as [? ?]. done.
  - right. by apply recv_Lagged in E as [? _].
Qed.

Lemma turn_pos {B} capacity log pos (f : A -> list B) lag pos' out :
  turn capacity log pos f lag = Some (pos', out) -> pos < pos' <= length log.
Proof. intros [(a & Ha & -> & _)|(? & _)]%turn_Some; [|done]. apply lookup_lt_Some in Ha. lia. Qed.

(** What has been seen, skipped and is still to come is what was sent since the
    subscription, in order. *)
Definition reading_inv (start : nat) (r : Reading) : Prop :=
  start <= rd_pos r <= length (rd_log r) /\
  (rd_seen r ++ drop (rd_pos r) (rd_log r)) `sublist_of` drop start (rd_log r) /\
  length (rd_seen r) + rd_skipped r = rd_pos r - start.

Lemma reading_step capacity start r e : reading_inv start r -> reading_inv start (read_step capacity r e).
Proof.
  intros (Hp & Hs & Hn). destruct e as [a|]; simpl.
  - split; [simpl; rewrite length_app; simpl; lia|]. split; [|done]. simpl.
    rewrite !drop_app_le by lia. rewrite (assoc_L (++)). by apply sublist_app.
  - destruct (recv capacity (rd_log r) (rd_pos r)) as [[a|n|] pos] eqn:E; [| |done].
    + apply recv_Ok in E as [Ha ->]. pose proof (lookup_lt_Some _ _ _ Ha).
      split; [simpl; lia|]. split; simpl; [|rewrite length_app; simpl; lia].
      rewrite <- (assoc_L (++)). simpl. by rewrite <- (drop_S _ _ _ Ha).
    + apply recv_Lagged in E as (H1 & ->). split; [simpl; lia|]. split; simpl; [|lia].
      etrans; [|exact Hs]. apply sublist_app; [done|].
      replace pos with (rd_pos r + (pos - rd_pos r)) by lia. rewrite <- drop_drop. apply sublist_drop.
Qed.

Lemma reading_run capacity log es : reading_inv (length log) (reads capacity log es).
Proof.
  unfold reads. assert (reading_inv (length log) (subscribe_at log)) as H.
  { unfold subscribe_at. split; [simpl; lia|]. split; simpl; [done|lia]. }
  revert H. generalize (subscribe_at log) as r. induction es as [|e es IH]; intros r H; simpl; [done|].
  apply IH. by apply reading_step.
Qed.

(** Under every interleaving with the senders, a receiver sees each message sent
    after its subscription at most once and in order; what it has not seen it
    was told of, by number; and one that was never told of a loss has seen, or
    still has before it, every one of them. *)
Theorem broadcast_reads capacity log es :
  let r := reads capacity log es in
  rd_seen r `sublist_of` drop (length log) (rd_log r) /\
  length (rd_seen r) + rd_skipped r + (length (rd_log r) - rd_pos r) = length (rd_log r) - length log /\
  (rd_skipped r = 0 -> rd_seen r ++ drop (rd_pos r) (rd_log r) = drop (length log) (rd_log r)).
Proof.
  destruct (reading_run capacity log es) as (Hp & Hs & Hn). cbn zeta. split_and!.
  - etrans; [|exact Hs]. by apply sublist_inserts_r.
  - lia.
  - intros H0. apply sublist_full; [done|]. rewrite length_app, !length_drop. lia.
Qed.

End Broadcast.
Arguments BroadcastEvent : clear implicits.
Arguments turn : simpl never.

(** ** A concrete channel: exactly the last [capacity] messages are kept *)

Definition demo_recv {A} (capacity : nat) (log : list A) (pos : nat) : Recv A * nat :=
  if decide (pos + capacity < length log)
  then (RecvLagged (length log - capacity - pos), length log - capacity)
  else match log !! pos with
       | Some a => (RecvOk a, S pos)
       | None => (RecvEmpty, pos)
       end.

#[export] Instance DemoBroadcast : Broadcast | 100 := {| recv _ := demo_recv |}.

#[export] Instance DemoBroadcastLaws : BroadcastLaws (H := DemoBroadcast).
Proof.
  split; cbn; unfold demo_recv; intros A capacity log; [intros pos a pos'|intros pos n pos'|intros pos pos'|].
  - case_decide; [done|]. destruct (log !! pos); [|done]. intros E. by simplify_eq.
  - case_decide; [|by destruct (log !! pos)]. intros E. simplify_eq. lia.
  - case_decide; [done|]. destruct (log !! pos) eqn:E; [done|]. intros E'. simplify_eq. by apply lookup_ge_None in E.
  - rewrite decide_False by lia. by rewrite lookup_ge_None_2.
Qed.

Lemma broadcast_reads_witness :
  let r := reads (BC := DemoBroadcast) 2 [0] [BSend 1; BSend 2; BSend 3; BRecv; BRecv; BSend 4; BRecv] in
  rd_seen r = [2; 3] /\ rd_skipped r = 1 /\ rd_seen r `sublist_of` drop 1 (rd_log r).
Proof.
  split; [reflexivity|]. split; [reflexivity|].
  exact (proj1 (broadcast_reads (BC := DemoBroadcast) 2 [0] [BSend 1; BSend 2; BSend 3; BRecv; BRecv; BSend 4; BRecv])).
Defined.
