(* ===== verification/Session.v ===== *)
(** * Session: one websocket connection and its subscriptions

    [ws/mod.rs], [ws/process/session.rs], the subscribe and unsubscribe
    handlers of [ws/process/] and [ws/models/request.rs].  A subscription task
    is the position of its receiver in a broadcast channel; one turn of its
    loop is a definition per channel.  The socket is open while a request is
    handled; a text is the message serde prints into it. *)
From S2P Require Import Prelude Text Errors Sdk Keys Amounts Domain Books Bars Orders Markets Vaults Paper Hydrate StakeView Broadcast.

Local Open Scope list_scope.
Local Open Scope Z_scope.

(** ** [ws/models/request.rs] *)

Definition CHANNEL_ORDERBOOK_DELTA : string := "orderbook_delta".
Definition CHANNEL_QUOTE : string := "quote".
Definition CHANNEL_USER : string := "user".
Definition CHANNEL_BARS : string := "bars".
Definition CHANNEL_ORACLE : string := "oracle".
Definition CHANNEL_PAPER_USER : string := "paper.user".
Definition CHANNEL_PAPER_USER_STATE : string := "paper.user.state".
Definition CHANNEL_PAPER_POSITIONS : string := "paper.positions".
Definition CHANNEL_PAPER_HOUSE : string := "paper.house".
Definition CHANNEL_PAPER_ACTIVITY : string := "paper.activity".
Definition CHANNEL_PAPER_STAKE : string := "paper.stake".

Record WsRequest := {
  rq_op : string;
  rq_channel : option string;
  rq_spot_market : option string;
  rq_user_address : option string;
  rq_market : option string;
  rq_depth : option Z;
  rq_interval : option string
}.

Inductive WsOut :=
| WsError (error : string)
| WsSubscribed (channel key : string)
| WsUnsubscribed (channel key : string)
| WsOrderBookSnapshot (m : OrderBookSnapshot)
| WsOrderBookDelta (m : OrderBookDelta)
| WsQuoteSnapshot (m : QuoteSnapshot)
| WsQuoteDelta (m : QuoteDelta)
| WsUser (m : UserWsMessage)
| WsPaperUser (m : PaperUserWsMessage)
| WsPaperPosition (m : PaperPositionWsMessage)
| WsPaperActivity (activity : PaperActivityItem)
| WsPaperStake (m : PaperStakeWsMessage)
| WsPaperUserState (m : PaperUserStateWsMessage)
| WsPaperHouse (m : PaperHouseWsMessage)
| WsBarsSnapshot (m : BarsSnapshot)
| WsBar (m : BarWsMessage)
| WsOracle (m : OracleMarkWsMessage)
| WsPong (payload : string).

(** ** [ws/process/session.rs]: the subscriptions of a connection *)

Inductive SubscriptionKey :=
| KOrderbook (spot_market : string)
| KQuote (spot_market : string)
| KUser (user_address : string)
| KPaperUser (user_address : string)
| KPaperPositions
| KPaperActivity
| KPaperStake (market : string)
| KPaperUserState (key : string)
| KPaperHouse (market : string)
| KBars (spot_market : string)
| KOracle (spot_market : string).

#[global] Instance SubscriptionKey_eq_dec : EqDecision SubscriptionKey.
Proof. solve_decision. Defined.

Definition key_code (k : SubscriptionKey) : nat * string :=
  match k with
  | KOrderbook s => (0%nat, s) | KQuote s => (1%nat, s) | KUser s => (2%nat, s) | KPaperUser s => (3%nat, s)
  | KPaperPositions => (4%nat, ""%string) | KPaperActivity => (5%nat, ""%string) | KPaperStake s => (6%nat, s)
  | KPaperUserState s => (7%nat, s) | KPaperHouse s => (8%nat, s) | KBars s => (9%nat, s) | KOracle s => (10%nat, s)
  end.

Definition key_decode (c : nat * string) : option SubscriptionKey :=
  match c with
  | (0, s) => Some (KOrderbook s) | (1, s) => Some (KQuote s) | (2, s) => Some (KUser s) | (3, s) => Some (KPaperUser s)
  | (4, _) => Some KPaperPositions | (5, _) => Some KPaperActivity | (6, s) => Some (KPaperStake s)
  | (7, s) => Some (KPaperUserState s) | (8, s) => Some (KPaperHouse s) | (9, s) => Some (KBars s) | (10, s) => Some (KOracle s)
  | _ => None
  end%nat.

#[global] Instance SubscriptionKey_countable : Countable SubscriptionKey.
Proof. apply (inj_countable key_code key_decode). by intros []. Defined.

(** What a task was started with, and where its receiver stands; the second
    position is used by [KPaperUserState], which reads two channels. *)
Inductive Subscription :=
| SubOrderbook (spot_market : string) (depth : Z)
| SubQuote (spot_market : string)
| SubUser (user_address : string)
| SubPaperUser (user_address : string)
| SubPaperPositions
| SubPaperActivity
| SubPaperStake (market user_address : string)
| SubPaperUserState (user market : string)
| SubPaperHouse (market : string)
| SubBars (spot_market : string)
| SubOracle (spot_market : string).

Record Task := { tk_sub : Subscription; tk_pos : nat; tk_stake_pos : nat }.

(** The connection: its tasks, the queue they send into, what has gone to the
    socket, and whether the loop still runs. *)
Record WsSession := {
  ws_tasks : gmap SubscriptionKey Task;
  ws_outbound : list WsOut;
  ws_socket : list WsOut;
  ws_open : bool
}.

Definition WsSession_new : WsSession := {| ws_tasks := ∅; ws_outbound := []; ws_socket := []; ws_open := true |}.

Definition on_tasks (f : gmap SubscriptionKey Task -> gmap SubscriptionKey Task) (s : WsSession) : WsSession :=
  {| ws_tasks := f (ws_tasks s); ws_outbound := ws_outbound s; ws_socket := ws_socket s; ws_open := ws_open s |}.
(** [sender.send]. *)
Definition say (out : list WsOut) (s : WsSession) : WsSession :=
  {| ws_tasks := ws_tasks s; ws_outbound := ws_outbound s; ws_socket := ws_socket s ++ out; ws_open := ws_open s |}.
(** [outbound.send]. *)
Definition queue (out : list WsOut) (s : WsSession) : WsSession :=
  {| ws_tasks := ws_tasks s; ws_outbound := ws_outbound s ++ out; ws_socket := ws_socket s; ws_open := ws_open s |}.

Definition cancel_task (key : SubscriptionKey) : WsSession -> WsSession := on_tasks (delete key).

(** Every [subscribe_*] cancels the task of an equal key and inserts its own. *)
Definition start (key : SubscriptionKey) (sub : Subscription) (pos stake_pos : nat) (s : WsSession) : WsSession :=
  on_tasks (<[key := {| tk_sub := sub; tk_pos := pos; tk_stake_pos := stake_pos |}]>) (cancel_task key s).

Definition user_state_key (user market : string) : string :=
  (to_ascii_lowercase user +:+ "|" +:+ to_ascii_lowercase market)%string.

(** The guard of [cancel_channel]: a channel name, an optional key, a task. *)
Definition channel_matches (channel : string) (key : option string) (k : SubscriptionKey) : bool :=
  let chan c := bool_decide (channel = c) in
  let at_key current := match key with Some v => eq_ignore_ascii_case current v | None => true end in
  match k with
  | KOrderbook current => chan CHANNEL_ORDERBOOK_DELTA && at_key current
  | KQuote current => chan CHANNEL_QUOTE && at_key current
  | KUser current => chan CHANNEL_USER && at_key current
  | KPaperUser current => chan CHANNEL_PAPER_USER && at_key current
  | KPaperPositions => chan CHANNEL_PAPER_POSITIONS
  | KPaperActivity => chan CHANNEL_PAPER_ACTIVITY
  | KPaperStake current => chan CHANNEL_PAPER_STAKE && at_key current
  | KPaperUserState current =>
      chan CHANNEL_PAPER_USER_STATE &&
      (at_key current ||
       match key with
       | Some v => bool_decide (is_Some (strip_prefix (chars (to_ascii_lowercase v +:+ "|")%string) (chars (to_ascii_lowercase current))))
       | None => true
       end)
  | KPaperHouse current => chan CHANNEL_PAPER_HOUSE && at_key current
  | KBars current => chan CHANNEL_BARS && at_key current
  | KOracle current => chan CHANNEL_ORACLE && at_key current
  end.

Definition cancel_channel (channel : string) (key : option string) (s : WsSession) : WsSession :=
  foldl (fun s k => cancel_task k s) s (filter (fun k => channel_matches channel key k = true) (map_to_list (ws_tasks s)).*1).

(** The environment of a request: the configured account, the wall clock and
    the closed-candle query of the database. *)
Record WsEnv := {
  we_query_account : string;
  we_now_ms : Z;
  we_load_closed_bars : string -> string -> option Z -> option Z -> nat -> AppResult (list ClosedBarRow)
}.

(** The capacities the channels are made with: books, user hubs, candles and
    oracle marks, house and staking ticks. *)
Definition BROADCAST_CAPACITY : nat := Z.to_nat 4096.
Definition HUB_CAPACITY : nat := Z.to_nat 512.
Definition SPOT_CAPACITY : nat := Z.to_nat 256.
Definition TICK_CAPACITY : nat := Z.to_nat 64.

Definition msg_user_address (m : UserWsMessage) : string :=
  match m with UserOrderMessage _ u _ _ _ _ => u | UserTradeMessage u _ _ _ _ _ _ _ _ _ _ _ _ => u end.

Section Session.
Context {SD : Sdk} {C : Chain} {AC : AccountChain} {BC : Broadcast}.

(** ** The channels: all messages ever sent on each *)

Definition orderbook_channel (i : Index) (spot_market : string) : list OrderBookDelta := ms_orderbook_tx (shard (ix_books i) spot_market).
Definition quote_channel (i : Index) (spot_market : string) : list QuoteDelta := ms_quote_tx (shard (ix_books i) spot_market).
Definition bars_channel (i : Index) (spot_market : string) : list BarWsMessage :=
  default [] (sb_publisher (spot_entry (by_spot (ix_bars i)) (normalize_spot_market_key spot_market))).
Definition paper_channel {A} (pick : PaperMessage -> option A) (i : Index) : list A := omap pick (p_out (ix_paper i)).

Definition pick_paper_user (m : PaperMessage) : option PaperUserWsMessage := match m with MsgPaperUser m => Some m | _ => None end.
Definition pick_position (m : PaperMessage) : option PaperPositionWsMessage := match m with MsgPaperPosition m => Some m | _ => None end.
Definition pick_activity (m : PaperMessage) : option PaperActivityItem := match m with MsgPaperActivity a => Some a | _ => None end.
Definition pick_oracle (spot_market : string) (m : PaperMessage) : option OracleMarkWsMessage :=
  match m with
  | MsgOracle m => if decide (ow_spot_market m = normalize_spot_market_key spot_market) then Some m else None
  | _ => None
  end.
Definition pick_house (market : string) (m : PaperMessage) : option PaperHouseWsMessage :=
  match m with MsgPaperHouse m => if decide (addr_key (hw_market m) = addr_key market) then Some m else None | _ => None end.
(** The message the staking flush publishes for a tick. *)
Definition stake_message (market : string) (tick : PaperStakeTick) : PaperStakeWsMessage :=
  {| pm_market := market; pm_ts_ms := sk_ts_ms tick;
     pm_staking_revenue := format_token_amount (sk_staking_revenue tick); pm_staking_revenue_raw := sk_staking_revenue tick;
     pm_total_paper_supply := format_token_amount (sk_total_paper_supply tick); pm_total_paper_supply_raw := sk_total_paper_supply tick;
     pm_total_staking_reward := format_token_amount (sk_total_staking_reward tick);
     pm_total_staking_reward_raw := sk_total_staking_reward tick; pm_stake := None |}.
Definition pick_stake (market : string) (m : PaperMessage) : option PaperStakeWsMessage :=
  match m with MsgPaperStake k tick => if decide (addr_key k = addr_key market) then Some (stake_message k tick) else None | _ => None end.

Definition set_stake (stake : option PaperStakeView) (m : PaperStakeWsMessage) : PaperStakeWsMessage :=
  {| pm_market := pm_market m; pm_ts_ms := pm_ts_ms m; pm_staking_revenue := pm_staking_revenue m;
     pm_staking_revenue_raw := pm_staking_revenue_raw m; pm_total_paper_supply := pm_total_paper_supply m;
     pm_total_paper_supply_raw := pm_total_paper_supply_raw m; pm_total_staking_reward := pm_total_staking_reward m;
     pm_total_staking_reward_raw := pm_total_staking_reward_raw m; pm_stake := stake |}.

(** ** One turn of each subscription loop *)

(** Behind the channel: a snapshot of the book as it is now. *)
Definition orderbook_turn (i : Index) (spot_market : string) (depth : Z) (pos : nat) : option (nat * list WsOut) :=
  turn BROADCAST_CAPACITY (orderbook_channel i spot_market) pos (fun d => [WsOrderBookDelta d])
    (option_list (WsOrderBookSnapshot <$> ws_snapshot (ix_books i) (normalize_spot_market_key spot_market) (Z.to_nat depth))).

Definition quote_turn (i : Index) (spot_market : string) (pos : nat) : option (nat * list WsOut) :=
  turn BROADCAST_CAPACITY (quote_channel i spot_market) pos (fun q => [WsQuoteDelta q]) [].

Definition user_turn (i : Index) (user_address : string) (pos : nat) : option (nat * list WsOut) :=
  turn HUB_CAPACITY (ix_hub i) pos (fun m => if eq_ignore_ascii_case (msg_user_address m) user_address then [WsUser m] else []) [].

Definition paper_user_turn (i : Index) (user_address : string) (pos : nat) : option (nat * list WsOut) :=
  turn HUB_CAPACITY (paper_channel pick_paper_user i) pos
    (fun m => if eq_ignore_ascii_case (pu_user_address m) user_address then [WsPaperUser m] else []) [].

Definition paper_positions_turn (i : Index) (pos : nat) : option (nat * list WsOut) :=
  turn HUB_CAPACITY (paper_channel pick_position i) pos (fun m => [WsPaperPosition m]) [].

Definition paper_activity_turn (i : Index) (pos : nat) : option (nat * list WsOut) :=
  turn HUB_CAPACITY (paper_channel pick_activity i) pos (fun a => [WsPaperActivity a]) [].

(** The market's tick, with the user's view at the time it is forwarded. *)
Definition paper_stake_turn (i : Index) (market user_address : string) (pos : nat) : option (nat * list WsOut) :=
  turn TICK_CAPACITY (paper_channel (pick_stake market) i) pos
    (fun m => [WsPaperStake (match paper_stake_view (ix_paper i) market user_address with
                             | Some view => set_stake (Some view) m
                             | None => m
                             end)]) [].

Definition user_state_out (i : Index) (user market : string) : list WsOut :=
  option_list (WsPaperUserState <$> paper_user_state (ix_paper i) user market).

(** [select!]: either receiver may be the one that is ready first. *)
Definition paper_user_state_turn (i : Index) (user market : string) (stake : bool) (pos stake_pos : nat)
    : option (nat * nat * list WsOut) :=
  if stake then
    r ← turn TICK_CAPACITY (paper_channel (pick_stake market) i) stake_pos (fun _ => user_state_out i user market) (user_state_out i user market);
    Some (pos, r.1, r.2)
  else
    r ← turn HUB_CAPACITY (paper_channel pick_paper_user i) pos
      (fun m => if eq_ignore_ascii_case (pu_user_address m) user && eq_ignore_ascii_case (pu_market m) market
                then user_state_out i user market else [])
      (user_state_out i user market);
    Some (r.1, stake_pos, r.2).

Definition paper_house_turn (i : Index) (market : string) (pos : nat) : option (nat * list WsOut) :=
  turn TICK_CAPACITY (paper_channel (pick_house market) i) pos (fun m => [WsPaperHouse m]) [].

Definition bars_turn (i : Index) (spot_market : string) (pos : nat) : option (nat * list WsOut) :=
  turn SPOT_CAPACITY (bars_channel i spot_market) pos (fun b => [WsBar b]) [].

Definition oracle_turn (i : Index) (spot_market : string) (pos : nat) : option (nat * list WsOut) :=
  turn SPOT_CAPACITY (paper_channel (pick_oracle spot_market) i) pos (fun m => [WsOracle m]) [].

Definition task_turn (i : Index) (stake : bool) (t : Task) : option (Task * list WsOut) :=
  let at_pos r := '(pos, out) ← r; Some ({| tk_sub := tk_sub t; tk_pos := pos; tk_stake_pos := tk_stake_pos t |}, out) in
  match tk_sub t with
  | SubOrderbook spot_market depth => at_pos (orderbook_turn i spot_market depth (tk_pos t))
  | SubQuote spot_market => at_pos (quote_turn i spot_market (tk_pos t))
  | SubUser user_address => at_pos (user_turn i user_address (tk_pos t))
  | SubPaperUser user_address => at_pos (paper_user_turn i user_address (tk_pos t))
  | SubPaperPositions => at_pos (paper_positions_turn i (tk_pos t))
  | SubPaperActivity => at_pos (paper_activity_turn i (tk_pos t))
  | SubPaperStake market user_address => at_pos (paper_stake_turn i market user_address (tk_pos t))
  | SubPaperUserState user market =>
      '(pos, stake_pos, out) ← paper_user_state_turn i user market stake (tk_pos t) (tk_stake_pos t);
      Some ({| tk_sub := tk_sub t; tk_pos := pos; tk_stake_pos := stake_pos |}, out)
  | SubPaperHouse market => at_pos (paper_house_turn i market (tk_pos t))
  | SubBars spot_market => at_pos (bars_turn i spot_market (tk_pos t))
  | SubOracle spot_market => at_pos (oracle_turn i spot_market (tk_pos t))
  end.

(** When the connection is gone its tasks go on: a task ends when it has
    something to send and finds the queue closed. *)
Definition run_task (i : Index) (key : SubscriptionKey) (stake : bool) (s : WsSession) : option WsSession :=
  t ← ws_tasks s !! key;
  '(t', out) ← task_turn i stake t;
  if ws_open s then Some (queue out (on_tasks (<[key := t']>) s))
  else match out with
       | [] => Some (on_tasks (<[key := t']>) s)
       | _ => Some (cancel_task key s)
       end.

(** ** The methods of [WsSession] *)

Definition session_subscribe_orderbook (spot_market : string) (rx : nat) (depth : Z) : WsSession -> WsSession :=
  start (KOrderbook spot_market) (SubOrderbook spot_market depth) rx 0.
Definition session_subscribe_quote (spot_market : string) (rx : nat) : WsSession -> WsSession :=
  start (KQuote spot_market) (SubQuote spot_market) rx 0.
Definition session_subscribe_user (user_address : string) (rx : nat) : WsSession -> WsSession :=
  start (KUser user_address) (SubUser user_address) rx 0.
Definition session_subscribe_paper_user (user_address : string) (rx : nat) : WsSession -> WsSession :=
  start (KPaperUser user_address) (SubPaperUser user_address) rx 0.
Definition session_subscribe_paper_positions (rx : nat) : WsSession -> WsSession := start KPaperPositions SubPaperPositions rx 0.
Definition session_subscribe_paper_activity (rx : nat) : WsSession -> WsSession := start KPaperActivity SubPaperActivity rx 0.
Definition session_subscribe_paper_stake (market user_address : string) (rx : nat) : WsSession -> WsSession :=
  start (KPaperStake market) (SubPaperStake market user_address) rx 0.
Definition session_subscribe_paper_user_state (user market : string) (user_rx stake_rx : nat) : WsSession -> WsSession :=
  start (KPaperUserState (user_state_key user market)) (SubPaperUserState user market) user_rx stake_rx.
Definition session_subscribe_paper_house (market : string) (rx : nat) : WsSession -> WsSession :=
  start (KPaperHouse market) (SubPaperHouse market) rx 0.
Definition session_subscribe_bars (spot_market : string) (rx : nat) : WsSession -> WsSession :=
  start (KBars spot_market) (SubBars spot_market) rx 0.
Definition session_subscribe_oracle (spot_market : string) (rx : nat) : WsSession -> WsSession :=
  start (KOracle spot_market) (SubOracle spot_market) rx 0.

(** ** The subscribe handlers of [ws/process/]

    A receiver starts at the tail of its channel.  The steps are the code's, in
    its order; other tasks may run between them ([orderbook_subscribe_gap]). *)

Definition St : Type := Index * WsSession.

(** Up to the snapshot, and from the subscription on. *)
Definition orderbook_snapshot (env : WsEnv) (spot_market : string) (depth : Z) (st : St) : AppResult St :=
  r ← rehydrate_spot_from_chain st.1 (we_query_account env) spot_market depth None;
  Ok (r.1, say (option_list (WsOrderBookSnapshot <$> ws_snapshot (ix_books r.1) spot_market (Z.to_nat depth))) st.2).

Definition orderbook_listen (spot_market : string) (depth : Z) (st : St) : St :=
  let i := set_books (books_subscribe (ix_books st.1) spot_market) st.1 in
  let s := session_subscribe_orderbook spot_market (length (orderbook_channel i spot_market)) depth st.2 in
  (i, say [WsSubscribed CHANNEL_ORDERBOOK_DELTA spot_market] s).

Definition subscribe_orderbook (env : WsEnv) (spot_market : string) (depth : Z) (st : St) : St :=
  match orderbook_snapshot env spot_market depth st with
  | Err error => (st.1, say [WsError (error_to_string error)] st.2)
  | Ok st => orderbook_listen spot_market depth st
  end.

Definition subscribe_quote (env : WsEnv) (spot_market : string) (st : St) : St :=
  match rehydrate_spot_from_chain st.1 (we_query_account env) spot_market DEFAULT_BOOK_DEPTH None with
  | Err error => (st.1, say [WsError (error_to_string error)] st.2)
  | Ok (i, _) =>
      let s := say (option_list (WsQuoteSnapshot <$> ws_quote_snapshot (ix_books i) spot_market)) st.2 in
      let i := set_books (books_subscribe (ix_books i) spot_market) i in
      let s := session_subscribe_quote spot_market (length (quote_channel i spot_market)) s in
      (i, say [WsSubscribed CHANNEL_QUOTE spot_market] s)
  end.

Definition subscribe_user (user_address : string) (st : St) : St :=
  (st.1, say [WsSubscribed CHANNEL_USER user_address] (session_subscribe_user user_address (length (ix_hub st.1)) st.2)).

Definition subscribe_paper_user (user_address : string) (st : St) : St :=
  (st.1, say [WsSubscribed CHANNEL_PAPER_USER user_address]
           (session_subscribe_paper_user user_address (length (paper_channel pick_paper_user st.1)) st.2)).

Definition subscribe_paper_positions (st : St) : St :=
  (st.1, say [WsSubscribed CHANNEL_PAPER_POSITIONS "*"]
           (session_subscribe_paper_positions (length (paper_channel pick_position st.1)) st.2)).

Definition subscribe_paper_activity (st : St) : St :=
  (st.1, say [WsSubscribed CHANNEL_PAPER_ACTIVITY "*"]
           (session_subscribe_paper_activity (length (paper_channel pick_activity st.1)) st.2)).

Definition block_ms (i : Index) : Z := indexing_block_timestamp_ms (ix_orders i).

Definition subscribe_paper_stake (env : WsEnv) (market user_address : string) (st : St) : St :=
  let '(i, s) := st in
  if is_blank market then (i, say [WsError "missing market"] s)
  else if is_blank user_address then (i, say [WsError "missing user_address"] s)
  else
    let s := say (option_list (WsPaperStake <$> paper_stake_ws (block_ms i) (we_now_ms env) (ix_paper i) market user_address)) s in
    let s := session_subscribe_paper_stake market user_address (length (paper_channel (pick_stake market) i)) s in
    (i, say [WsSubscribed CHANNEL_PAPER_STAKE market] s).

(** Both receivers are taken before the snapshot is built. *)
Definition subscribe_paper_user_state (user_address market : string) (st : St) : St :=
  let '(i, s) := st in
  if is_blank user_address then (i, say [WsError "missing user_address"] s)
  else if is_blank market then (i, say [WsError "missing market"] s)
  else
    let user_rx := length (paper_channel pick_paper_user i) in
    let stake_rx := length (paper_channel (pick_stake market) i) in
    let s := say (user_state_out i user_address market) s in
    let s := session_subscribe_paper_user_state user_address market user_rx stake_rx s in
    (i, say [WsSubscribed CHANNEL_PAPER_USER_STATE user_address] s).

Definition subscribe_paper_house (env : WsEnv) (market : string) (st : St) : St :=
  let '(i, s) := st in
  if is_blank market then (i, say [WsError "missing market"] s)
  else
    let s := say (option_list (WsPaperHouse <$> paper_house_ws (block_ms i) (we_now_ms env) (ix_paper i) market)) s in
    let s := session_subscribe_paper_house market (length (paper_channel (pick_house market) i)) s in
    (i, say [WsSubscribed CHANNEL_PAPER_HOUSE market] s).

Definition subscribe_bars (env : WsEnv) (spot_market : string) (interval : option string) (st : St) : St :=
  let '(i, s) := st in
  if decide (default INTERVAL_1M interval <> INTERVAL_1M)
  then (i, say [WsError "subscribe bars currently supports interval=1m only; use HTTP history for 5m/1h"] s)
  else
    let s := say [WsBarsSnapshot (snapshot_ws (we_load_closed_bars env) (ix_bars i) spot_market 200)] s in
    let i := set_bars (bars_subscribe (ix_bars i) spot_market) i in
    let s := session_subscribe_bars spot_market (length (bars_channel i spot_market)) s in
    (i, say [WsSubscribed CHANNEL_BARS spot_market] s).

Definition subscribe_oracle (spot_market : string) (st : St) : St :=
  let '(i, s) := st in
  if is_blank spot_market then (i, say [WsError "missing spot_market"] s)
  else
    let s := say (option_list (WsOracle <$> oracle_mark_ws (ix_paper i) spot_market)) s in
    let s := session_subscribe_oracle spot_market (length (paper_channel (pick_oracle spot_market) i)) s in
    (i, say [WsSubscribed CHANNEL_ORACLE spot_market] s).

(** ** The unsubscribe handlers *)

Definition confirm (channel : string) (key : option string) : list WsOut := option_list (WsUnsubscribed channel <$> key).

Definition unsubscribe_orderbook (spot_market : option string) (s : WsSession) : WsSession :=
  say (confirm CHANNEL_ORDERBOOK_DELTA spot_market) (cancel_channel CHANNEL_ORDERBOOK_DELTA spot_market s).
Definition unsubscribe_quote (spot_market : option string) (s : WsSession) : WsSession :=
  say (confirm CHANNEL_QUOTE spot_market) (cancel_channel CHANNEL_QUOTE spot_market s).
Definition unsubscribe_user (user_address : option string) (s : WsSession) : WsSession :=
  say (confirm CHANNEL_USER user_address) (cancel_channel CHANNEL_USER user_address s).
Definition unsubscribe_paper_user (user_address : option string) (s : WsSession) : WsSession :=
  say (confirm CHANNEL_PAPER_USER user_address) (cancel_channel CHANNEL_PAPER_USER user_address s).
Definition unsubscribe_paper_positions (s : WsSession) : WsSession :=
  say [WsUnsubscribed CHANNEL_PAPER_POSITIONS "*"] (cancel_channel CHANNEL_PAPER_POSITIONS None s).
Definition unsubscribe_paper_activity (s : WsSession) : WsSession :=
  say [WsUnsubscribed CHANNEL_PAPER_ACTIVITY "*"] (cancel_channel CHANNEL_PAPER_ACTIVITY None s).
Definition unsubscribe_paper_stake (market : option string) (s : WsSession) : WsSession :=
  say (confirm CHANNEL_PAPER_STAKE market) (cancel_channel CHANNEL_PAPER_STAKE market s).

Definition user_state_unsubscribe_key (user_address market : option string) : option string :=
  match user_address, market with
  | Some user, Some market => Some (user +:+ "|" +:+ market)%string
  | Some user, None => Some user
  | _, _ => None
  end.
Definition unsubscribe_paper_user_state (user_address market : option string) (s : WsSession) : WsSession :=
  say (confirm CHANNEL_PAPER_USER_STATE user_address)
    (cancel_channel CHANNEL_PAPER_USER_STATE (user_state_unsubscribe_key user_address market) s).

Definition unsubscribe_paper_house (market : option string) (s : WsSession) : WsSession :=
  say (confirm CHANNEL_PAPER_HOUSE market) (cancel_channel CHANNEL_PAPER_HOUSE market s).
Definition unsubscribe_bars (spot_market : option string) (s : WsSession) : WsSession :=
  say (confirm CHANNEL_BARS spot_market) (cancel_channel CHANNEL_BARS spot_market s).
Definition unsubscribe_oracle (spot_market : option string) (s : WsSession) : WsSession :=
  say (confirm CHANNEL_ORACLE spot_market) (cancel_channel CHANNEL_ORACLE spot_market s).

(** ** [ws/mod.rs] *)

(** [filter(|value| !value.trim().is_empty())]. *)
Definition nonblank (value : option string) : option string := v ← value; if is_blank v then None else Some v.

(** A parameter that is required: the handler, or the error of its name. *)
Definition require (name : string) (value : option string) (f : string -> St -> St) (st : St) : St :=
  match nonblank value with
  | Some v => f v st
  | None => (st.1, say [WsError ("missing " +:+ name)%string] st.2)
  end.

Definition handle_subscribe (env : WsEnv) (channel : string) (request : WsRequest) : St -> St :=
  if decide (channel = CHANNEL_ORDERBOOK_DELTA) then
    require "spot_market" (rq_spot_market request) (fun spot_market =>
      subscribe_orderbook env spot_market (clamp 1 DEFAULT_BOOK_DEPTH (default 10 (rq_depth request))))
  else if decide (channel = CHANNEL_QUOTE) then
    require "spot_market" (rq_spot_market request) (subscribe_quote env)
  else if decide (channel = CHANNEL_USER) then
    require "user_address" (rq_user_address request) subscribe_user
  else if decide (channel = CHANNEL_PAPER_USER) then
    require "user_address" (rq_user_address request) subscribe_paper_user
  else if decide (channel = CHANNEL_PAPER_USER_STATE) then
    require "user_address" (rq_user_address request) (fun user_address =>
      require "market" (rq_market request) (subscribe_paper_user_state user_address))
  else if decide (channel = CHANNEL_PAPER_POSITIONS) then subscribe_paper_positions
  else if decide (channel = CHANNEL_PAPER_ACTIVITY) then subscribe_paper_activity
  else if decide (channel = CHANNEL_PAPER_STAKE) then
    require "market" (rq_market request) (fun market =>
      require "user_address" (rq_user_address request) (subscribe_paper_stake env market))
  else if decide (channel = CHANNEL_PAPER_HOUSE) then
    require "market" (rq_market request) (subscribe_paper_house env)
  else if decide (channel = CHANNEL_BARS) then
    require "spot_market" (rq_spot_market request) (fun spot_market => subscribe_bars env spot_market (rq_interval request))
  else if decide (channel = CHANNEL_ORACLE) then
    require "spot_market" (rq_spot_market request) subscribe_oracle
  else fun st => (st.1, say [WsError ("unknown channel: " +:+ channel)%string] st.2).

Definition handle_unsubscribe (channel : string) (request : WsRequest) : WsSession -> WsSession :=
  if decide (channel = CHANNEL_ORDERBOOK_DELTA) then unsubscribe_orderbook (nonblank (rq_spot_market request))
  else if decide (channel = CHANNEL_QUOTE) then unsubscribe_quote (nonblank (rq_spot_market request))
  else if decide (channel = CHANNEL_USER) then unsubscribe_user (nonblank (rq_user_address request))
  else if decide (channel = CHANNEL_PAPER_USER) then unsubscribe_paper_user (nonblank (rq_user_address request))
  else if decide (channel = CHANNEL_PAPER_USER_STATE)
  then unsubscribe_paper_user_state (nonblank (rq_user_address request)) (nonblank (rq_market request))
  else if decide (channel = CHANNEL_PAPER_POSITIONS) then unsubscribe_paper_positions
  else if decide (channel = CHANNEL_PAPER_ACTIVITY) then unsubscribe_paper_activity
  else if decide (channel = CHANNEL_PAPER_STAKE) then unsubscribe_paper_stake (nonblank (rq_market request))
  else if decide (channel = CHANNEL_PAPER_HOUSE) then unsubscribe_paper_house (nonblank (rq_market request))
  else if decide (channel = CHANNEL_BARS) then unsubscribe_bars (nonblank (rq_spot_market request))
  else if decide (channel = CHANNEL_ORACLE) then unsubscribe_oracle (nonblank (rq_spot_market request))
  else fun s => s.

Definition handle_request (env : WsEnv) (request : WsRequest) (st : St) : St :=
  if decide (rq_op request = "subscribe")%string then
    match rq_channel request with
    | None => (st.1, say [WsError "missing channel"] st.2)
    | Some channel => handle_subscribe env channel request st
    end
  else if decide (rq_op request = "unsubscribe")%string then
    match rq_channel request with
    | None => st
    | Some channel => (st.1, handle_unsubscribe channel request st.2)
    end
  else (st.1, say [WsError ("unknown op: " +:+ rq_op request)%string] st.2).

(** What arrives on the socket; a text is the request serde reads from it, or
    the error it gives. *)
Inductive Incoming :=
| InText (request : WsRequest + string)
| InPing (payload : string)
| InPong
| InBinary
| InClose.

Definition close_session (s : WsSession) : WsSession :=
  {| ws_tasks := ws_tasks s; ws_outbound := ws_outbound s; ws_socket := ws_socket s; ws_open := false |}.

(** One message of the [select!] loop of [handle_socket]. *)
Definition on_incoming (env : WsEnv) (message : Incoming) (st : St) : St :=
  match message with
  | InText (inl request) => handle_request env request st
  | InText (inr error) => (st.1, queue [WsError ("invalid message: " +:+ error)%string] st.2)
  | InPing payload => (st.1, say [WsPong payload] st.2)
  | InPong | InBinary => st
  | InClose => (st.1, close_session st.2)
  end.

(** The other branch: the head of the queue goes to the socket. *)
Definition send_outbound (s : WsSession) : option WsSession :=
  match ws_outbound s with
  | [] => None
  | m :: out => Some {| ws_tasks := ws_tasks s; ws_outbound := out; ws_socket := ws_socket s ++ [m]; ws_open := ws_open s |}
  end.

(** ** The connection among the rest of the program *)

Inductive SessionEvent :=
| SvIndex (i : Index)
| SvIncoming (env : WsEnv) (message : Incoming)
| SvTask (key : SubscriptionKey) (stake : bool)
| SvOutbound.

(** The rest of the program moves the index to any later state. *)
Definition session_step (st : St) (e : SessionEvent) : option St :=
  match e with
  | SvIndex i => Some (i, st.2)
  | SvIncoming env message => if ws_open st.2 then Some (on_incoming env message st) else None
  | SvTask key stake => s ← run_task st.1 key stake st.2; Some (st.1, s)
  | SvOutbound => if ws_open st.2 then s ← send_outbound st.2; Some (st.1, s) else None
  end.

Fixpoint session_run (st : St) (es : list SessionEvent) : option St :=
  match es with [] => Some st | e :: es => st' ← session_step st e; session_run st' es end.

End Session.
