(* ===== verification/SessionFacts.v ===== *)
(** * SessionFacts: what a websocket client is told

    A client that falls behind and is sent a snapshot ends up with the server's
    book; the answer of every request is determined by its fields; unsubscribing
    ends exactly the subscriptions named; a connection is sent only what it
    subscribed to; and what the code does not do: a delta published while a subscription
    is being set up, the levels a rehydration changes, tasks that outlive their
    connection. *)
From S2P Require Import Prelude Text Errors Sdk Keys Amounts Domain Books BooksFacts BooksClient Bars Orders Markets Vaults Paper Hydrate StakeView Broadcast Session.

Local Open Scope list_scope.
Local Open Scope Z_scope.

(** ** Applying old deltas again *)

Lemma client_level_lookup m d t :
  client_level m d !! t =
  if decide (t = bld_price d) then (if decide (bld_size d = "0"%string) then None else Some (bld_size d)) else m !! t.
Proof.
  unfold client_level. repeat case_decide; subst;
    by rewrite ?lookup_delete_eq, ?lookup_insert_eq, ?lookup_delete_ne, ?lookup_insert_ne by congruence.
Qed.

(** What a list of levels says of a text: the last word on it, if any. *)
Fixpoint said (ds : list BookLevelDelta) (t : string) : option (option string) :=
  match ds with
  | [] => None
  | d :: ds =>
      match said ds t with
      | Some v => Some v
      | None => if decide (t = bld_price d) then Some (if decide (bld_size d = "0"%string) then None else Some (bld_size d)) else None
      end
  end.

Lemma client_levels_lookup ds m t :
  foldl client_level m ds !! t = match said ds t with Some v => v | None => m !! t end.
Proof.
  revert m. induction ds as [|d ds IH]; intros m; simpl; [done|]. rewrite IH, client_level_lookup.
  destruct (said ds t); [done|]. by case_decide.
Qed.

Lemma client_levels_again ds m : foldl client_level (foldl client_level m ds) ds = foldl client_level m ds.
Proof. apply map_eq. intros t. rewrite !client_levels_lookup. by destruct (said ds t). Qed.

Definition bid_changes (ds : list OrderBookDelta) : list BookLevelDelta := ds ≫= obd_bids.
Definition ask_changes (ds : list OrderBookDelta) : list BookLevelDelta := ds ≫= obd_asks.

Lemma client_applied c ds :
  foldl client_apply c ds =
  {| c_bids := foldl client_level (c_bids c) (bid_changes ds); c_asks := foldl client_level (c_asks c) (ask_changes ds);
     c_sequence := default (c_sequence c) (obd_sequence <$> last ds) |}.
Proof.
  revert c. induction ds as [|d ds IH]; intros c; [by destruct c|]. cbn [foldl]. rewrite IH. unfold client_apply, bid_changes, ask_changes. simpl.
  rewrite !foldl_app. f_equal. rewrite last_cons. by destruct (last ds).
Qed.

(** Deltas carry absolute sizes: a client that already has the effect of a run
    of deltas ends where it was when it applies them again. *)
Lemma deltas_again c ds : foldl client_apply (foldl client_apply c ds) ds = foldl client_apply c ds.
Proof.
  rewrite (client_applied (foldl client_apply c ds) ds), (client_applied c ds). simpl. rewrite !client_levels_again.
  f_equal. by destruct (last ds).
Qed.

Section BookFeed.
Context {SD : Sdk} {L : SdkLaws} {C : Chain} {AC : AccountChain} {BC : Broadcast} {BL : BroadcastLaws}.

Lemma view_unique c c' m : side_ok m -> view c m -> view c' m -> c = c'.
Proof.
  intros Hok [M1 C1] [M2 C2]. apply map_eq. intros t.
  destruct (c !! t) as [x|] eqn:E.
  - destruct (C1 t ltac:(by eexists)) as (p & [s Hp] & ->). destruct (Hok p s Hp) as [Hk _]. by rewrite <- E, M1, M2.
  - destruct (c' !! t) as [x'|] eqn:E'; [|done].
    destruct (C2 t ltac:(by eexists)) as (p & [s Hp] & ->). destruct (Hok p s Hp) as [Hk _].
    rewrite M1 in E by done. rewrite M2 in E' by done. congruence.
Qed.

Lemma book_view_unique c c' book : book_ok book -> book_view c book -> book_view c' book -> c = c'.
Proof.
  intros [Ob Oa] (B1 & A1 & S1) (B2 & A2 & S2). destruct c as [b a s], c' as [b' a' s']. simpl in *.
  by rewrite (view_unique b b' (bids book)), (view_unique a a' (asks book)), S1, S2.
Qed.

Definition fits (depth : Z) (book : SpotBook) : Prop :=
  (size (bids book) <= Z.to_nat depth)%nat /\ (size (asks book) <= Z.to_nat depth)%nat.

Lemma snapshot_view b spot depth snap :
  ws_snapshot b spot (Z.to_nat depth) = Some snap -> book_ok (ms_book (shard b spot)) -> fits depth (ms_book (shard b spot)) ->
  book_view (client_of snap) (ms_book (shard b spot)).
Proof.
  unfold ws_snapshot. destruct (try_shard b spot) as [sh|] eqn:Et; [|done]. simpl. intros [= <-].
  assert (shard b spot = sh) as -> by (unfold shard, try_shard in *; by rewrite Et). intros [Ob Oa] [Fb Fa].
  unfold book_view. simpl. split_and!; [| |done].
  - apply map_text_view; [done|done|]. by rewrite reverse_Permutation, sorted_levels_perm.
  - apply map_text_view; [done|done|apply sorted_levels_perm].
Qed.

(** ** A book subscription among the order events of all markets *)

Inductive FeedEvent := FeOp (op : BookOp) | FeTurn.

(** The index, the receiver of the subscription, and the client's book, which
    takes every message the task forwards. *)
Record BookFeed := { bf_index : Index; bf_pos : nat; bf_client : ClientBook }.

Definition client_message (c : ClientBook) (m : WsOut) : ClientBook :=
  match m with WsOrderBookSnapshot s => client_of s | WsOrderBookDelta d => client_apply c d | _ => c end.

Definition feed_step (spot : string) (depth : Z) (f : BookFeed) (e : FeedEvent) : BookFeed :=
  match e with
  | FeOp op => {| bf_index := set_books (book_step true (ix_books (bf_index f), None) op).1 (bf_index f);
                  bf_pos := bf_pos f; bf_client := bf_client f |}
  | FeTurn =>
      match orderbook_turn (bf_index f) spot depth (bf_pos f) with
      | Some (pos, out) => {| bf_index := bf_index f; bf_pos := pos; bf_client := foldl client_message (bf_client f) out |}
      | None => f
      end
  end.

Definition feed_run (spot : string) (depth : Z) : BookFeed -> list FeedEvent -> BookFeed := foldl (feed_step spot depth).

Definition feed_book (spot : string) (f : BookFeed) : SpotBook := ms_book (shard (ix_books (bf_index f)) spot).
Definition feed_log (spot : string) (f : BookFeed) : list OrderBookDelta := orderbook_channel (bf_index f) spot.

Definition event_ok (e : FeedEvent) : Prop := match e with FeOp op => op_u64 op /\ op_price_ok op | FeTurn => True end.

(** The client, once it has applied what is still in the channel, is the client
    [R] that applied every delta since the subscription, which shows the book. *)
Definition feed_inv (spot : string) (f : BookFeed) : Prop :=
  is_Some (try_shard (ix_books (bf_index f)) spot) /\
  book_ok (feed_book spot f) /\ 0 <= sequence (feed_book spot f) <= u64_max /\
  exists first R0, (first <= bf_pos f <= length (feed_log spot f))%nat /\
    let R := foldl client_apply R0 (drop first (feed_log spot f)) in
    book_view R (feed_book spot f) /\ foldl client_apply (bf_client f) (drop (bf_pos f) (feed_log spot f)) = R.

Lemma op_step_shard b spot op : is_Some (try_shard b spot) -> is_Some (try_shard (book_step true (b, None) op).1 spot).
Proof.
  intros H. pose proof (step_shape true b None op) as HS. destruct (op_effect op) as [[[[side p] a] add]|]; [|by rewrite HS].
  destruct HS as (sh' & Es & _). unfold try_shard in *. rewrite Es. unfold put_shard. simpl.
  destruct (decide (normalize_spot_market_key (op_spot op) = normalize_spot_market_key spot)) as [->|Hne].
  - by rewrite lookup_insert_eq.
  - by rewrite lookup_insert_ne.
Qed.

Lemma feed_op_inv spot depth f op :
  op_u64 op -> op_price_ok op -> feed_inv spot f -> feed_inv spot (feed_step spot depth f (FeOp op)).
Proof.
  intros Hu Hp (Hsh & Hok & Hseq & first & R0 & Hpos & HV & HC).
  set (b := ix_books (bf_index f)) in *. set (log := feed_log spot f) in *.
  set (R := foldl client_apply R0 (drop first log)) in *.
  assert (follows R b b spot) as H0.
  { exists []. split_and!; [by rewrite app_nil_r|done|done|simpl; unfold feed_book in *; fold b in Hseq; mach|done]. }
  destruct (follows_step R b b spot op Hseq Hu Hp H0) as (ds & E & V & O & Sq & _).
  split; [by apply op_step_shard|]. split; [exact O|]. split.
  - unfold feed_book. simpl. fold b. rewrite Sq. unfold feed_book in Hseq. fold b in Hseq. mach.
  - exists first, R0. unfold feed_log, orderbook_channel. simpl. fold b. rewrite E.
    change (ms_orderbook_tx (shard b spot)) with log. split; [rewrite length_app; lia|].
    rewrite !drop_app_le by lia. rewrite !foldl_app. fold R. split; [exact V|]. by rewrite HC.
Qed.

Lemma drop_suffix {A} n m (l : list A) : (n <= m)%nat -> exists x, drop n l = x ++ drop m l.
Proof. intros H. exists (take (m - n) (drop n l)). rewrite <- (take_drop (m - n) (drop n l)) at 1. rewrite drop_drop. do 2 f_equal. lia. Qed.

Lemma feed_turn_inv spot depth f :
  fits depth (feed_book spot f) -> feed_inv spot f -> feed_inv spot (feed_step spot depth f FeTurn).
Proof.
  intros Hfit (Hsh & Hok & Hseq & first & R0 & Hpos & HV & HC). unfold feed_step.
  destruct (orderbook_turn (bf_index f) spot depth (bf_pos f)) as [[pos out]|] eqn:E.
  2:{ split; [done|]. split; [done|]. split; [done|]. by exists first, R0. }
  split; [done|]. split; [done|]. split; [done|]. exists first, R0.
  change (feed_log spot {| bf_index := _; bf_pos := _; bf_client := _ |}) with (feed_log spot f). simpl bf_pos. simpl bf_client.
  unfold orderbook_turn in E. pose proof (turn_pos _ _ _ _ _ _ _ E) as Hp. fold (feed_log spot f) in *.
  change (orderbook_channel (bf_index f) spot) with (feed_log spot f) in *. split; [lia|]. cbn zeta. split; [done|].
  apply turn_Some in E as [(d & Hd & -> & ->)|(Hlt & ->)].
  - simpl. rewrite <- HC. by rewrite (drop_S _ _ _ Hd).
  - unfold ws_snapshot in *. destruct Hsh as [sh Hsh].
    assert (try_shard (ix_books (bf_index f)) (normalize_spot_market_key spot) = Some sh) as Hsh'
      by (unfold try_shard in *; by rewrite normalize_idemp).
    rewrite Hsh'. simpl.
    assert (client_of (book_to_ws_snapshot (ms_spot_market sh) (ms_book sh) (Z.to_nat depth)) =
            foldl client_apply R0 (drop first (feed_log spot f))) as ->.
    { apply (book_view_unique _ _ (feed_book spot f)); [done| |done]. apply (snapshot_view _ _ depth); [|done|done].
      unfold ws_snapshot. by rewrite Hsh. }
    destruct (drop_suffix first pos (feed_log spot f) ltac:(lia)) as [x ->]. rewrite foldl_app. apply deltas_again.
Qed.

Lemma feed_run_inv spot depth f es :
  Forall event_ok es -> (forall n, fits depth (feed_book spot (feed_run spot depth f (take n es)))) ->
  feed_inv spot f -> feed_inv spot (feed_run spot depth f es).
Proof.
  revert f. induction es as [|e es IH]; intros f HF Hfit H; [done|]. apply Forall_cons in HF as [He HF]. simpl.
  apply IH; [done|intros n; apply (Hfit (S n))|]. destruct e as [op|].
  - destruct He. by apply feed_op_inv.
  - apply feed_turn_inv; [apply (Hfit O)|done].
Qed.

Lemma subscribe_shape env spot depth i s i0 w :
  rehydrate_spot_from_chain i (we_query_account env) spot depth None = Ok (i0, w) ->
  let st := subscribe_orderbook env spot depth (i, s) in
  exists snap, ws_snapshot (ix_books i0) spot (Z.to_nat depth) = Some snap /\
    ws_socket st.2 = ws_socket s ++ [WsOrderBookSnapshot snap; WsSubscribed CHANNEL_ORDERBOOK_DELTA spot] /\
    ws_tasks st.2 !! KOrderbook spot = Some {| tk_sub := SubOrderbook spot depth; tk_pos := length (orderbook_channel st.1 spot); tk_stake_pos := 0 |} /\
    st.1 = i0.
Proof.
  intros E. assert (is_Some (try_shard (ix_books i0) spot)) as [sh Hsh].
  { unfold rehydrate_spot_from_chain in E. apply hydrate_spot_Ok in E as (cb & price & -> & _).
    pose proof (hydrate_marks (ix_books i) spot cb price None) as Hm. unfold is_chain_hydrated in Hm. simpl.
    destruct (try_shard _ _); [by eexists|done]. }
  assert (books_subscribe (ix_books i0) spot = ix_books i0) as Eb.
  { unfold books_subscribe, put_shard, shard. unfold try_shard in Hsh. rewrite Hsh. simpl. rewrite insert_id by done. by destruct (ix_books i0). }
  unfold subscribe_orderbook, orderbook_snapshot, orderbook_listen. simpl fst. simpl snd. rewrite E. cbn [mbind AppResult_bind fst snd]. unfold ws_snapshot. rewrite Hsh. simpl. rewrite Eb.
  assert (set_books (ix_books i0) i0 = i0) as -> by (by destruct i0).
  eexists. split; [done|]. split; [by rewrite <- (assoc_L (++))|]. split; [|done]. by rewrite lookup_insert_eq.
Qed.

(** The two halves of a subscription, whatever happened to other markets in
    between. *)
Lemma halves_shape env spot depth i s i0 s0 i1 :
  orderbook_snapshot env spot depth (i, s) = Ok (i0, s0) -> try_shard (ix_books i1) spot = try_shard (ix_books i0) spot ->
  let st := orderbook_listen spot depth (i1, s0) in
  exists snap, ws_snapshot (ix_books i1) spot (Z.to_nat depth) = Some snap /\
    ws_socket st.2 = ws_socket s ++ [WsOrderBookSnapshot snap; WsSubscribed CHANNEL_ORDERBOOK_DELTA spot] /\
    ws_tasks st.2 !! KOrderbook spot = Some {| tk_sub := SubOrderbook spot depth; tk_pos := length (orderbook_channel st.1 spot); tk_stake_pos := 0 |} /\
    st.1 = i1.
Proof.
  intros E Hgap. unfold orderbook_snapshot in E. cbn [fst snd] in E.
  destruct (rehydrate_spot_from_chain i (we_query_account env) spot depth None) as [[i0' w]|e] eqn:Er; [|done].
  injection E as -> <-. destruct (subscribe_shape env spot depth i s i0 w Er) as (snap & Hsnap & _).
  assert (ws_snapshot (ix_books i1) spot (Z.to_nat depth) = Some snap) as Hsnap1 by (unfold ws_snapshot in *; by rewrite Hgap).
  assert (books_subscribe (ix_books i1) spot = ix_books i1) as Eb.
  { unfold ws_snapshot in Hsnap1. unfold books_subscribe, put_shard, shard, try_shard in *. destruct (shards (ix_books i1) !! _) eqn:Es; [|done]. simpl.
    rewrite insert_id by done. by destruct (ix_books i1). }
  exists snap. cbn [fst]. rewrite Hsnap. unfold orderbook_listen. simpl. rewrite Eb. assert (set_books (ix_books i1) i1 = i1) as -> by (by destruct i1).
  split; [done|]. split; [by rewrite <- (assoc_L (++))|]. split; [|done]. by rewrite lookup_insert_eq.
Qed.

(** C15: a client that subscribes to a book and applies what it is sent, the
    snapshot first, holds the server's book whenever its task has nothing left
    to read, under every interleaving of the task with the order events of all
    markets, however far it falls behind: after a snapshot sent on lag it is
    sent older deltas again, and they change nothing in the end.  The snapshot
    and the start of the subscription are two steps, and anything may happen to
    other markets in between; a change of this market there would be lost to
    the client ([orderbook_subscribe_gap]).  Assumed: both sides of the book fit
    the depth asked for (at most 20) at every moment, prices are at most
    [u64::MAX / 100], and nothing rehydrates the book meanwhile. *)
Theorem book_feed_converges env spot depth i s i0 s0 i1 es :
  orderbook_snapshot env spot depth (i, s) = Ok (i0, s0) ->
  try_shard (ix_books i1) spot = try_shard (ix_books i0) spot ->
  book_ok (ms_book (shard (ix_books i0) spot)) -> 0 <= sequence (ms_book (shard (ix_books i0) spot)) <= u64_max ->
  let st := orderbook_listen spot depth (i1, s0) in
  exists snap t, ws_socket st.2 = ws_socket s ++ [WsOrderBookSnapshot snap; WsSubscribed CHANNEL_ORDERBOOK_DELTA spot] /\
    ws_tasks st.2 !! KOrderbook spot = Some t /\
    let start := {| bf_index := st.1; bf_pos := tk_pos t; bf_client := client_of snap |} in
    (Forall event_ok es -> (forall n, fits depth (feed_book spot (feed_run spot depth start (take n es)))) ->
     let f := feed_run spot depth start es in
     orderbook_turn (bf_index f) spot depth (bf_pos f) = None -> book_view (bf_client f) (feed_book spot f)).
Proof.
  intros E Hgap Hok Hseq st. destruct (halves_shape env spot depth i s i0 s0 i1 E Hgap) as (snap & Hsnap & Hsock & Htask & Hi).
  assert (shard (ix_books i0) spot = shard (ix_books i1) spot) as Hsh by (unfold try_shard in Hgap; unfold shard; by rewrite Hgap).
  rewrite Hsh in Hok, Hseq.
  fold st in Hsock, Htask, Hi. eexists snap, _. split; [exact Hsock|]. split; [exact Htask|]. cbn zeta. intros HF Hfit Hdry.
  rewrite Hi in *. simpl tk_pos in *. set (start := {| bf_index := i1; bf_pos := _; bf_client := _ |}) in *.
  assert (feed_inv spot start) as H0.
  { split; [unfold ws_snapshot in Hsnap; simpl; destruct (try_shard (ix_books i1) spot); [by eexists|done]|].
    split; [done|]. split; [done|]. exists (length (orderbook_channel i1 spot)), (client_of snap).
    change (feed_log spot start) with (orderbook_channel i1 spot). simpl bf_pos. simpl bf_client. split; [lia|].
    rewrite drop_all. split; [|done]. apply (snapshot_view _ _ depth); [done|done|apply (Hfit O)]. }
  destruct (feed_run_inv spot depth start es HF Hfit H0) as (_ & _ & _ & first & R0 & Hpos & HV & HC).
  cbn zeta in HV. rewrite <- HC in HV. rewrite drop_ge in HV; [exact HV|].
  unfold orderbook_turn, turn in Hdry. change (orderbook_channel _ spot) with (feed_log spot (feed_run spot depth start es)) in Hdry.
  destruct (recv _ _ _) as [[d|n|] q] eqn:Er; [done|done|]. by apply recv_Empty in Er as [? _].
Qed.

End BookFeed.

(** ** Unsubscribing *)

Lemma cancel_all_lookup ks s k : ws_tasks (foldl (fun s k => cancel_task k s) s ks) !! k = if decide (k ∈ ks) then None else ws_tasks s !! k.
Proof.
  revert s. induction ks as [|k' ks IH]; intros s; [by rewrite decide_False by set_solver|]. cbn [foldl]. rewrite IH. simpl.
  destruct (decide (k ∈ ks)) as [H1|H1], (decide (k ∈ k' :: ks)) as [H2|H2]; [done|set_solver| |].
  - apply elem_of_cons in H2 as [->|?]; [by rewrite lookup_delete_eq|done].
  - rewrite lookup_delete_ne; [done|]. intros ->. set_solver.
Qed.

Lemma cancel_channel_lookup channel key s k :
  ws_tasks (cancel_channel channel key s) !! k = if channel_matches channel key k then None else ws_tasks s !! k.
Proof.
  unfold cancel_channel. rewrite cancel_all_lookup. destruct (channel_matches channel key k) eqn:Em.
  - case_decide as Hk; [done|]. destruct (ws_tasks s !! k) as [t|] eqn:Et; [|done]. exfalso. apply Hk, list_elem_of_filter.
    split; [done|]. apply list_elem_of_fmap. exists (k, t). split; [done|]. by apply elem_of_map_to_list.
  - rewrite decide_False; [done|]. intros [Hk _]%list_elem_of_filter. congruence.
Qed.

Lemma cancel_all_rest ks s :
  ws_outbound (foldl (fun s k => cancel_task k s) s ks) = ws_outbound s /\ ws_socket (foldl (fun s k => cancel_task k s) s ks) = ws_socket s /\
  ws_open (foldl (fun s k => cancel_task k s) s ks) = ws_open s.
Proof. revert s. induction ks as [|k ks IH]; intros s; simpl; [done|]. by destruct (IH (cancel_task k s)) as (-> & -> & ->). Qed.

Lemma cancel_channel_rest channel key s :
  ws_outbound (cancel_channel channel key s) = ws_outbound s /\ ws_socket (cancel_channel channel key s) = ws_socket s /\
  ws_open (cancel_channel channel key s) = ws_open s.
Proof. apply cancel_all_rest. Qed.

Section Requests.
Context {SD : Sdk} {C : Chain} {AC : AccountChain} {BC : Broadcast} {BL : BroadcastLaws}.

(** ** Unsubscribing: what a request names *)

(** The key an unsubscribe request names; without one it means the channel. *)
Definition unsubscribe_key (channel : string) (request : WsRequest) : option string :=
  if decide (channel ∈ [CHANNEL_USER; CHANNEL_PAPER_USER]) then nonblank (rq_user_address request)
  else if decide (channel = CHANNEL_PAPER_USER_STATE)
  then user_state_unsubscribe_key (nonblank (rq_user_address request)) (nonblank (rq_market request))
  else if decide (channel ∈ [CHANNEL_PAPER_STAKE; CHANNEL_PAPER_HOUSE]) then nonblank (rq_market request)
  else if decide (channel ∈ [CHANNEL_ORDERBOOK_DELTA; CHANNEL_QUOTE; CHANNEL_BARS; CHANNEL_ORACLE]) then nonblank (rq_spot_market request)
  else None.

(** What the confirmation names, if there is one. *)
Definition unsubscribe_name (channel : string) (request : WsRequest) : option string :=
  if decide (channel ∈ [CHANNEL_PAPER_POSITIONS; CHANNEL_PAPER_ACTIVITY]) then Some "*"%string
  else if decide (channel = CHANNEL_PAPER_USER_STATE) then nonblank (rq_user_address request)
  else unsubscribe_key channel request.

(** Exactly the tasks of the channel and key are gone, and the confirmation is
    the only thing said. *)
Definition unsubscribed (channel : string) (request : WsRequest) (s s' : WsSession) : Prop :=
  ws_socket s' = ws_socket s ++ confirm channel (unsubscribe_name channel request) /\
  ws_outbound s' = ws_outbound s /\ ws_open s' = ws_open s /\
  forall k, ws_tasks s' !! k = if channel_matches channel (unsubscribe_key channel request) k then None else ws_tasks s !! k.

Lemma unsubscribe_shape channel request s : unsubscribed channel request s (handle_unsubscribe channel request s).
Proof.
  assert (forall ch key conf, unsubscribe_key ch request = key -> confirm ch (unsubscribe_name ch request) = conf ->
    unsubscribed ch request s (say conf (cancel_channel ch key s))) as H.
  { intros ch key conf <- <-. destruct (cancel_channel_rest ch (unsubscribe_key ch request) s) as (H1 & H2 & H3).
    split_and!; simpl; [by rewrite H2|done|done|]. intros k. apply cancel_channel_lookup. }
  unfold handle_unsubscribe.
  repeat (case_decide; [subst channel; apply H; reflexivity|]).
  assert (unsubscribe_key channel request = None /\ unsubscribe_name channel request = None) as [E1 E2].
  { unfold unsubscribe_name, unsubscribe_key. rewrite !decide_False by set_solver. by split. }
  split_and!; rewrite ?E1, ?E2; [by rewrite app_nil_r|done|done|]. intros k.
  destruct k; simpl; rewrite bool_decide_eq_false_2 by done; done.
Qed.

(** ** What a request subscribes to *)

Definition request_sub (channel : string) (request : WsRequest) : option Subscription :=
  let spot := nonblank (rq_spot_market request) in
  let user := nonblank (rq_user_address request) in
  let market := nonblank (rq_market request) in
  if decide (channel = CHANNEL_ORDERBOOK_DELTA) then
    (fun v => SubOrderbook v (clamp 1 DEFAULT_BOOK_DEPTH (default 10 (rq_depth request)))) <$> spot
  else if decide (channel = CHANNEL_QUOTE) then SubQuote <$> spot
  else if decide (channel = CHANNEL_USER) then SubUser <$> user
  else if decide (channel = CHANNEL_PAPER_USER) then SubPaperUser <$> user
  else if decide (channel = CHANNEL_PAPER_USER_STATE) then u ← user; m ← market; Some (SubPaperUserState u m)
  else if decide (channel = CHANNEL_PAPER_POSITIONS) then Some SubPaperPositions
  else if decide (channel = CHANNEL_PAPER_ACTIVITY) then Some SubPaperActivity
  else if decide (channel = CHANNEL_PAPER_STAKE) then m ← market; u ← user; Some (SubPaperStake m u)
  else if decide (channel = CHANNEL_PAPER_HOUSE) then SubPaperHouse <$> market
  else if decide (channel = CHANNEL_BARS) then SubBars <$> spot
  else if decide (channel = CHANNEL_ORACLE) then SubOracle <$> spot
  else None.

Definition sub_key (sub : Subscription) : SubscriptionKey :=
  match sub with
  | SubOrderbook s _ => KOrderbook s
  | SubQuote s => KQuote s
  | SubUser u => KUser u
  | SubPaperUser u => KPaperUser u
  | SubPaperPositions => KPaperPositions
  | SubPaperActivity => KPaperActivity
  | SubPaperStake m _ => KPaperStake m
  | SubPaperUserState u m => KPaperUserState (user_state_key u m)
  | SubPaperHouse m => KPaperHouse m
  | SubBars s => KBars s
  | SubOracle s => KOracle s
  end.

(** ** Subscribing: every request is answered once *)

Inductive Answer := ARefused (error : string) | AStarted (key : SubscriptionKey) (t : Task) (channel name : string).

(** The state after a subscribe request, by its answer; [i'] is the index it
    leaves, [shown] the snapshot sent before the confirmation. *)
Definition answered (s : WsSession) (st' : St) (a : Answer) : Prop :=
  ws_outbound st'.2 = ws_outbound s /\ ws_open st'.2 = ws_open s /\
  match a with
  | ARefused error => ws_socket st'.2 = ws_socket s ++ [WsError error] /\ ws_tasks st'.2 = ws_tasks s
  | AStarted key t channel name =>
      (exists shown, (length shown <= 1)%nat /\ ws_socket st'.2 = ws_socket s ++ shown ++ [WsSubscribed channel name]) /\
      (forall k, ws_tasks st'.2 !! k = if decide (k = key) then Some t else ws_tasks s !! k) /\
      (forall stake, task_turn st'.1 stake t = None) /\ channel_matches channel None key = true
  end.

Lemma turn_tail {A B} capacity (log : list A) (f : A -> list B) lag : turn capacity log (length log) f lag = None.
Proof. unfold turn. by rewrite recv_drained. Qed.

Lemma answered_started i s shown key sub pos stake_pos channel name :
  (length shown <= 1)%nat -> (forall stake, task_turn i stake {| tk_sub := sub; tk_pos := pos; tk_stake_pos := stake_pos |} = None) ->
  channel_matches channel None key = true ->
  answered s (i, say [WsSubscribed channel name] (start key sub pos stake_pos (say shown s)))
    (AStarted key {| tk_sub := sub; tk_pos := pos; tk_stake_pos := stake_pos |} channel name).
Proof.
  intros Hs Ht Hc. split; [done|]. split; [done|]. split_and!; [|intros k|done|done].
  - exists shown. split; [done|]. simpl. by rewrite (assoc_L (++)).
  - simpl. case_decide; subst; [by rewrite lookup_insert_eq|by rewrite lookup_insert_ne, lookup_delete_ne].
Qed.

Lemma say_nil s : say [] s = s.
Proof. destruct s. unfold say. simpl. by rewrite app_nil_r. Qed.

Lemma option_list_length {A} (o : option A) : (length (option_list o) <= 1)%nat.
Proof. destruct o; simpl; lia. Qed.

Lemma answered_plain i s key sub pos stake_pos channel name :
  (forall stake, task_turn i stake {| tk_sub := sub; tk_pos := pos; tk_stake_pos := stake_pos |} = None) ->
  channel_matches channel None key = true ->
  answered s (i, say [WsSubscribed channel name] (start key sub pos stake_pos s))
    (AStarted key {| tk_sub := sub; tk_pos := pos; tk_stake_pos := stake_pos |} channel name).
Proof. intros Ht Hc. pose proof (answered_started i s [] key sub pos stake_pos channel name) as H. rewrite say_nil in H. apply H; [simpl; lia|done..]. Qed.

(** Each handler, by its answer. *)
Lemma answered_refused i s error : answered s (i, say [WsError error] s) (ARefused error).
Proof. done. Qed.

Ltac at_tail :=
  intros stake; unfold task_turn; cbn [tk_sub tk_pos tk_stake_pos fst snd];
  unfold orderbook_turn, quote_turn, user_turn, paper_user_turn, paper_positions_turn, paper_activity_turn, paper_stake_turn,
    paper_house_turn, bars_turn, oracle_turn; by rewrite turn_tail.
Ltac as_start := unfold session_subscribe_orderbook, session_subscribe_quote, session_subscribe_user, session_subscribe_paper_user,
  session_subscribe_paper_positions, session_subscribe_paper_activity, session_subscribe_paper_stake, session_subscribe_paper_user_state,
  session_subscribe_paper_house, session_subscribe_bars, session_subscribe_oracle.
(** The name in the confirmation of a subscription. *)
Definition sub_name (sub : Subscription) : string :=
  match sub with
  | SubOrderbook s _ | SubQuote s | SubBars s | SubOracle s => s
  | SubUser u | SubPaperUser u | SubPaperUserState u _ => u
  | SubPaperPositions | SubPaperActivity => "*"
  | SubPaperStake m _ | SubPaperHouse m => m
  end.

(** The parameters a channel asks for, in the order they are looked at. *)
Definition wanted (channel : string) (request : WsRequest) : option (list (string * option string)) :=
  let spot := ("spot_market"%string, rq_spot_market request) in
  let user := ("user_address"%string, rq_user_address request) in
  let market := ("market"%string, rq_market request) in
  if decide (channel ∈ [CHANNEL_ORDERBOOK_DELTA; CHANNEL_QUOTE; CHANNEL_BARS; CHANNEL_ORACLE]) then Some [spot]
  else if decide (channel ∈ [CHANNEL_USER; CHANNEL_PAPER_USER]) then Some [user]
  else if decide (channel = CHANNEL_PAPER_USER_STATE) then Some [user; market]
  else if decide (channel = CHANNEL_PAPER_STAKE) then Some [market; user]
  else if decide (channel = CHANNEL_PAPER_HOUSE) then Some [market]
  else if decide (channel ∈ [CHANNEL_PAPER_POSITIONS; CHANNEL_PAPER_ACTIVITY]) then Some []
  else None.

(** What is wrong with a request that names no subscription. *)
Definition incomplete (channel : string) (request : WsRequest) : string :=
  match wanted channel request with
  | None => "unknown channel: " +:+ channel
  | Some l => "missing " +:+ default "" (fst <$> head (filter (fun p => nonblank p.2 = None) l))
  end.

(** The error a subscribe request is refused with, if any. *)
Definition refusal (env : WsEnv) (i : Index) (channel : string) (request : WsRequest) : option string :=
  match request_sub channel request with
  | None => Some (incomplete channel request)
  | Some (SubOrderbook spot depth) =>
      match rehydrate_spot_from_chain i (we_query_account env) spot depth None with Err e => Some (error_to_string e) | Ok _ => None end
  | Some (SubQuote spot) =>
      match rehydrate_spot_from_chain i (we_query_account env) spot DEFAULT_BOOK_DEPTH None with Err e => Some (error_to_string e) | Ok _ => None end
  | Some (SubBars _) =>
      if decide (default INTERVAL_1M (rq_interval request) = INTERVAL_1M) then None
      else Some "subscribe bars currently supports interval=1m only; use HTTP history for 5m/1h"%string
  | Some _ => None
  end.

(** A subscribe request, by its refusal. *)
Definition subscribed_or_refused (env : WsEnv) (i : Index) (s : WsSession) (channel : string) (request : WsRequest) (st' : St) : Prop :=
  match refusal env i channel request with
  | Some error => st'.1 = i /\ answered s st' (ARefused error)
  | None => exists sub t, request_sub channel request = Some sub /\ tk_sub t = sub /\ answered s st' (AStarted (sub_key sub) t channel (sub_name sub))
  end.

Lemma nonblank_spec value v : nonblank value = Some v -> is_blank v = false.
Proof. destruct value as [x|]; simpl; [|done]. destruct (is_blank x) eqn:E; [done|]. by intros [= <-]. Qed.

Ltac started := as_start; eexists _, _; split; [reflexivity|]; split; [|apply answered_started]; [reflexivity|apply option_list_length || (simpl; lia)|at_tail|done].
Ltac started_plain := as_start; eexists _, _; split; [reflexivity|]; split; [|apply answered_plain]; [reflexivity|at_tail|done].
Lemma incomplete_first channel request n v l :
  wanted channel request = Some ((n, v) :: l) -> nonblank v = None -> incomplete channel request = ("missing " +:+ n)%string.
Proof. intros E H. unfold incomplete. rewrite E. by rewrite filter_cons_True. Qed.

Lemma incomplete_second channel request n v n' v' x :
  wanted channel request = Some [(n, v); (n', v')] -> nonblank v = Some x -> nonblank v' = None -> incomplete channel request = ("missing " +:+ n')%string.
Proof. intros E H H'. unfold incomplete. rewrite E. rewrite filter_cons_False by (simpl; congruence). by rewrite filter_cons_True. Qed.

(** A channel with one parameter, and with two. *)
Lemma one_parameter env channel request n value (mk : string -> Subscription) f i s :
  wanted channel request = Some [(n, value)] -> request_sub channel request = mk <$> nonblank value ->
  (forall v, nonblank value = Some v -> request_sub channel request = Some (mk v) -> subscribed_or_refused env i s channel request (f v (i, s))) ->
  subscribed_or_refused env i s channel request (require n value f (i, s)).
Proof.
  intros Ew Es Hf. unfold require. destruct (nonblank value) as [v|] eqn:En; simpl in Es; [by apply Hf|].
  unfold subscribed_or_refused, refusal. rewrite Es, (incomplete_first _ _ _ _ _ Ew En). split; [done|apply answered_refused].
Qed.

Lemma two_parameters env channel request n value n' value' (mk : string -> string -> Subscription) f i s :
  wanted channel request = Some [(n, value); (n', value')] ->
  request_sub channel request = (v ← nonblank value; v' ← nonblank value'; Some (mk v v')) ->
  (forall v v', nonblank value = Some v -> nonblank value' = Some v' -> request_sub channel request = Some (mk v v') ->
    subscribed_or_refused env i s channel request (f v v' (i, s))) ->
  subscribed_or_refused env i s channel request (require n value (fun v => require n' value' (f v)) (i, s)).
Proof.
  intros Ew Es Hf. unfold require. destruct (nonblank value) as [v|] eqn:En; simpl in Es.
  - destruct (nonblank value') as [v'|] eqn:En'; simpl in Es; [by apply Hf|]. unfold subscribed_or_refused, refusal.
    rewrite Es, (incomplete_second _ _ _ _ _ _ _ Ew En En'). split; [done|apply answered_refused].
  - unfold subscribed_or_refused, refusal. rewrite Es, (incomplete_first _ _ _ _ _ Ew En). split; [done|apply answered_refused].
Qed.

Lemma subscribe_answered env channel request i s :
  subscribed_or_refused env i s channel request (handle_subscribe env channel request (i, s)).
Proof.
  unfold handle_subscribe.
  case_decide; [subst channel; eapply one_parameter; [reflexivity..|]; intros v _ Hs|].
  { unfold subscribed_or_refused, refusal. rewrite Hs. unfold subscribe_orderbook, orderbook_snapshot, orderbook_listen. simpl fst. simpl snd.
    destruct (rehydrate_spot_from_chain _ _ _ _ _) as [[i' w]|e]; cbn [mbind AppResult_bind fst snd]; [started|split; [done|apply answered_refused]]. }
  case_decide; [subst channel; eapply one_parameter; [reflexivity..|]; intros v _ Hs|].
  { unfold subscribed_or_refused, refusal. rewrite Hs. unfold subscribe_quote.  simpl fst. simpl snd.
    destruct (rehydrate_spot_from_chain _ _ _ _ _) as [[i' w]|e]; [started|split; [done|apply answered_refused]]. }
  case_decide; [subst channel; eapply one_parameter; [reflexivity..|]; intros v _ Hs|].
  { unfold subscribed_or_refused, refusal. rewrite Hs. unfold subscribe_user; simpl; started_plain. }
  case_decide; [subst channel; eapply one_parameter; [reflexivity..|]; intros v _ Hs|].
  { unfold subscribed_or_refused, refusal. rewrite Hs. unfold subscribe_paper_user; simpl; started_plain. }
  case_decide; [subst channel; eapply two_parameters; [reflexivity..|]; intros u v Hu Hv Hs|].
  { unfold subscribed_or_refused, refusal. rewrite Hs. unfold subscribe_paper_user_state. rewrite !(nonblank_spec _ _ Hu), !(nonblank_spec _ _ Hv).
    as_start. eexists _, _. split; [reflexivity|]. split; [|apply answered_started]; [reflexivity|apply option_list_length| |done].
    intros stake. unfold task_turn. simpl. unfold paper_user_state_turn. destruct stake; by rewrite turn_tail. }
  case_decide; [subst channel; unfold subscribed_or_refused, refusal, subscribe_paper_positions; simpl; started_plain|].
  case_decide; [subst channel; unfold subscribed_or_refused, refusal, subscribe_paper_activity; simpl; started_plain|].
  case_decide; [subst channel; eapply two_parameters; [reflexivity..|]; intros v u Hv Hu Hs|].
  { unfold subscribed_or_refused, refusal. rewrite Hs. unfold subscribe_paper_stake. rewrite !(nonblank_spec _ _ Hu), !(nonblank_spec _ _ Hv). started. }
  case_decide; [subst channel; eapply one_parameter; [reflexivity..|]; intros v Hv Hs|].
  { unfold subscribed_or_refused, refusal. rewrite Hs. unfold subscribe_paper_house. rewrite (nonblank_spec _ _ Hv). started. }
  case_decide; [subst channel; eapply one_parameter; [reflexivity..|]; intros v _ Hs|].
  { unfold subscribed_or_refused, refusal. rewrite Hs. unfold subscribe_bars.
    destruct (decide (default INTERVAL_1M (rq_interval request) = INTERVAL_1M)) as [->|Hi];
      [rewrite decide_False by (by intros []); started|rewrite decide_True by done; split; [done|apply answered_refused]]. }
  case_decide; [subst channel; eapply one_parameter; [reflexivity..|]; intros v Hv Hs|].
  { unfold subscribed_or_refused, refusal. rewrite Hs. unfold subscribe_oracle. rewrite (nonblank_spec _ _ Hv). started. }
  unfold subscribed_or_refused, refusal.
  assert (request_sub channel request = None) as -> by (unfold request_sub; by rewrite !decide_False by done).
  assert (incomplete channel request = ("unknown channel: " +:+ channel)%string) as ->
    by (unfold incomplete, wanted; by rewrite !decide_False by set_solver).
  split; [done|apply answered_refused].
Qed.

(** C17: every request is handled at once, in the order requests arrive.  A
    subscribe request has exactly one answer, which its fields determine: the
    error of the parameter it lacks, of its channel, of the node that could not
    be asked for the book, or of the candle interval, and then nothing else
    changes; or else a confirmation, after at most one snapshot, with the task
    of its subscription, and no other, started at the tail of its channel.  An
    unsubscribe request ends exactly the tasks of its channel that its key
    names, all tasks of the channel when it names none; it is confirmed only when
    it names a key (always for the two public feeds), and one without a known
    channel is not answered at all.  Any other operation is an error.  Nothing is
    put in the tasks' queue. *)
Theorem request_answered env request i s :
  let st' := handle_request env request (i, s) in
  if decide (rq_op request = "subscribe")%string then
    match rq_channel request with
    | None => st'.1 = i /\ answered s st' (ARefused "missing channel")
    | Some channel => subscribed_or_refused env i s channel request st'
    end
  else if decide (rq_op request = "unsubscribe")%string then
    st'.1 = i /\
    match rq_channel request with
    | None => st'.2 = s
    | Some channel => unsubscribed channel request s st'.2
    end
  else st'.1 = i /\ answered s st' (ARefused ("unknown op: " +:+ rq_op request)%string).
Proof.
  unfold handle_request. case_decide.
  - destruct (rq_channel request) as [channel|]; [apply subscribe_answered|]. split; [done|apply answered_refused].
  - case_decide; [|split; [done|apply answered_refused]]. destruct (rq_channel request) as [channel|]; simpl; (split; [done|]); [|done].
    apply unsubscribe_shape.
Qed.

(** ** What a subscription may show *)

(** Messages that carry data: all but errors, confirmations and pongs. *)
Definition data (m : WsOut) : bool :=
  match m with WsError _ | WsSubscribed _ _ | WsUnsubscribed _ _ | WsPong _ => false | _ => true end.

(** The message is one the subscription may show: its channel's, and on the
    channels of one user, of that user (the stake feed carries a market's ticks,
    with the view of the user of the subscription). *)
Definition about (sub : Subscription) (m : WsOut) : Prop :=
  match m, sub with
  | WsUser m, SubUser u => eq_ignore_ascii_case (msg_user_address m) u = true
  | WsPaperUser m, SubPaperUser u => eq_ignore_ascii_case (pu_user_address m) u = true
  | WsPaperUserState st, SubPaperUserState u market => us_user_address st = u /\ us_market st = market
  | WsPaperStake m, SubPaperStake _ u => forall v, pm_stake m = Some v -> sv_address v = trim u
  | WsOrderBookSnapshot _, SubOrderbook _ _ | WsOrderBookDelta _, SubOrderbook _ _ => True
  | WsQuoteSnapshot _, SubQuote _ | WsQuoteDelta _, SubQuote _ => True
  | WsPaperPosition _, SubPaperPositions | WsPaperActivity _, SubPaperActivity => True
  | WsPaperHouse _, SubPaperHouse _ | WsOracle _, SubOracle _ => True
  | WsBarsSnapshot _, SubBars _ | WsBar _, SubBars _ => True
  | _, _ => False
  end.

(** Open the binds of a definition that answered. *)
Ltac bound := repeat match goal with H : _ ≫= _ = Some _ |- _ => apply bind_Some in H; destruct H as (? & ? & H) end.

Lemma view_address p market user v : paper_stake_view p market user = Some v -> sv_address v = trim user.
Proof.
  unfold paper_stake_view. cbn zeta. case_decide; [done|]. intros Hv. bound. by injection Hv as <-.
Qed.

Lemma user_state_about p u market st : paper_user_state p u market = Some st -> us_user_address st = u /\ us_market st = market.
Proof.
  unfold paper_user_state. intros Hv. bound. by injection Hv as <-.
Qed.

Lemma user_state_out_about i u market : Forall (about (SubPaperUserState u market)) (user_state_out i u market).
Proof.
  unfold user_state_out. destruct (paper_user_state (ix_paper i) u market) as [st|] eqn:E; simpl; [|constructor].
  constructor; [by apply (user_state_about (ix_paper i))|constructor].
Qed.

Lemma turn_Forall {A} (P : WsOut -> Prop) capacity (log : list A) pos f lag pos' out :
  turn capacity log pos f lag = Some (pos', out) -> (forall a, a ∈ log -> Forall P (f a)) -> Forall P lag -> Forall P out.
Proof.
  intros [(a & Ha & _ & ->)|(_ & ->)]%turn_Some Hf Hl; [|done]. apply Hf. by eapply list_elem_of_lookup_2.
Qed.

Lemma pick_stake_None market i m : m ∈ paper_channel (pick_stake market) i -> pm_stake m = None.
Proof.
  intros (x & _ & Hx)%list_elem_of_omap. destruct x; simpl in Hx; try done. case_decide; [|done]. by injection Hx as <-.
Qed.

Lemma task_turn_about i stake t t' out :
  task_turn i stake t = Some (t', out) -> tk_sub t' = tk_sub t /\ Forall (about (tk_sub t)) out.
Proof.
  unfold task_turn. destruct t as [sub pos pos2]. simpl.
  destruct sub; simpl; intros H;
    try (apply bind_Some in H as ([q o] & E & H); injection H as <- <-; split; [done|]);
    try (eapply turn_Forall; [exact E|intros a _; by repeat constructor|by repeat constructor]).
  - unfold orderbook_turn in E. eapply turn_Forall; [exact E|intros a _; by repeat constructor|].
    destruct (ws_snapshot _ _ _); simpl; by repeat constructor.
  - eapply turn_Forall; [exact E|intros a _; cbn beta; destruct (eq_ignore_ascii_case (msg_user_address a) user_address) eqn:Ea; by repeat constructor|constructor].
  - eapply turn_Forall; [exact E|intros a _; cbn beta; destruct (eq_ignore_ascii_case (pu_user_address a) user_address) eqn:Ea; by repeat constructor|constructor].
  - eapply turn_Forall; [exact E| |constructor]. intros a Ha. constructor; [|constructor]. simpl.
    destruct (paper_stake_view (ix_paper i) market user_address) as [v|] eqn:Ev; simpl.
    + intros v' [= <-]. by eapply view_address.
    + intros v' Hv. apply pick_stake_None in Ha. congruence.
  - apply bind_Some in H as ([[q1 q2] o] & E & H). injection H as <- <-. split; [done|].
    unfold paper_user_state_turn in E. destruct stake; apply bind_Some in E as ([q o'] & E & [= <- <- <-]);
      (eapply turn_Forall; [exact E|intros a _|apply user_state_out_about]); [apply user_state_out_about|].
    cbn beta; destruct (eq_ignore_ascii_case (pu_user_address a) user && eq_ignore_ascii_case (pu_market a) market); [apply user_state_out_about|constructor].
Qed.

(** A subscribe request starts at most the task it names, and shows only what
    that subscription may show. *)
Definition request_effect (channel : string) (request : WsRequest) (s s' : WsSession) : Prop :=
  exists shown, ws_socket s' = ws_socket s ++ shown /\ ws_outbound s' = ws_outbound s /\
    Forall (fun m => data m = true -> exists sub, request_sub channel request = Some sub /\ about sub m) shown /\
    forall k, ws_tasks s' !! k = ws_tasks s !! k \/
      exists sub t, request_sub channel request = Some sub /\ k = sub_key sub /\ ws_tasks s' !! k = Some t /\ tk_sub t = sub.

Lemma effect_refused channel request s error : request_effect channel request s (say [WsError error] s).
Proof. exists [WsError error]. split_and!; [done|done|by repeat constructor|by left]. Qed.

Lemma effect_started channel request s shown sub pos stake_pos ch name :
  request_sub channel request = Some sub -> Forall (about sub) shown ->
  request_effect channel request s (say [WsSubscribed ch name] (start (sub_key sub) sub pos stake_pos (say shown s))).
Proof.
  intros Hs Hf. exists (shown ++ [WsSubscribed ch name]). split_and!; [by rewrite (assoc_L (++))|done| |intros k].
  - apply Forall_app. split; [|by repeat constructor]. eapply Forall_impl; [exact Hf|]. intros m Hm _. by exists sub.
  - simpl. destruct (decide (k = sub_key sub)) as [->|Hk].
    + right. eexists sub, _. split_and!; [done|done|by rewrite lookup_insert_eq|done].
    + left. by rewrite lookup_insert_ne, lookup_delete_ne.
Qed.

Lemma effect_plain channel request s sub pos stake_pos ch name :
  request_sub channel request = Some sub ->
  request_effect channel request s (say [WsSubscribed ch name] (start (sub_key sub) sub pos stake_pos s)).
Proof. intros Hs. pose proof (effect_started channel request s [] sub pos stake_pos ch name Hs) as H. rewrite say_nil in H. apply H. constructor. Qed.

Lemma effect_require channel request s name value f i :
  (forall v, nonblank value = Some v -> request_effect channel request s (f v (i, s)).2) ->
  request_effect channel request s (require name value f (i, s)).2.
Proof. intros H. unfold require. destruct (nonblank value) as [v|]; [by apply H|apply effect_refused]. Qed.

(** The channel of the branch names the subscription. *)
Ltac named := match goal with H : ?c = _ |- request_sub ?c _ = _ => rewrite H end; unfold request_sub;
  repeat match goal with H : nonblank _ = Some _ |- _ => rewrite H; clear H end; reflexivity.

Lemma subscribe_effect env channel request i s :
  request_effect channel request s (handle_subscribe env channel request (i, s)).2.
Proof.
  unfold handle_subscribe.
  case_decide as E1; [apply effect_require; intros v Hv|].
  { assert (request_sub channel request = Some (SubOrderbook v (clamp 1 DEFAULT_BOOK_DEPTH (default 10 (rq_depth request))))) as Hs
      by (named).
    unfold subscribe_orderbook, orderbook_snapshot, orderbook_listen. simpl fst. simpl snd.
    destruct (rehydrate_spot_from_chain _ _ _ _ _) as [[i' w]|e]; cbn [mbind AppResult_bind fst snd]; [|apply effect_refused].
    as_start. simpl. apply (effect_started _ _ _ _ (SubOrderbook v _)); [exact Hs|]. destruct (ws_snapshot _ _ _); simpl; by repeat constructor. }
  case_decide as E2; [apply effect_require; intros v Hv|].
  { assert (request_sub channel request = Some (SubQuote v)) as Hs by (named).
    unfold subscribe_quote. destruct (rehydrate_spot_from_chain _ _ _ _ _) as [[i' w]|e]; [|apply effect_refused].
    as_start. simpl. apply (effect_started _ _ _ _ (SubQuote v)); [exact Hs|]. destruct (ws_quote_snapshot _ _); simpl; by repeat constructor. }
  case_decide as E3; [apply effect_require; intros v Hv|].
  { as_start. apply (effect_plain _ _ _ (SubUser v)). named. }
  case_decide as E4; [apply effect_require; intros v Hv|].
  { as_start. apply (effect_plain _ _ _ (SubPaperUser v)). named. }
  case_decide as E5; [apply effect_require; intros u Hu; apply effect_require; intros v Hv|].
  { unfold subscribe_paper_user_state. repeat (case_match; [apply effect_refused|]). as_start.
    apply (effect_started _ _ _ _ (SubPaperUserState u v)); [|apply user_state_out_about].
    named. }
  case_decide as E6; [as_start; apply (effect_plain _ _ _ SubPaperPositions); by subst channel|].
  case_decide as E7; [as_start; apply (effect_plain _ _ _ SubPaperActivity); by subst channel|].
  case_decide as E8; [apply effect_require; intros v Hv; apply effect_require; intros u Hu|].
  { unfold subscribe_paper_stake. repeat (case_match; [apply effect_refused|]). as_start.
    apply (effect_started _ _ _ _ (SubPaperStake v u)).
    - named.
    - destruct (paper_stake_ws _ _ _ _ _) as [m|] eqn:Em; simpl; [|constructor]. constructor; [|constructor]. simpl.
      intros w Hw. unfold paper_stake_ws in Em. apply bind_Some in Em as (x & Ex & Em). case_match. case_match.
      injection Em as <-. simpl in Hw. injection Hw as <-. by eapply view_address. }
  case_decide as E9; [apply effect_require; intros v Hv|].
  { unfold subscribe_paper_house. case_match; [apply effect_refused|]. as_start.
    apply (effect_started _ _ _ _ (SubPaperHouse v)); [named|].
    destruct (paper_house_ws _ _ _ _); simpl; by repeat constructor. }
  case_decide as E10; [apply effect_require; intros v Hv|].
  { unfold subscribe_bars. case_decide; [apply effect_refused|]. as_start.
    apply (effect_started _ _ _ _ (SubBars v)); [named|]. by repeat constructor. }
  case_decide as E11; [apply effect_require; intros v Hv|apply effect_refused].
  unfold subscribe_oracle. case_match; [apply effect_refused|]. as_start.
  apply (effect_started _ _ _ _ (SubOracle v)); [named|].
  destruct (oracle_mark_ws _ _); simpl; by repeat constructor.
Qed.

(** ** What a connection is sent *)

(** A subscribe request for [sub] is among the events. *)
Definition asked (es : list SessionEvent) (sub : Subscription) : Prop :=
  exists env request channel, SvIncoming env (InText (inl request)) ∈ es /\ rq_op request = "subscribe"%string /\
    rq_channel request = Some channel /\ request_sub channel request = Some sub.

Definition allowed (es : list SessionEvent) (m : WsOut) : Prop := data m = true -> exists sub, asked es sub /\ about sub m.

Definition session_inv (es : list SessionEvent) (s : WsSession) : Prop :=
  (forall k t, ws_tasks s !! k = Some t -> asked es (tk_sub t)) /\
  Forall (allowed es) (ws_outbound s) /\ Forall (allowed es) (ws_socket s).

Lemma asked_mono es es' sub : es ⊆ es' -> asked es sub -> asked es' sub.
Proof. intros Hs (env & rq & ch & H1 & H2). exists env, rq, ch. split; [by apply Hs|done]. Qed.

Lemma allowed_mono es es' m : es ⊆ es' -> allowed es m -> allowed es' m.
Proof. intros Hs H Hp. destruct (H Hp) as (sub & Ha & Hb). exists sub. split; [by eapply asked_mono|done]. Qed.

Lemma session_inv_mono es es' s : es ⊆ es' -> session_inv es s -> session_inv es' s.
Proof.
  intros Hs (H1 & H2 & H3). split_and!.
  - intros k t Ht. eapply asked_mono; [exact Hs|by eapply H1].
  - eapply Forall_impl; [exact H2|]. intros m. by apply allowed_mono.
  - eapply Forall_impl; [exact H3|]. intros m. by apply allowed_mono.
Qed.

Lemma confirm_allowed es channel name : Forall (allowed es) (confirm channel name).
Proof. destruct name; simpl; by repeat constructor. Qed.

Lemma request_inv env request es i s :
  SvIncoming env (InText (inl request)) ∈ es -> session_inv es s -> session_inv es (handle_request env request (i, s)).2.
Proof.
  intros Hin (H1 & H2 & H3). unfold handle_request. case_decide as Eo.
  - destruct (rq_channel request) as [channel|] eqn:Ec.
    2:{ split_and!; [done|done|]. apply Forall_app. split; [done|]. by repeat constructor. }
    destruct (subscribe_effect env channel request i s) as (shown & Es & Eq & Hf & Ht).
    assert (forall sub, request_sub channel request = Some sub -> asked es sub) as Ha by (intros sub Hs; by exists env, request, channel).
    split_and!.
    + intros k t Hk. destruct (Ht k) as [E|(sub & t' & Hs & -> & E & <-)].
      * rewrite E in Hk. by eapply H1.
      * rewrite E in Hk. injection Hk as <-. by apply Ha.
    + by rewrite Eq.
    + rewrite Es. apply Forall_app. split; [done|]. eapply Forall_impl; [exact Hf|].
      intros m Hm Hp. destruct (Hm Hp) as (sub & Hs & Hb). exists sub. split; [by apply Ha|done].
  - case_decide.
    + destruct (rq_channel request) as [channel|]; [|done].
      destruct (unsubscribe_shape channel request s) as (Es & Eq & _ & Ht).
      split_and!; [| |].
      * intros k t. simpl. rewrite Ht. destruct (channel_matches channel _ k); [done|apply H1].
      * simpl. by rewrite Eq.
      * simpl. rewrite Es. apply Forall_app. split; [done|]. apply confirm_allowed.
    + split_and!; [done|done|]. apply Forall_app. split; [done|]. by repeat constructor.
Qed.

Lemma session_step_inv es st e st' : e ∈ es -> session_inv es st.2 -> session_step st e = Some st' -> session_inv es st'.2.
Proof.
  intros Hin (H1 & H2 & H3) Hs. destruct st as [i s], e as [i'|env message|key stake|]; simpl in Hs, H1, H2, H3.
  - by injection Hs as <-.
  - destruct (ws_open s); [|done]. injection Hs as <-. destruct message as [[request|error]|payload| | |]; simpl; try done.
    + by eapply request_inv.
    + split_and!; [done| |done]. apply Forall_app. split; [done|]. by repeat constructor.
    + split_and!; [done|done|]. apply Forall_app. split; [done|]. by repeat constructor.
  - apply bind_Some in Hs as (s' & Hs & [= <-]). unfold run_task in Hs.
    apply bind_Some in Hs as (t & Ht & Hs). apply bind_Some in Hs as ([t' out] & Eo & Hs).
    destruct (task_turn_about _ _ _ _ _ Eo) as [Esub Hout].
    assert (forall k x, <[key := t']> (ws_tasks s) !! k = Some x -> asked es (tk_sub x)) as Htasks.
    { intros k x. rewrite lookup_insert_Some. intros [[_ <-]|[_ Hx]]; [rewrite Esub; by eapply H1|by eapply H1]. }
    destruct (ws_open s).
    + injection Hs as <-. split_and!; [exact Htasks| |done]. simpl. apply Forall_app. split; [done|].
      eapply Forall_impl; [exact Hout|]. intros m Hm _. exists (tk_sub t). split; [by eapply H1|done].
    + destruct out; injection Hs as <-; split_and!; try done. simpl. intros k x. rewrite lookup_delete_Some. intros [_ Hx]. by eapply H1.
  - destruct (ws_open s); [|done]. apply bind_Some in Hs as (s' & Hs & [= <-]). unfold send_outbound in Hs.
    destruct (ws_outbound s) as [|m out] eqn:E; [done|]. injection Hs as <-. apply Forall_cons in H2 as [Hm H2].
    split_and!; [done|done|]. simpl. apply Forall_app. by split; [|constructor].
Qed.

Lemma session_run_inv all es st st' : es ⊆ all -> session_inv all st.2 -> session_run st es = Some st' -> session_inv all st'.2.
Proof.
  revert st. induction es as [|e es IH]; intros st Hs H Hrun; simpl in Hrun; [by injection Hrun as <-|].
  apply bind_Some in Hrun as (st1 & E1 & Hrun). eapply IH; [set_solver| |exact Hrun]. eapply session_step_inv; [|exact H|exact E1]. set_solver.
Qed.

(** C16: a connection is only sent what it subscribed to: whatever the index
    does and whenever its tasks run, every message with data in the queue or on
    the socket belongs to a subscription it requested; orders and trades, paper
    positions and account states, and stake views are only those of the user
    addresses it named, compared as the code compares them.  Any client may name
    any address, and the two public feeds, [paper.positions] and
    [paper.activity], carry the address, margin and profit of every user to
    whoever subscribes to them. *)
Theorem session_only_asked i es st' :
  session_run (i, WsSession_new) es = Some st' ->
  Forall (allowed es) (ws_socket st'.2 ++ ws_outbound st'.2).
Proof.
  intros H. destruct (session_run_inv es es (i, WsSession_new) st' ltac:(done) ltac:(done) H) as (_ & H2 & H3).
  apply Forall_app. by split.
Qed.

(** ** Unsubscribing what was subscribed *)

Lemma lower_app s t : to_ascii_lowercase (s +:+ t) = (to_ascii_lowercase s +:+ to_ascii_lowercase t)%string.
Proof. unfold to_ascii_lowercase. by rewrite chars_app, fmap_app, text_app. Qed.

Lemma cancelled_key conf channel key k s :
  channel_matches channel key k = true -> ws_tasks (say conf (cancel_channel channel key s)) !! k = None.
Proof. intros H. simpl. by rewrite cancel_channel_lookup, H. Qed.

Lemma unsubscribe_names channel request sub s :
  request_sub channel request = Some sub -> ws_tasks (handle_unsubscribe channel request s) !! sub_key sub = None.
Proof.
  unfold request_sub, handle_unsubscribe. intros H.
  repeat (case_decide; [
    first [destruct (nonblank (rq_spot_market request)) as [sp|] | idtac];
    first [destruct (nonblank (rq_user_address request)) as [us|] | idtac];
    first [destruct (nonblank (rq_market request)) as [mk|] | idtac];
    simpl in H; simplify_eq; apply cancelled_key; simpl; rewrite ?eq_ignore_ascii_case_refl; try done|]); try done.
  all: unfold user_state_key, eq_ignore_ascii_case; rewrite !lower_app, !to_ascii_lowercase_idemp, bool_decide_eq_true_2; done.
Qed.

(** What a subscribe request started, the unsubscribe request with the same
    parameters ends, and it leaves every task of another channel alone. *)
Theorem subscribe_unsubscribe env request unrequest i s k :
  rq_op request = "subscribe"%string -> rq_op unrequest = "unsubscribe"%string -> rq_channel unrequest = rq_channel request ->
  rq_spot_market unrequest = rq_spot_market request -> rq_user_address unrequest = rq_user_address request ->
  rq_market unrequest = rq_market request ->
  let st1 := handle_request env request (i, s) in
  let st2 := handle_request env unrequest st1 in
  (ws_tasks st1.2 !! k <> ws_tasks s !! k -> ws_tasks st2.2 !! k = None) /\
  (channel_matches (default ""%string (rq_channel request)) None k = false -> ws_tasks st2.2 !! k = ws_tasks s !! k).
Proof.
  intros E1 E2 Ec Es Eu Em. unfold handle_request. rewrite E1, E2, Ec. simpl.
  destruct (rq_channel request) as [channel|]; [|done]. simpl.
  destruct (handle_subscribe env channel request (i, s)) as [i1 s1] eqn:Eh. simpl.
  pose proof (subscribe_effect env channel request i s) as (shown & _ & _ & _ & Ht). rewrite Eh in Ht. simpl in Ht.
  split.
  - intros Hne. destruct (Ht k) as [?|(sub & t & Hsub & -> & _)]; [done|].
    assert (exists sub', request_sub channel unrequest = Some sub' /\ sub_key sub' = sub_key sub) as (sub' & Hsub' & <-).
    { revert Hsub. unfold request_sub. rewrite Es, Eu, Em. case_decide.
      - destruct (nonblank (rq_spot_market request)) as [v|]; [|done]. simpl. intros [= <-]. by eexists.
      - intros Hx. by exists sub. }
    by apply unsubscribe_names.
  - intros Hm. destruct (unsubscribe_shape channel unrequest s1) as (_ & _ & _ & Hk). rewrite Hk.
    assert (channel_matches channel (unsubscribe_key channel unrequest) k = false) as ->.
    { destruct k; simpl in *; try done; rewrite andb_true_r in Hm || idtac; by rewrite ?Hm. }
    destruct (Ht k) as [?|(sub & t & Hsub & -> & _)]; [done|]. exfalso. revert Hm Hsub. unfold request_sub.
    repeat (case_decide; [subst; intros Hm Hsub;
      repeat match type of Hsub with context [nonblank ?o] => destruct (nonblank o); simpl in Hsub end; simplify_eq; done|]); done.
Qed.

(** ** What the code does not do *)

Lemma listen_task spot depth i s :
  exists t, ws_tasks (orderbook_listen spot depth (i, s)).2 !! KOrderbook spot = Some t /\
    (forall stake, task_turn (orderbook_listen spot depth (i, s)).1 stake t = None) /\
    shard (ix_books (orderbook_listen spot depth (i, s)).1) spot = shard (ix_books i) spot.
Proof.
  eexists. split; [by apply lookup_insert_eq|]. split; [at_tail|].
  unfold orderbook_listen. simpl. unfold books_subscribe, shard, put_shard. simpl. by rewrite lookup_insert_eq.
Qed.

Lemma published_sequence b spot op :
  op_spot op = spot -> is_Some (op_effect op) -> 0 <= sequence (ms_book (shard b spot)) < u64_max ->
  sequence (ms_book (shard (book_step true (b, None) op).1 spot)) = sequence (ms_book (shard b spot)) + 1.
Proof.
  intros <- [[[[side p] a] add] He] Hs. pose proof (step_shape true b None op) as HS. rewrite He in HS.
  destruct HS as (sh' & Es & Ch & _). rewrite (shard_put_same _ _ _ _ (op_spot op) Es eq_refl).
  rewrite (ch_seq _ _ _ _ _ _ _ Ch). mach.
Qed.

(** While a book subscription is being set up an order event of the market
    is lost to it: published after the snapshot was taken and before the
    receiver exists, it is in neither; the new task has nothing to read and the
    client's sequence number is behind the book's. *)
Theorem orderbook_subscribe_gap env spot depth i s i0 s0 op :
  orderbook_snapshot env spot depth (i, s) = Ok (i0, s0) ->
  op_spot op = spot -> is_Some (op_effect op) -> 0 <= sequence (ms_book (shard (ix_books i0) spot)) < u64_max ->
  let i1 := set_books (book_step true (ix_books i0, None) op).1 i0 in
  let st := orderbook_listen spot depth (i1, s0) in
  exists snap t, WsOrderBookSnapshot snap ∈ ws_socket st.2 /\ ws_tasks st.2 !! KOrderbook spot = Some t /\
    (forall stake, task_turn st.1 stake t = None) /\
    sequence (ms_book (shard (ix_books st.1) spot)) = obs_sequence snap + 1.
Proof.
  intros E Ho He Hs i1 st. unfold orderbook_snapshot in E. simpl in E.
  destruct (rehydrate_spot_from_chain i (we_query_account env) spot depth None) as [[i0' w]|e] eqn:Er; [|done].
  injection E as -> <-. destruct (subscribe_shape env spot depth i s i0 w Er) as (snap & Hsnap & _).
  destruct (listen_task spot depth i1 (say (option_list (WsOrderBookSnapshot <$> ws_snapshot (ix_books i0) spot (Z.to_nat depth))) s))
    as (t & Ht & Hd & Hsh).
  exists snap, t. unfold st. rewrite Hsh. split_and!; [|exact Ht|exact Hd|].
  - rewrite Hsnap. simpl. set_solver.
  - simpl. rewrite published_sequence by done. f_equal. unfold ws_snapshot in Hsnap.
    unfold shard. unfold try_shard in Hsnap. destruct (shards (ix_books i0) !! _) as [sh|]; [|done]. simpl in *. by injection Hsnap as <-.
Qed.

(** A rehydration replaces the levels of a book and moves its sequence
    number without publishing anything: the channels are as before, and a client
    that showed the book shows it no longer. *)
Theorem rehydrate_not_published q spot depth i i' ws ws' c :
  rehydrate_spot_from_chain i q spot depth ws = Ok (i', ws') ->
  0 <= sequence (ms_book (shard (ix_books i) spot)) < u64_max -> book_view c (ms_book (shard (ix_books i) spot)) ->
  orderbook_channel i' spot = orderbook_channel i spot /\ quote_channel i' spot = quote_channel i spot /\
  ~ book_view c (ms_book (shard (ix_books i') spot)).
Proof.
  intros H Hs (_ & _ & Hv). apply hydrate_spot_Ok in H as (cb & price & -> & _). unfold orderbook_channel, quote_channel. simpl.
  assert (exists book, shard (hydrate_from_chain (ix_books i) spot cb price ws).1 spot = set_book (shard (ix_books i) spot) book /\
    sequence book = sequence (ms_book (shard (ix_books i) spot)) + 1) as (book & -> & Hb).
  { unfold hydrate_from_chain. destruct (hydrate_levels _ Buy _ _) as [b1 w1], (hydrate_levels _ Sell _ _) as [a1 w2]. simpl.
    eexists. split; [unfold shard at 1; unfold put_shard; simpl; by rewrite lookup_insert_eq|]. simpl. mach. }
  split_and!; [done|done|]. intros (_ & _ & Hn). simpl in Hn. lia.
Qed.

Definition quiet_for (user : string) (i : Index) : Prop :=
  Forall (fun m => eq_ignore_ascii_case (msg_user_address m) user = false) (ix_hub i).

Lemma quiet_turn i u stake t t' out :
  tk_sub t = SubUser u -> quiet_for u i -> task_turn i stake t = Some (t', out) -> out = [] /\ tk_sub t' = SubUser u.
Proof.
  intros Hs Hq H. unfold task_turn in H. rewrite Hs in H. apply bind_Some in H as ([q o] & E & H). injection H as <- <-. split; [|done].
  unfold user_turn in E. apply turn_Some in E as [(a & Ha & _ & ->)|(_ & ->)]; [|done].
  apply list_elem_of_lookup_2 in Ha. unfold quiet_for in Hq. rewrite Forall_forall in Hq. by rewrite (Hq a Ha).
Qed.

(** Closing a connection does not end its tasks: a user subscription reads on
    for as long as the node reports nothing about that user. *)
Theorem closed_session_leaks_task u es i s st' t :
  ws_open s = false -> ws_tasks s !! KUser u = Some t -> tk_sub t = SubUser u -> quiet_for u i ->
  (forall i', SvIndex i' ∈ es -> quiet_for u i') ->
  session_run (i, s) es = Some st' ->
  exists t', ws_tasks st'.2 !! KUser u = Some t' /\ tk_sub t' = SubUser u.
Proof.
  revert i s t. induction es as [|e es IH]; intros i s t Ho Ht Hs Hq Hi H; simpl in H; [injection H as <-; by exists t|].
  apply bind_Some in H as ([i1 s1] & E & H).
  assert (forall i', SvIndex i' ∈ es -> quiet_for u i') as Hi' by (intros; apply Hi; set_solver).
  destruct e as [i'|env m|key stake|]; simpl in E; rewrite ?Ho in E; try done.
  - injection E as <- <-. eapply IH; [exact Ho|exact Ht|exact Hs| |exact Hi'|exact H]. apply Hi. set_solver.
  - apply bind_Some in E as (s2 & E & [= <- <-]). unfold run_task in E. apply bind_Some in E as (t1 & E1 & E).
    apply bind_Some in E as ([t2 out] & E2 & E). rewrite Ho in E.
    destruct (decide (key = KUser u)) as [->|Hk].
    + assert (t1 = t) as -> by congruence. destruct (quiet_turn i u stake t t2 out Hs Hq E2) as [-> Hs2]. injection E as <-.
      refine (IH _ (on_tasks (<[KUser u := t2]>) s) t2 Ho _ Hs2 Hq Hi' H). by apply lookup_insert_eq.
    + destruct out; injection E as <-.
      * refine (IH _ (on_tasks (<[key := t2]>) s) t Ho _ Hs Hq Hi' H). simpl. by rewrite lookup_insert_ne.
      * refine (IH _ (cancel_task key s) t Ho _ Hs Hq Hi' H). simpl. by rewrite lookup_delete_ne.
Qed.

End Requests.

(** ** Witnesses *)

Definition demo_env : WsEnv := {| we_query_account := "a1"; we_now_ms := 5; we_load_closed_bars := fun _ _ _ _ _ => Ok [] |}.

Definition ok_index (r : AppResult (Index * option WriteSet.IndexWriteSet)) : Index := match r with Ok (i, _) => i | Err _ => Index_new false end.

Definition demo_hydration := rehydrate_spot_from_chain (SD := DemoSdk) (C := DemoChain) (Index_new false) "a1" "c7" 10 None.
Definition demo_index : Index := ok_index demo_hydration.

Lemma demo_hydrated : exists w, demo_hydration = Ok (demo_index, w).
Proof.
  assert (is_ok demo_hydration = true) as H by (vm_compute; reflexivity). unfold demo_index.
  destruct demo_hydration as [[i w]|e]; [by exists w|done].
Qed.

Definition demo_snapshot := orderbook_snapshot (SD := DemoSdk) (C := DemoChain) demo_env "c7" 10 (Index_new false, WsSession_new).

Lemma demo_index_book : book_ok (ms_book (shard (S := DemoSdk) (ix_books demo_index) "c7")).
Proof.
  split; intros p s Hp; apply elem_of_map_to_list in Hp; vm_compute in Hp;
    repeat (apply elem_of_cons in Hp as [[= -> ->]|Hp]); try (by apply elem_of_nil in Hp);
    (split; split; vm_compute; congruence).
Qed.

Definition demo_events : list FeedEvent :=
  [FeOp (OpCreated "c7" Sell 650000 9 4); FeTurn; FeOp (OpCancelled "c7" Buy 5 40 5); FeOp (OpCreated "c8" Buy 3 3 5); FeTurn].

(** An order of another market between the snapshot and the subscription. *)
Definition demo_gap : Index := set_books (book_step (SD := DemoSdk) true (ix_books demo_index, None) (OpCreated "c8" Buy 3 3 4)).1 demo_index.
Definition demo_start : BookFeed :=
  {| bf_index := demo_gap; bf_pos := 0; bf_client := {| c_bids := ∅; c_asks := ∅; c_sequence := 0 |} |}.

Definition fits_b (depth : nat) (book : SpotBook) : bool := bool_decide (size (bids book) <= depth /\ size (asks book) <= depth)%nat.

Lemma feed_index `{SD : Sdk, BC : !Broadcast} spot depth f g es :
  bf_index f = bf_index g -> bf_index (feed_run spot depth f es) = bf_index (feed_run spot depth g es).
Proof.
  revert f g. induction es as [|e es IH]; intros f g E; simpl; [done|]. apply IH. destruct e as [op|]; simpl; [by rewrite E|].
  by destruct (orderbook_turn (bf_index f) _ _ _) as [[? ?]|], (orderbook_turn (bf_index g) _ _ _) as [[? ?]|].
Qed.

Lemma demo_fits f n :
  bf_index f = demo_gap -> fits 10 (feed_book (SD := DemoSdk) "c7" (feed_run (SD := DemoSdk) "c7" 10 f (take n demo_events))).
Proof.
  intros E. unfold feed_book. rewrite (feed_index (SD := DemoSdk) "c7" 10 f demo_start _ E).
  change (fits 10 (feed_book (SD := DemoSdk) "c7" (feed_run (SD := DemoSdk) "c7" 10 demo_start (take n demo_events)))).
  assert (forall book, fits_b 10 book = true -> fits 10 book) as H by (intros book Hb; by apply bool_decide_eq_true_1 in Hb).
  apply H. clear H.
  do 6 (destruct n as [|n]; [vm_compute; reflexivity|]). vm_compute. reflexivity.
Qed.

Definition demo_half : WsSession := match demo_snapshot with Ok st => st.2 | Err _ => WsSession_new end.
Lemma demo_snapshot_half : demo_snapshot = Ok (demo_index, demo_half).
Proof.
  destruct demo_hydrated as [w E]. unfold demo_half, demo_snapshot, orderbook_snapshot. cbn [fst snd].
  change (rehydrate_spot_from_chain (Index_new false) (we_query_account demo_env) "c7" 10 None) with demo_hydration. by rewrite E.
Qed.
Definition demo_subscribed : St := orderbook_listen (SD := DemoSdk) "c7" 10 (demo_gap, demo_half).

Lemma book_feed_converges_witness :
  exists snap t, ws_tasks demo_subscribed.2 !! KOrderbook "c7" = Some t /\
    let start := {| bf_index := demo_subscribed.1; bf_pos := tk_pos t; bf_client := client_of snap |} in
    let f := feed_run (SD := DemoSdk) "c7" 10 start demo_events in
    length (feed_log (SD := DemoSdk) "c7" f) = 2%nat /\ book_view (SD := DemoSdk) (bf_client f) (feed_book (SD := DemoSdk) "c7" f).
Proof.
  destruct (book_feed_converges (SD := DemoSdk) (C := DemoChain) demo_env "c7" 10 (Index_new false) WsSession_new demo_index demo_half demo_gap demo_events
    demo_snapshot_half ltac:(vm_compute; reflexivity) demo_index_book ltac:(vm_compute; split; congruence)) as (snap & t & _ & Ht & H).
  destruct (halves_shape (SD := DemoSdk) (C := DemoChain) demo_env "c7" 10 (Index_new false) WsSession_new demo_index demo_half demo_gap
    demo_snapshot_half ltac:(vm_compute; reflexivity)) as (_ & _ & _ & _ & Ei).
  assert (tk_pos t = O) as Ep.
  { assert (tk_pos <$> (ws_tasks demo_subscribed.2 !! KOrderbook "c7") = Some O) as Hp by (vm_compute; reflexivity).
    unfold demo_subscribed in Hp. rewrite Ht in Hp. by injection Hp. }
  exists snap, t. split; [exact Ht|]. unfold demo_subscribed. rewrite Ep in *. split; [vm_compute; reflexivity|]. apply H.
  - repeat (constructor; [first [exact I|split; [split; vm_compute; split; congruence|vm_compute; split; congruence]]|]). constructor.
  - intros n. apply demo_fits. exact Ei.
  - apply some_b_false. vm_compute. reflexivity.
Defined.

Definition demo_request (op channel : string) : WsRequest :=
  {| rq_op := op; rq_channel := Some channel; rq_spot_market := Some "c7"%string; rq_user_address := Some "0xAb"%string;
     rq_market := Some "c9"%string; rq_depth := Some 10; rq_interval := None |}.

Lemma request_answered_witness :
  let st' := handle_request (SD := DemoSdk) (C := DemoChain) (AC := DemoAccountChain) demo_env (demo_request "subscribe" "user") (Index_new false, WsSession_new) in
  exists t, tk_sub t = SubUser "0xAb" /\ ws_tasks st'.2 !! KUser "0xAb" = Some t.
Proof.
  destruct (request_answered (SD := DemoSdk) (C := DemoChain) (AC := DemoAccountChain) (BC := DemoBroadcast) demo_env
    (demo_request "subscribe" "user") (Index_new false) WsSession_new) as (sub & t & [= <-] & Et & _ & _ & _ & H & _).
  exists t. split; [exact Et|]. rewrite H. reflexivity.
Defined.

Definition demo_trade (user : string) : UserWsMessage := UserTradeMessage user "o1" 1%N "slug" "yes" "buy" "1" "1" "0" true "c7" 3 None.

Definition demo_session_events : list SessionEvent :=
  [SvIncoming demo_env (InText (inl (demo_request "subscribe" "user")));
   SvIndex (add_hub [demo_trade "0xother"; demo_trade "0xaB"] (Index_new false));
   SvTask (KUser "0xAb") false; SvTask (KUser "0xAb") false; SvOutbound].

Lemma session_only_asked_witness :
  match session_run (SD := DemoSdk) (C := DemoChain) (AC := DemoAccountChain) (Index_new false, WsSession_new) demo_session_events with
  | Some st' => length (ws_socket st'.2) = 2%nat /\ Forall (allowed demo_session_events) (ws_socket st'.2 ++ ws_outbound st'.2)
  | None => False
  end.
Proof.
  assert (match session_run (SD := DemoSdk) (C := DemoChain) (AC := DemoAccountChain) (Index_new false, WsSession_new) demo_session_events with
          | Some st' => length (ws_socket st'.2) | None => O end = 2%nat) as Hl by (vm_compute; reflexivity).
  destruct (session_run (SD := DemoSdk) (C := DemoChain) (AC := DemoAccountChain) (Index_new false, WsSession_new) demo_session_events) as [st'|] eqn:E;
    [|discriminate Hl].
  split; [exact Hl|]. exact (session_only_asked (SD := DemoSdk) (C := DemoChain) (AC := DemoAccountChain) _ _ _ E).
Defined.

Lemma subscribe_unsubscribe_witness :
  let st1 := handle_request (SD := DemoSdk) (C := DemoChain) (AC := DemoAccountChain) demo_env (demo_request "subscribe" "paper.user.state")
    (Index_new false, WsSession_new) in
  let st2 := handle_request (SD := DemoSdk) (C := DemoChain) (AC := DemoAccountChain) demo_env (demo_request "unsubscribe" "paper.user.state") st1 in
  some_b (ws_tasks st1.2 !! KPaperUserState "0xab|c9") = true /\ ws_tasks st2.2 !! KPaperUserState "0xab|c9" = None.
Proof.
  split; [vm_compute; reflexivity|].
  refine (proj1 (subscribe_unsubscribe (SD := DemoSdk) (C := DemoChain) (AC := DemoAccountChain) demo_env (demo_request "subscribe" "paper.user.state")
    (demo_request "unsubscribe" "paper.user.state") (Index_new false) WsSession_new (KPaperUserState "0xab|c9")
    eq_refl eq_refl eq_refl eq_refl eq_refl eq_refl) _).
  intros E. apply (f_equal some_b) in E. vm_compute in E. discriminate E.
Defined.

Lemma orderbook_subscribe_gap_witness :
  match demo_snapshot with
  | Ok (i0, s0) =>
      let i1 := set_books (book_step (SD := DemoSdk) true (ix_books i0, None) (OpCreated "c7" Buy 6 9 1)).1 i0 in
      let st := orderbook_listen (SD := DemoSdk) "c7" 10 (i1, s0) in
      exists snap, WsOrderBookSnapshot snap ∈ ws_socket st.2 /\
        sequence (ms_book (shard (S := DemoSdk) (ix_books st.1) "c7")) = obs_sequence snap + 1
  | Err _ => False
  end.
Proof.
  assert (is_ok demo_snapshot = true) as H by (vm_compute; reflexivity).
  assert (match demo_snapshot with Ok (i0, _) => sequence (ms_book (shard (S := DemoSdk) (ix_books i0) "c7")) | Err _ => 0 end = 1) as Hs by (vm_compute; reflexivity).
  destruct demo_snapshot as [[i0 s0]|e] eqn:E; [|done].
  destruct (orderbook_subscribe_gap (SD := DemoSdk) (C := DemoChain) (AC := DemoAccountChain) demo_env "c7" 10 (Index_new false) WsSession_new i0 s0
    (OpCreated "c7" Buy 6 9 1) E eq_refl ltac:(by eexists) ltac:(rewrite Hs; vm_compute; split; congruence)) as (snap & t & H1 & _ & _ & H2).
  by exists snap.
Defined.

Lemma rehydrate_not_published_witness :
  exists c w, rehydrate_spot_from_chain (SD := DemoSdk) (C := DemoChain) (Index_new false) "a1" "c7" 10 None = Ok (demo_index, w) /\
    book_view (SD := DemoSdk) c (ms_book (shard (S := DemoSdk) (ix_books (Index_new false)) "c7")) /\
    ~ book_view (SD := DemoSdk) c (ms_book (shard (S := DemoSdk) (ix_books demo_index) "c7")).
Proof.
  destruct demo_hydrated as [w E]. exists {| c_bids := ∅; c_asks := ∅; c_sequence := 0 |}, w. split; [exact E|].
  assert (book_view (SD := DemoSdk) {| c_bids := ∅; c_asks := ∅; c_sequence := 0 |} (ms_book (shard (S := DemoSdk) (ix_books (Index_new false)) "c7"))) as V.
  { assert (view (SD := DemoSdk) ∅ ∅) as V0.
    { split; [intros p _; by rewrite !lookup_empty|intros t [x Hx]; by rewrite lookup_empty in Hx]. }
    split_and!; [exact V0|exact V0|reflexivity]. }
  split; [exact V|].
  apply (rehydrate_not_published (SD := DemoSdk) (C := DemoChain) "a1" "c7" 10 (Index_new false) demo_index None w _ E); [|exact V].
  vm_compute. split; congruence.
Defined.

Definition demo_closed : WsSession :=
  {| ws_tasks := {[KUser "0xAb" := {| tk_sub := SubUser "0xAb"; tk_pos := 0; tk_stake_pos := 0 |}]}; ws_outbound := []; ws_socket := [];
     ws_open := false |}.

Definition demo_leak_events : list SessionEvent :=
  [SvIndex (add_hub [demo_trade "0xother"] (Index_new false)); SvTask (KUser "0xAb") false].

Lemma closed_session_leaks_task_witness :
  match session_run (SD := DemoSdk) (C := DemoChain) (AC := DemoAccountChain) (Index_new false, demo_closed) demo_leak_events with
  | Some st' => exists t', ws_tasks st'.2 !! KUser "0xAb" = Some t' /\ tk_sub t' = SubUser "0xAb"
  | None => False
  end.
Proof.
  destruct (session_run (SD := DemoSdk) (C := DemoChain) (AC := DemoAccountChain) (Index_new false, demo_closed) demo_leak_events) as [st'|] eqn:E.
  - apply (closed_session_leaks_task (SD := DemoSdk) (C := DemoChain) (AC := DemoAccountChain) "0xAb" demo_leak_events (Index_new false) demo_closed st'
      {| tk_sub := SubUser "0xAb"; tk_pos := 0; tk_stake_pos := 0 |}); [reflexivity|reflexivity|reflexivity|constructor| |exact E].
    intros i' Hi. unfold demo_leak_events in Hi. apply elem_of_cons in Hi as [Hi|Hi]; [|set_solver].
    injection Hi as ->. repeat constructor.
  - apply (f_equal some_b) in E. vm_compute in E. discriminate E.
Defined.
