(* ===== verification/Writes.v ===== *)
(** * Writes: which part of a write set an operation may extend

    Every operation reaches the write set through its store and delete methods;
    [ws_to K] says that one write set follows from another by methods of the
    kind [K] only, so the rows of the other kinds are untouched and the set
    stays well-formed. *)
From S2P Require Import Prelude Text Sdk Keys Domain WriteSet Tables Books BooksFacts Orders OrdersFacts Markets MarketsFacts Vaults VaultsFacts.

Local Open Scope list_scope.
Local Open Scope Z_scope.

Inductive Kind := KMarket | KOrder | KBook | KPrice | KVault.

Section Steps.
Context {SD : Sdk}.

Inductive ws_step : Kind -> IndexWriteSet -> IndexWriteSet -> Prop :=
| st_market w m : ws_step KMarket w (store_market w m)
| st_market_del w i : ws_step KMarket w (delete_market w i)
| st_order w r : ws_step KOrder w (store_order w r)
| st_order_del w i : ws_step KOrder w (delete_order w i)
| st_level w s side p z : is_u64 p -> ws_step KBook w (store_book_level w s (side_str side) (as_i64 p) z)
| st_level_del w s d p : ws_step KBook w (delete_book_level w s d p)
| st_meta w s m : ws_step KBook w (store_book_meta w s m)
| st_price w s p : ws_step KPrice w (store_last_trade w s p)
| st_vault w v : ws_step KVault w (store_vault w v)
| st_holding w i s a : ws_step KVault w (store_vault_portfolio w (uuid_to_string i) s a).

Definition ws_to (K : Kind) (ws ws' : option IndexWriteSet) : Prop :=
  match ws, ws' with Some w, Some w' => rtc (ws_step K) w w' | None, None => True | _, _ => False end.

Lemma ws_to_refl K ws : ws_to K ws ws.
Proof. destruct ws; simpl; [apply rtc_refl|done]. Qed.

Lemma ws_to_trans K a b c : ws_to K a b -> ws_to K b c -> ws_to K a c.
Proof. destruct a, b, c; simpl; try done. intros. by etrans. Qed.

Lemma ws_to_fmap K f ws : (forall w, ws_step K w (f w)) -> ws_to K ws (f <$> ws).
Proof. intros H. destruct ws; simpl; [by apply rtc_once|done]. Qed.

Lemma ws_to_fmap_rtc K f ws : (forall w, rtc (ws_step K) w (f w)) -> ws_to K ws (f <$> ws).
Proof. intros H. by destruct ws; simpl. Qed.

Lemma rtc_foldl {A} K (f : IndexWriteSet -> A -> IndexWriteSet) l w :
  (forall w a, rtc (ws_step K) w (f w a)) -> rtc (ws_step K) w (foldl f w l).
Proof. intros H. revert w. induction l as [|a l IH]; intros w; [apply rtc_refl|]. simpl. etrans; [apply H|apply IH]. Qed.

#[local] Hint Constructors ws_step : core.
#[local] Hint Resolve ws_to_refl ws_to_fmap rtc_once : core.

(** ** The keys of the tables *)

(** Every row is under the key its write method builds: levels under normal
    keys, named sides and u64 prices, markets and holdings under uuids. *)
Record tables_keys (t : IndexStateTables) : Prop := {
  tk_levels k d p v : t_book_levels t !! (k, d, p) = Some v ->
    normalize_spot_market_key k = k /\ exists side q, is_u64 q /\ d = side_str side /\ p = as_i64 q;
  tk_markets k m : t_markets t !! k = Some m -> k = uuid_to_string (MarketOps.id m);
  tk_holdings i k v : t_vault_portfolio t !! (i, k) = Some v -> exists u, i = uuid_to_string u
}.

Lemma step_keys K w w' t :
  SdkLaws -> ws_step K w w' -> tables_keys (tables_apply w t) -> tables_keys (tables_apply w' t).
Proof.
  intros L HS [T1 T2 T3].
  destruct HS as [w m|w i|w r|w i|w s side p z Hp|w s d p|w s m|w s p|w v|w i s a]; try by split.
  - split; try done. intros k x. simpl. rewrite delta_store_apply. intros [[<- <-]|[_ H]]%lookup_insert_Some; [done|by apply T2].
  - split; try done. intros k x. simpl. rewrite delta_delete_apply. intros [_ H]%lookup_delete_Some. by apply T2.
  - split; unfold store_book_level; case_decide as Hz; try done; intros k d q v; simpl.
    + rewrite delta_delete_apply. intros [_ H]%lookup_delete_Some. by eapply T1.
    + rewrite delta_store_apply. intros [[E <-]|[_ H]]%lookup_insert_Some; [|by eapply T1].
      injection E as <- <- <-. split; [apply normalize_idemp|]. by exists side, p.
  - split; try done. intros k d' q v. simpl. rewrite delta_delete_apply. intros [_ H]%lookup_delete_Some. by eapply T1.
  - split; unfold store_vault_portfolio; case_decide as Hz; try done; intros j k v; simpl.
    + rewrite delta_delete_apply. intros [_ H]%lookup_delete_Some. by eapply T3.
    + rewrite delta_store_apply. intros [[E <-]|[_ H]]%lookup_insert_Some; [|by eapply T3]. injection E as <- _. by exists i.
Qed.

(** ** What stays the same *)

Record untouched (K : Kind) (w w' : IndexWriteSet) : Prop := {
  un_full : ws_full_replace w' = ws_full_replace w;
  un_wf : ws_wf w -> ws_wf w';
  un_keys : SdkLaws -> forall t, tables_keys (tables_apply w t) -> tables_keys (tables_apply w' t);
  un_markets : K <> KMarket -> ws_markets w' = ws_markets w;
  un_orders : K <> KOrder -> ws_orders w' = ws_orders w;
  un_levels : K <> KBook -> ws_book_levels w' = ws_book_levels w;
  un_meta : K <> KBook -> ws_book_meta w' = ws_book_meta w;
  un_prices : K <> KPrice -> ws_last_trades w' = ws_last_trades w;
  un_vaults : K <> KVault -> ws_vaults w' = ws_vaults w;
  un_holdings : K <> KVault -> ws_vault_portfolio w' = ws_vault_portfolio w
}.

Lemma step_untouched K w w' : ws_step K w w' -> untouched K w w'.
Proof.
  intros H. split; [|destruct H; auto with clob|intros ? t; by eapply step_keys|..]; destruct H; (try intros HK); try (by destruct HK); try reflexivity;
    unfold store_book_level, store_vault_portfolio; case_decide; reflexivity.
Qed.

Lemma steps_untouched K w w' : rtc (ws_step K) w w' -> untouched K w w'.
Proof.
  induction 1 as [w|x y z H%step_untouched _ IH]; [by split|].
  destruct H as [A1 A2 A9 A3 A4 A5 A10 A6 A7 A8], IH as [B1 B2 B9 B3 B4 B5 B10 B6 B7 B8].
  split; [by rewrite B1|tauto|intros ? t ?; by apply B9, A9|intros HK; by rewrite B3, A3|intros HK; by rewrite B4, A4|intros HK; by rewrite B5, A5|intros HK; by rewrite B10, A10
    |intros HK; by rewrite B6, A6|intros HK; by rewrite B7, A7|intros HK; by rewrite B8, A8].
Qed.

(** ** The operations *)

Lemma book_step_writes pub b ws op : op_u64 op -> ws_to KBook ws (book_step pub (b, ws) op).2.
Proof.
  intros Hu. pose proof (step_shape pub b ws op) as HS. destruct (op_effect op) as [[[[side p] a] add]|] eqn:E; [|by rewrite HS].
  destruct (op_effect_u64 _ _ _ _ _ Hu E) as (Hp & _). destruct HS as (sh' & _ & _ & ->). apply ws_to_fmap_rtc. intros w.
  etrans; [|by apply rtc_once]. case_decide; auto.
Qed.

Lemma hydrate_levels_writes name side chain levels ws :
  Forall (fun l => is_u64 (cl_price l) /\ is_u64 (cl_total_quantity l)) chain ->
  ws_to KBook ws (hydrate_levels name side chain (levels, ws)).2.
Proof.
  unfold hydrate_levels. intros HF. revert levels ws. induction HF as [|x chain [Hp _] _ IH]; intros levels ws; cbn [foldl]; [done|].
  case_decide; [|apply IH]. eapply ws_to_trans; [|apply IH]. apply ws_to_fmap. intros w. by apply st_level.
Qed.

Lemma delete_levels_writes name side levels w : rtc (ws_step KBook) w (delete_levels name side levels w).
Proof. unfold delete_levels. apply rtc_foldl. intros w' p. apply rtc_once, st_level_del. Qed.

Lemma hydrate_writes b spot cb price ws : chain_u64 cb -> ws_to KBook ws (hydrate_from_chain b spot cb price ws).2.
Proof.
  intros [HFb HFa]%Forall_app. unfold hydrate_from_chain. set (ws0 := _ <$> ws).
  assert (ws_to KBook ws ws0) as H0.
  { apply ws_to_fmap_rtc. intros w. etrans; apply delete_levels_writes. }
  pose proof (hydrate_levels_writes (ms_spot_market (shard b spot)) Buy (best_bids cb) ∅ ws0 HFb) as H1.
  destruct (hydrate_levels _ Buy _ _) as [bids' ws1]. simpl in H1.
  pose proof (hydrate_levels_writes (ms_spot_market (shard b spot)) Sell (best_asks cb) ∅ ws1 HFa) as H2.
  destruct (hydrate_levels _ Sell _ _) as [asks' ws2]. simpl in H2. simpl.
  eapply ws_to_trans; [exact H0|]. eapply ws_to_trans; [exact H1|]. eapply ws_to_trans; [exact H2|]. by apply ws_to_fmap.
Qed.

Lemma order_step_writes o ws op : ws_to KOrder ws (order_step (o, ws) op).2.
Proof.
  assert (forall u st, ws_to KOrder ws (settle_order o u st ws).2) as HS.
  { intros. unfold settle_order. case_match; by apply ws_to_fmap. }
  destruct op; simpl.
  - unfold insert_order. case_match; [done|]. by apply ws_to_fmap.
  - unfold update_order_cancelled. destruct (stored_at _ _ _) as [[u st]|]; [|done]. by apply ws_to_fmap.
  - unfold update_order_amount. by destruct (stored_at _ _ _) as [[u st]|].
  - unfold update_order_fill. by destruct (stored_at _ _ _) as [[u st]|].
Qed.

Lemma bind_leg_writes id s ws leg : ws_to KMarket ws (bind_leg id (s, ws) leg).2.
Proof.
  unfold bind_leg, remove_orphan_spot_shell. simpl. destruct (m_markets s !! _); [|done]. case_decide; [done|]. by apply ws_to_fmap.
Qed.

Lemma upsert_writes s m ws : ws_to KMarket ws (upsert_market s m ws).2.
Proof.
  unfold upsert_market. set (s1 := with_market_map _ _). set (x := set_venues _ _ _).
  assert (ws_to KMarket ws ((fun w => store_market w x) <$> ws)) as H0 by by apply ws_to_fmap.
  destruct (MarketOps.category x); [done| |done]. eapply ws_to_trans; [exact H0|].
  unfold bind_event_spot_legs. cbn [foldl]. generalize ((fun w => store_market w x) <$> ws). intros ws1.
  eapply ws_to_trans; [apply bind_leg_writes|]. rewrite (surjective_pairing (bind_leg _ (s1, ws1) _)). apply bind_leg_writes.
Qed.

Lemma state_writes s a v ws : ws_to KMarket ws (update_market_state s a v ws).2.
Proof.
  unfold update_market_state. generalize (map_to_list (m_markets s)). intros l. revert s ws.
  induction l as [|p l IH]; intros s ws; cbn [foldl]; [done|].
  unfold state_put at 2. case_decide; [|apply IH]. eapply ws_to_trans; [|apply IH]. by apply ws_to_fmap.
Qed.

Lemma price_writes s sp p ws : ws_to KPrice ws (record_last_trade_price s sp p ws).2.
Proof. by apply ws_to_fmap. Qed.

Lemma vault_step_writes s ws op : ws_to KVault ws (vault_step (s, ws) op).2.
Proof.
  assert (forall change a, ws_to KVault ws (update_vault change s a ws).2) as HU.
  { intros. unfold update_vault. destruct (v_by_address s !! _); [|done]. simpl. destruct (v_vaults s !! _); [|done]. by apply ws_to_fmap. }
  destruct op; simpl; try apply HU; [by apply ws_to_fmap|].
  unfold apply_vault_fill_to_portfolio. case_decide; [done|]. destruct (v_by_account s !! _); [|done]. by apply ws_to_fmap.
Qed.

End Steps.
