(* ===== verification/Processor.v ===== *)
(** * Processor: [indexer/processor.rs], applying the events of a block

    The decode stage groups the order events of a block by market and keeps
    their order; the apply stage completes the submit waiters, applies the other
    events one by one and the markets' order events one market after the other,
    and leaves the block's write set.  Clocks are arguments. *)
From Stdlib Require Import Strings.Byte.
From S2P Require Import Prelude Text Errors Sdk Keys Amounts Slug Domain WriteSet Books Bars Orders Markets Vaults Paper Submit Events Hydrate.

Local Open Scope list_scope.
Local Open Scope Z_scope.

Section Decoded.
Context {SD : Sdk}.

(** Per-market order work decoded in the decode stage. *)
Inductive MarketOrderEvent :=
| Created (e : OrderCreatedEvent)
| Cancelled (e : OrderCancelledEvent)
| Updated (e : OrderUpdatedEvent)
| Filled (e : OrderFilledEvent) (tx_sender : string)
| Executed (e : MarketOrderExecutedEvent).

Inductive UnmappedOrderEvent := UnmappedCancelled (chain_order_id : string) | UnmappedUpdated (chain_order_id : string).

(** The other events, decoded; an oracle mark keeps its event's contract. *)
Inductive GlobalEvent :=
| EventContractCreated (e : EventContractCreatedEvent)
| EventContractResolved (market_address : ContractAddress)
| VaultCreated (e : VaultCreatedEvent)
| VaultDeposited (vault : ContractAddress) (equity : Z)
| VaultWithdrawn (vault : ContractAddress) (equity : Z)
| VaultManagerUpdated (vault : ContractAddress) (new_manager : Address)
| VaultDepositPermissionUpdated (vault : ContractAddress) (allow_deposit : bool)
| VaultClosed (vault : ContractAddress)
| MarketCreated (name : string) (market_address : ContractAddress) (creator : Address)
| OracleCommitted (contract : option ContractAddress) (e : OracleCommittedEvent)
| PaperInstrumentAdded (e : PaperInstrumentAddedEvent)
| PaperOpened (e : PaperOpenedEvent)
| PaperClosed (e : PaperClosedEvent)
| PaperLiquidated (e : PaperLiquidatedEvent)
| PaperQueued (e : PaperQueuedEvent)
| PaperHarvested (e : PaperHarvestedEvent)
| PaperFeesPushed (e : PaperFeesPushedEvent)
| PaperClaimed (e : PaperClaimedEvent)
| PaperStaked (e : PaperStakeEvent)
| PaperUnstaked (e : PaperStakeEvent).

End Decoded.

(** What a block's application reads besides the state: the query account, the
    block, whether to publish, and the two clocks. *)
Record ProcessEnv := {
  pe_query_account : string;
  pe_block_num : Z;
  pe_publish_ws : bool;
  pe_now_ts : Z;
  pe_now_ms : Z
}.

Section Processor.
Context {SD : Sdk} {B : Bincode} {C : Chain} {PC : PaperChain}.

(** ** Indexing orders *)

Definition created_price (t : OrderEventType) : Z :=
  match t with OtLimit price => price | OtMarket => 0 | OtTrigger limit_price => limit_price end.

(** The market and outcome of a venue, registering a standalone one. *)
Definition market_of_venue (i : Index) (spot_market : string) : Index * (Uuid * string) :=
  match lookup_spot_market (ix_markets i) spot_market with
  | Some mapped => (i, mapped)
  | None => let '(m, mapped) := ensure_standalone_spot_market (ix_markets i) spot_market in (set_markets m i, mapped)
  end.

(** Question and slug shown with an order. *)
Definition market_labels (i : Index) (market_id : Uuid) : string * string :=
  match get_market (ix_markets i) market_id with
  | Some market => (MarketOps.label market,
                    if decide (MarketOps.slug market = "")%string then MarketOps.name market else MarketOps.slug market)
  | None => (""%string, ""%string)
  end.

Definition order_uuid (spot_market chain_order_id : string) : Uuid :=
  uuid_v5 (normalize_spot_market_key spot_market +:+ ":" +:+ chain_order_id)%string.

(** The order both indexing functions build. *)
Definition build_order (i : Index) (market_id : Uuid) (outcome spot_market chain_order_id : string) (side : OrderSide)
    (price_raw amount : Z) (status : string) (cloid : option string) : Order :=
  {| ord_id := order_uuid spot_market chain_order_id; ord_market_id := market_id;
     ord_market_slug := (market_labels i market_id).2; ord_question := (market_labels i market_id).1;
     ord_outcome := outcome; ord_side := side_str side; ord_price := format_price_pieces price_raw;
     ord_size := format_token_amount amount; ord_status := status; ord_cloid := cloid |}.

Definition index_order_created (i : Index) (created : OrderCreatedEvent) (spot_market : string)
    (status_override : option (string * Z)) (ws : option IndexWriteSet) : Index * option IndexWriteSet * option Order :=
  let '(i, (market_id, outcome)) := market_of_venue i spot_market in
  let chain_order_id := order_id_to_string (oc_order_id created) in
  let '(status, filled_raw) := default ("open"%string, 0) status_override in
  let order := build_order i market_id outcome spot_market chain_order_id (oc_side created)
                 (created_price (oc_order_type created)) (oc_amount created) status (oc_cloid created) in
  let '(o, ws) := insert_order (ix_orders i) order (address_to_string (oc_creator created)) spot_market chain_order_id
                    (oc_amount created) filled_raw ws in
  (set_orders o i, ws, Some order).

Definition executed_status (executed : MarketOrderExecutedEvent) : string :=
  if decide (oe_filled_amount executed = 0) then "cancelled"
  else if decide (oe_amount executed <= oe_filled_amount executed) then "filled" else "cancelled".

Definition index_market_order_executed (i : Index) (executed : MarketOrderExecutedEvent) (spot_market : string)
    (ws : option IndexWriteSet) : Index * option IndexWriteSet * option Order :=
  let '(i, (market_id, outcome)) := market_of_venue i spot_market in
  let chain_order_id := order_id_to_string (oe_order_id executed) in
  let order := build_order i market_id outcome spot_market chain_order_id (oe_side executed)
                 (default 0 (oe_avg_filled_price executed)) (oe_amount executed) (executed_status executed) None in
  let '(o, ws) := insert_order (ix_orders i) order (address_to_string (oe_creator executed)) spot_market chain_order_id
                    (oe_amount executed) (oe_filled_amount executed) ws in
  (set_orders o i, ws, Some order).

Definition apply_order_created_to_book (i : Index) (block_num : Z) (created : OrderCreatedEvent) (spot_market : string)
    (publish_ws : bool) (ws : option IndexWriteSet) : Index * option IndexWriteSet :=
  match oc_order_type created with
  | OtLimit price =>
      let '(b, ws) := apply_created (ix_books i) spot_market (oc_side created) price (oc_amount created) block_num publish_ws ws in
      (set_books b i, ws)
  | _ => (i, ws)
  end.

(** ** Messages for users *)

(** Created, cancelled and updated orders publish alike. *)
Definition publish_user_order (event : string) (i : Index) (spot_market chain_order_id : string) (block_num : Z) : Index :=
  match stored_order_by_chain_id (ix_orders i) spot_market chain_order_id with
  | None => i
  | Some (order, user_address, _) => add_hub [UserOrderMessage event user_address chain_order_id spot_market order block_num] i
  end.

Definition publish_user_order_created := publish_user_order "placement".
Definition publish_user_order_cancelled := publish_user_order "cancellation".
Definition publish_user_order_updated := publish_user_order "update".

(** The trade, then the order if it is still indexed. *)
Definition publish_user_order_filled (i : Index) (spot_market chain_order_id : string) (filled : OrderFilledEvent)
    (tx_sender : string) (block_num : Z) : Index :=
  let trade user order_id slug outcome cloid :=
    UserTradeMessage user chain_order_id order_id slug outcome (side_str (of_side filled))
      (format_price_pieces (of_price filled)) (format_token_amount (of_fill_amount filled))
      (format_token_amount (of_remaining_amount filled)) (of_is_fully_filled filled) spot_market block_num cloid in
  match stored_order_by_chain_id (ix_orders i) spot_market chain_order_id with
  | Some (order, user_address, _) =>
      let cloid := match of_cloid filled with Some c => Some c | None => ord_cloid order end in
      add_hub [trade user_address (ord_id order) (ord_market_slug order) (ord_outcome order) cloid;
               UserOrderMessage "update" user_address chain_order_id spot_market order block_num] i
  | None =>
      match of_cloid filled with
      | Some c => add_hub [trade tx_sender 0%N ""%string ""%string (Some c)] i
      | None => i
      end
  end.

Definition publish_executed (i : Index) (spot_market chain_order_id : string) (executed : MarketOrderExecutedEvent)
    (order : Order) (block_num : Z) : Index :=
  let user := address_to_string (oe_creator executed) in
  let remaining := sat_sub (oe_amount executed) (oe_filled_amount executed) in
  let full := bool_decide (0 < oe_filled_amount executed) && bool_decide (remaining = 0) in
  add_hub (UserOrderMessage "update" user chain_order_id spot_market order block_num ::
    (if decide (0 < oe_filled_amount executed)
     then [UserTradeMessage user chain_order_id (ord_id order) (ord_market_slug order) (ord_outcome order)
             (side_str (oe_side executed)) (format_price_pieces (default 0 (oe_avg_filled_price executed)))
             (format_token_amount (oe_filled_amount executed)) (format_token_amount remaining) full spot_market block_num None]
     else [])) i.

(** ** Order events of one market *)

Definition St : Type := Index * option IndexWriteSet.

(** [if opts.publish_ws]. *)
Definition when_publishing (env : ProcessEnv) (f : Index -> Index) (st : St) : St :=
  if pe_publish_ws env then (f st.1, st.2) else st.

(** [ensure_chain_hydrated], a failure being logged only. *)
Definition hydrated (env : ProcessEnv) (spot_market : string) (st : St) : St :=
  or_unchanged st (ensure_chain_hydrated st.1 (pe_query_account env) spot_market DEFAULT_BOOK_DEPTH st.2).

Definition apply_created_event (env : ProcessEnv) (spot_market : string) (st : St) (created : OrderCreatedEvent) : St :=
  let chain_order_id := order_id_to_string (oc_order_id created) in
  if has_chain_order (ix_orders st.1) spot_market chain_order_id then st
  else
    let st := hydrated env spot_market st in
    let st := apply_order_created_to_book st.1 (pe_block_num env) created spot_market (pe_publish_ws env) st.2 in
    let st := (index_order_created st.1 created spot_market None st.2).1 in
    when_publishing env (fun i => publish_user_order_created i spot_market chain_order_id (pe_block_num env)) st.

Definition apply_cancelled_event (env : ProcessEnv) (spot_market : string) (st : St) (cancelled : OrderCancelledEvent) : St :=
  let chain_order_id := order_id_to_string (on_order_id cancelled) in
  let '(b, ws) := apply_cancelled (ix_books st.1) spot_market (on_side cancelled) (on_price cancelled)
                    (on_cancelled_amount cancelled) (pe_block_num env) (pe_publish_ws env) st.2 in
  let '(o, ws) := update_order_cancelled (ix_orders st.1) spot_market chain_order_id ws in
  when_publishing env (fun i => publish_user_order_cancelled i spot_market chain_order_id (pe_block_num env))
    (set_orders o (set_books b st.1), ws).

Definition apply_updated_event (env : ProcessEnv) (spot_market : string) (st : St) (updated : OrderUpdatedEvent) : St :=
  let chain_order_id := order_id_to_string (ou_order_id updated) in
  let st := hydrated env spot_market st in
  let '(b, ws) := apply_updated (ix_books st.1) spot_market (ou_side updated) (ou_price updated) (ou_old_amount updated)
                    (ou_new_amount updated) (ou_remaining_amount updated) (pe_block_num env) (pe_publish_ws env) st.2 in
  let '(o, ws) := update_order_amount (ix_orders st.1) spot_market chain_order_id (ou_new_amount updated)
                    (ou_remaining_amount updated) ws in
  when_publishing env (fun i => publish_user_order_updated i spot_market chain_order_id (pe_block_num env))
    (set_orders o (set_books b st.1), ws).

(** The candles see buys only: one side of each trade. *)
Definition candle_trade (env : ProcessEnv) (spot_market : string) (filled : OrderFilledEvent) (i : Index) : Index :=
  match of_side filled with
  | Buy => set_bars (on_trade (ix_bars i) spot_market (of_price filled) (of_fill_amount filled) (pe_now_ts env)) i
  | Sell => i
  end.

Definition trade_time (i : Index) : option Z :=
  let ms := indexing_block_timestamp_ms (ix_orders i) in if decide (0 < ms) then Some ms else None.

(** The vault credit asks the order index, after the order has been updated. *)
Definition credit_vault (spot_market : string) (filled : OrderFilledEvent) (st : St) : St :=
  match stored_order_by_chain_id (ix_orders st.1) spot_market (order_id_to_string (of_order_id filled)) with
  | None => st
  | Some (_, user_address, _) =>
      let '(v, ws) := apply_vault_fill_to_portfolio (ix_vaults st.1) user_address spot_market (of_side filled)
                        (of_fill_amount filled) st.2 in
      (set_vaults v st.1, ws)
  end.

Definition apply_filled_event (env : ProcessEnv) (spot_market : string) (st : St) (filled : OrderFilledEvent)
    (tx_sender : string) : St :=
  let chain_order_id := order_id_to_string (of_order_id filled) in
  let '(m, ws) := record_last_trade_price (ix_markets st.1) spot_market (of_price filled) st.2 in
  let st := when_publishing env (candle_trade env spot_market filled) (set_markets m st.1, ws) in
  let st := hydrated env spot_market st in
  let '(b, ws) := apply_filled (ix_books st.1) spot_market (of_side filled) (of_price filled) (of_fill_amount filled)
                    (pe_block_num env) (of_price filled) (pe_publish_ws env) st.2 (trade_time st.1) (pe_now_ms env) in
  let '(o, ws) := update_order_fill (ix_orders st.1) spot_market chain_order_id (of_fill_amount filled)
                    (of_remaining_amount filled) (of_is_fully_filled filled) ws in
  let st := credit_vault spot_market filled (set_orders o (set_books b st.1), ws) in
  when_publishing env (fun i => publish_user_order_filled i spot_market chain_order_id filled tx_sender (pe_block_num env)) st.

Definition apply_executed_event (env : ProcessEnv) (spot_market : string) (st : St) (executed : MarketOrderExecutedEvent) : St :=
  let chain_order_id := order_id_to_string (oe_order_id executed) in
  if has_chain_order (ix_orders st.1) spot_market chain_order_id then st
  else
    match index_market_order_executed st.1 executed spot_market st.2 with
    | (i, ws, Some order) =>
        when_publishing env (fun i => publish_executed i spot_market chain_order_id executed order (pe_block_num env)) (i, ws)
    | (i, ws, None) => (i, ws)
    end.

Definition apply_market_order_event (env : ProcessEnv) (spot_market : string) (st : St) (event : MarketOrderEvent) : St :=
  match event with
  | Created e => apply_created_event env spot_market st e
  | Cancelled e => apply_cancelled_event env spot_market st e
  | Updated e => apply_updated_event env spot_market st e
  | Filled e sender => apply_filled_event env spot_market st e sender
  | Executed e => apply_executed_event env spot_market st e
  end.

(** A market starts from an empty write set of its own. *)
Definition apply_market_order_events (env : ProcessEnv) (i : Index) (spot_market : string) (events : list MarketOrderEvent)
    : Index * IndexWriteSet :=
  let st := foldl (apply_market_order_event env spot_market) (i, Some (ws_default 0 "" false)) events in
  (st.1, default (ws_default 0 "" false) st.2).

(** ** Market and vault events *)

(** The market [index_market_created] builds. *)
Definition created_market (slug : string) (e : EventContractCreatedEvent) : Market :=
  let market_address := contract_to_string (ec_market_address e) in
  Event (market_uuid market_address) slug (ec_question e) None market_address
    (contract_to_string (ec_collateral_token e)) (contract_to_string (ec_yes_token e)) (contract_to_string (ec_no_token e))
    (contract_to_string (ec_yes_spot_market e)) (contract_to_string (ec_no_spot_market e)) (ec_state e)
    (ec_resolution_deadline e) (address_to_string (ec_creator e)).

Definition index_market_created (env : ProcessEnv) (st : St) (created : EventContractCreatedEvent) : St :=
  let slug := default ""%string (allocate_market_slug (ix_markets st.1) (ec_question created)) in
  let market := created_market slug created in
  let '(m, ws) := upsert_market (ix_markets st.1) market st.2 in
  hydrate_market_spots (set_markets m st.1) (pe_query_account env) (MarketOps.yes_spot_market market)
    (MarketOps.no_spot_market market) ws.

Definition created_vault (created : VaultCreatedEvent) : Vault :=
  let vault_address := contract_to_string (vc_vault created) in
  {| vlt_id := vault_uuid vault_address; vlt_name := vc_name created; vlt_vault_address := vault_address;
     vlt_vault_account := address_to_string (vault_account (vc_vault created));
     vlt_manager := address_to_string (vc_manager created);
     vlt_quote_token := contract_to_string (vc_quote_token created); vlt_share_token := contract_to_string (vc_share_token created);
     vlt_equity := "0"; vlt_user_deposit := "0.00"; vlt_portfolio := []; vlt_allow_deposit := true; vlt_is_closed := false |}.

Definition vault_event (f : Vaults -> option IndexWriteSet -> Vaults * option IndexWriteSet) (st : St) : St :=
  let '(v, ws) := f (ix_vaults st.1) st.2 in (set_vaults v st.1, ws).

Definition index_vault_created (created : VaultCreatedEvent) : St -> St := vault_event (fun s => upsert_vault s (created_vault created)).

Definition index_spot_market_created (env : ProcessEnv) (st : St) (name : string) (market_address : ContractAddress) (creator : Address) : St :=
  let spot_market := contract_to_string market_address in
  hydrated env spot_market
    (set_markets (register_named_spot_market (ix_markets st.1) name spot_market (address_to_string creator)) st.1, st.2).

(** ** Paper events: they change the paper state only *)

Definition paper_event (env : ProcessEnv) (f : Z -> Z -> Paper -> Paper) (st : St) : St :=
  (set_paper (f (indexing_block_timestamp_ms (ix_orders st.1)) (pe_now_ms env) (ix_paper st.1)) st.1, st.2).

Definition opened_row (opened : PaperOpenedEvent) (block_num : Z) : PaperPositionOpen :=
  {| po_market := contract_to_string (pd_market opened); po_position := pd_position opened;
     po_owner := address_to_string (pd_owner opened); po_instrument := pd_instrument opened; po_is_long := pd_is_long opened;
     po_margin := format_token_amount (pd_margin opened); po_notional := format_token_amount (pd_notional opened);
     po_entry_price := format_oracle_human (pd_entry_price opened); po_bust_price := format_oracle_human (pd_bust_price opened);
     po_margin_raw := pd_margin opened; po_notional_raw := pd_notional opened; po_entry_price_raw := pd_entry_price opened;
     po_bust_price_raw := pd_bust_price opened; po_funded_from_queued := pd_funded_from_queued opened; po_opened_block := block_num |}.

Definition index_paper_opened (opened : PaperOpenedEvent) (block_num block_ms now : Z) (p : Paper) : Paper :=
  upsert_paper_position_open block_ms now (opened_row opened block_num)
    (apply_paper_house_after (contract_to_string (pd_market opened)) (pd_house opened) p).

Definition activity (kind market user : string) (amount : Z) (pnl : option Z) (position : option Z) (block_num : Z) : PaperActivityItem :=
  {| pa_kind := kind; pa_market := market; pa_user := user; pa_amount := format_token_amount amount; pa_amount_raw := amount;
     pa_pnl := format_i64_token <$> pnl; pa_pnl_raw := pnl; pa_position := position; pa_block_num := block_num; pa_ts_ms := 0 |}.

Definition index_paper_closed (closed : PaperClosedEvent) (block_num block_ms now : Z) (p : Paper) : Paper :=
  let market := contract_to_string (pc_market closed) in
  let owner := address_to_string (pc_owner closed) in
  let p := apply_paper_house_after market (pc_house closed) p in
  let p := close_paper_position block_ms now market (pc_position closed) owner block_num
             {| cd_exit_price := format_oracle_human (pc_exit_price closed); cd_fee := format_token_amount (pc_fee closed);
                cd_payout := format_token_amount (pc_payout closed); cd_queued := format_token_amount (pc_queued closed);
                cd_minted := format_token_amount (pc_minted closed); cd_pnl := format_i64_token (pc_pnl closed);
                cd_pnl_raw := pc_pnl closed; cd_kind := Closed; cd_liquidator := None; cd_known_margin := None |} p in
  let p := if decide (0 < pc_minted closed \/ pc_pnl closed < 0)
           then push_paper_activity block_ms now
                  (activity "close_loss" market owner (pc_minted closed) (Some (pc_pnl closed)) (Some (pc_position closed)) block_num) p
           else p in
  if decide (0 < pc_minted closed) then mark_paper_stake_dirty market p else p.

(** [-(margin as i64)], wrapping. *)
Definition lost_margin (margin : Z) : Z := as_i64 (- as_i64 margin).

Definition index_paper_liquidated (liqd : PaperLiquidatedEvent) (block_num block_ms now : Z) (p : Paper) : Paper :=
  let market := contract_to_string (pl_market liqd) in
  let owner := address_to_string (pl_owner liqd) in
  let pnl := lost_margin (pl_margin liqd) in
  let p := apply_paper_house_after market (pl_house liqd) p in
  let p := close_paper_position block_ms now market (pl_position liqd) owner block_num
             {| cd_exit_price := format_oracle_human (pl_exit_price liqd); cd_fee := "0"; cd_payout := "0"; cd_queued := "0";
                cd_minted := format_token_amount (pl_minted liqd); cd_pnl := format_i64_token pnl; cd_pnl_raw := pnl;
                cd_kind := Liquidated; cd_liquidator := Some (address_to_string (pl_liquidator liqd));
                cd_known_margin := Some (pl_margin liqd) |} p in
  let p := push_paper_activity block_ms now
             (activity "liquidated" market owner (pl_minted liqd) (Some pnl) (Some (pl_position liqd)) block_num) p in
  mark_paper_stake_dirty market p.

Definition index_paper_stake (kind : string) (e : PaperStakeEvent) (block_num block_ms now : Z) (p : Paper) : Paper :=
  let market := contract_to_string (ps_market e) in
  mark_paper_stake_dirty market
    (push_paper_activity block_ms now (activity kind market (address_to_string (ps_user e)) (ps_amount e) None None block_num) p).

Definition index_paper_fees_pushed (pushed : PaperFeesPushedEvent) (p : Paper) : Paper :=
  let market := contract_to_string (fp_market pushed) in
  apply_paper_house_after market (fp_house pushed)
    (mark_paper_stake_dirty market (apply_paper_fees_pushed_rewards market (fp_staker_fee pushed) (fp_swept_stakers pushed) p)).

Definition index_paper_claimed (claimed : PaperClaimedEvent) (p : Paper) : Paper :=
  let market := contract_to_string (cl_market claimed) in
  mark_paper_stake_dirty market (apply_paper_claimed_reward market (address_to_string (cl_user claimed)) (cl_reward claimed) p).

(** The market of an event, from its contract. *)
Definition spot_market_from_event_contract (contract : option ContractAddress) : option string :=
  (fun c => normalize_spot_market_key (contract_to_string c)) <$> contract.

Definition index_oracle_committed (env : ProcessEnv) (contract : option ContractAddress) (e : OracleCommittedEvent) (st : St) : St :=
  let spot_market := default ""%string (spot_market_from_event_contract contract) in
  if decide (spot_market = "")%string then st
  else paper_event env (fun b now => record_oracle_mark b now spot_market (or_round e) (or_oracle_price e) (or_mark_price e) (pe_block_num env)) st.

(** ** [apply_global_event] *)

Definition apply_global_event (env : ProcessEnv) (st : St) (event : GlobalEvent) : St :=
  match event with
  | EventContractCreated e => index_market_created env st e
  | EventContractResolved a =>
      let '(m, ws) := update_market_state (ix_markets st.1) (contract_to_string a) "Resolved" st.2 in (set_markets m st.1, ws)
  | VaultCreated e => index_vault_created e st
  | VaultDeposited v equity | VaultWithdrawn v equity =>
      vault_event (fun s => update_vault_equity s (contract_to_string v) (format_token_amount equity)) st
  | VaultManagerUpdated v m => vault_event (fun s => update_vault_manager s (contract_to_string v) (address_to_string m)) st
  | VaultDepositPermissionUpdated v b => vault_event (fun s => update_vault_allow_deposit s (contract_to_string v) b) st
  | VaultClosed v => vault_event (fun s => mark_vault_closed s (contract_to_string v)) st
  | MarketCreated name a creator => index_spot_market_created env st name a creator
  | OracleCommitted contract e => index_oracle_committed env contract e st
  | PaperInstrumentAdded e =>
      paper_event env (fun _ _ => upsert_paper_instrument (contract_to_string (ia_market e)) (ia_instrument e) (ia_name e)
                                    (contract_to_string (ia_price_market e))) st
  | PaperOpened e => paper_event env (index_paper_opened e (pe_block_num env)) st
  | PaperClosed e => paper_event env (index_paper_closed e (pe_block_num env)) st
  | PaperLiquidated e => paper_event env (index_paper_liquidated e (pe_block_num env)) st
  | PaperQueued e =>
      paper_event env (fun b now => apply_paper_queued b now (contract_to_string (qu_market e)) (qu_index e)
                                      (address_to_string (qu_user e)) (qu_amount e) (qu_house e)) st
  | PaperHarvested e =>
      paper_event env (fun _ _ => apply_paper_harvested (contract_to_string (hv_event_market e)) (hv_event_index e) (hv_event_house e)) st
  | PaperFeesPushed e => paper_event env (fun _ _ => index_paper_fees_pushed e) st
  | PaperClaimed e => paper_event env (fun _ _ => index_paper_claimed e) st
  | PaperStaked e => paper_event env (index_paper_stake "staked" e (pe_block_num env)) st
  | PaperUnstaked e => paper_event env (index_paper_stake "unstaked" e (pe_block_num env)) st
  end.

(** Its decoding, by action; unknown actions and undecodable payloads are
    skipped. *)
Definition decode_global (action : string) (contract : option ContractAddress) (data : list byte) : option GlobalEvent :=
  let act a := bool_decide (action = a) in
  if act "event_contract_created"%string then EventContractCreated <$> de_event_contract_created data
  else if act "event_contract_resolved"%string then EventContractResolved <$> de_event_contract_resolved data
  else if act "vault_created"%string then VaultCreated <$> de_vault_created data
  else if act "vault_deposited"%string then (fun d => VaultDeposited d.1 d.2) <$> de_vault_deposited data
  else if act "vault_withdrawn"%string then (fun d => VaultWithdrawn d.1 d.2) <$> de_vault_withdrawn data
  else if act "vault_manager_updated"%string then (fun d => VaultManagerUpdated d.1 d.2) <$> de_vault_manager_updated data
  else if act "vault_deposit_permission_updated"%string
       then (fun d => VaultDepositPermissionUpdated d.1 d.2) <$> de_vault_deposit_permission_updated data
  else if act "vault_closed"%string then VaultClosed <$> de_vault_closed data
  else if act "market_created"%string then (fun '(name, a, creator) => MarketCreated name a creator) <$> de_market_created data
  else if act "oracle_committed"%string then OracleCommitted contract <$> de_oracle_committed data
  else if act "paper_instrument_added"%string then PaperInstrumentAdded <$> de_paper_instrument_added data
  else if act "paper_opened"%string then PaperOpened <$> de_paper_opened data
  else if act "paper_closed"%string then PaperClosed <$> de_paper_closed data
  else if act "paper_liquidated"%string then PaperLiquidated <$> de_paper_liquidated data
  else if act "paper_queued"%string then PaperQueued <$> de_paper_queued data
  else if act "paper_harvested"%string then PaperHarvested <$> de_paper_harvested data
  else if act "paper_fees_pushed"%string then PaperFeesPushed <$> de_paper_fees_pushed data
  else if act "paper_claimed"%string then PaperClaimed <$> de_paper_claimed data
  else if act "paper_staked"%string then PaperStaked <$> de_paper_staked data
  else if act "paper_unstaked"%string then PaperUnstaked <$> de_paper_unstaked data
  else None.

(** ** The decode stage *)

Definition Registry : Type := SubmitWaitRegistry TransactionReceipt.

Record PreparedBlock := {
  pb_block_num : Z;
  pb_block_digest : string;
  pb_tx_count : nat;
  pb_ok_count : nat;
  pb_block : ReceiptBlock;
  pb_markets : gmap string (list MarketOrderEvent);
  pb_unmapped : list UnmappedOrderEvent
}.

Definition Grouped : Type := gmap string (list MarketOrderEvent) * list UnmappedOrderEvent.

(** [markets.entry(spot_market).or_default().push(event)]. *)
Definition push_market (spot_market : string) (event : MarketOrderEvent) (acc : Grouped) : Grouped :=
  (<[spot_market := default [] (acc.1 !! spot_market) ++ [event]]> acc.1, acc.2).
Definition push_unmapped (u : UnmappedOrderEvent) (acc : Grouped) : Grouped := (acc.1, acc.2 ++ [u]).

Definition resolve_spot_market_for_order_event (store : Orders) (contract : option ContractAddress) (chain_order_id : string) : option string :=
  match spot_market_from_event_contract contract with
  | Some spot_market => Some spot_market
  | None => lookup_spot_market_for_chain_order store chain_order_id
  end.

Definition prepare_event (store : Orders) (tx_sender : string) (acc : Grouped) (event : TransactionEvent) : Grouped :=
  match ev_event_type event, ev_data event with
  | Call action_name, Bytes data =>
      if decide (action_name = "order_created")%string then
        match de_order_created data with
        | Some created => push_market (normalize_spot_market_key (address_to_string (oc_market created))) (Created created) acc
        | None => acc
        end
      else if decide (action_name = "order_cancelled")%string then
        match de_order_cancelled data with
        | Some cancelled =>
            let chain_order_id := order_id_to_string (on_order_id cancelled) in
            match resolve_spot_market_for_order_event store (ev_contract event) chain_order_id with
            | Some spot_market => push_market spot_market (Cancelled cancelled) acc
            | None => push_unmapped (UnmappedCancelled chain_order_id) acc
            end
        | None => acc
        end
      else if decide (action_name = "order_updated")%string then
        match de_order_updated data with
        | Some updated =>
            let chain_order_id := order_id_to_string (ou_order_id updated) in
            match resolve_spot_market_for_order_event store (ev_contract event) chain_order_id with
            | Some spot_market => push_market spot_market (Updated updated) acc
            | None => push_unmapped (UnmappedUpdated chain_order_id) acc
            end
        | None => acc
        end
      else if decide (action_name = "order_filled")%string then
        match de_order_filled data with
        | Some filled => push_market (normalize_spot_market_key (contract_to_string (of_market filled))) (Filled filled tx_sender) acc
        | None => acc
        end
      else if decide (action_name = "market_order_executed")%string then
        match de_market_order_executed data, spot_market_from_event_contract (ev_contract event) with
        | Some executed, Some spot_market => push_market spot_market (Executed executed) acc
        | _, _ => acc
        end
      else acc
  | _, _ => acc
  end.

Definition prepare_transaction (store : Orders) (acc : Grouped) (tx_result : TransactionResult) : Grouped :=
  if tr_is_success tx_result
  then foldl (prepare_event store (address_to_string (tr_sender tx_result))) acc (rc_events (tr_receipt tx_result))
  else acc.

Definition prepare_block (store : Orders) (block : ReceiptBlock) : PreparedBlock :=
  let '(markets, unmapped) := foldl (prepare_transaction store) (∅, []) (rb_transaction_outputs block) in
  {| pb_block_num := rb_block_num block; pb_block_digest := rb_digest block;
     pb_tx_count := length (rb_transaction_outputs block);
     pb_ok_count := length (filter (fun tx => tr_is_success tx = true) (rb_transaction_outputs block));
     pb_block := block; pb_markets := markets; pb_unmapped := unmapped |}.

(** ** The apply stage *)

Definition complete_waiters (block_num : Z) (wait : Registry) (txs : list TransactionResult) : Registry :=
  foldl (fun wait tx => (complete wait (tr_signed_digest tx) block_num (tr_receipt tx)).1) wait txs.

Definition is_order_action (action_name : string) : bool :=
  bool_decide (action_name ∈ ["order_created"; "order_cancelled"; "order_updated"; "order_filled"; "market_order_executed"]%string).

Definition apply_event (env : ProcessEnv) (st : St) (event : TransactionEvent) : St :=
  match ev_event_type event with
  | Call action_name =>
      if is_order_action action_name then st
      else match ev_data event with
           | Bytes data => match decode_global action_name (ev_contract event) data with
                           | Some e => apply_global_event env st e
                           | None => st
                           end
           | OtherData => st
           end
  | OtherType => st
  end.

Definition apply_transaction (env : ProcessEnv) (st : St) (tx_result : TransactionResult) : St :=
  if tr_is_success tx_result then foldl (apply_event env) st (rc_events (tr_receipt tx_result)) else st.

(** An order event whose market is unknown rehydrates every book. *)
Definition apply_unmapped (env : ProcessEnv) (st : St) (item : UnmappedOrderEvent) : St :=
  if pe_publish_ws env then hydrate_all_spot_markets st.1 (pe_query_account env) st.2 else st.

(** The market tasks, one after the other, their write sets merged. *)
Definition apply_markets (env : ProcessEnv) (st : Index * IndexWriteSet) (markets : list (string * list MarketOrderEvent)) : Index * IndexWriteSet :=
  foldl (fun st m => let '(i, set) := apply_market_order_events env st.1 m.1 m.2 in (i, merge st.2 set)) st markets.

Definition set_block (block_num : Z) (digest : string) (ws : IndexWriteSet) : IndexWriteSet :=
  {| ws_block_num := block_num; ws_digest := digest; ws_full_replace := ws_full_replace ws;
     ws_markets := ws_markets ws; ws_orders := ws_orders ws; ws_book_levels := ws_book_levels ws;
     ws_book_meta := ws_book_meta ws; ws_last_trades := ws_last_trades ws; ws_vaults := ws_vaults ws;
     ws_vault_portfolio := ws_vault_portfolio ws |}.

(** The end of a block: the paper feeds. *)
Definition flush_paper (env : ProcessEnv) (i : Index) : Index :=
  let b := indexing_block_timestamp_ms (ix_orders i) in
  set_paper (flush_paper_stake_history b (pe_now_ms env) (pe_publish_ws env)
               (flush_paper_house_ws b (pe_now_ms env) (pe_publish_ws env) (ix_paper i))) i.

(** The environment of a block: its number. *)
Definition at_block (env : ProcessEnv) (block_num : Z) : ProcessEnv :=
  {| pe_query_account := pe_query_account env; pe_block_num := block_num; pe_publish_ws := pe_publish_ws env;
     pe_now_ts := pe_now_ts env; pe_now_ms := pe_now_ms env |}.

Definition process_prepared_block (env : ProcessEnv) (i : Index) (wait : Registry) (prepared : PreparedBlock)
    : Index * Registry * IndexWriteSet :=
  let env := at_block env (pb_block_num prepared) in
  let block := pb_block prepared in
  let i := set_orders (set_indexing_block_timestamp (ix_orders i) (rb_timestamp block)) i in
  let wait := complete_waiters (pb_block_num prepared) wait (rb_transaction_outputs block) in
  let st := foldl (apply_transaction env) (i, Some (ws_default 0 "" false)) (rb_transaction_outputs block) in
  let st := foldl (apply_unmapped env) st (pb_unmapped prepared) in
  let '(i, ws) := apply_markets env (st.1, default (ws_default 0 "" false) st.2) (map_to_list (pb_markets prepared)) in
  (flush_paper env i, wait, set_block (pb_block_num prepared) (pb_block_digest prepared) ws).

Definition process_block (env : ProcessEnv) (i : Index) (wait : Registry) (block : ReceiptBlock) : Index * Registry * IndexWriteSet :=
  process_prepared_block env i wait (prepare_block (ix_orders i) block).

End Processor.
