(* ===== verification/Decode.v ===== *)
(** * Decode: what the decode stage makes of a block's receipts

    Every decodable order event of a successful transaction ends up in exactly
    one place, the list of its market or the unmapped list, and each list keeps
    the order of the receipts. *)
From Stdlib Require Import Strings.Byte.
From S2P Require Import Prelude Text Sdk Keys Orders Paper Submit Events Hydrate Processor.

Local Open Scope list_scope.

Section Decode.
Context {SD : Sdk} {B : Bincode}.

(** Where an order event goes: a market's list, or the unmapped list. *)
Inductive Routed := ToMarket (spot_market : string) (event : MarketOrderEvent) | ToUnmapped (item : UnmappedOrderEvent).

Definition route_resolved (store : Orders) (contract : option ContractAddress) (chain_order_id : string) (event : MarketOrderEvent)
    (item : UnmappedOrderEvent) : Routed :=
  match resolve_spot_market_for_order_event store contract chain_order_id with
  | Some spot_market => ToMarket spot_market event
  | None => ToUnmapped item
  end.

(** The decoded form of an event, by action. *)
Definition routed (store : Orders) (e : string * TransactionEvent) : option Routed :=
  let contract := ev_contract e.2 in
  match ev_event_type e.2, ev_data e.2 with
  | Call a, Bytes data =>
      if decide (a = "order_created")%string then
        (fun c => ToMarket (normalize_spot_market_key (address_to_string (oc_market c))) (Created c)) <$> de_order_created data
      else if decide (a = "order_cancelled")%string then
        (fun c => route_resolved store contract (order_id_to_string (on_order_id c)) (Cancelled c) (UnmappedCancelled (order_id_to_string (on_order_id c))))
          <$> de_order_cancelled data
      else if decide (a = "order_updated")%string then
        (fun c => route_resolved store contract (order_id_to_string (ou_order_id c)) (Updated c) (UnmappedUpdated (order_id_to_string (ou_order_id c))))
          <$> de_order_updated data
      else if decide (a = "order_filled")%string then
        (fun f => ToMarket (normalize_spot_market_key (contract_to_string (of_market f))) (Filled f e.1)) <$> de_order_filled data
      else if decide (a = "market_order_executed")%string then
        x ← de_market_order_executed data; k ← spot_market_from_event_contract contract; Some (ToMarket k (Executed x))
      else None
  | _, _ => None
  end.

Definition push (r : option Routed) (acc : Grouped) : Grouped :=
  match r with Some (ToMarket k e) => push_market k e acc | Some (ToUnmapped u) => push_unmapped u acc | None => acc end.

Lemma prepare_event_push store sender acc ev : prepare_event store sender acc ev = push (routed store (sender, ev)) acc.
Proof.
  unfold prepare_event, routed, route_resolved. simpl. destruct (ev_event_type ev) as [a|]; [|done]. destruct (ev_data ev) as [data|]; [|done].
  repeat case_decide; try done.
  - by destruct (de_order_created data).
  - destruct (de_order_cancelled data) as [c|]; [|done]. simpl. by destruct (resolve_spot_market_for_order_event _ _ _).
  - destruct (de_order_updated data) as [c|]; [|done]. simpl. by destruct (resolve_spot_market_for_order_event _ _ _).
  - by destruct (de_order_filled data).
  - destruct (de_market_order_executed data) as [c|]; [|done]. simpl. by destruct (spot_market_from_event_contract _).
Qed.

(** The events of the successful transactions, in receipt order, each with the
    transaction's sender. *)
Definition block_events (block : ReceiptBlock) : list (string * TransactionEvent) :=
  concat ((fun tx => if tr_is_success tx then pair (address_to_string (tr_sender tx)) <$> rc_events (tr_receipt tx) else []) <$>
          rb_transaction_outputs block).

Definition to_market (store : Orders) (k : string) (e : string * TransactionEvent) : option MarketOrderEvent :=
  match routed store e with Some (ToMarket k' x) => if decide (k' = k) then Some x else None | _ => None end.
Definition to_unmapped (store : Orders) (e : string * TransactionEvent) : option UnmappedOrderEvent :=
  match routed store e with Some (ToUnmapped u) => Some u | _ => None end.

(** A map of lists without empty ones. *)
Definition get_list (m : gmap string (list MarketOrderEvent)) (k : string) : list MarketOrderEvent := default [] (m !! k).
Definition no_empty (m : gmap string (list MarketOrderEvent)) : Prop := forall k, m !! k <> Some [].

Lemma push_lists store e (acc : Grouped) : no_empty acc.1 ->
  let acc' := push (routed store e) acc in
  no_empty acc'.1 /\ (forall k, get_list acc'.1 k = get_list acc.1 k ++ option_list (to_market store k e)) /\
  acc'.2 = acc.2 ++ option_list (to_unmapped store e).
Proof.
  intros Hn. unfold to_market, to_unmapped. destruct (routed store e) as [[k x|u]|]; simpl; split_and!; rewrite ?app_nil_r; try done.
  - intros k'. simpl. intros [[_ H]|[_ H]]%lookup_insert_Some; [by destruct (default [] (acc.1 !! k))|by apply (Hn k')].
  - intros k'. unfold get_list. case_decide as E; [by subst k'; rewrite lookup_insert_eq|]. by rewrite lookup_insert_ne, app_nil_r.
  - intros k'. by rewrite app_nil_r.
  - intros k'. by rewrite app_nil_r.
Qed.

Lemma prepare_fold store (l : list (string * TransactionEvent)) (acc : Grouped) : no_empty acc.1 ->
  let acc' := foldl (fun acc e => push (routed store e) acc) acc l in
  no_empty acc'.1 /\ (forall k, get_list acc'.1 k = get_list acc.1 k ++ omap (to_market store k) l) /\
  acc'.2 = acc.2 ++ omap (to_unmapped store) l.
Proof.
  revert acc. induction l as [|e l IH]; intros acc Hn; [split_and!; intros; rewrite ?app_nil_r; done|]. cbn [foldl].
  destruct (push_lists store e acc Hn) as (H1 & H2 & H3). destruct (IH _ H1) as (G1 & G2 & G3). split_and!; [done| |].
  - intros k. rewrite G2, H2, <- app_assoc. f_equal. csimpl. by destruct (to_market store k e).
  - rewrite G3, H3, <- app_assoc. f_equal. csimpl. by destruct (to_unmapped store e).
Qed.

Lemma foldl_concat {A E} (f : A -> E -> A) (l : list (list E)) a : foldl f a (concat l) = foldl (foldl f) a l.
Proof. revert a. induction l as [|x l IH]; intros a; [done|]. simpl. by rewrite foldl_app, IH. Qed.

Lemma foldl_fmap {A D E} (f : A -> E -> A) (g : D -> E) l a : foldl f a (g <$> l) = foldl (fun a d => f a (g d)) a l.
Proof. revert a. induction l as [|x l IH]; intros a; [done|]. csimpl. by rewrite IH. Qed.

Lemma foldl_ext {A E} (f g : A -> E -> A) l a : (forall a e, f a e = g a e) -> foldl f a l = foldl g a l.
Proof. intros H. revert a. induction l as [|x l IH]; intros a; [done|]. simpl. by rewrite H, IH. Qed.

Lemma prepare_transactions store acc txs :
  foldl (prepare_transaction store) acc txs =
    foldl (fun acc e => push (routed store e) acc) acc
      (concat ((fun tx => if tr_is_success tx then pair (address_to_string (tr_sender tx)) <$> rc_events (tr_receipt tx) else []) <$> txs)).
Proof.
  rewrite foldl_concat, foldl_fmap. apply foldl_ext. intros a tx. unfold prepare_transaction. destruct (tr_is_success tx); [|done].
  rewrite foldl_fmap. apply foldl_ext. intros a' e. apply prepare_event_push.
Qed.

Lemma prepare_block_block store block : pb_block (prepare_block store block) = block.
Proof. unfold prepare_block. by destruct (foldl (prepare_transaction store) _ _). Qed.

Lemma prepare_block_lists store block :
  no_empty (pb_markets (prepare_block store block)) /\
  (forall k, get_list (pb_markets (prepare_block store block)) k = omap (to_market store k) (block_events block)) /\
  pb_unmapped (prepare_block store block) = omap (to_unmapped store) (block_events block).
Proof.
  unfold prepare_block. rewrite prepare_transactions. fold (block_events block).
  destruct (prepare_fold store (block_events block) (∅, [])) as (H1 & H2 & H3); [by intros k; simpl; rewrite lookup_empty|].
  destruct (foldl _ _ _) as [ms us]. simpl in *. split_and!; [done| |done]. intros k. rewrite H2. unfold get_list. by rewrite lookup_empty.
Qed.

(** C19: the decode stage loses, duplicates and reorders nothing: each market is
    listed exactly when it has order events, with all of its events in receipt
    order; events whose market cannot be resolved are listed, in order, as
    unmapped; and every decodable order event goes to one of them. *)
Theorem prepare_block_partition store block :
  let p := prepare_block store block in
  (forall k, pb_markets p !! k =
     match omap (to_market store k) (block_events block) with [] => None | es => Some es end) /\
  pb_unmapped p = omap (to_unmapped store) (block_events block) /\
  (forall e r, e ∈ block_events block -> routed store e = Some r ->
     match r with
     | ToMarket k x => exists es, pb_markets p !! k = Some es /\ x ∈ es
     | ToUnmapped u => u ∈ pb_unmapped p
     end).
Proof.
  cbv zeta. destruct (prepare_block_lists store block) as (H1 & H2 & H3).
  assert (forall k, pb_markets (prepare_block store block) !! k =
     match omap (to_market store k) (block_events block) with [] => None | es => Some es end) as HK.
  { intros k. rewrite <- H2. unfold get_list. specialize (H1 k). destruct (pb_markets _ !! k) as [[|x es]|]; done. }
  split_and!; [done|done|]. intros e [k x|u] He Hr.
  - assert (x ∈ omap (to_market store k) (block_events block)) as Hx.
    { apply list_elem_of_omap. exists e. split; [done|]. unfold to_market. by rewrite Hr, decide_True. }
    rewrite HK. revert Hx. destruct (omap (to_market store k) (block_events block)) as [|y es]; [by intros ?%not_elem_of_nil|]. by eexists.
  - rewrite H3. apply list_elem_of_omap. exists e. split; [done|]. unfold to_unmapped. by rewrite Hr.
Qed.

(** A property of every routed event holds of the grouped ones. *)
Lemma prepared_all (P : string -> MarketOrderEvent -> Prop) store block k es :
  (forall e k x, e ∈ block_events block -> routed store e = Some (ToMarket k x) -> P k x) ->
  pb_markets (prepare_block store block) !! k = Some es -> Forall (P k) es.
Proof.
  intros HP Hk. destruct (prepare_block_lists store block) as (_ & H2 & _). specialize (H2 k). unfold get_list in H2. rewrite Hk in H2.
  simpl in H2. subst es. apply Forall_forall. intros x (e & He & Hx)%list_elem_of_omap. unfold to_market in Hx.
  destruct (routed store e) as [[k' y|]|] eqn:Er; try done. case_decide; [|done]. simplify_eq. by eapply HP.
Qed.

(** A market is listed because an event went to it. *)
Lemma prepared_market store block k es :
  pb_markets (prepare_block store block) !! k = Some es -> exists e x, e ∈ block_events block /\ routed store e = Some (ToMarket k x).
Proof.
  intros Hk. destruct (prepare_block_lists store block) as (H1 & H2 & _). specialize (H1 k). specialize (H2 k). unfold get_list in H2.
  rewrite Hk in H1, H2. simpl in H2. subst es. destruct (omap _ _) as [|x es] eqn:E; [done|].
  assert (x ∈ omap (to_market store k) (block_events block)) as (e & He & Hx)%list_elem_of_omap by (rewrite E; left).
  unfold to_market in Hx. destruct (routed store e) as [[k' y|]|] eqn:Er; try done. case_decide; [|done]. simplify_eq. by exists e, x.
Qed.

End Decode.
