(* ===== verification/PaperBlocks.v ===== *)
(** * PaperBlocks: what a block does to the paper state

    Each event maps to a sequence of paper operations; a block runs the
    operations of its events, at the block's time, and then the two flushes, and
    nothing else it does reaches the paper state. *)
From Stdlib Require Import Strings.Byte.
From S2P Require Import Prelude Text Errors Sdk Keys Amounts Domain WriteSet Books Bars Orders Markets Vaults.
From S2P Require Import Paper PaperFacts PaperViews Submit Events Hydrate Processor Decode.

Local Open Scope list_scope.
Local Open Scope Z_scope.

Section PaperBlocks.
Context {SD : Sdk} {L : SdkLaws} {B : Bincode} {C : Chain} {PC : PaperChain}.

(** ** Parts of the index that leave the paper state and the block's time alone *)

Definition same_paper (i i' : Index) : Prop := ix_paper i' = ix_paper i /\ o_block_secs (ix_orders i') = o_block_secs (ix_orders i).

Lemma same_refl i : same_paper i i.
Proof. done. Qed.

Lemma same_trans i1 i2 i3 : same_paper i1 i2 -> same_paper i2 i3 -> same_paper i1 i3.
Proof. intros [A1 A2] [B1 B2]. split; congruence. Qed.

Lemma same_hydrate q spot depth (st st' : St) : hydrate_spot_from_chain st.1 q spot depth st.2 = Ok st' -> same_paper st.1 st'.1.
Proof. destruct st' as [i' ws']. intros (cb & price & -> & _)%hydrate_spot_Ok. done. Qed.

Lemma same_hydrated env spot (st : St) : same_paper st.1 (hydrated env spot st).1.
Proof.
  unfold hydrated, or_unchanged, ensure_chain_hydrated. destruct (is_chain_hydrated _ _); [by destruct st|].
  destruct (hydrate_spot_from_chain _ _ _ _ _) eqn:E; [|done]. by eapply same_hydrate.
Qed.

Lemma same_hydrate_each q spots (st : St) : same_paper st.1 (hydrate_each q st spots).1.
Proof.
  unfold hydrate_each. revert st. induction spots as [|spot spots IH]; intros st; cbn [foldl]; [done|].
  eapply same_trans; [|apply IH]. unfold or_unchanged. destruct (hydrate_spot_from_chain _ _ _ _ _) eqn:E; [|done]. by eapply same_hydrate.
Qed.

Lemma same_publishing env f (st : St) : (forall i, same_paper i (f i)) -> same_paper st.1 (when_publishing env f st).1.
Proof. intros H. unfold when_publishing. destruct (pe_publish_ws env); [apply H|done]. Qed.

Lemma same_user_order ev spot chain n i : same_paper i (publish_user_order ev i spot chain n).
Proof. unfold publish_user_order. by destruct (stored_order_by_chain_id _ _ _) as [[[o u] s]|]. Qed.

Lemma same_user_filled spot chain e sender n i : same_paper i (publish_user_order_filled i spot chain e sender n).
Proof.
  unfold publish_user_order_filled. destruct (stored_order_by_chain_id _ _ _) as [[[o u] s]|]; [done|]. by destruct (of_cloid e).
Qed.

Lemma history_secs o row : o_block_secs (write_order_history o row) = o_block_secs o.
Proof. unfold write_order_history. by destruct (o_persist o). Qed.

Lemma insert_secs o ord user spot chain size filled ws :
  o_block_secs (insert_order o ord user spot chain size filled ws).1 = o_block_secs o.
Proof. unfold insert_order. destruct (is_hot_order_status _); [done|]. apply history_secs. Qed.

Lemma settle_secs o id st ws : o_block_secs (settle_order o id st ws).1 = o_block_secs o.
Proof. unfold settle_order. destruct (is_hot_order_status _); [done|]. simpl. by rewrite history_secs. Qed.

Lemma amount_secs o spot chain n r ws : o_block_secs (update_order_amount o spot chain n r ws).1 = o_block_secs o.
Proof. unfold update_order_amount. destruct (stored_at _ _ _) as [[id st]|]; [apply settle_secs|done]. Qed.

Lemma fill_secs o spot chain n r f ws : o_block_secs (update_order_fill o spot chain n r f ws).1 = o_block_secs o.
Proof. unfold update_order_fill. destruct (stored_at _ _ _) as [[id st]|]; [apply settle_secs|done]. Qed.

Lemma cancelled_secs o spot chain ws : o_block_secs (update_order_cancelled o spot chain ws).1 = o_block_secs o.
Proof. unfold update_order_cancelled. destruct (stored_at _ _ _) as [[id st]|]; [|done]. simpl. by rewrite history_secs. Qed.

Lemma same_venue i spot : same_paper i (market_of_venue i spot).1.
Proof.
  unfold market_of_venue. destruct (lookup_spot_market _ _); [done|]. by destruct (ensure_standalone_spot_market _ _) as [m mapped].
Qed.

Lemma same_index_created i e spot ov ws : same_paper i (index_order_created i e spot ov ws).1.1.
Proof.
  unfold index_order_created. pose proof (same_venue i spot) as H. destruct (market_of_venue i spot) as [i1 [id out]].
  destruct (default _ ov) as [status filled]. pose proof (insert_secs (ix_orders i1)) as HI.
  destruct (insert_order _ _ _ _ _ _ _ _) as [o ws1] eqn:E. eapply same_trans; [exact H|]. split; [done|]. simpl.
  pose proof (f_equal (fun r => o_block_secs r.1) E) as E'. simpl in E'. by rewrite HI in E'.
Qed.

Lemma same_index_executed i e spot ws : same_paper i (index_market_order_executed i e spot ws).1.1.
Proof.
  unfold index_market_order_executed. pose proof (same_venue i spot) as H. destruct (market_of_venue i spot) as [i1 [id out]].
  pose proof (insert_secs (ix_orders i1)) as HI.
  destruct (insert_order _ _ _ _ _ _ _ _) as [o ws1] eqn:E. eapply same_trans; [exact H|]. split; [done|]. simpl.
  pose proof (f_equal (fun r => o_block_secs r.1) E) as E'. simpl in E'. by rewrite HI in E'.
Qed.

Lemma same_order_event env spot (st : St) e : same_paper st.1 (apply_market_order_event env spot st e).1.
Proof.
  destruct st as [i ws], e as [e|e|e|e sender|e]; simpl.
  - unfold apply_created_event. destruct (has_chain_order _ _ _); [done|]. cbv zeta. pose proof (same_hydrated env spot (i, ws)) as H.
    eapply same_trans; [|apply same_publishing; intros j; apply same_user_order]. eapply same_trans; [|apply same_index_created].
    eapply same_trans; [exact H|]. unfold apply_order_created_to_book. destruct (oc_order_type e); try done.
    by destruct (apply_created _ _ _ _ _ _ _ _).
  - unfold apply_cancelled_event. simpl. destruct (apply_cancelled _ _ _ _ _ _ _ _) as [b ws1].
    pose proof (cancelled_secs (ix_orders i) spot (order_id_to_string (on_order_id e)) ws1) as H.
    destruct (update_order_cancelled _ _ _ _) as [o ws2]. eapply same_trans; [|apply same_publishing; intros j; apply same_user_order].
    by split.
  - unfold apply_updated_event. pose proof (same_hydrated env spot (i, ws)) as H. destruct (hydrated env spot (i, ws)) as [i1 ws0]. simpl in *.
    destruct (apply_updated _ _ _ _ _ _ _ _ _ _) as [b ws1].
    pose proof (amount_secs (ix_orders i1) spot (order_id_to_string (ou_order_id e)) (ou_new_amount e) (ou_remaining_amount e) ws1) as H1.
    destruct (update_order_amount _ _ _ _ _ _) as [o ws2]. eapply same_trans; [|apply same_publishing; intros j; apply same_user_order].
    eapply same_trans; [exact H|]. by split.
  - unfold apply_filled_event. simpl. set (st1 := when_publishing _ _ _).
    assert (same_paper i st1.1) as H1.
    { unfold st1. eapply same_trans; [|apply same_publishing; intros j; unfold candle_trade; by destruct (of_side e)]. done. }
    pose proof (same_hydrated env spot st1) as H2. destruct (hydrated env spot st1) as [i2 ws2]. simpl in *.
    destruct (apply_filled _ _ _ _ _ _ _ _ _ _ _) as [b ws3].
    pose proof (fill_secs (ix_orders i2) spot (order_id_to_string (of_order_id e)) (of_fill_amount e) (of_remaining_amount e) (of_is_fully_filled e) ws3) as H3.
    destruct (update_order_fill _ _ _ _ _ _ _) as [o ws4]. eapply same_trans; [|apply same_publishing; intros j; apply same_user_filled].
    eapply same_trans; [exact H1|]. eapply same_trans; [exact H2|]. unfold credit_vault. simpl.
    destruct (stored_order_by_chain_id _ _ _) as [[[x u] s]|]; [|by split]. by destruct (apply_vault_fill_to_portfolio _ _ _ _ _ _).
  - unfold apply_executed_event. simpl. destruct (has_chain_order _ _ _); [done|]. pose proof (same_index_executed i e spot ws) as H.
    destruct (index_market_order_executed i e spot ws) as [[i1 ws1] [order|]]; [|done]. simpl in H.
    eapply same_trans; [exact H|]. apply same_publishing. done.
Qed.

Lemma same_foldl {A} (f : St -> A -> St) l (st : St) : (forall st a, same_paper st.1 (f st a).1) -> same_paper st.1 (foldl f st l).1.
Proof. intros H. revert st. induction l as [|a l IH]; intros st; [done|]. cbn [foldl]. eapply same_trans; [apply H|apply IH]. Qed.

Lemma same_markets env i w ms : same_paper i (apply_markets env (i, w) ms).1.
Proof.
  unfold apply_markets. revert i w. induction ms as [|m ms IH]; intros i w; [done|]. cbn [foldl fst snd].
  pose proof (same_foldl (apply_market_order_event env m.1) m.2 (i, Some (ws_default 0 "" false)) (same_order_event env m.1)) as H.
  unfold apply_market_order_events. destruct (foldl _ _ m.2) as [i1 ws1]. simpl in *. eapply same_trans; [exact H|apply IH].
Qed.

(** ** The operations of a block *)

Definition paper_ops (block_num : Z) (e : GlobalEvent) : list PaperOp :=
  match e with
  | OracleCommitted contract e =>
      let spot_market := default ""%string (spot_market_from_event_contract contract) in
      if decide (spot_market = "")%string then [] else [OpOracle spot_market (or_round e) (or_oracle_price e) (or_mark_price e) block_num]
  | PaperInstrumentAdded e => [OpInstrument (contract_to_string (ia_market e)) (ia_instrument e) (ia_name e) (contract_to_string (ia_price_market e))]
  | PaperOpened e => [OpHouse (contract_to_string (pd_market e)) (pd_house e); OpOpen (opened_row e block_num)]
  | PaperClosed e =>
      let market := contract_to_string (pc_market e) in let owner := address_to_string (pc_owner e) in
      [OpHouse market (pc_house e);
       OpClose market (pc_position e) owner block_num
         {| cd_exit_price := format_oracle_human (pc_exit_price e); cd_fee := format_token_amount (pc_fee e);
            cd_payout := format_token_amount (pc_payout e); cd_queued := format_token_amount (pc_queued e);
            cd_minted := format_token_amount (pc_minted e); cd_pnl := format_i64_token (pc_pnl e);
            cd_pnl_raw := pc_pnl e; cd_kind := Closed; cd_liquidator := None; cd_known_margin := None |}] ++
      (if decide (0 < pc_minted e \/ pc_pnl e < 0)
       then [OpActivity (activity "close_loss" market owner (pc_minted e) (Some (pc_pnl e)) (Some (pc_position e)) block_num)] else []) ++
      (if decide (0 < pc_minted e) then [OpStakeDirty market] else [])
  | PaperLiquidated e =>
      let market := contract_to_string (pl_market e) in let owner := address_to_string (pl_owner e) in let pnl := lost_margin (pl_margin e) in
      [OpHouse market (pl_house e);
       OpClose market (pl_position e) owner block_num
         {| cd_exit_price := format_oracle_human (pl_exit_price e); cd_fee := "0"; cd_payout := "0"; cd_queued := "0";
            cd_minted := format_token_amount (pl_minted e); cd_pnl := format_i64_token pnl; cd_pnl_raw := pnl;
            cd_kind := Liquidated; cd_liquidator := Some (address_to_string (pl_liquidator e)); cd_known_margin := Some (pl_margin e) |};
       OpActivity (activity "liquidated" market owner (pl_minted e) (Some pnl) (Some (pl_position e)) block_num);
       OpStakeDirty market]
  | PaperQueued e => [OpQueued (contract_to_string (qu_market e)) (qu_index e) (address_to_string (qu_user e)) (qu_amount e) (qu_house e)]
  | PaperHarvested e => [OpHarvested (contract_to_string (hv_event_market e)) (hv_event_index e) (hv_event_house e)]
  | PaperFeesPushed e =>
      let market := contract_to_string (fp_market e) in
      [OpFees market (fp_staker_fee e) (fp_swept_stakers e); OpStakeDirty market; OpHouse market (fp_house e)]
  | PaperClaimed e =>
      let market := contract_to_string (cl_market e) in [OpClaimed market (address_to_string (cl_user e)) (cl_reward e); OpStakeDirty market]
  | PaperStaked e =>
      let market := contract_to_string (ps_market e) in
      [OpActivity (activity "staked" market (address_to_string (ps_user e)) (ps_amount e) None None block_num); OpStakeDirty market]
  | PaperUnstaked e =>
      let market := contract_to_string (ps_market e) in
      [OpActivity (activity "unstaked" market (address_to_string (ps_user e)) (ps_amount e) None None block_num); OpStakeDirty market]
  | _ => []
  end.

Definition event_ops (block_num : Z) (ev : TransactionEvent) : list PaperOp :=
  match ev_event_type ev, ev_data ev with
  | Call action, Bytes data =>
      if is_order_action action then []
      else match decode_global action (ev_contract ev) data with Some e => paper_ops block_num e | None => [] end
  | _, _ => []
  end.

Definition block_ops (block_num : Z) (block : ReceiptBlock) : list PaperOp := concat ((fun e => event_ops block_num e.2) <$> block_events block).

(** A state whose paper part has run some operations, at the time of the block. *)
Definition ran (env : ProcessEnv) (secs : Z) (p : Paper) (ops : list PaperOp) (st : St) : Prop :=
  o_block_secs (ix_orders st.1) = secs /\ ix_paper st.1 = foldl (paper_step (sat_mul secs 1000) (pe_now_ms env)) p ops.

Lemma ran_same env secs p ops (st st' : St) : same_paper st.1 st'.1 -> ran env secs p ops st -> ran env secs p ops st'.
Proof. intros [E1 E2] [R1 R2]. split; congruence. Qed.

Lemma vault_event_same f (st : St) : same_paper st.1 (vault_event f st).1.
Proof. unfold vault_event. by destruct (f _ _) as [v ws]. Qed.

Lemma ran_paper env secs p ops ops' f (st : St) :
  (forall q, f (sat_mul secs 1000) (pe_now_ms env) q = foldl (paper_step (sat_mul secs 1000) (pe_now_ms env)) q ops') ->
  ran env secs p ops st -> ran env secs p (ops ++ ops') (paper_event env f st).
Proof.
  intros Hf [R1 R2]. split; simpl; [done|]. unfold indexing_block_timestamp_ms. by rewrite R1, R2, Hf, foldl_app.
Qed.

Lemma ran_global env secs p ops (st : St) e :
  ran env secs p ops st -> ran env secs p (ops ++ paper_ops (pe_block_num env) e) (apply_global_event env st e).
Proof.
  intros R. destruct e as [e|a|e|v e|v e|v m|v b|v|name a creator|contract e|e|e|e|e|e|e|e|e|e|e]; cbn [paper_ops apply_global_event];
    rewrite ?app_nil_r; try (eapply ran_same; [apply vault_event_same|done]); try (by apply ran_paper).
  - unfold index_market_created. destruct (upsert_market _ _ _) as [m ws]. eapply ran_same; [|exact R].
    unfold hydrate_market_spots. by apply (same_hydrate_each _ _ (set_markets m st.1, ws)).
  - destruct (update_market_state _ _ _ _) as [m ws]. by eapply ran_same; [|exact R].
  - unfold index_spot_market_created. eapply ran_same; [apply same_hydrated|]. by destruct R.
  - unfold index_oracle_committed. case_decide; [by rewrite app_nil_r|]. by apply ran_paper.
  - apply ran_paper; [|done]. intros q. unfold index_paper_closed. rewrite !foldl_app. cbn [foldl paper_step].
    by case_decide; case_decide.
Qed.

Lemma ran_event env secs p ops (st : St) ev :
  ran env secs p ops st -> ran env secs p (ops ++ event_ops (pe_block_num env) ev) (apply_event env st ev).
Proof.
  intros R. unfold event_ops, apply_event. destruct (ev_event_type ev) as [a|]; [|by rewrite app_nil_r].
  destruct (ev_data ev) as [data|]; destruct (is_order_action a); rewrite ?app_nil_r; try done.
  destruct (decode_global _ _ _); [by apply ran_global|by rewrite app_nil_r].
Qed.

Lemma ran_foldl {A} env secs p (f : St -> A -> St) (g : A -> list PaperOp) l ops (st : St) :
  (forall st ops a, ran env secs p ops st -> ran env secs p (ops ++ g a) (f st a)) ->
  ran env secs p ops st -> ran env secs p (ops ++ concat (g <$> l)) (foldl f st l).
Proof.
  intros H. revert ops st. induction l as [|a l IH]; intros ops st R; [by rewrite app_nil_r|]. csimpl. rewrite (assoc_L (++)).
  by apply IH, H.
Qed.

Lemma block_ops_txs n block :
  block_ops n block =
    concat ((fun tx => if tr_is_success tx then concat (event_ops n <$> rc_events (tr_receipt tx)) else []) <$> rb_transaction_outputs block).
Proof.
  unfold block_ops, block_events. induction (rb_transaction_outputs block) as [|tx txs IH]; [done|]. csimpl.
  rewrite fmap_app, concat_app, IH. f_equal. destruct (tr_is_success tx); [|done]. by rewrite <- list_fmap_compose.
Qed.

(** A block's effect on the paper market is the sequence of operations of
    its own events, each at the block's time, then the two flushes: the order
    and market events, rehydrations and write sets it is interleaved with never
    reach the paper state. *)
Lemma block_paper_trace env i wait prepared :
  let block := pb_block prepared in
  let step := paper_step (sat_mul (rb_timestamp block) 1000) (pe_now_ms env) in
  ix_paper (process_prepared_block env i wait prepared).1.1 =
    foldl step (ix_paper i)
      (block_ops (pb_block_num prepared) block ++ [OpFlushHouse (pe_publish_ws env); OpFlushStake (pe_publish_ws env)]).
Proof.
  cbv zeta. unfold process_prepared_block. set (env' := at_block env (pb_block_num prepared)). set (i0 := set_orders _ i).
  set (secs := rb_timestamp (pb_block prepared)).
  assert (ran env' secs (ix_paper i) (block_ops (pb_block_num prepared) (pb_block prepared))
    (foldl (apply_transaction env') (i0, Some (ws_default 0 "" false)) (rb_transaction_outputs (pb_block prepared)))) as R.
  { rewrite block_ops_txs. apply (ran_foldl env' secs (ix_paper i) (apply_transaction env') _ _ []); [|done].
    intros st ops tx R. unfold apply_transaction. destruct (tr_is_success tx); [|by rewrite app_nil_r].
    apply (ran_foldl env' secs (ix_paper i) (apply_event env')); [|done]. intros st' ops' ev. apply (ran_event env'). }
  set (st1 := foldl (apply_transaction env') _ _) in *.
  assert (ran env' secs (ix_paper i) (block_ops (pb_block_num prepared) (pb_block prepared)) (foldl (apply_unmapped env') st1 (pb_unmapped prepared))) as R2.
  { eapply ran_same; [|exact R]. apply same_foldl. intros st item. unfold apply_unmapped. destruct (pe_publish_ws env'); [|done].
    unfold hydrate_all_spot_markets. apply (same_hydrate_each _ _ (st.1, st.2)). }
  destruct (foldl (apply_unmapped env') st1 _) as [i2 ws2]. cbn [fst snd].
  pose proof (same_markets env' i2 (default (ws_default 0 "" false) ws2) (map_to_list (pb_markets prepared))) as H.
  destruct (apply_markets env' _ _) as [i3 ws3]. cbn [fst snd] in *. apply (ran_same _ _ _ _ _ (i3, ws2)) in R2; [|done].
  destruct R2 as [R3 R4]. simpl in R3, R4. rewrite foldl_app. unfold flush_paper, indexing_block_timestamp_ms. simpl. by rewrite R3, R4.
Qed.

(** ** The overview feed, block by block *)

(** Operations acceptable one after the other. *)
Fixpoint ops_ok (b now : Z) (p : Paper) (ops : list PaperOp) : Prop :=
  match ops with
  | [] => True
  | op :: ops => (view_op_ok p op /\ queue_op_ok op /\ op <> OpFlushHouse false) /\ ops_ok b now (paper_step b now p op) ops
  end.

Lemma ops_ok_feed b now p ops : feed_reach p -> ops_ok b now p ops -> feed_reach (foldl (paper_step b now) p ops).
Proof. revert p. induction ops as [|op ops IH]; intros p Hp H; [done|]. destruct H as [(H1 & H2 & H3) H]. simpl. apply IH; [by constructor|done]. Qed.

(** C6: at the end of every block a publishing node has told subscribers the
    truth about every paper market: none is left dirty, and the last overview
    sent for a market is the one a query now answers. *)
Theorem block_feed_current env i wait prepared m :
  let b := sat_mul (rb_timestamp (pb_block prepared)) 1000 in
  feed_reach (ix_paper i) -> pe_publish_ws env = true -> addr_key m = m -> m <> ""%string ->
  ops_ok b (pe_now_ms env) (ix_paper i) (block_ops (pb_block_num prepared) (pb_block prepared)) ->
  let p := ix_paper (process_prepared_block env i wait prepared).1.1 in
  feed_reach p /\ p_house_dirty p = ∅ /\
  match last (house_messages m p) with
  | Some v => v = paper_house_view p m
  | None => paper_house_view p m = untouched_view m
  end.
Proof.
  intros b Hf Hpub Em Hm Hok p. unfold p. rewrite block_paper_trace. fold b. rewrite foldl_app.
  set (q := foldl (paper_step b (pe_now_ms env)) (ix_paper i) _). assert (feed_reach q) as Hq by (by apply ops_ok_feed). rewrite Hpub.
  cbn [foldl paper_step]. pose proof (house_feed_current b (pe_now_ms env) q m Hq Em Hm) as [H1 H2].
  set (q1 := flush_paper_house_ws b (pe_now_ms env) true q) in *.
  assert (feed_reach q1) as Hq1 by (by apply (feed_op b (pe_now_ms env) q (OpFlushHouse true))).
  split; [by apply (feed_op b (pe_now_ms env) q1 (OpFlushStake true))|].
  assert (house_messages m (flush_paper_stake_history b (pe_now_ms env) true q1) = house_messages m q1) as ->
    by (by apply (step_messages b (pe_now_ms env) q1 (OpFlushStake true))).
  assert (paper_house_view (flush_paper_stake_history b (pe_now_ms env) true q1) m = paper_house_view q1 m) as ->.
  { apply same_view, same_inputs_frame; by apply flush_stake_frame. }
  split; [by rewrite flush_stake_frame|done].
Qed.

End PaperBlocks.

(** ** A block that queues one claim *)

Definition demo_queued : PaperQueuedEvent (SD := DemoSdk) := Build_PaperQueuedEvent (SD := DemoSdk) (demo_contract_of 7) 0 1%N 25 demo_house.

#[local] Instance QueueBincode : Bincode (SD := DemoSdk).
Proof.
  refine (Build_Bincode (SD := DemoSdk) _ _ _ _ _ _ _ _ _ _ _ _ _ _ _ _ _ _ _ (fun _ => Some demo_queued) _ _ _ _ _);
    intros _; exact None.
Defined.

Definition demo_queue_block : ReceiptBlock (SD := DemoSdk) :=
  Build_ReceiptBlock (SD := DemoSdk) 9 "d9" 1700000000
    [Build_TransactionResult (SD := DemoSdk) "t9" 2%N true
       (Build_TransactionReceipt (SD := DemoSdk) [Build_TransactionEvent (SD := DemoSdk) (Call "paper_queued") (Bytes []) None] true)].

Definition demo_live : ProcessEnv :=
  {| pe_query_account := "a1"; pe_block_num := 9; pe_publish_ws := true; pe_now_ts := 1700000000; pe_now_ms := 1700000000000 |}.

Lemma block_feed_current_witness :
  let p := ix_paper (process_prepared_block (SD := DemoSdk) (C := DemoChain) demo_live (Index_new false)
             SubmitWaitRegistry_new (prepare_block (SD := DemoSdk) (Orders_new false) demo_queue_block)).1.1 in
  p_house_dirty p = ∅.
Proof.
  intros p.
  refine (proj1 (proj2 (block_feed_current (SD := DemoSdk) (C := DemoChain) demo_live (Index_new false) SubmitWaitRegistry_new
    (prepare_block (SD := DemoSdk) (Orders_new false) demo_queue_block) "c7" _ _ _ _ _))); [constructor|done|by vm_compute|done|].
  rewrite prepare_block_block. split; [|done]. split_and!; done.
Defined.
