(* ===== verification/ProcessorFacts.v ===== *)
(** * ProcessorFacts: the index and its tables move together

    The invariant of the whole index, the relation between the index and the
    database tables, and their preservation by every part of a block. *)
From S2P Require Import Prelude Text Errors Sdk Keys Amounts Slug Domain WriteSet Tables Books BooksFacts BooksPersist Bars.
From S2P Require Import Orders OrdersFacts Markets MarketsFacts Vaults VaultsFacts Paper PaperFacts Submit Events Hydrate Writes Processor Decode.

Local Open Scope list_scope.
Local Open Scope Z_scope.

(** The node's books have u64 prices and quantities, and its last prices are
    u64s, being u64 on the wire. *)
Class ChainU64 `{C : Chain} : Prop := {
  get_book_u64 account spot depth cb : get_book account spot depth = Ok cb -> chain_u64 cb;
  get_market_last_price_u64 account spot p : get_market_last_price account spot = Ok (Some p) -> is_u64 p
}.

Section Facts.
Context {SD : Sdk} {L : SdkLaws} {NC : NoCollision} {B : Bincode} {C : Chain} {CU : ChainU64} {PC : PaperChain}.

(** The contract keys that belong to event contracts; spot venues are others. *)
Context (is_event : string -> Prop).

(** ** The invariant of the index *)

(** A live order's uuid is the hash of its composite id. *)
Definition uuids_ok (o : Orders) : Prop := forall k st, abs o !! k = Some st -> ord_id (so_order st) = uuid_v5 k.

(** Spot markets are not at the address of an event contract; blocks create no
    perpetual market. *)
Definition role_ok (i : Uuid) (m : Market) : Prop :=
  match MarketOps.category m with
  | CSpot => ~ is_event (MarketOps.market_address m)
  | CEvent => exists a, i = market_uuid a /\ is_event a
  | CPerp => False
  end.
Definition roles_ok (s : Markets) : Prop := forall i m, m_markets s !! i = Some m -> role_ok i m.

(** Last prices are u64s under normal keys. *)
Definition prices_ok (s : Markets) : Prop :=
  forall k p, m_last_trade s !! k = Some p -> normalize_spot_market_key k = k /\ is_u64 p.

Record index_inv (i : Index) : Prop := {
  iv_books : book_wf (ix_books i);
  iv_keys : keys_normal (ix_books i);
  iv_heads : heads_ok (ix_books i);
  iv_orders : orders_wf (ix_orders i);
  iv_uuids : uuids_ok (ix_orders i);
  iv_markets : markets_inv (ix_markets i);
  iv_roles : roles_ok (ix_markets i);
  iv_prices : prices_ok (ix_markets i);
  iv_vaults : vaults_wf (ix_vaults i)
}.

(** ** The index and the tables *)

Definition mirrors_prices (t : gmap string Z) (s : Markets) : Prop := forall k, t !! k = as_i64 <$> m_last_trade s !! k.

(** What the tables hold of the index: levels and holdings where their size fits
    an i64 ([persistable]), the row of every book that has changed, the live
    orders, the markets other than spot shells, the last prices, the vaults. *)
Record persisted (t : IndexStateTables) (i : Index) : Prop := {
  ps_levels : mirrors (t_book_levels t) (ix_books i);
  ps_meta : mirrors_meta (t_book_meta t) (ix_books i);
  ps_orders : t_orders t = table_of (ix_orders i);
  ps_markets : mirrors_markets (t_markets t) (ix_markets i);
  ps_prices : mirrors_prices (t_last_trades t) (ix_markets i);
  ps_vaults : t_vaults t = vault_table (ix_vaults i);
  ps_holdings : mirrors_portfolio (t_vault_portfolio t) (ix_vaults i);
  ps_keys : tables_keys t
}.

(** A state of a block under way: the write set so far, over the tables [t],
    leads to tables that agree with the index. *)
Definition good (t : IndexStateTables) (st : Index * option IndexWriteSet) : Prop :=
  exists w, st.2 = Some w /\ ws_wf w /\ ws_full_replace w = false /\ persisted (tables_apply w t) st.1 /\ index_inv st.1.

Lemma ws_to_Some K w ws' : ws_to K (Some w) ws' -> exists w', ws' = Some w' /\ untouched K w w'.
Proof. destruct ws' as [w'|]; [|done]. intros H. exists w'. split; [done|]. by apply steps_untouched. Qed.

(** ** One component at a time *)

(** What is untouched follows the component's lemma for the rest. *)
Ltac frame U Hp :=
  pose proof (un_keys _ _ _ U L _ (ps_keys _ _ Hp)); destruct Hp as [P1 P8 P2 P3 P4 P5 P6 P7]; split; simpl in *;
  rewrite ?(un_markets _ _ _ U), ?(un_orders _ _ _ U), ?(un_levels _ _ _ U), ?(un_meta _ _ _ U), ?(un_prices _ _ _ U), ?(un_vaults _ _ _ U),
    ?(un_holdings _ _ _ U) by done; try done.

Lemma good_books t i ws b ws' :
  good t (i, ws) -> ws_to KBook ws ws' -> book_wf b -> keys_normal b -> heads_ok b ->
  (forall w m, ws = Some w -> mirrors (delta_apply (ws_book_levels w) m) (ix_books i) ->
    exists w', ws' = Some w' /\ mirrors (delta_apply (ws_book_levels w') m) b) ->
  (forall w m, ws = Some w -> mirrors_meta (delta_apply (ws_book_meta w) m) (ix_books i) ->
    exists w', ws' = Some w' /\ mirrors_meta (delta_apply (ws_book_meta w') m) b) ->
  good t (set_books b i, ws').
Proof.
  intros (w & E & Hw & Hf & Hp & Hi) Hto Hb Hk Hh HM HT. simpl in E. subst ws.
  destruct (ws_to_Some _ _ _ Hto) as (w' & -> & U). exists w'. split; [done|]. split; [by apply U|].
  split; [by rewrite (un_full _ _ _ U)|]. split.
  - frame U Hp.
    + by destruct (HM w (t_book_levels t) eq_refl P1) as (w2 & [= <-] & HM2).
    + by destruct (HT w (t_book_meta t) eq_refl P8) as (w2 & [= <-] & HM2).
  - destruct Hi. by split.
Qed.

Lemma good_orders t i ws o ws' :
  good t (i, ws) -> ws_to KOrder ws ws' -> orders_wf o -> uuids_ok o ->
  (forall w m, ws = Some w -> delta_apply (ws_orders w) m = table_of (ix_orders i) ->
    exists w', ws' = Some w' /\ delta_apply (ws_orders w') m = table_of o) ->
  good t (set_orders o i, ws').
Proof.
  intros (w & E & Hw & Hf & Hp & Hi) Hto Ho Hu HM. simpl in E. subst ws.
  destruct (ws_to_Some _ _ _ Hto) as (w' & -> & U). exists w'. split; [done|]. split; [by apply U|].
  split; [by rewrite (un_full _ _ _ U)|]. split.
  - frame U Hp. destruct (HM w (t_orders t) eq_refl P2) as (w2 & [= <-] & HM2). done.
  - destruct Hi. by split.
Qed.

Lemma good_markets t i ws m ws' :
  good t (i, ws) -> ws_to KMarket ws ws' -> markets_inv m -> roles_ok m -> m_last_trade m = m_last_trade (ix_markets i) ->
  (forall w tm, ws = Some w -> mirrors_markets (delta_apply (ws_markets w) tm) (ix_markets i) ->
    exists w', ws' = Some w' /\ mirrors_markets (delta_apply (ws_markets w') tm) m) ->
  good t (set_markets m i, ws').
Proof.
  intros (w & E & Hw & Hf & Hp & Hi) Hto Hm Hr Hl HM. simpl in E. subst ws.
  destruct (ws_to_Some _ _ _ Hto) as (w' & -> & U). exists w'. split; [done|]. split; [by apply U|].
  split; [by rewrite (un_full _ _ _ U)|]. split.
  - frame U Hp; [|intros k; rewrite Hl; apply P4]. destruct (HM w (t_markets t) eq_refl P3) as (w2 & [= <-] & HM2). done.
  - destruct Hi. split; try done. simpl. unfold prices_ok. by rewrite Hl.
Qed.

Lemma good_vaults t i ws op :
  good t (i, ws) -> vault_op_u64 op ->
  good t (set_vaults (vault_step (ix_vaults i, ws) op).1 i, (vault_step (ix_vaults i, ws) op).2).
Proof.
  intros (w & E & Hw & Hf & Hp & Hi) Hu. simpl in E. subst ws.
  destruct (ws_to_Some _ _ _ (vault_step_writes (ix_vaults i) (Some w) op)) as (w' & E & U). exists w'. split; [done|].
  split; [by apply U|]. split; [by rewrite (un_full _ _ _ U)|]. split.
  - destruct (step_mirrors_vaults (ix_vaults i) w op (t_vaults t) (t_vault_portfolio t)) as (w2 & E2 & V2 & H2);
      [apply Hi|apply Hp|apply Hp|]. rewrite E in E2. injection E2 as <-. frame U Hp.
  - destruct Hi. split; try done. by apply vault_step_wf.
Qed.

(** Messages, candles and block time are outside the tables. *)
Lemma good_hub t i ws msgs : good t (i, ws) -> good t (add_hub msgs i, ws).
Proof. intros (w & E & Hw & Hf & [] & []). exists w. split_and!; try done; by split. Qed.

Lemma good_bars t i ws b : good t (i, ws) -> good t (set_bars b i, ws).
Proof. intros (w & E & Hw & Hf & [] & []). exists w. split_and!; try done; by split. Qed.

Lemma good_paper t i ws p : good t (i, ws) -> good t (set_paper p i, ws).
Proof. intros (w & E & Hw & Hf & [] & []). exists w. split_and!; try done; by split. Qed.

Lemma good_price t i ws sp p :
  good t (i, ws) -> is_u64 p -> let r := record_last_trade_price (ix_markets i) sp p ws in good t (set_markets r.1 i, r.2).
Proof.
  intros (w & E & Hw & Hf & Hp & Hi) Hpu. simpl in E. subst ws. simpl. eexists. split; [done|].
  split; [by apply store_last_trade_wf|]. split; [done|]. split.
  - destruct Hp as [P1 P8 P2 P3 P4 P5 P6 [K1 K2 K3]]. split; simpl in *; try done; [].
    intros k. simpl. rewrite delta_store_apply. destruct (decide (k = normalize_spot_market_key sp)) as [->|Hne].
    + rewrite normalize_idemp, !lookup_insert_eq. done.
    + rewrite normalize_idemp, !lookup_insert_ne by done. apply P4.
  - destruct Hi as [I1 I9 I10 I2 I3 I4 I5 I6 I7]. split; try done; simpl; [by apply (proj1 (price_good (ix_markets i) sp p I4) None)|].
    intros k q. simpl. intros [[<- <-]|[_ H]]%lookup_insert_Some; [|by apply I6]. split; [apply normalize_idemp|done].
Qed.

(** ** Orders *)

(** An inserted order carries the hash of its composite id. *)
Definition op_uuid (op : OrderOp) : Prop :=
  match op with OpInsert order _ spot chain _ _ => ord_id order = uuid_v5 (onchain_order_id spot chain) | _ => True end.

Lemma uuids_step o ws op :
  orders_wf o -> op_placed o op -> uuids_ok o -> op_uuid op -> uuids_ok (order_step (o, ws) op).1.
Proof.
  intros W Hf HU Ho. destruct (order_step_spec o ws op W Hf) as (_ & E & _). unfold uuids_ok. rewrite E. intros k st.
  unfold spec_step. destruct (op_result (abs o !! op_key op) op) as [r|] eqn:Er; [|apply HU].
  assert (ord_id (so_order r) = uuid_v5 (op_key op)) as Hr.
  { destruct op; simpl in *; [by injection Er as <-| | |]; apply fmap_Some in Er as (x & Hx & ->); by apply HU in Hx. }
  destruct (hot r).
  - intros [[<- <-]|[_ H]]%lookup_insert_Some; [done|by apply HU].
  - destruct op; try apply HU; intros [_ H]%lookup_delete_Some; by apply HU.
Qed.

Lemma good_order_op t i ws op :
  good t (i, ws) -> op_placed (ix_orders i) op -> op_uuid op ->
  let r := order_step (ix_orders i, ws) op in good t (set_orders r.1 i, r.2).
Proof.
  intros Hg Hf Hu r. pose proof Hg as (w0 & _ & _ & _ & _ & Hi).
  apply (good_orders t i ws); [done|apply order_step_writes| | |].
  - by apply order_step_spec; [apply Hi|].
  - by apply uuids_step; try apply Hi.
  - intros w m -> HM. unfold r. by apply order_step_table; [apply Hi|].
Qed.

(** The duplicate check of the handlers makes the inserted order fresh. *)
Lemma checked_fresh i order user spot chain size filled :
  index_inv i -> has_chain_order (ix_orders i) spot chain = false -> ord_id order = uuid_v5 (onchain_order_id spot chain) ->
  op_placed (ix_orders i) (OpInsert order user spot chain size filled).
Proof.
  intros Hi Hn Hid _. left. apply bool_decide_eq_false, eq_None_not_Some in Hn. split; [done|]. rewrite Hid.
  destruct (o_orders (ix_orders i) !! _) as [st|] eqn:E; [|done]. exfalso.
  destruct (ow_orders _ (iv_orders i Hi) _ _ E) as (E1 & _ & _ & E2 & _).
  assert (abs (ix_orders i) !! so_key st = Some st) as E3.
  { apply abs_Some; [apply Hi|]. by rewrite E1. }
  apply (iv_uuids i Hi) in E3. rewrite E1 in E3. apply uuid_v5_inj in E3. congruence.
Qed.

(** ** Books and hydration *)

Lemma good_book_op t i ws pub op :
  good t (i, ws) -> op_u64 op -> op_trade_u64 op -> let r := book_step pub (ix_books i, ws) op in good t (set_books r.1 i, r.2).
Proof.
  intros Hg Hu Ht r. pose proof Hg as (w0 & _ & _ & _ & _ & Hi).
  apply (good_books t i ws); [done|by apply book_step_writes|by apply step_wf; [apply Hi|]|apply step_keys_normal, Hi|by apply step_heads_ok; [apply Hi|]|..].
  - intros w m -> HM. by apply step_mirrors; [apply Hi|..].
  - intros w m -> HM. by apply step_mirrors_meta; [apply Hi|..].
Qed.

Lemma fallback_u64 fuel account spot depth cb : book_fallback fuel account spot depth = Some (Ok cb) -> chain_u64 cb.
Proof.
  revert depth. induction fuel as [|fuel IH]; intros depth; simpl; [done|].
  destruct (get_book account spot depth) eqn:E; [intros [= <-]; by apply get_book_u64 in E|]. case_decide; [apply IH|done].
Qed.

Lemma last_price_u64 s account c spot price :
  prices_ok s ->
  match last_trade_price_of s spot with Some p => Ok (Some p) | None => get_market_last_price account c end = Ok price ->
  forall p, price = Some p -> is_u64 p.
Proof.
  intros HP. unfold last_trade_price_of. destruct (m_last_trade s !! _) as [q|] eqn:E.
  - intros [= <-] p [= <-]. by eapply HP.
  - intros H p ->. by eapply get_market_last_price_u64.
Qed.

Lemma good_hydrate t st q spot depth st' :
  good t st -> hydrate_spot_from_chain st.1 q spot depth st.2 = Ok st' -> good t st'.
Proof.
  destruct st as [i ws], st' as [i' ws']. intros Hg. simpl. unfold hydrate_spot_from_chain.
  destruct (parse_token_contract spot) as [c|]; simpl; [|done].
  destruct (get_book_with_depth_fallback _ c _) as [cb|] eqn:Ecb; simpl; [|done].
  destruct (match last_trade_price_of _ _ with Some p => _ | None => _ end) as [price|] eqn:Epr; simpl; [|done].
  assert (chain_u64 cb) as Hcb.
  { unfold get_book_with_depth_fallback in Ecb. destruct (book_fallback _ _ _ _) eqn:E; [|done]. simpl in Ecb. subst.
    by apply fallback_u64 in E. }
  rewrite (surjective_pairing (hydrate_from_chain _ _ _ _ _)). intros [= <- <-]. pose proof Hg as (w0 & _ & _ & _ & _ & Hi).
  assert (forall p, price = Some p -> is_u64 p) as Hpr by by eapply last_price_u64; [apply Hi|].
  apply (good_books t i ws); [done|by apply hydrate_writes|by apply hydrate_wf; [apply Hi|]|apply hydrate_keys_normal, Hi|by apply hydrate_heads_ok; [apply Hi|]|..].
  - intros w m -> HM. by apply hydrate_mirrors_wf; [apply Hi|..].
  - intros w m -> HM. by apply hydrate_meta; [apply Hi|..].
Qed.

Lemma good_hydrated t env spot st : good t st -> good t (hydrated env spot st).
Proof.
  intros Hg. unfold hydrated, or_unchanged, ensure_chain_hydrated. destruct (is_chain_hydrated _ _); [by destruct st|].
  destruct (hydrate_spot_from_chain _ _ _ _ _) eqn:E; [|done]. by eapply good_hydrate.
Qed.

Lemma good_hydrate_each t q spots st : good t st -> good t (hydrate_each q st spots).
Proof.
  unfold hydrate_each. revert st. induction spots as [|spot spots IH]; intros st Hg; cbn [foldl]; [done|]. apply IH.
  unfold or_unchanged. destruct (hydrate_spot_from_chain _ _ _ _ _) eqn:E; [|done]. by eapply good_hydrate.
Qed.

(** ** Markets *)

Lemma role_venue s sp : markets_inv s -> roles_ok s -> ~ is_event (normalize_spot_market_key sp) -> spot_key_free s sp.
Proof.
  intros HI HR Hn m Hm. pose proof (HR _ _ Hm) as Hr. unfold role_ok in Hr.
  destruct (MarketOps.category m); [done| |done]. destruct Hr as (a & E%market_uuid_inj & Ha). by rewrite E in Hn.
Qed.

Lemma roles_register s n sp d :
  roles_ok s -> ~ is_event (normalize_spot_market_key sp) -> markets_inv (register_named_spot_market s n sp d) ->
  roles_ok (register_named_spot_market s n sp d).
Proof.
  intros HR Hn HI. destruct (register_markets s n sp d) as [E|(x & Hc & Ei & _ & E)].
  - intros i m. rewrite E. apply HR.
  - intros i m Hm. pose proof Hm as Hm'. rewrite E in Hm. apply lookup_insert_Some in Hm as [[<- <-]|[_ Hm]]; [|by apply HR].
    unfold role_ok. rewrite Hc. intros Ha. apply Hn. destruct HI as [V _].
    pose proof (vo_spot _ V _ _ Hm' Hc) as E'. rewrite Ei in E'. apply market_uuid_inj in E'. by rewrite E'.
Qed.

Lemma good_register t i ws n sp d :
  good t (i, ws) -> ~ is_event (normalize_spot_market_key sp) ->
  good t (set_markets (register_named_spot_market (ix_markets i) n sp d) i, ws).
Proof.
  intros Hg Hn. pose proof Hg as (w0 & _ & _ & _ & _ & Hi).
  destruct (register_good (ix_markets i) n sp d) as [G1 G2]; [apply Hi|by apply role_venue; try apply Hi|].
  apply (good_markets t i ws); [done|apply ws_to_refl|apply (G1 ws)|apply roles_register; [apply Hi|done|apply (G1 ws)]| |].
  - unfold register_named_spot_market. repeat (case_match || case_decide); done.
  - intros w tm -> HM. by apply (G2 w tm).
Qed.

Lemma good_venue t i ws sp :
  good t (i, ws) -> ~ is_event (normalize_spot_market_key sp) -> good t ((market_of_venue i sp).1, ws).
Proof.
  intros Hg Hn. unfold market_of_venue. destruct (lookup_spot_market _ _); [done|]. unfold ensure_standalone_spot_market.
  destruct (lookup_spot_market _ _); simpl; [by destruct i|].
  apply good_register; [done|]. by rewrite normalize_idemp.
Qed.

Lemma venue_orders i sp : ix_orders (market_of_venue i sp).1 = ix_orders i.
Proof.
  unfold market_of_venue. destruct (lookup_spot_market _ _); [done|]. unfold ensure_standalone_spot_market.
  by destruct (lookup_spot_market _ _).
Qed.

Lemma state_fold_roles a v l st :
  (forall p, p ∈ l -> role_ok p.1 p.2) -> roles_ok st.1 -> roles_ok (foldl (state_put a v) st l).1.
Proof.
  revert st. induction l as [|[i x] l IH]; intros [s ws] Hl HR; cbn [foldl]; [done|]. apply IH; [intros; apply Hl; set_solver|].
  unfold state_put. simpl. case_decide as Ha0; [|done]. intros j m. simpl. intros [[<- <-]|[_ H]]%lookup_insert_Some; [|by apply HR].
  destruct (state_mut_props x v) as (_ & Ec & _ & Ea). pose proof (Hl (i, x)) as Hr. unfold role_ok in *. rewrite Ec, Ea. apply Hr. set_solver.
Qed.

Lemma state_fold_trades a v l st : m_last_trade (foldl (state_put a v) st l).1 = m_last_trade st.1.
Proof. revert st. induction l as [|p l IH]; intros st; cbn [foldl]; [done|]. rewrite IH. unfold state_put. by case_decide. Qed.

Lemma good_state t i ws a v :
  good t (i, ws) -> let r := update_market_state (ix_markets i) a v ws in good t (set_markets r.1 i, r.2).
Proof.
  intros Hg r. pose proof Hg as (w0 & _ & _ & _ & _ & Hi).
  destruct (state_good (ix_markets i) a v) as [G1 G2]; [apply Hi|].
  apply (good_markets t i ws); [done|apply state_writes|apply G1| |apply state_fold_trades|].
  - apply state_fold_roles; [|apply Hi]. intros [j m]. rewrite elem_of_map_to_list. apply Hi.
  - intros w tm -> HM. by apply (G2 w tm).
Qed.

(** An event market at its own address. *)
Lemma event_op_ok s m a :
  markets_inv s -> roles_ok s -> is_event a -> MarketOps.category m = CEvent -> MarketOps.id m = market_uuid a ->
  m_slug s !! MarketOps.slug m = None -> market_op_ok s (MUpsert m).
Proof.
  intros [V _] HR Ha Hc Hid Hsl. split_and!; [|congruence|intros j Hj; congruence].
  intros e He. pose proof (HR _ _ He) as Hr. unfold role_ok in Hr. destruct (MarketOps.category e) eqn:Ee; [|by rewrite Hc|done].
  pose proof (vo_spot s V _ _ He Ee) as E. rewrite Hid in E. apply market_uuid_inj in E. congruence.
Qed.

Lemma roles_leg id s ws leg : roles_ok s -> roles_ok (bind_leg id (s, ws) leg).1.
Proof.
  intros HR i m. destruct (bind_leg_markets id s ws leg) as (-> & _ & _).
  destruct (m_markets s !! market_uuid leg.1); [case_decide|]; try apply HR. intros [_ Hx]%lookup_delete_Some. by apply HR.
Qed.

Lemma leg_trades id s ws leg : m_last_trade (bind_leg id (s, ws) leg).1 = m_last_trade s.
Proof. unfold bind_leg, remove_orphan_spot_shell. simpl. destruct (m_markets s !! _); [case_decide|]; done. Qed.

Lemma roles_upsert s m a ws :
  roles_ok s -> is_event a -> MarketOps.category m = CEvent -> MarketOps.id m = market_uuid a -> market_op_ok s (MUpsert m) ->
  roles_ok (upsert_market s m ws).1 /\ m_last_trade (upsert_market s m ws).1 = m_last_trade s.
Proof.
  intros HR Ha Hc Hid Hok. destruct (target_props s m Hok) as (Fid & Fcat & _ & _). unfold upsert_market.
  fold (merged s m). fold (upsert_slugged s m). fold (upsert_target s m). fold (upsert_stored s m). rewrite Fcat, Hc.
  assert (roles_ok (upsert_stored s m)) as H0.
  { intros i x. unfold upsert_stored. simpl. intros [[<- <-]|[_ H]]%lookup_insert_Some.
    - unfold role_ok. rewrite Fcat, Hc, Fid. by exists a.
    - unfold upsert_slugged in H. case_decide; by apply HR. }
  assert (m_last_trade (upsert_stored s m) = m_last_trade s) as Ht by (unfold upsert_stored, upsert_slugged; by case_decide).
  rewrite <- Ht. generalize dependent (upsert_stored s m). intros s0 H0 _. unfold bind_event_spot_legs. cbn [foldl].
  match goal with |- context [bind_leg ?id (s0, ?w) ?leg] =>
    pose proof (roles_leg id s0 w leg H0) as H1; pose proof (leg_trades id s0 w leg) as Ht1; destruct (bind_leg id (s0, w) leg) as [s1 ws1] end.
  split; [by apply roles_leg|]. by rewrite leg_trades.
Qed.

Lemma good_event t i ws m a :
  good t (i, ws) -> is_event a -> MarketOps.category m = CEvent -> MarketOps.id m = market_uuid a ->
  m_slug (ix_markets i) !! MarketOps.slug m = None ->
  let r := upsert_market (ix_markets i) m ws in good t (set_markets r.1 i, r.2).
Proof.
  intros Hg Ha Hc Hid Hsl r. pose proof Hg as (w0 & _ & _ & _ & _ & Hi).
  assert (market_op_ok (ix_markets i) (MUpsert m)) as Hok by (eapply event_op_ok; try done; apply Hi).
  destruct (upsert_good (ix_markets i) m) as [G1 G2]; [apply Hi|done|].
  destruct (roles_upsert (ix_markets i) m a ws) as [HR Ht]; try done; [apply Hi|].
  apply (good_markets t i ws); [done|apply upsert_writes|apply G1|done|done|].
  intros w tm -> HM. by apply (G2 w tm).
Qed.

Lemma allocate_fresh s question : m_slug s !! default ""%string (allocate_market_slug s question) = None.
Proof.
  unfold allocate_market_slug. destruct (allocate_unique_slug_spec (map_to_list (m_slug s)).*1 question) as (sl & _ & -> & Hin & _).
  simpl. destruct (m_slug s !! sl) as [i|] eqn:E; [|done]. destruct Hin.
  apply list_elem_of_fmap. exists (sl, i). split; [done|]. by apply elem_of_map_to_list.
Qed.

(** ** Order events *)

(** Amounts and prices of events are u64, as decoded. *)
Definition event_u64 (e : MarketOrderEvent) : Prop :=
  match e with
  | Created e => is_u64 (created_price (oc_order_type e)) /\ is_u64 (oc_amount e)
  | Cancelled e => is_u64 (on_price e) /\ is_u64 (on_cancelled_amount e)
  | Updated e => is_u64 (ou_price e) /\ is_u64 (ou_old_amount e) /\ is_u64 (ou_new_amount e) /\ is_u64 (ou_remaining_amount e)
  | Filled e _ => is_u64 (of_price e) /\ is_u64 (of_fill_amount e)
  | Executed e => True
  end.

Lemma good_eta t i ws : good t (i, ws) <-> good t ((i, ws).1, (i, ws).2).
Proof. done. Qed.

Lemma good_publishing t env f st : (forall i, good t (i, st.2) -> good t (f i, st.2)) -> good t st -> good t (when_publishing env f st).
Proof. intros H Hg. unfold when_publishing. destruct (pe_publish_ws env); [|done]. destruct st. by apply H. Qed.

Lemma good_user_order t i ws event spot chain n : good t (i, ws) -> good t (publish_user_order event i spot chain n, ws).
Proof. intros Hg. unfold publish_user_order. destruct (stored_order_by_chain_id _ _ _) as [[[o u] s]|]; [by apply good_hub|done]. Qed.

Lemma good_user_filled t i ws spot chain e sender n : good t (i, ws) -> good t (publish_user_order_filled i spot chain e sender n, ws).
Proof.
  intros Hg. unfold publish_user_order_filled. destruct (stored_order_by_chain_id _ _ _) as [[[o u] s]|]; [by apply good_hub|].
  destruct (of_cloid e); [by apply good_hub|done].
Qed.

Lemma build_order_id i id out spot chain side p a status cloid :
  ord_id (build_order i id out spot chain side p a status cloid) = uuid_v5 (onchain_order_id spot chain).
Proof. done. Qed.

(** Both ways an order enters the index. *)
Lemma good_index_order t i ws spot order user chain size filled :
  good t (i, ws) -> ~ is_event (normalize_spot_market_key spot) ->
  has_chain_order (ix_orders i) spot chain = false -> ord_id order = uuid_v5 (onchain_order_id spot chain) ->
  let i1 := (market_of_venue i spot).1 in
  let r := insert_order (ix_orders i1) order user spot chain size filled ws in good t (set_orders r.1 i1, r.2).
Proof.
  intros Hg Hv Hc Hid i1. assert (good t (i1, ws)) as Hg1 by by apply good_venue.
  apply (good_order_op t i1 ws (OpInsert order user spot chain size filled) Hg1); [|done].
  destruct Hg1 as (w & _ & _ & _ & _ & Hi). apply checked_fresh; [done| |done]. unfold i1. by rewrite venue_orders.
Qed.

Lemma good_index_created t i ws spot e ov :
  good t (i, ws) -> ~ is_event (normalize_spot_market_key spot) ->
  has_chain_order (ix_orders i) spot (order_id_to_string (oc_order_id e)) = false ->
  good t (index_order_created i e spot ov ws).1.
Proof.
  intros Hg Hv Hc. unfold index_order_created.
  pose proof (good_index_order t i ws spot) as H. destruct (market_of_venue i spot) as [i1 [id out]]. simpl in H.
  destruct (default _ ov) as [status filled]. rewrite (surjective_pairing (insert_order _ _ _ _ _ _ _ _)). by apply H.
Qed.

Lemma good_index_executed t i ws spot e :
  good t (i, ws) -> ~ is_event (normalize_spot_market_key spot) ->
  has_chain_order (ix_orders i) spot (order_id_to_string (oe_order_id e)) = false ->
  good t (index_market_order_executed i e spot ws).1.
Proof.
  intros Hg Hv Hc. unfold index_market_order_executed.
  pose proof (good_index_order t i ws spot) as H. destruct (market_of_venue i spot) as [i1 [id out]]. simpl in H.
  rewrite (surjective_pairing (insert_order _ _ _ _ _ _ _ _)). by apply H.
Qed.

Lemma hydrated_orders env spot st : ix_orders (hydrated env spot st).1 = ix_orders st.1.
Proof.
  unfold hydrated, or_unchanged, ensure_chain_hydrated. destruct (is_chain_hydrated _ _); [done|].
  destruct (hydrate_spot_from_chain _ _ _ _ _) as [[i ws]|] eqn:E; [|done].
  apply hydrate_spot_Ok in E as (cb & price & -> & _). done.
Qed.

Lemma hydrated_vaults env spot st : ix_vaults (hydrated env spot st).1 = ix_vaults st.1.
Proof.
  unfold hydrated, or_unchanged, ensure_chain_hydrated. destruct (is_chain_hydrated _ _); [done|].
  destruct (hydrate_spot_from_chain _ _ _ _ _) as [[i ws]|] eqn:E; [|done].
  apply hydrate_spot_Ok in E as (cb & price & -> & _). done.
Qed.

Lemma good_created t env spot st e :
  good t st -> ~ is_event (normalize_spot_market_key spot) -> event_u64 (Created e) -> good t (apply_created_event env spot st e).
Proof.
  intros Hg Hv [Hp Ha]. unfold apply_created_event. destruct (has_chain_order _ _ _) eqn:Hc; [done|].
  apply (good_hydrated t env spot) in Hg. rewrite <- (hydrated_orders env spot st) in Hc. cbv zeta.
  destruct (hydrated env spot st) as [i ws]. simpl in Hc. apply good_publishing; [intros; by apply good_user_order|].
  unfold apply_order_created_to_book. destruct (oc_order_type e) as [price| |price] eqn:Et; [|by apply good_index_created..].
  simpl. pose proof (good_book_op t i ws (pe_publish_ws env) (OpCreated spot (oc_side e) price (oc_amount e) (pe_block_num env)) Hg) as H.
  simpl in H. destruct (apply_created _ _ _ _ _ _ _ _) as [b ws']. apply good_index_created; [by apply H|done|done].
Qed.

Lemma good_cancelled t env spot st e :
  good t st -> event_u64 (Cancelled e) -> good t (apply_cancelled_event env spot st e).
Proof.
  intros Hg Hu. destruct st as [i ws]. unfold apply_cancelled_event. simpl.
  pose proof (good_book_op t i ws (pe_publish_ws env) (OpCancelled spot (on_side e) (on_price e) (on_cancelled_amount e) (pe_block_num env)) Hg Hu I) as H.
  simpl in H. destruct (apply_cancelled _ _ _ _ _ _ _ _) as [b ws1].
  pose proof (good_order_op t _ ws1 (OpCancel spot (order_id_to_string (on_order_id e))) H I I) as H2. simpl in H2.
  destruct (update_order_cancelled _ _ _ _) as [o ws2]. apply good_publishing; [intros; by apply good_user_order|done].
Qed.

Lemma good_updated t env spot st e :
  good t st -> event_u64 (Updated e) -> good t (apply_updated_event env spot st e).
Proof.
  intros Hg Hu. apply (good_hydrated t env spot) in Hg. unfold apply_updated_event. destruct (hydrated env spot st) as [i ws]. simpl.
  pose proof (good_book_op t i ws (pe_publish_ws env) (OpUpdated spot (ou_side e) (ou_price e) (ou_old_amount e) (ou_new_amount e)
    (ou_remaining_amount e) (pe_block_num env)) Hg Hu I) as H.
  simpl in H. destruct (apply_updated _ _ _ _ _ _ _ _ _ _) as [b ws1].
  pose proof (good_order_op t _ ws1 (OpAmount spot (order_id_to_string (ou_order_id e)) (ou_new_amount e) (ou_remaining_amount e)) H I I) as H2.
  simpl in H2. destruct (update_order_amount _ _ _ _ _ _) as [o ws2]. apply good_publishing; [intros; by apply good_user_order|done].
Qed.

Lemma good_credit t spot e st : good t st -> event_u64 (Filled e "") -> good t (credit_vault spot e st).
Proof.
  intros Hg [_ Ha]. destruct st as [i ws]. unfold credit_vault. simpl. destruct (stored_order_by_chain_id _ _ _) as [[[o u] s]|]; [|done].
  pose proof (good_vaults t i ws (VFill u spot (of_side e) (of_fill_amount e)) Hg Ha) as H. simpl in H.
  by destruct (apply_vault_fill_to_portfolio _ _ _ _ _ _) as [v ws1].
Qed.

Lemma good_filled t env spot st e sender :
  good t st -> event_u64 (Filled e sender) -> good t (apply_filled_event env spot st e sender).
Proof.
  intros Hg Hu. destruct st as [i ws]. unfold apply_filled_event. simpl.
  apply (good_price t i ws spot (of_price e)) in Hg; [|by apply Hu]. simpl in Hg. set (st1 := when_publishing _ _ _).
  assert (good t st1) as H1.
  { apply good_publishing; [|done]. intros j Hj. unfold candle_trade. destruct (of_side e); [by apply good_bars|done]. }
  apply (good_hydrated t env spot) in H1. destruct (hydrated env spot st1) as [i2 ws2]. simpl.
  pose proof (good_book_op t i2 ws2 (pe_publish_ws env) (OpFilled spot (of_side e) (of_price e) (of_fill_amount e) (pe_block_num env) (of_price e)
    (trade_time i2) (pe_now_ms env)) H1 Hu (proj1 Hu)) as H.
  simpl in H. destruct (apply_filled _ _ _ _ _ _ _ _ _ _ _) as [b ws3].
  pose proof (good_order_op t _ ws3 (OpFill spot (order_id_to_string (of_order_id e)) (of_fill_amount e) (of_remaining_amount e)
    (of_is_fully_filled e)) H I I) as H2.
  simpl in H2. destruct (update_order_fill _ _ _ _ _ _ _) as [o ws4].
  apply good_publishing; [intros; by apply good_user_filled|]. by apply good_credit.
Qed.

Lemma good_executed t env spot st e :
  good t st -> ~ is_event (normalize_spot_market_key spot) -> good t (apply_executed_event env spot st e).
Proof.
  intros Hg Hv. destruct st as [i ws]. unfold apply_executed_event. simpl. destruct (has_chain_order _ _ _) eqn:Hc; [done|].
  pose proof (good_index_executed t i ws spot e Hg Hv Hc) as H.
  destruct (index_market_order_executed i e spot ws) as [[i1 ws1] [order|]]; [|done].
  apply good_publishing; [|done]. intros j Hj. by apply good_hub.
Qed.

Lemma good_order_event t env spot st e :
  good t st -> ~ is_event (normalize_spot_market_key spot) -> event_u64 e -> good t (apply_market_order_event env spot st e).
Proof.
  intros Hg Hv Hu. destruct e; simpl.
  - by apply good_created.
  - by apply good_cancelled.
  - by apply good_updated.
  - by apply good_filled.
  - by apply good_executed.
Qed.

(** ** Market and vault events *)

(** Event contracts and venues have different addresses. *)
Definition global_ok (e : GlobalEvent) : Prop :=
  match e with
  | EventContractCreated e => is_event (contract_to_string (ec_market_address e))
  | MarketCreated _ a _ => ~ is_event (normalize_spot_market_key (contract_to_string a))
  | _ => True
  end.

Lemma good_vault_event t st op :
  good t st -> vault_op_u64 op -> good t (vault_event (fun s ws => vault_step (s, ws) op) st).
Proof.
  intros Hg Hu. destruct st as [i ws]. unfold vault_event. cbn [fst snd]. pose proof (good_vaults t i ws op Hg Hu) as H.
  by destruct (vault_step (ix_vaults i, ws) op) as [v ws1].
Qed.

Lemma good_global t env st e : good t st -> global_ok e -> good t (apply_global_event env st e).
Proof.
  intros Hg Hok. assert (forall f, good t (paper_event env f st)) as HP by (intros f; destruct st; by apply good_paper).
  destruct e as [e|a|e|v e|v e|v m|v b|v|name a creator|contract e|e|e|e|e|e|e|e|e|e|e]; simpl; try apply HP.
  - destruct st as [i ws]. unfold index_market_created. simpl. set (m := created_market _ _).
    pose proof (good_event t i ws m (contract_to_string (ec_market_address e)) Hg Hok eq_refl eq_refl (allocate_fresh _ _)) as H. simpl in H.
    destruct (upsert_market (ix_markets i) m ws) as [ms ws1]. by apply good_hydrate_each.
  - destruct st as [i ws]. simpl. pose proof (good_state t i ws (contract_to_string a) "Resolved" Hg) as H. simpl in H.
    by destruct (update_market_state _ _ _ _) as [ms ws1].
  - by apply (good_vault_event t st (VUpsert (created_vault e))).
  - by apply (good_vault_event t st (VEquity (contract_to_string v) (format_token_amount e))).
  - by apply (good_vault_event t st (VEquity (contract_to_string v) (format_token_amount e))).
  - by apply (good_vault_event t st (VManager (contract_to_string v) (address_to_string m))).
  - by apply (good_vault_event t st (VAllow (contract_to_string v) b)).
  - by apply (good_vault_event t st (VClosed (contract_to_string v))).
  - destruct st as [i ws]. unfold index_spot_market_created. apply good_hydrated. simpl. by apply good_register.
  - unfold index_oracle_committed. case_decide; [done|apply HP].
Qed.

(** ** Blocks *)

Lemma good_fold {A} t (f : St -> A -> St) (P : A -> Prop) l st :
  (forall st a, good t st -> P a -> good t (f st a)) -> Forall P l -> good t st -> good t (foldl f st l).
Proof. intros H HP. revert st. induction HP as [|a l Ha _ IH]; intros st Hg; [done|]. simpl. apply IH. by apply H. Qed.

Definition market_ok (m : string * list MarketOrderEvent) : Prop :=
  ~ is_event (normalize_spot_market_key m.1) /\ Forall event_u64 m.2.

(** What an event of a receipt asks: its decoded form, if any, is acceptable. *)
Definition event_ok (ev : TransactionEvent) : Prop :=
  forall action data e, ev_event_type ev = Call action -> ev_data ev = Bytes data ->
    decode_global action (ev_contract ev) data = Some e -> global_ok e.

Definition block_ok (block : PreparedBlock) : Prop :=
  is_u64 (pb_block_num block) /\
  Forall (fun tx => Forall event_ok (rc_events (tr_receipt tx))) (rb_transaction_outputs (pb_block block)) /\
  Forall market_ok (map_to_list (pb_markets block)).

Lemma good_tx_event t env st ev : good t st -> event_ok ev -> good t (apply_event env st ev).
Proof.
  intros Hg Hok. unfold apply_event. destruct (ev_event_type ev) as [action|] eqn:Ea; [|done]. destruct (is_order_action action); [done|].
  destruct (ev_data ev) as [data|] eqn:Ed; [|done]. destruct (decode_global _ _ _) as [e|] eqn:E; [|done].
  apply good_global; [done|by eapply Hok].
Qed.

(** The position of the tables is not part of what they hold of the index. *)
Lemma persisted_same t t' i :
  t_markets t' = t_markets t -> t_orders t' = t_orders t -> t_book_levels t' = t_book_levels t -> t_book_meta t' = t_book_meta t ->
  t_last_trades t' = t_last_trades t -> t_vaults t' = t_vaults t -> t_vault_portfolio t' = t_vault_portfolio t ->
  persisted t i -> persisted t' i.
Proof.
  intros E1 E2 E3 E7 E4 E5 E6 [? ? ? ? ? ? ? []].
  split; [by rewrite ?E1, ?E2, ?E3, ?E4, ?E5, ?E6, ?E7..|split]; by rewrite ?E1, ?E2, ?E3, ?E4, ?E5, ?E6.
Qed.

Lemma good_start t i n d : persisted t i -> index_inv i -> good t (i, Some (ws_default n d false)).
Proof.
  intros Hp Hi. eexists. split_and!; [done|apply ws_default_wf|done| |done].
  eapply persisted_same; [..|exact Hp]; simpl; apply delta_empty_apply.
Qed.

(** One market: its own write set, merged into the block's. *)
Lemma good_market t env i w m :
  good t (i, Some w) -> market_ok m ->
  good t (let '(i', set) := apply_market_order_events env i m.1 m.2 in (i', Some (merge w set))).
Proof.
  intros (w0 & E0 & Hw & Hf & Hp & Hi) [Hv Hu]. injection E0 as <-.
  pose proof (good_start (tables_apply w t) i 0 "" Hp Hi) as Hg.
  apply (good_fold _ (apply_market_order_event env m.1) event_u64 m.2) in Hg;
    [|intros; by apply good_order_event|done].
  unfold apply_market_order_events. simpl. destruct (foldl _ _ m.2) as [i' ws']. destruct Hg as (w' & -> & Hw' & Hf' & Hp' & Hi').
  simpl in *. eexists. split_and!; [done|by apply merge_wf|simpl; by rewrite Hf'| |done].
  destruct Hw'. eapply persisted_same; [..|exact Hp']; simpl; by apply delta_merge_apply.
Qed.

Lemma good_apply_markets t env ms i w :
  good t (i, Some w) -> Forall market_ok ms ->
  let r := apply_markets env (i, w) ms in good t (r.1, Some r.2).
Proof.
  intros Hg HF. revert i w Hg. induction HF as [|m ms Hm _ IH]; intros i w Hg; [done|].
  unfold apply_markets. cbn [foldl fst snd].
  pose proof (good_market t env i w m Hg Hm) as H. destruct (apply_market_order_events env i m.1 m.2) as [i' set].
  by apply IH.
Qed.

(** A prepared block, whenever it was decoded. *)
Lemma prepared_good env i wait t block :
  index_inv i -> persisted t i -> block_ok block ->
  let r := process_prepared_block env i wait block in
  exists w, r.2 = set_block (pb_block_num block) (pb_block_digest block) w /\ good t (r.1.1, Some w).
Proof.
  intros Hi Hp (Hn & HG & HM). unfold process_prepared_block. set (env' := at_block env _).
  set (i0 := set_orders _ i). assert (good t (i0, Some (ws_default 0 "" false))) as Hg.
  { apply good_start; [by destruct Hp; split|]. destruct Hi as [? ? ? [] ? ? ? ? ?]. by split. }
  apply (good_fold t (apply_transaction env') (fun tx => Forall event_ok (rc_events (tr_receipt tx))) (rb_transaction_outputs (pb_block block))) in Hg; [| |done].
  2:{ intros st tx H1 Htx. unfold apply_transaction. destruct (tr_is_success tx); [|done].
      by apply (good_fold t (apply_event env') event_ok); [intros; by apply good_tx_event|..]. }
  set (st1 := foldl (apply_transaction env') _ _) in *.
  apply (good_fold t (apply_unmapped env') (fun _ => True) (pb_unmapped block)) in Hg.
  2:{ intros [i1 ws1] item H1 _. unfold apply_unmapped. destruct (pe_publish_ws env'); [|done]. by apply good_hydrate_each. }
  2:{ by apply Forall_true. }
  destruct (foldl (apply_unmapped env') st1 _) as [i2 ws2]. pose proof Hg as (w2 & E2 & _). simpl in E2. subst ws2.
  pose proof (good_apply_markets t env' _ i2 w2 Hg HM) as HR. cbv zeta in HR |- *. cbn [fst snd default from_option] in *.
  change (id w2) with w2 in *.
  destruct (apply_markets env' (i2, w2) _) as [i3 w3]. cbn [fst snd] in HR |- *.
  apply (good_paper _ _ _ (ix_paper (flush_paper env' i3))) in HR.
  change (set_paper (ix_paper (flush_paper env' i3)) i3) with (flush_paper env' i3) in *.
  by exists w3.
Qed.

Lemma prepared_commit env i wait t block :
  index_inv i -> persisted t i -> block_ok block ->
  let r := process_prepared_block env i wait block in
  let t' := apply_index_write_set t r.2 in
  index_inv r.1.1 /\ persisted t' r.1.1 /\
  read_meta t' = Ok (Some {| pm_block_num := pb_block_num block; pm_digest := pb_block_digest block |}) /\
  ws_full_replace r.2 = false.
Proof.
  intros Hi Hp Hok r t'. destruct (prepared_good env i wait t block Hi Hp Hok) as (w & E & w' & E' & Hw & Hf & Hp' & Hi').
  injection E' as <-. fold r in E, Hp', Hi'. simpl in Hp', Hi'. unfold t'. rewrite E. split; [done|].
  split; [|split; [by apply (meta_after_apply t (set_block _ _ w)); apply Hok|done]].
  unfold apply_index_write_set. rewrite incremental_batch by done. by eapply persisted_same; [..|exact Hp'].
Qed.

(** What a received block asks: its number fits, event contracts and venues have
    different addresses, order events carry u64 amounts. *)
Definition received_ok (store : Orders) (block : ReceiptBlock) : Prop :=
  is_u64 (rb_block_num block) /\
  Forall (fun tx => Forall event_ok (rc_events (tr_receipt tx))) (rb_transaction_outputs block) /\
  forall e k x, e ∈ block_events block -> routed store e = Some (ToMarket k x) -> ~ is_event (normalize_spot_market_key k) /\ event_u64 x.

Lemma received_prepared store block : received_ok store block -> block_ok (prepare_block store block).
Proof.
  intros (H1 & H2 & H3). unfold block_ok. rewrite prepare_block_block. split_and!; [|done|].
  - unfold prepare_block. by destruct (foldl _ _ _).
  - apply Forall_forall. intros [k es]. rewrite elem_of_map_to_list. simpl. intros Hk. split; simpl.
    + destruct (prepared_market _ _ _ _ Hk) as (e & x & He & Hr). by apply (H3 e k x).
    + eapply (prepared_all (fun _ => event_u64)); [|done]. intros e k' x He Hr. by apply (H3 e k' x).
Qed.

Lemma prepared_position store block :
  pb_block_num (prepare_block store block) = rb_block_num block /\ pb_block_digest (prepare_block store block) = rb_digest block.
Proof. unfold prepare_block. by destruct (foldl _ _ _). Qed.

(** C1: a block keeps the index and its database tables together: decoding a
    received block, processing its global events, rehydrations and market order
    events, and committing the one write set it leaves, keeps every invariant of
    the index, records the block as the last one, and gives tables that hold
    what is persisted of the index: of the books, every level with a size up to
    [i64::MAX] and the sequence and last price of every book that has changed;
    every live order; every market but spot markets, whose registration is in
    memory only (a stored spot row is the index's); the last prices; the vaults; and every holding up to [i64::MAX].  The
    row of a level or holding beyond [i64::MAX] is absent, and spot shells and
    names, candles and the paper state are not in these tables at all. *)
Theorem block_commit_consistent env i wait t block :
  index_inv i -> persisted t i -> received_ok (ix_orders i) block ->
  let r := process_block env i wait block in
  let t' := apply_index_write_set t r.2 in
  index_inv r.1.1 /\ persisted t' r.1.1 /\
  read_meta t' = Ok (Some {| pm_block_num := rb_block_num block; pm_digest := rb_digest block |}).
Proof.
  intros Hi Hp Hr%received_prepared. destruct (prepared_position (ix_orders i) block) as [E1 E2]. rewrite <- E1, <- E2.
  by destruct (prepared_commit env i wait t _ Hi Hp Hr) as (? & ? & ? & _).
Qed.

(** ** What users and vaults are told *)

(** C33: no cancellation message is ever sent: when the handler looks the order
    up to publish it, the order has just left the live index, so whatever the
    state the hub is as it was. *)
Theorem cancellation_never_published env spot st e :
  index_inv st.1 -> ix_hub (apply_cancelled_event env spot st e).1 = ix_hub st.1.
Proof.
  intros Hi. destruct st as [i ws]. unfold apply_cancelled_event. simpl in *.
  destruct (apply_cancelled _ _ _ _ _ _ _ _) as [b ws1]. set (chain := order_id_to_string (on_order_id e)).
  destruct (order_step_spec (ix_orders i) ws1 (OpCancel spot chain) (iv_orders i Hi) I) as (W & E & _). simpl in W, E.
  destruct (update_order_cancelled _ _ _ _) as [o ws2]. simpl in *. unfold when_publishing. destruct (pe_publish_ws env); [|done].
  simpl. unfold publish_user_order_cancelled, publish_user_order, stored_order_by_chain_id. simpl.
  rewrite (stored_at_abs o spot chain W), E. unfold spec_step. simpl.
  destruct (abs (ix_orders i) !! onchain_order_id spot chain) as [x|] eqn:Ex; simpl.
  - by rewrite lookup_delete_eq.
  - by rewrite Ex.
Qed.

(** C34: a fill that completes its order is never credited to the vault: the
    order is archived before its owner is looked up, so portfolios do not move. *)
Theorem full_fill_not_credited env spot st e sender :
  index_inv st.1 -> of_is_fully_filled e = true ->
  ix_vaults (apply_filled_event env spot st e sender).1 = ix_vaults st.1.
Proof.
  intros Hi Hf. destruct st as [i ws]. unfold apply_filled_event. simpl in *. set (st1 := when_publishing _ _ _).
  assert (ix_orders st1.1 = ix_orders i /\ ix_vaults st1.1 = ix_vaults i) as [Eo Ev].
  { unfold st1, when_publishing, candle_trade. destruct (pe_publish_ws env), (of_side e); done. }
  pose proof (hydrated_orders env spot st1) as Ho. pose proof (hydrated_vaults env spot st1) as Hv.
  destruct (hydrated env spot st1) as [i2 ws2]. simpl in *. destruct (apply_filled _ _ _ _ _ _ _ _ _ _ _) as [b ws3].
  rewrite Eo in Ho. set (chain := order_id_to_string (of_order_id e)).
  assert (orders_wf (ix_orders i2)) as W2 by (rewrite Ho; apply Hi).
  destruct (order_step_spec (ix_orders i2) ws3 (OpFill spot chain (of_fill_amount e) (of_remaining_amount e) (of_is_fully_filled e)) W2 I)
    as (W & E & _). simpl in W, E. destruct (update_order_fill _ _ _ _ _ _ _) as [o ws4]. simpl in *.
  unfold credit_vault, stored_order_by_chain_id. simpl. fold chain. rewrite (stored_at_abs o spot chain W), E. unfold spec_step. simpl.
  assert (forall i', ix_vaults (publish_user_order_filled i' spot chain e sender (pe_block_num env)) = ix_vaults i') as HP.
  { intros i'. unfold publish_user_order_filled. destruct (stored_order_by_chain_id _ _ _) as [[[x u] s]|]; [done|]. by destruct (of_cloid e). }
  assert (forall st', ix_vaults st'.1 = ix_vaults i2 ->
    ix_vaults (when_publishing env (fun i => publish_user_order_filled i spot chain e sender (pe_block_num env)) st').1 = ix_vaults i) as HW.
  { intros st' E'. unfold when_publishing. destruct (pe_publish_ws env); simpl; rewrite ?HP, E', Hv; done. }
  apply HW. destruct (abs (ix_orders i2) !! onchain_order_id spot chain) as [x|] eqn:Ex; simpl.
  - rewrite Hf. simpl. unfold hot, fill_change. simpl. by rewrite lookup_delete_eq.
  - by rewrite Ex.
Qed.

(** A block delivered twice does not index an order twice: once an
    [order_created] event has been applied, another one for the same order
    changes nothing at all, neither the book nor the index nor the write set. *)
Theorem created_replay_ignored env env' spot st e e' :
  oc_order_id e' = oc_order_id e ->
  apply_created_event env' spot (apply_created_event env spot st e) e' = apply_created_event env spot st e.
Proof.
  intros E. set (chain := order_id_to_string (oc_order_id e)).
  assert (has_chain_order (ix_orders (apply_created_event env spot st e).1) spot chain = true) as H.
  { unfold apply_created_event. fold chain. destruct (has_chain_order (ix_orders st.1) spot chain) eqn:Hc; [done|]. cbv zeta.
    set (st1 := apply_order_created_to_book _ _ _ _ _ _).
    assert (has_chain_order (ix_orders (index_order_created st1.1 e spot None st1.2).1.1) spot chain = true) as H.
    { unfold index_order_created. destruct (market_of_venue st1.1 spot) as [i1 [id out]]. simpl. unfold insert_order. simpl.
      unfold has_chain_order. simpl. rewrite onchain_order_id_normalize. fold chain. by rewrite lookup_insert_eq. }
    destruct (index_order_created st1.1 e spot None st1.2) as [[i2 ws2] o]. simpl in H. unfold when_publishing.
    destruct (pe_publish_ws env); [|done]. simpl. unfold publish_user_order_created, publish_user_order.
    by destruct (stored_order_by_chain_id _ _ _) as [[[x u] s]|]. }
  unfold apply_created_event at 1. rewrite E. fold chain. by rewrite H.
Qed.

End Facts.

(** ** Witnesses: an event contract, its venue, an order and its fill *)

Definition demo_is_event (k : string) : Prop := k = "c900"%string.

#[global] Instance DemoChain_u64 : ChainU64 (C := DemoChain).
Proof.
  split; simpl; intros account spot.
  - intros depth cb. case_decide; [|done]. intros [= <-]. unfold chain_u64. simpl. repeat constructor; vm_compute; congruence.
  - intros p [= <-]. vm_compute. split; congruence.
Defined.

Definition demo_env : ProcessEnv :=
  {| pe_query_account := "a1"; pe_block_num := 7; pe_publish_ws := true; pe_now_ts := 1700000000; pe_now_ms := 1700000000000 |}.
Definition demo_created : OrderCreatedEvent (SD := DemoSdk) :=
  Build_OrderCreatedEvent (SD := DemoSdk) 12%N 1%N 7%N Buy 40 (OtLimit 500000) None.
Definition demo_cancelled : OrderCancelledEvent (SD := DemoSdk) :=
  Build_OrderCancelledEvent (SD := DemoSdk) 12%N Buy 500000 40.
Definition demo_filled : OrderFilledEvent (SD := DemoSdk) :=
  Build_OrderFilledEvent (SD := DemoSdk) 12%N (demo_contract_of 7) Buy 500000 40 0 true None.

(** Payloads of one byte, their meaning fixed. *)
Definition demo_market_event : EventContractCreatedEvent (SD := DemoSdk) :=
  Build_EventContractCreatedEvent (SD := DemoSdk) (demo_contract_of 900) "Will it rain?" (demo_contract_of 1) (demo_contract_of 2)
    (demo_contract_of 3) (demo_contract_of 7) (demo_contract_of 8) "Active" 1800000000 1%N.
#[global] Instance DemoBincode : Bincode (SD := DemoSdk).
Proof.
  refine (Build_Bincode (SD := DemoSdk) (fun _ => Some demo_created) (fun _ => Some demo_cancelled) (fun _ => None) (fun _ => Some demo_filled)
    (fun _ => None) (fun _ => Some demo_market_event) (fun _ => None) _ _ _ _ _ _ _ _ _ _ _ _ _ _ _ _ _ _); intros _; exact None.
Defined.

Definition demo_event (action : string) : TransactionEvent (SD := DemoSdk) :=
  Build_TransactionEvent (SD := DemoSdk) (Call action) (Bytes []) (Some (demo_contract_of 7)).
Definition demo_raw_block : ReceiptBlock (SD := DemoSdk) :=
  Build_ReceiptBlock (SD := DemoSdk) 7 "d7" 1700000000
    [Build_TransactionResult (SD := DemoSdk) "t1" 2%N true
       (Build_TransactionReceipt (SD := DemoSdk) (demo_event <$> ["event_contract_created"; "order_created"; "order_filled"]%string) true)].
Lemma index_new_inv persist : index_inv (SD := DemoSdk) demo_is_event (Index_new persist).
Proof.
  split; simpl.
  - split; intros *; simpl; unfold level_at; simpl; by rewrite lookup_empty.
  - intros k sh. simpl. by rewrite lookup_empty.
  - intros k. apply fresh_head_ok.
  - apply orders_new_wf.
  - intros k st. unfold abs. simpl. by rewrite omap_empty, lookup_empty.
  - apply markets_reach_inv, mreach_new.
  - intros i m. simpl. by rewrite lookup_empty.
  - intros k p. simpl. by rewrite lookup_empty.
  - apply vaults_reach_wf, vreach_new.
Qed.

Lemma new_persisted persist : persisted (SD := DemoSdk) tables_empty (Index_new persist).
Proof.
  split.
  - intros k side p _. unfold level_at. simpl. by rewrite !lookup_empty.
  - split; simpl; [intros *; by rewrite lookup_empty|done].
  - done.
  - split; simpl; intros *; by rewrite lookup_empty.
  - intros k. simpl. by rewrite !lookup_empty.
  - done.
  - intros i k. unfold holding_at. simpl. by rewrite !lookup_empty.
  - split; simpl; intros *; by rewrite lookup_empty.
Qed.

(** A vault whose trading account has an open order. *)
Definition demo_vault_event : GlobalEvent (SD := DemoSdk) :=
  VaultCreated (SD := DemoSdk) (Build_VaultCreatedEvent (SD := DemoSdk) (demo_contract_of 1) "v" 1%N (demo_contract_of 2) (demo_contract_of 3)).
Definition demo_open : Index * option IndexWriteSet :=
  apply_created_event (SD := DemoSdk) (C := DemoChain) demo_env "c7"
    (apply_global_event (SD := DemoSdk) (C := DemoChain) demo_env (Index_new false, Some (ws_default 0 "" false)) demo_vault_event) demo_created.

Lemma demo_open_inv : index_inv (SD := DemoSdk) demo_is_event demo_open.1.
Proof.
  assert (good (SD := DemoSdk) demo_is_event tables_empty demo_open) as (w & _ & _ & _ & _ & H); [|exact H].
  apply good_created; [|vm_compute; congruence|split; vm_compute; split; congruence].
  apply good_global; [|done]. apply good_start; [apply new_persisted|apply index_new_inv].
Qed.

Definition demo_no_waiters : Registry (SD := DemoSdk) := SubmitWaitRegistry_new.

Lemma demo_block_event_ok a : event_ok (SD := DemoSdk) demo_is_event (demo_event a).
Proof.
  intros action data e [= <-] [= <-]. unfold decode_global. simpl.
  destruct (bool_decide (a = "event_contract_created"%string)); [by intros [= <-]|]. by repeat destruct (bool_decide _).
Qed.

Lemma demo_received store : received_ok (SD := DemoSdk) demo_is_event store demo_raw_block.
Proof.
  split; [vm_compute; split; congruence|]. split.
  - apply Forall_singleton. cbn [tr_receipt rc_events]. rewrite Forall_fmap. apply Forall_true. intros a. apply demo_block_event_ok.
  - intros e k x He. unfold block_events, demo_raw_block in He. cbn [rb_transaction_outputs] in He. csimpl in He.
    repeat (apply elem_of_cons in He as [->|He]); [..|by apply not_elem_of_nil in He];
      unfold routed; cbn; intros [= <- <-]; (split; [vm_compute; congruence|]); split; vm_compute; split; congruence.
Qed.

Lemma block_commit_consistent_witness :
  let r := process_block (SD := DemoSdk) (C := DemoChain) demo_env (Index_new false) demo_no_waiters demo_raw_block in
  persisted (SD := DemoSdk) (apply_index_write_set tables_empty r.2) r.1.1.
Proof.
  apply (block_commit_consistent (SD := DemoSdk) (C := DemoChain) demo_is_event demo_env (Index_new false) demo_no_waiters tables_empty
    demo_raw_block); [apply index_new_inv|apply new_persisted|apply demo_received].
Defined.

Lemma cancellation_never_published_witness :
  ix_hub (apply_cancelled_event (SD := DemoSdk) demo_env "c7" demo_open demo_cancelled).1 = ix_hub demo_open.1.
Proof. apply (cancellation_never_published (SD := DemoSdk) demo_is_event demo_env "c7" demo_open demo_cancelled), demo_open_inv. Defined.

Lemma full_fill_not_credited_witness :
  ix_vaults (apply_filled_event (SD := DemoSdk) (C := DemoChain) demo_env "c7" demo_open demo_filled "a2").1 = ix_vaults demo_open.1.
Proof.
  apply (full_fill_not_credited (SD := DemoSdk) (C := DemoChain) demo_is_event demo_env "c7" demo_open demo_filled "a2");
    [apply demo_open_inv|reflexivity].
Defined.

Lemma created_replay_ignored_witness :
  let st := apply_created_event (SD := DemoSdk) (C := DemoChain) demo_env "c7" (Index_new false, None) demo_created in
  apply_created_event (SD := DemoSdk) (C := DemoChain) demo_env "c7" st demo_created = st.
Proof. by apply (created_replay_ignored (SD := DemoSdk) (C := DemoChain)). Defined.

(** The open order is the vault account's, so the credit was due. *)
Example demo_open_is_vaults :
  (fun p => p.1.2) <$> stored_order_by_chain_id (S := DemoSdk) (ix_orders demo_open.1) "c7" "o12" = Some "a1"%string /\
  v_by_account (ix_vaults demo_open.1) !! user_key "a1" = Some (vault_uuid (S := DemoSdk) "c1").
Proof. split; vm_compute; reflexivity. Qed.
