(* ===== verification/OrderRoutes.v ===== *)
(** * OrderRoutes: [http/routes/orders.rs], orders over HTTP

    Listing and querying orders, cancelling one in the index, and indexing an
    order from an event a client posts.  The JSON of the posted body is read by
    serde: [IndexBody] is what it reads, or its error. *)
From S2P Require Import Prelude Text Errors Sdk Keys Amounts Domain WriteSet Tables Books BooksFacts Orders OrdersFacts Markets MarketsFacts MarketsClient Vaults Paper Events Store Hydrate Processor Params.

Local Open Scope list_scope.
Local Open Scope Z_scope.

(** ** Responses: [http/models/orders.rs] *)

Record CancelContextResponse := { ccr_order : Order; ccr_chain_order_id : string; ccr_spot_market : string }.
Record OrderQueryResponse := {
  oqr_order : Order; oqr_chain_order_id : string; oqr_spot_market : string; oqr_user_address : string; oqr_size_raw : Z; oqr_filled_raw : Z
}.
Record ListedOrder := {
  lo_order : Order; lo_chain_order_id : string; lo_spot_market : string; lo_user_address : string; lo_size_raw : Z; lo_filled_raw : Z;
  lo_status_ts_ms : Z
}.

(** ** Parameters and bodies *)

Record QueryOrderQuery := {
  qoq_spot_market : string; qoq_chain_order_id : option string; qoq_user_address : option string; qoq_side : option string;
  qoq_price : option string; qoq_size_raw : option Z
}.

Inductive FlexibleAddress := Hex (raw : string) | RawBytes (bytes : list Z).

Section OrderRoutes.
Context {SD : Sdk} {R : RouteSdk} {J : Json}.

Record WireOrderCreatedEvent := {
  we_order_id : OrderId; we_side : OrderSide; we_amount : Z; we_creator : FlexibleAddress; we_market : FlexibleAddress;
  we_order_type : OrderEventType; we_cloid : option string
}.
Record IndexFromEventRequest := {
  ife_event : WireOrderCreatedEvent; ife_skip_book : bool; ife_status : string; ife_filled_raw : Z
}.

(** What serde makes of the body: with an [event] field a whole request, else
    the event alone; or the text of its error. *)
Inductive IndexBody := BodyRequest (r : string + IndexFromEventRequest) | BodyEvent (r : string + WireOrderCreatedEvent).

Definition default_open_status : string := "open".

Definition parse_flexible_address (value : FlexibleAddress) : AppResult Address :=
  match value with
  | Hex raw =>
      let trimmed := trim raw in
      match address_from_str trimmed with
      | Some address => Ok address
      | None =>
          match parse_token_contract trimmed with
          | Some contract => Ok (contract_to_address contract)
          | None => Err (BadRequest ("invalid address `" +:+ trimmed +:+ "`")%string)
          end
      end
  | RawBytes bytes =>
      if decide (length bytes = ADDRESS_LENGTH)
      then ok_or (BadRequest ("invalid address bytes: " +:+ address_slice_error bytes)%string) (address_from_slice bytes)
      else if decide (length bytes = CONTRACT_ADDRESS_LENGTH) then Ok (contract_to_address (contract_from_bytes bytes))
      else Err (BadRequest ("invalid address byte length " +:+ dec (Z.of_nat (length bytes)))%string)
  end.

Definition into_event (w : WireOrderCreatedEvent) : AppResult OrderCreatedEvent :=
  creator ← parse_flexible_address (we_creator w);
  market ← parse_flexible_address (we_market w);
  Ok (Build_OrderCreatedEvent (we_order_id w) creator market (we_side w) (we_amount w) (we_order_type w) (we_cloid w)).

(** ** Listing and querying *)

Definition with_labels (question market_slug : string) (o : Order) : Order :=
  {| ord_id := ord_id o; ord_market_id := ord_market_id o; ord_market_slug := market_slug; ord_question := question;
     ord_outcome := ord_outcome o; ord_side := ord_side o; ord_price := ord_price o; ord_size := ord_size o;
     ord_status := ord_status o; ord_cloid := ord_cloid o |}.

Definition on_order (f : Order -> Order) (r : OrderQueryRecord) : OrderQueryRecord :=
  {| oq_order := f (oq_order r); oq_chain_order_id := oq_chain_order_id r; oq_spot_market := oq_spot_market r;
     oq_user_address := oq_user_address r; oq_size_raw := oq_size_raw r; oq_filled_raw := oq_filled_raw r |}.

(** Question and slug are filled in from the market where they are missing. *)
Definition enrich_order_record (m : Markets) (record : OrderQueryRecord) : OrderQueryRecord :=
  let o := oq_order record in
  if decide (ord_question o = "" \/ ord_market_slug o = "")%string then
    match get_market m (ord_market_id o) with
    | Some market =>
        let question := if decide (ord_question o = "")%string then MarketOps.label market else ord_question o in
        let slug := if decide (ord_market_slug o = "")%string
                    then (if decide (MarketOps.slug market = "")%string then MarketOps.name market else MarketOps.slug market)
                    else ord_market_slug o in
        on_order (with_labels question slug) record
    | None => record
    end
  else record.

Definition listed_from_record_with_ts (record : OrderQueryRecord) (status_ts_ms : Z) : ListedOrder :=
  {| lo_order := oq_order record; lo_chain_order_id := oq_chain_order_id record; lo_spot_market := oq_spot_market record;
     lo_user_address := oq_user_address record; lo_size_raw := oq_size_raw record; lo_filled_raw := oq_filled_raw record;
     lo_status_ts_ms := status_ts_ms |}.

Definition listed_from_record (record : OrderQueryRecord) : ListedOrder := listed_from_record_with_ts record 0.

Definition list_orders (i : Index) (user_address : string) : list ListedOrder :=
  (fun r => listed_from_record (enrich_order_record (ix_markets i) r)) <$> list_orders_for_user (ix_orders i) user_address.

Definition list_historical_orders (i : Index) (store : option StateStore) (user_address : string) : AppResult (list ListedOrder) :=
  match store with
  | None => Ok []
  | Some s =>
      rows ← list_order_history s user_address ORDER_HISTORY_LIMIT;
      Ok (map (fun row => listed_from_record_with_ts (enrich_order_record (ix_markets i)
            {| oq_order := por_order row; oq_chain_order_id := por_chain_order_id row; oq_spot_market := por_spot_market row;
               oq_user_address := por_user_address row; oq_size_raw := por_size_raw row; oq_filled_raw := por_filled_raw row |})
            (por_status_ts_ms row)) rows)
  end.

Definition required {A} (name : string) (value : option A) : AppResult A := ok_or (BadRequest (name +:+ " is required")%string) value.

Definition query_order_route (o : Orders) (query : QueryOrderQuery) : AppResult OrderQueryResponse :=
  let spot_market := normalize_spot_market_key (qoq_spot_market query) in
  record ← match qoq_chain_order_id query with
           | Some chain_order_id => Ok (query_order o spot_market chain_order_id (qoq_user_address query))
           | None =>
               user_address ← required "user_address" (qoq_user_address query);
               side ← required "side" (qoq_side query);
               price ← required "price" (qoq_price query);
               size_raw ← required "size_raw" (qoq_size_raw query);
               Ok (find_open_order_match o spot_market user_address side price size_raw)
           end;
  r ← ok_or (NotFound ("order not found for spot market " +:+ spot_market)%string) record;
  Ok {| oqr_order := oq_order r; oqr_chain_order_id := oq_chain_order_id r; oqr_spot_market := oq_spot_market r;
        oqr_user_address := oq_user_address r; oqr_size_raw := oq_size_raw r; oqr_filled_raw := oq_filled_raw r |}.

(** ** Cancelling *)

Definition cancel_context (o : Orders) (id : Uuid) (user_address : string) : AppResult CancelContextResponse :=
  c ← ok_or (NotFound ("open order " +:+ uuid_to_string id +:+ " not found")%string) (order_cancel_context o id user_address);
  let '(order, chain_order_id, spot_market) := c in
  Ok {| ccr_order := order; ccr_chain_order_id := chain_order_id; ccr_spot_market := spot_market |}.

Definition mark_cancelled (i : Index) (id : Uuid) (user_address : string) : Index * AppResult unit :=
  match stored_order_context_by_id (ix_orders i) id user_address with
  | None => (i, Err (NotFound ("order " +:+ uuid_to_string id +:+ " not found")%string))
  | Some (order, chain_order_id, spot_market) =>
      if decide (ord_status order = "cancelled")%string then (i, Ok tt)
      else if decide (ord_status order <> "open" /\ ord_status order <> "partial_filled")%string
      then (i, Err (BadRequest ("order " +:+ uuid_to_string id +:+ " is not cancellable")%string))
      else (set_orders (update_order_cancelled (ix_orders i) spot_market chain_order_id None).1 i, Ok tt)
  end.

(** ** Indexing a posted event *)

Definition index_request (body : IndexBody) : AppResult IndexFromEventRequest :=
  match body with
  | BodyRequest (inr request) => Ok request
  | BodyRequest (inl error) => Err (BadRequest ("invalid index request: " +:+ error)%string)
  | BodyEvent (inr event) => Ok {| ife_event := event; ife_skip_book := false; ife_status := default_open_status; ife_filled_raw := 0 |}
  | BodyEvent (inl error) => Err (BadRequest ("invalid order event: " +:+ error)%string)
  end.

(** No write set: what is indexed here reaches no table. *)
Definition index_event (i : Index) (event : OrderCreatedEvent) (request : IndexFromEventRequest) : Index * AppResult Order :=
  let chain_order_id := order_id_to_string (oc_order_id event) in
  let spot_market := normalize_spot_market_key (address_to_string (oc_market event)) in
  let is_new := negb (has_chain_order (ix_orders i) spot_market chain_order_id) in
  let i := if is_new && negb (ife_skip_book request) then (apply_order_created_to_book i 0 event spot_market true None).1 else i in
  let '(i, _, order) := index_order_created i event spot_market (Some (ife_status request, ife_filled_raw request)) None in
  match order with
  | None => (i, Err (Internal "failed to index order from event"))
  | Some order => (if is_new then publish_user_order_created i spot_market chain_order_id 0 else i, Ok order)
  end.

Definition index_from_event (i : Index) (body : IndexBody) : Index * AppResult Order :=
  match request ← index_request body; event ← into_event (ife_event request); Ok (request, event) with
  | Err e => (i, Err e)
  | Ok (request, event) => index_event i event request
  end.

End OrderRoutes.

(** ** Cancelling *)

Section Facts.
Context {SD : Sdk} {L : SdkLaws} {R : RouteSdk}.

Definition not_found {A} (r : AppResult A) : Prop := match r with Err (NotFound _) => True | _ => False end.

(** An order is known to a user who names the address it is stored under. *)
Definition known_to (o : Orders) (id : Uuid) (user : string) (st : StoredOrder) : Prop :=
  o_orders o !! id = Some st /\ eq_ignore_ascii_case (so_user_address st) user = true.

Lemma context_spec o id user :
  match stored_order_context_by_id o id user with
  | Some (order, chain, spot) => exists st, known_to o id user st /\ order = so_order st /\ chain = so_chain_order_id st /\ spot = so_spot_market st
  | None => forall st, ~ known_to o id user st
  end.
Proof.
  unfold stored_order_context_by_id, live_context, known_to. destruct (o_orders o !! id) as [st|] eqn:E; cbn [mbind option_bind].
  2:{ by intros st []. }
  destruct (eq_ignore_ascii_case (so_user_address st) user) eqn:Eu; cbn [negb andb]; [by exists st|]. intros st' [[= <-] H]. congruence.
Qed.

Lemma history_orders o row : o_orders (write_order_history o row) = o_orders o.
Proof. unfold write_order_history. by destruct (o_persist o). Qed.

Lemma cancel_live o id st ws :
  orders_wf o -> o_orders o !! id = Some st ->
  let o' := (update_order_cancelled o (so_spot_market st) (so_chain_order_id st) ws).1 in
  orders_wf o' /\ abs o' = delete (so_key st) (abs o) /\ o_history o' = o_history o ++ archived o [set_status "cancelled" st] /\
  o_orders o' = delete id (o_orders o).
Proof.
  intros W Hs. destruct (ow_orders o W _ _ Hs) as (_ & _ & _ & Hk & _). rewrite cancel_is_settle.
  unfold stored_at. fold (so_key st). rewrite Hk. cbn [mbind option_bind]. rewrite Hs. cbn [mbind option_bind].
  destruct (settle_order_spec o id st (set_status "cancelled" st) ws W Hs (cancelled_place st)) as (H1 & H2 & H3).
  split; [exact H1|]. split; [exact H2|]. split; [exact H3|].
  unfold settle_order. simpl. rewrite history_orders, remove_put. done.
Qed.

(** Cancelling over HTTP is for the order's user alone: it takes the order
    out of the live index and appends it to the history as cancelled, leaving
    every other order, the books and the rest of the index as they were; for
    anybody else, and the second time, the answer is 404 and nothing changes.
    No other answer occurs. *)
Theorem mark_cancelled_effect i id user :
  orders_wf (ix_orders i) ->
  (forall st, known_to (ix_orders i) id user st ->
     exists i', mark_cancelled i id user = (i', Ok tt) /\ i' = set_orders (ix_orders i') i /\
       abs (ix_orders i') = delete (so_key st) (abs (ix_orders i)) /\
       o_history (ix_orders i') = o_history (ix_orders i) ++ archived (ix_orders i) [set_status "cancelled" st] /\
       (mark_cancelled i' id user).1 = i' /\ not_found (mark_cancelled i' id user).2) /\
  ((forall st, ~ known_to (ix_orders i) id user st) -> (mark_cancelled i id user).1 = i /\ not_found (mark_cancelled i id user).2).
Proof.
  intros W. assert (forall i, (forall st, ~ known_to (ix_orders i) id user st) -> (mark_cancelled i id user).1 = i /\ not_found (mark_cancelled i id user).2) as Hno.
  { intros j Hj. unfold mark_cancelled. pose proof (context_spec (ix_orders j) id user) as Hc.
    destruct (stored_order_context_by_id (ix_orders j) id user) as [[[order chain] spot]|]; [|done].
    destruct Hc as (st & Hst & _). by destruct (Hj st). }
  split; [|apply Hno]. intros st Hst. unfold mark_cancelled at 1. pose proof (context_spec (ix_orders i) id user) as Hc.
  destruct (stored_order_context_by_id (ix_orders i) id user) as [[[order chain] spot]|]; [|by destruct (Hc st)].
  destruct Hc as (st' & [Hs' Hu'] & -> & -> & ->). assert (st' = st) as -> by (destruct Hst as [Hs _]; congruence).
  destruct (ow_orders _ W _ _ Hs') as (_ & Hh & _). unfold hot, is_hot_order_status in Hh. apply orb_true_iff in Hh as [Hh|Hh];
    apply bool_decide_eq_true in Hh; rewrite Hh; (rewrite decide_False by done); (rewrite decide_False by tauto).
  all: destruct (cancel_live (ix_orders i) id st None W Hs') as (W' & A & H & D).
  all: eexists; split; [reflexivity|]; split; [done|]; split; [exact A|]; split; [exact H|]; apply Hno.
  all: intros sv [Hsv _]; simpl in Hsv; rewrite D, lookup_delete_eq in Hsv; done.
Qed.

(** C40: A cancellation over HTTP is not written anywhere: the tables keep the
    order, so after a restart it is live again, and the book keeps its size. *)
Theorem route_cancellation_forgotten i id user st t blank :
  orders_wf (ix_orders i) -> sizes_u64 (ix_orders i) -> known_to (ix_orders i) id user st ->
  t_orders t = table_of (ix_orders i) -> orders_wf blank -> o_orders blank = ∅ ->
  let i' := (mark_cancelled i id user).1 in
  o_orders (ix_orders i') !! id = None /\ ix_books i' = ix_books i /\
  o_orders (recover_orders blank (load_orders t)) !! id = Some st.
Proof.
  intros W Hu [Hs Hn] Ht Wb Hb. cbn zeta. destruct (orders_load (ix_orders i) t blank W Hu Ht Wb Hb) as [_ ->].
  unfold mark_cancelled. pose proof (context_spec (ix_orders i) id user) as Hc.
  destruct (stored_order_context_by_id (ix_orders i) id user) as [[[order chain] spot]|]; [|destruct (Hc st); done].
  destruct Hc as (st' & [Hs' Hu'] & -> & -> & ->). assert (st' = st) as -> by congruence.
  destruct (ow_orders _ W _ _ Hs') as (_ & Hh & _). unfold hot, is_hot_order_status in Hh. apply orb_true_iff in Hh as [Hh|Hh];
    apply bool_decide_eq_true in Hh; rewrite Hh; (rewrite decide_False by done); (rewrite decide_False by tauto).
  all: destruct (cancel_live (ix_orders i) id st None W Hs') as (_ & _ & _ & D); cbn [fst set_orders ix_orders ix_books].
  all: by rewrite D, lookup_delete_eq.
Qed.

(** ** Indexing a posted event *)

Lemma insert_twice o order user spot chain size filled :
  is_hot_order_status (ord_status order) = true ->
  let o' := (insert_order o order user spot chain size filled None).1 in
  (insert_order o' order user spot chain size filled None).1 = o'.
Proof.
  intros Hh. unfold insert_order. rewrite Hh. simpl. f_equal.
  - apply insert_insert_eq.
  - apply insert_insert_eq.
  - rewrite lookup_insert_eq, insert_insert_eq. simpl. f_equal. set_solver.
Qed.

Lemma inserted_known o order user spot chain size filled :
  is_hot_order_status (ord_status order) = true ->
  has_chain_order (insert_order o order user spot chain size filled None).1 spot chain = true.
Proof.
  intros Hh. unfold insert_order. rewrite Hh. unfold has_chain_order. simpl. apply bool_decide_eq_true_2.
  rewrite onchain_order_id_normalize, lookup_insert_eq. by eexists.
Qed.

(** The venue is known after it was asked for, whatever else has changed. *)
Lemma venue_known i spot :
  markets_reach (ix_markets i) -> normalize_spot_market_key spot <> ""%string ->
  let r := market_of_venue i spot in
  r.1 = set_markets (ix_markets r.1) i /\ forall j, ix_markets j = ix_markets r.1 -> market_of_venue j spot = (j, r.2).
Proof.
  intros Hm Hn. cbn zeta. unfold market_of_venue. destruct (lookup_spot_market (ix_markets i) spot) as [p|] eqn:E.
  - split; [by destruct i|]. intros j Hj. simpl in Hj. by rewrite Hj, E.
  - pose proof (ensure_standalone_registers (ix_markets i) spot Hm Hn) as H1.
    destruct (ensure_standalone_spot_market (ix_markets i) spot) as [m p]. destruct H1 as [H1 _].
    split; [done|]. intros j Hj. simpl in Hj. by rewrite Hj, H1.
Qed.

(** Indexing the order again over an index with the same venue and orders. *)
Lemma index_created_again i event spot status filled :
  markets_reach (ix_markets i) -> normalize_spot_market_key spot <> ""%string -> is_hot_order_status status = true ->
  exists i1 order, index_order_created i event spot (Some (status, filled)) None = (i1, None, Some order) /\ ord_status order = status /\
    has_chain_order (ix_orders i1) spot (order_id_to_string (oc_order_id event)) = true /\
    forall j, ix_markets j = ix_markets i1 -> ix_orders j = ix_orders i1 ->
      index_order_created j event spot (Some (status, filled)) None = (j, None, Some order).
Proof.
  intros Hm Hn Hh. destruct (venue_known i spot Hm Hn) as [_ Hv]. unfold index_order_created at 1.
  destruct (market_of_venue i spot) as [i0 [id out]]. cbn [fst snd] in Hv. cbv zeta. cbn [default from_option Datatypes.id]. cbv beta iota.
  set (order := build_order i0 id out spot (order_id_to_string (oc_order_id event)) (oc_side event) (created_price (oc_order_type event))
    (oc_amount event) status (oc_cloid event)).
  assert (forall o, (insert_order o order (address_to_string (oc_creator event)) spot (order_id_to_string (oc_order_id event)) (oc_amount event) filled None).2 = None) as Hnone
    by (intros o; unfold insert_order; by destruct (is_hot_order_status _)).
  rewrite (surjective_pairing (insert_order _ _ _ _ _ _ _ None)), Hnone.
  eexists _, order. split; [done|]. split; [done|]. split; [by apply inserted_known|].
  intros j Hj Ho. simpl in Hj, Ho. unfold index_order_created. rewrite (Hv j Hj). cbv zeta. cbn [default from_option Datatypes.id]. cbv beta iota.
  assert (build_order j id out spot (order_id_to_string (oc_order_id event)) (oc_side event) (created_price (oc_order_type event))
    (oc_amount event) status (oc_cloid event) = order) as -> by (unfold order, build_order, market_labels; by rewrite Hj).
  rewrite (surjective_pairing (insert_order _ _ _ _ _ _ _ None)), Hnone, Ho, insert_twice by done.
  do 3 f_equal. rewrite <- Ho. by destruct j.
Qed.

Lemma created_book_rest i n event spot pub :
  apply_order_created_to_book i n event spot pub None =
  (set_books (ix_books (apply_order_created_to_book i n event spot pub None).1) i, (apply_order_created_to_book i n event spot pub None).2).
Proof. unfold apply_order_created_to_book. destruct (oc_order_type event); [destruct (apply_created _ _ _ _ _ _ _ _); done|by destruct i..]. Qed.

(** Posting the event of a live order is idempotent: once it was accepted
    with an open status, posting it again answers the same order and leaves the
    index exactly as it is, the book and the messages to users included. *)
Theorem index_from_event_idempotent i body request event i' order :
  index_request body = Ok request -> into_event (ife_event request) = Ok event ->
  markets_reach (ix_markets i) -> normalize_spot_market_key (address_to_string (oc_market event)) <> ""%string ->
  is_hot_order_status (ife_status request) = true ->
  index_from_event i body = (i', Ok order) -> index_from_event i' body = (i', Ok order).
Proof.
  intros Hr He Hm Hn Hh. unfold index_from_event. rewrite Hr. cbn [mbind AppResult_bind]. rewrite He. cbn [mbind AppResult_bind].
  unfold index_event. set (spot := normalize_spot_market_key (address_to_string (oc_market event))).
  set (chain := order_id_to_string (oc_order_id event)).
  set (new := negb (has_chain_order (ix_orders i) spot chain)).
  set (i0 := if new && negb (ife_skip_book request) then _ else i).
  assert (ix_markets i0 = ix_markets i) as Hm0.
  { unfold i0. destruct (new && _); [|done]. by rewrite created_book_rest. }
  destruct (index_created_again i0 event spot (ife_status request) (ife_filled_raw request)) as (i1 & o & E & Hs & Hk & Hj);
    [by rewrite Hm0|unfold spot; by rewrite normalize_idemp|done|].
  rewrite E. set (i2 := if new then publish_user_order_created i1 spot chain 0 else i1). intros [= <- <-].
  assert (ix_markets i2 = ix_markets i1 /\ ix_orders i2 = ix_orders i1) as [E1 E2].
  { unfold i2. destruct new; [|done]. unfold publish_user_order_created, publish_user_order. by destruct (stored_order_by_chain_id _ _ _) as [[[? ?] ?]|]. }
  rewrite E2. change (order_id_to_string (oc_order_id event)) with chain in Hk. rewrite !Hk. cbn [negb andb]. by rewrite (Hj i2 E1 E2).
Qed.

(** An event posted with a status that is not open puts its whole amount
    into the book although the order never becomes live: nothing that can
    happen to the order later takes it out again, and posting it once more adds
    it once more. *)
Theorem terminal_event_fills_book i body request event price :
  index_request body = Ok request -> into_event (ife_event request) = Ok event -> oc_order_type event = OtLimit price ->
  ife_skip_book request = false -> is_hot_order_status (ife_status request) = false -> price <> 0 -> 0 < oc_amount event ->
  let spot := normalize_spot_market_key (address_to_string (oc_market event)) in
  let chain := order_id_to_string (oc_order_id event) in
  has_chain_order (ix_orders i) spot chain = false ->
  (forall p size, level_at (ix_books i) spot (oc_side event) p = Some size -> 0 < size) ->
  let i' := (index_from_event i body).1 in
  has_chain_order (ix_orders i') spot chain = false /\
  level_at (ix_books i') spot (oc_side event) price = Some (sat_add (default 0 (level_at (ix_books i) spot (oc_side event) price)) (oc_amount event)).
Proof.
  intros Hr He Hlim Hskip Hh Hp Ha. cbn zeta. intros Hc Hpos. unfold index_from_event. rewrite Hr. cbn [mbind AppResult_bind]. rewrite He.
  cbn [mbind AppResult_bind]. unfold index_event. rewrite Hc, Hskip. cbn [negb andb].
  set (spot := normalize_spot_market_key (address_to_string (oc_market event))) in *. set (chain := order_id_to_string (oc_order_id event)) in *.
  rewrite created_book_rest. cbn [fst].
  assert (ix_books (apply_order_created_to_book i 0 event spot true None).1 =
    (book_step true (ix_books i, None) (OpCreated spot (oc_side event) price (oc_amount event) 0)).1) as Hb.
  { unfold apply_order_created_to_book. rewrite Hlim. simpl. by destruct (apply_created _ _ _ _ _ _ _ _). }
  rewrite Hb. set (b := (book_step true (ix_books i, None) _).1).
  assert (level_at b spot (oc_side event) price = Some (sat_add (default 0 (level_at (ix_books i) spot (oc_side event) price)) (oc_amount event))) as Hl.
  { unfold b. rewrite step_levels. unfold level_after. cbn [op_effect]. rewrite decide_False by lia. cbn [op_spot].
    rewrite decide_True by (unfold spot; by rewrite normalize_idemp). simpl. rewrite decide_False; [done|].
    destruct (level_at (ix_books i) spot (oc_side event) price) as [size|] eqn:El; simpl; [apply Hpos in El|]; mach. }
  assert (exists i1 order, index_order_created (set_books b i) event spot (Some (ife_status request, ife_filled_raw request)) None = (i1, None, Some order) /\
    ix_books i1 = b /\ o_by_id (ix_orders i1) = o_by_id (ix_orders i)) as (i1 & order & -> & E1 & E2).
  { unfold index_order_created. destruct (market_of_venue (set_books b i) spot) as [i0 [id out]] eqn:Ev.
    assert (ix_books i0 = b /\ ix_orders i0 = ix_orders i) as [V1 V2].
    { unfold market_of_venue in Ev. destruct (lookup_spot_market _ _); [by injection Ev as <-|].
      destruct (ensure_standalone_spot_market _ _). by injection Ev as <-. }
    cbv zeta. cbn [default from_option Datatypes.id]. cbv beta iota. unfold insert_order. cbn [ord_status build_order]. rewrite Hh. cbn [negb]. eexists _, _. split; [reflexivity|].
    cbn [set_orders ix_books ix_orders]. split; [done|]. unfold write_order_history. rewrite V2. by destruct (o_persist (ix_orders i)). }
  assert (forall j, j = i1 \/ j = publish_user_order_created i1 spot chain 0 -> ix_books j = b /\ o_by_id (ix_orders j) = o_by_id (ix_orders i)) as Hj.
  { intros j [-> | ->]; [done|]. unfold publish_user_order_created, publish_user_order. by destruct (stored_order_by_chain_id _ _ _) as [[[? ?] ?]|]. }
  destruct (Hj (publish_user_order_created i1 spot chain 0) ltac:(by right)) as [B1 B2]. cbn [fst]. rewrite B1. split; [|exact Hl].
  unfold has_chain_order in *. by rewrite B2.
Qed.

End Facts.

(** ** Witnesses *)

Definition demo_orders_index : Index := set_orders demo_orders (Index_new true).

Lemma demo_orders_wf : orders_wf (SD := DemoSdk) (ix_orders demo_orders_index).
Proof. apply orders_reach_wf, demo_orders_reach. Qed.

Lemma demo_known : exists st, known_to (ix_orders demo_orders_index) (ord_id demo_order) "u1" st.
Proof.
  assert (match o_orders demo_orders !! ord_id demo_order with Some st => eq_ignore_ascii_case (so_user_address st) "u1" | None => false end = true) as H
    by (vm_compute; reflexivity).
  unfold known_to. change (ix_orders demo_orders_index) with demo_orders. destruct (o_orders demo_orders !! ord_id demo_order) as [st|]; [|discriminate H]. exists st. split; [reflexivity|exact H].
Qed.

Lemma mark_cancelled_effect_witness :
  exists i', mark_cancelled (SD := DemoSdk) demo_orders_index (ord_id demo_order) "u1" = (i', Ok tt) /\
    not_found (mark_cancelled (SD := DemoSdk) i' (ord_id demo_order) "u1").2.
Proof.
  destruct demo_known as [st Hst].
  destruct (mark_cancelled_effect (SD := DemoSdk) demo_orders_index (ord_id demo_order) "u1" demo_orders_wf) as [H _].
  destruct (H st Hst) as (i' & E & _ & _ & _ & _ & Hn). exists i'. split; [exact E|exact Hn].
Defined.

Definition demo_order_tables : IndexStateTables := apply_index_write_set tables_empty demo_row_ws.

Lemma route_cancellation_forgotten_witness :
  exists st, o_orders (ix_orders (mark_cancelled (SD := DemoSdk) demo_orders_index (ord_id demo_order) "u1").1) !! ord_id demo_order = None /\
    o_orders (recover_orders (S := DemoSdk) (Orders_new true) (load_orders demo_order_tables)) !! ord_id demo_order = Some st.
Proof.
  destruct demo_known as [st Hst]. exists st.
  destruct (route_cancellation_forgotten (SD := DemoSdk) demo_orders_index (ord_id demo_order) "u1" st demo_order_tables (Orders_new true) demo_orders_wf)
    as (H1 & _ & H2); [|exact Hst| |apply orders_new_wf|done|by split].
  - apply (map_Forall_insert_2 (K := Uuid) _ ∅ 5%N (op_inserted (SD := DemoSdk) demo_order "U1" " c7 " "o1" 10 0)); [|apply map_Forall_empty].
    split; unfold is_u64, u64_max; simpl; lia.
  - apply (bool_decide_unpack _). vm_compute. exact I.
Defined.

Definition demo_wire : WireOrderCreatedEvent (SD := DemoSdk) :=
  Build_WireOrderCreatedEvent (SD := DemoSdk) 12%N Buy 40 (Hex "a1") (RawBytes [7; 0]) (OtLimit 500000) None.
Definition demo_body (status : string) : IndexBody (SD := DemoSdk) := BodyRequest (inr (Build_IndexFromEventRequest (SD := DemoSdk) demo_wire false status 0)).
Definition demo_posted (status : string) := index_from_event (SD := DemoSdk) (Index_new false) (demo_body status).

Lemma index_from_event_idempotent_witness :
  exists i' order, demo_posted "open" = (i', Ok order) /\ length (ix_hub i') = 1%nat /\
    index_from_event (SD := DemoSdk) i' (demo_body "open") = (i', Ok order).
Proof.
  assert (is_ok (demo_posted "open").2 = true /\ length (ix_hub (demo_posted "open").1) = 1%nat) as [Hok Hl] by (split; vm_compute; reflexivity).
  destruct (demo_posted "open") as [i' [order|e]] eqn:E; [|discriminate Hok]. exists i', order. split; [done|]. split; [exact Hl|].
  refine (index_from_event_idempotent (SD := DemoSdk) (Index_new false) (demo_body "open") _ _ i' order eq_refl eq_refl _ _ _ E).
  - constructor.
  - by apply (bool_decide_eq_false_1 (_ = _)).
  - reflexivity.
Defined.

Definition demo_filled_request : IndexFromEventRequest (SD := DemoSdk) := Build_IndexFromEventRequest (SD := DemoSdk) demo_wire false "filled" 0.
Definition demo_posted_event : OrderCreatedEvent (SD := DemoSdk) :=
  Build_OrderCreatedEvent (SD := DemoSdk) 12%N 1%N 7%N Buy 40 (OtLimit 500000) None.

Lemma demo_into_event : into_event (SD := DemoSdk) (ife_event demo_filled_request) = Ok demo_posted_event.
Proof.
  assert (parse_flexible_address (SD := DemoSdk) (Hex "a1") = Ok 1%N) as H1 by (vm_compute; reflexivity).
  assert (parse_flexible_address (SD := DemoSdk) (RawBytes [7; 0]) = Ok 7%N) as H2 by (vm_compute; reflexivity).
  unfold into_event, demo_filled_request, demo_wire. cbn [ife_event we_creator we_market we_order_id we_side we_amount we_order_type we_cloid].
  rewrite H1. cbn [mbind AppResult_bind]. rewrite H2. reflexivity.
Qed.

Lemma terminal_event_fills_book_witness :
  level_at (ix_books (demo_posted "filled").1) "c7" Buy 500000 = Some 40 /\
  has_chain_order (S := DemoSdk) (ix_orders (demo_posted "filled").1) "c7" "o12" = false.
Proof.
  split; [vm_compute; reflexivity|].
  assert (normalize_spot_market_key (S := DemoSdk) (address_to_string (Sdk := DemoSdk) (oc_market (SD := DemoSdk) demo_posted_event)) = "c7"%string) as Hspot
    by (vm_compute; reflexivity).
  pose proof (terminal_event_fills_book (SD := DemoSdk) (Index_new false) (demo_body "filled") demo_filled_request demo_posted_event 500000
    eq_refl demo_into_event eq_refl eq_refl eq_refl) as H.
  cbv zeta in H. rewrite Hspot in H. refine (proj1 (H _ _ _ _)).
  - lia.
  - reflexivity.
  - reflexivity.
  - intros p size Hl. unfold level_at in Hl. simpl in Hl. by rewrite lookup_empty in Hl.
Defined.
