(* ===== verification/Recover.v ===== *)
(** * Recover: start-up, checkpoints and catch-up of [indexer/mod.rs]

    Loading the database into an empty index and replaying the block log
    ([recover_from_persist]), writing the whole index ([force_full_index_write],
    [checkpoint_once]), and taking over a peer's state ([run_peer_catchup]),
    with the parts of [persist/shared.rs] they use.  What they ask of the
    persistence tasks is the list of their requests, in order; [on_disk] says
    what the stores hold once a request has been carried out, and [settles] what
    a list of requests may leave when some are lost: an idle handle only means
    that every request has been dealt with, a failed write included
    ([PersistFacts.idle_means_settled]). *)
From Stdlib Require Import Strings.Byte.
From S2P Require Import Prelude Text Errors Sdk Keys Domain WriteSet Tables Books Bars Orders Markets Vaults.
From S2P Require Import Paper Submit Events Store StoreFacts Persist Peer Hydrate Processor.

Local Open Scope list_scope.
Local Open Scope Z_scope.

(** ** The stores and the requests to them *)

Record Disk := { dk_blocks : BlockStore; dk_state : StateStore; dk_index : IndexStateTables }.

Section Recover.
Context {SD : Sdk} {B : Bincode} {C : Chain} {PC : PaperChain} {J : Json} {K : BlockCodec}.

Inductive PersistAction :=
| AIndexWrite (ws : IndexWriteSet)
| ASaveBlock (block_num : Z) (digest : string) (payload : list byte)
| AEnqueueBlock (block : ReceiptBlock)
| ACheckpoint (snapshot : CheckpointSnapshot).

(** [checkpoint_exported]: the tables become the snapshot, the blocks up to it
    go; [apply_checkpoint_snapshot] then drops what is after it as well. *)
Definition checkpoint_exported (d : Disk) (s : CheckpointSnapshot) : Disk :=
  {| dk_blocks := delete_blocks_through (dk_blocks d) (cs_block_num s); dk_state := dk_state d;
     dk_index := checkpoint (dk_index d) (cs_block_num s) (cs_digest s) (cs_markets s) (cs_orders s) (cs_last_trades s)
                   (cs_book_levels s) (cs_book_metas s) (cs_vaults s) (cs_vault_portfolio s) |}.

Definition on_disk (now_ms : Z) (d : Disk) (a : PersistAction) : Disk :=
  match a with
  | AIndexWrite ws => {| dk_blocks := dk_blocks d; dk_state := dk_state d; dk_index := apply_index_write_set (dk_index d) ws |}
  | ASaveBlock n digest payload =>
      {| dk_blocks := save_block now_ms (dk_blocks d) n digest payload; dk_state := dk_state d; dk_index := dk_index d |}
  | AEnqueueBlock block =>
      match bincode_serialize block with
      | Some payload => {| dk_blocks := save_block now_ms (dk_blocks d) (rb_block_num block) (rb_digest block) payload;
                           dk_state := dk_state d; dk_index := dk_index d |}
      | None => d
      end
  | ACheckpoint s =>
      let d := checkpoint_exported d s in
      {| dk_blocks := delete_blocks_after (dk_blocks d) (cs_block_num s);
         dk_state := delete_paper_position_history_after (dk_state d) (cs_block_num s); dk_index := dk_index d |}
  end.

(** What the requests may leave, in order: each is carried out or lost, for the
    queue can be given up at shutdown ([wait_idle] times out) and a write can
    fail in its worker. *)
Inductive settles (now_ms : Z) : Disk -> list PersistAction -> Disk -> Prop :=
| settles_nil d : settles now_ms d [] d
| settles_done d a actions d' : settles now_ms (on_disk now_ms d a) actions d' -> settles now_ms d (a :: actions) d'
| settles_lost d a actions d' : settles now_ms d actions d' -> settles now_ms d (a :: actions) d'.

(** ** The index in memory *)

(** [IndexState::clear_all]; messages already sent and rows already queued stay. *)
Definition Paper_clear (p : Paper) : Paper :=
  {| p_marks := ∅; p_mark_history := ∅; p_house_dirty := ∅; p_positions := ∅; p_house := ∅; p_instruments := ∅; p_oi := ∅;
     p_oi_history := ∅; p_house_history := ∅; p_queue := ∅; p_volume := ∅; p_staker_rewards := ∅; p_rewards_claimed := ∅;
     p_activity := []; p_stake_dirty := ∅; p_stake_history := ∅; p_out := p_out p; p_history := p_history p;
     p_house_rows := p_house_rows p; p_persist := p_persist p |}.
Definition Orders_clear (o : Orders) : Orders :=
  {| o_orders := ∅; o_by_id := ∅; o_by_user := ∅; o_history := o_history o; o_persist := o_persist o; o_block_secs := 0 |}.
Definition clear_all (i : Index) : Index :=
  {| ix_books := Books_new; ix_bars := Bars_clear (ix_bars i); ix_markets := Markets_new; ix_orders := Orders_clear (ix_orders i);
     ix_vaults := Vaults_new; ix_paper := Paper_clear (ix_paper i); ix_hub := ix_hub i |}.

Definition load_upserts (m : Markets) (markets : list Market) : Markets :=
  foldl (fun m market => (upsert_market m market None).1) m markets.
Definition load_prices (m : Markets) (last_trades : list (string * Z)) : Markets :=
  foldl (fun m p => (record_last_trade_price m p.1 p.2 None).1) m last_trades.
Definition load_vault_list (v : Vaults) (vaults : list Vault) : Vaults :=
  foldl (fun v vault => (upsert_vault v vault None).1) v vaults.

Definition apply_snapshot_to_memory (i : Index) (markets : list Market) (orders : list PersistOrderRow)
    (last_trades : list (string * Z)) (levels : list PersistBookLevel) (metas : list PersistBookMeta) (vaults : list Vault)
    (vault_portfolio : list PersistVaultPortfolioRow) : Index :=
  let i := set_markets (load_upserts (ix_markets i) markets) i in
  let i := set_orders (recover_orders (ix_orders i) orders) i in
  let i := set_markets (load_prices (ix_markets i) last_trades) i in
  let i := set_books (import_from_persist (ix_books i) levels metas) i in
  let i := set_vaults (load_vault_list (ix_vaults i) vaults) i in
  set_vaults (import_vault_portfolio_for_persist (ix_vaults i) vault_portfolio) i.

(** [SharedPersist::load_into]. *)
Definition load_into (t : IndexStateTables) (i : Index) : AppResult (Index * option PersistMeta) :=
  meta ← read_meta t;
  Ok (apply_snapshot_to_memory i (load_markets t) (load_orders t) (load_last_trades t) (load_book_levels t) (load_book_meta t)
        (load_vaults t) (load_vault_portfolio t), meta).

Definition apply_snapshot (i : Index) (s : CheckpointSnapshot) : Index :=
  apply_snapshot_to_memory (clear_all i) (cs_markets s) (cs_orders s) (cs_last_trades s) (cs_book_levels s) (cs_book_metas s)
    (cs_vaults s) (cs_vault_portfolio s).

(** ** Writing the whole index *)

Definition export_markets_for_persist (m : Markets) : list Market := (map_to_list (m_markets m)).*2.
Definition in_spots (only_spots : option (list string)) (spot : string) : bool :=
  match only_spots with Some spots => existsb (fun s => bool_decide (s = spot)) spots | None => true end.
Definition export_orders_for_persist_spots (only_spots : option (list string)) (o : Orders) : list PersistOrderRow :=
  stored_to_persist_row <$> filter (fun st => in_spots only_spots (so_spot_market st) = true) (map_to_list (o_orders o)).*2.
Definition export_orders_for_persist (o : Orders) : list PersistOrderRow := export_orders_for_persist_spots None o.
Definition export_last_trades_for_persist_spots (only_spots : option (list string)) (m : Markets) : list (string * Z) :=
  filter (fun p => in_spots only_spots p.1 = true) (map_to_list (m_last_trade m)).
Definition export_last_trades_for_persist (m : Markets) : list (string * Z) := export_last_trades_for_persist_spots None m.

(** The write set of [force_full_index_write]. *)
Definition full_index_write (i : Index) (block_num : Z) (digest : string) : IndexWriteSet :=
  let '(levels, metas) := export_for_persist (ix_books i) in
  {| ws_block_num := block_num; ws_digest := digest; ws_full_replace := true;
     ws_markets := (insert_all (fun m => uuid_to_string (MarketOps.id m)) (fun m => m) (export_markets_for_persist (ix_markets i)), ∅);
     ws_orders := (insert_all (fun row => uuid_to_string (ord_id (por_order row)))
       (fun row => order_row_from_parts (por_order row) (por_user_address row) (por_chain_order_id row)
                     (por_spot_market row) (por_size_raw row) (por_filled_raw row)) (export_orders_for_persist (ix_orders i)), ∅);
     ws_book_levels := (insert_all
       (fun l => (normalize_spot_market_key (pbl_spot_market l), pbl_side l, as_i64 (pbl_price_raw l)))
       (fun l => as_i64 (pbl_size_raw l)) (filter (fun l => pbl_size_raw l <> 0) levels), ∅);
     ws_book_meta := (insert_all (fun m => normalize_spot_market_key (pbm_spot_market m))
       (fun m => {| bm_sequence := as_i64 (pbm_sequence m); bm_last_trade_price := as_i64 <$> pbm_last_trade_price m |}) metas, ∅);
     ws_last_trades := (insert_all (fun p => normalize_spot_market_key p.1) (fun p => as_i64 p.2)
       (export_last_trades_for_persist (ix_markets i)), ∅);
     ws_vaults := (insert_all (fun v => uuid_to_string (vlt_id v)) clear_portfolio (export_vaults_for_persist (ix_vaults i)), ∅);
     ws_vault_portfolio := (insert_all (fun r => (pvp_vault_id r, normalize_spot_market_key (pvp_spot_market r)))
       (fun r => as_i64 (pvp_amount_raw r))
       (filter (fun r => pvp_amount_raw r <> 0) (export_vault_portfolio_for_persist (ix_vaults i))), ∅) |}.

(** ** Epoch checkpoints *)

Inductive CheckpointOutcome := Skipped | Written (block_num : Z) (digest : string).

(** [checkpoint_once]: [idle] is the answer of the first [wait_idle], [meta] the
    stored position; the requests it makes before it clones the tables. *)
Definition checkpoint_once (head : IndexedBlockHead) (i : Index) (skip_if : option (Z * string)) (idle : bool)
    (meta : AppResult (option PersistMeta)) : AppResult (CheckpointOutcome * list PersistAction) :=
  let full := [AIndexWrite (full_index_write i (hd_block_num head) (hd_digest head))] in
  let written := Written (hd_block_num head) (hd_digest head) in
  if decide (hd_digest head = "")%string then Ok (Skipped, [])
  else if match skip_if with
          | Some last => hd_catching_up head || bool_decide ((hd_block_num head, hd_digest head) = last)
          | None => false
          end then Ok (Skipped, [])
  else if negb idle then Ok (written, full)
  else
    meta ← meta;
    match meta with
    | Some m => if decide (pm_block_num m = hd_block_num head /\ pm_digest m = hd_digest head) then Ok (written, []) else Ok (written, full)
    | None => Ok (written, full)
    end.

(** ** Replay *)

(** [ProcessOpts::quiet]. *)
Definition quiet (env : ProcessEnv) : ProcessEnv :=
  {| pe_query_account := pe_query_account env; pe_block_num := pe_block_num env; pe_publish_ws := false;
     pe_now_ts := pe_now_ts env; pe_now_ms := pe_now_ms env |}.

(** A block applied with its write set dropped, as both callers do; [clock] is
    the environment the block meets. *)
Definition replay_block (clock : ReceiptBlock -> ProcessEnv) (st : Index * Registry) (block : ReceiptBlock) : Index * Registry :=
  (process_block (quiet (clock block)) st.1 st.2 block).1.

(** The first undecodable block ends the loop with its error; what has been
    applied stays. *)
Fixpoint replay_log (clock : ReceiptBlock -> ProcessEnv) (st : Index * Registry) (head : option PersistMeta) (blocks : list PeerBlock)
    : Index * Registry * AppResult (option PersistMeta) :=
  match blocks with
  | [] => (st, Ok head)
  | (n, digest, payload) :: blocks =>
      match decode_block_payload n payload with
      | Err e => (st, Err e)
      | Ok block => replay_log clock (replay_block clock st block) (Some {| pm_block_num := n; pm_digest := digest |}) blocks
      end
  end.

(** [recover_from_persist]; house history is read back with the snapshot. *)
Definition house_rows_on_disk (s : StateStore) : list (string * list PaperHouseHistoryRow) :=
  (fun market => (market, load_paper_house_history s market None PAPER_HOUSE_HISTORY_LIMIT)) <$> list_paper_house_history_markets s.

Definition recover_from_persist (clock : ReceiptBlock -> ProcessEnv) (d : Disk) (i : Index) (wait : Registry)
    : Index * Registry * AppResult (option PersistMeta) :=
  match load_into (dk_index d) i with
  | Err e => (i, wait, Err e)
  | Ok (i, meta) =>
      let i := if p_persist (ix_paper i)
               then set_paper (hydrate_paper_house_history_from_persist (house_rows_on_disk (dk_state d)) (ix_paper i)) i else i in
      replay_log clock (i, wait) meta (load_blocks_after (dk_blocks d) (pm_block_num <$> meta) None)
  end.

(** [App::recover]: the head after start-up. *)
Definition recovered_head (head : IndexedBlockHead) (r : AppResult (option PersistMeta)) : IndexedBlockHead :=
  match r with
  | Ok (Some meta) => {| hd_block_num := pm_block_num meta; hd_digest := pm_digest meta; hd_tx_count := hd_tx_count head;
                         hd_connected := hd_connected head; hd_catching_up := hd_catching_up head;
                         hd_last_indexed_at_ms := hd_last_indexed_at_ms head |}
  | _ => head
  end.

(** ** Catching up from a peer *)

Definition PEER_LIVE_BUFFER_MAX : nat := 256.

(** A live block that arrives during the download. *)
Definition buffer_live (live_buffer : list ReceiptBlock) (block : ReceiptBlock) : list ReceiptBlock :=
  (if decide (PEER_LIVE_BUFFER_MAX <= length live_buffer)%nat then tail live_buffer else live_buffer) ++ [block].

Record Catchup := {
  cu_index : Index;
  cu_wait : Registry;
  cu_actions : list PersistAction;
  cu_tip : PersistMeta;
  cu_applied : gset string;
  cu_head : IndexedBlockHead
}.

(** The peer's blocks: saved, applied, and the tip moved. *)
Definition peer_block (clock : ReceiptBlock -> ProcessEnv) (c : Catchup) (b : PeerBlock) : AppResult Catchup :=
  let '(n, digest, payload) := b in
  block ← decode_block_payload n payload;
  let st := replay_block clock (cu_index c, cu_wait c) block in
  Ok {| cu_index := st.1; cu_wait := st.2; cu_actions := cu_actions c ++ [ASaveBlock n digest payload];
        cu_tip := {| pm_block_num := n; pm_digest := digest |}; cu_applied := cu_applied c; cu_head := cu_head c |}.

(** The buffered live blocks: those not applied yet. *)
Definition live_block (clock : ReceiptBlock -> ProcessEnv) (now_ms : Z) (c : Catchup) (block : ReceiptBlock) : Catchup :=
  if decide (rb_digest block ∈ cu_applied c) then c
  else
    let st := replay_block clock (cu_index c, cu_wait c) block in
    {| cu_index := st.1; cu_wait := st.2; cu_actions := cu_actions c ++ [AEnqueueBlock block];
       cu_tip := {| pm_block_num := rb_block_num block; pm_digest := rb_digest block |};
       cu_applied := {[rb_digest block]} ∪ cu_applied c;
       cu_head := {| hd_block_num := rb_block_num block; hd_digest := rb_digest block;
                     hd_tx_count := length (rb_transaction_outputs block); hd_connected := hd_connected (cu_head c);
                     hd_catching_up := hd_catching_up (cu_head c); hd_last_indexed_at_ms := now_ms |} |}.

Fixpoint fold_ok {A S} (f : S -> A -> AppResult S) (s : S) (l : list A) : AppResult S :=
  match l with [] => Ok s | a :: l => s ← f s a; fold_ok f s l end.

(** The part of [run_peer_catchup] after the download, under the apply gate:
    the snapshot, the peer's blocks, the buffered blocks, one full write. *)
Definition apply_catchup (clock : ReceiptBlock -> ProcessEnv) (now_ms : Z) (i : Index) (wait : Registry) (head : IndexedBlockHead)
    (snapshot : CheckpointSnapshot) (peer_blocks : list PeerBlock) (live_buffer : list ReceiptBlock)
    : AppResult (Index * Registry * IndexedBlockHead * list PersistAction) :=
  let c := {| cu_index := apply_snapshot i snapshot; cu_wait := wait; cu_actions := [ACheckpoint snapshot];
              cu_tip := {| pm_block_num := cs_block_num snapshot; pm_digest := cs_digest snapshot |};
              cu_applied := {[cs_digest snapshot]} ∪ digest_set_from_blocks peer_blocks; cu_head := head |} in
  c ← fold_ok (peer_block clock) c peer_blocks;
  let c := foldl (live_block clock now_ms) c live_buffer in
  let head := {| hd_block_num := pm_block_num (cu_tip c); hd_digest := pm_digest (cu_tip c); hd_tx_count := hd_tx_count (cu_head c);
                 hd_connected := hd_connected (cu_head c); hd_catching_up := false;
                 hd_last_indexed_at_ms := hd_last_indexed_at_ms (cu_head c) |} in
  Ok (cu_index c, cu_wait c, head,
      cu_actions c ++ [AIndexWrite (full_index_write (cu_index c) (pm_block_num (cu_tip c)) (pm_digest (cu_tip c)))]).

End Recover.
