(* ===== verification/RecoverFacts.v ===== *)
(** * RecoverFacts: what start-up, checkpoints and catch-up guarantee

    Tables that agree with the index load back to the index; a full write makes
    any tables agree with it; a peer's state is taken over completely; and what
    a replay of the block log leaves out of the tables. *)
From Stdlib Require Import Strings.Byte.
From S2P Require Import Prelude Text Errors Sdk Keys Domain WriteSet Tables Books BooksFacts BooksPersist Bars.
From S2P Require Import Orders OrdersFacts Markets MarketsFacts Vaults VaultsFacts Paper Submit Events Store StoreFacts.
From S2P Require Import Persist Peer Hydrate Writes Processor Decode ProcessorFacts Recover.

Local Open Scope list_scope.
Local Open Scope Z_scope.

(** ** Inserting the rows of a list *)

Lemma fold_insert_Some {A K V} `{Countable K} (key : A -> K) (val : A -> V) l (m : gmap K V) k v :
  (forall a b, a ∈ l -> b ∈ l -> key a = key b -> val a = val b) ->
  foldl (fun m a => <[key a := val a]> m) m l !! k = Some v <->
    (exists a, a ∈ l /\ key a = k /\ val a = v) \/ (m !! k = Some v /\ forall a, a ∈ l -> key a <> k).
Proof.
  intros Hf. induction l as [|a l IH] using rev_ind; [set_solver|].
  rewrite foldl_app. cbn [foldl]. rewrite lookup_insert_Some, IH by (intros; apply Hf; set_solver).
  setoid_rewrite elem_of_app. setoid_rewrite list_elem_of_singleton.
  destruct (decide (key a = k)) as [<-|Hk]; [|naive_solver].
  split; [naive_solver|]. intros [(b & Hb & Eb & <-)|[_ Hn]]; [left|naive_solver]. split; [done|].
  apply Hf; set_solver.
Qed.

Lemma insert_all_Some {A K V} `{Countable K} (key : A -> K) (val : A -> V) l k v :
  (forall a b, a ∈ l -> b ∈ l -> key a = key b -> val a = val b) ->
  insert_all key val l !! k = Some v <-> exists a, a ∈ l /\ key a = k /\ val a = v.
Proof. intros Hf. unfold insert_all. rewrite fold_insert_Some, lookup_empty by done. naive_solver. Qed.

Section Facts.
Context {SD : Sdk} {L : SdkLaws} {NC : NoCollision}.

(** ** Loading the books *)

Lemma import_metas_levels b ms key side p : level_at (foldl import_meta b ms) key side p = level_at b key side p.
Proof. revert b. induction ms as [|m ms IH]; intros b; simpl; [done|]. by rewrite IH, import_meta_levels. Qed.

Definition level_row (k : string) (side : OrderSide) (p s : Z) : PersistBookLevel :=
  {| pbl_spot_market := k; pbl_side := side_str side; pbl_price_raw := p; pbl_size_raw := s |}.

Lemma loaded_levels b t x :
  book_wf b -> mirrors (t_book_levels t) b -> tables_keys t -> (forall k side p s, level_at b k side p = Some s -> s <= i64_max) ->
  x ∈ load_book_levels t <-> exists k side p s, level_at b k side p = Some s /\ x = level_row k side p s.
Proof.
  intros [_ W] HM HK Hfit. unfold load_book_levels. rewrite list_elem_of_fmap. split.
  - intros ([[[k d] p] v] & -> & [Hpos Hin]%list_elem_of_filter). simpl in *. apply elem_of_map_to_list in Hin.
    destruct (tk_levels t HK _ _ _ _ Hin) as (_ & side & q & Hq & -> & ->). rewrite HM in Hin by done.
    destruct (level_at b k side q) as [s|] eqn:Es; [|done]. pose proof (Hfit _ _ _ _ Es). destruct (W _ _ _ _ Es) as [_ Hs].
    simpl in Hin. rewrite persistable_exact in Hin by lia. injection Hin as <-. exists k, side, q, s. split; [done|].
    unfold level_row. rewrite as_u64_as_i64 by done. rewrite as_u64_id by (unfold is_u64; lia). done.
  - intros (k & side & p & s & Es & ->). destruct (W _ _ _ _ Es) as [Hp Hs]. pose proof (Hfit _ _ _ _ Es).
    exists (k, side_str side, as_i64 p, s). split.
    + unfold level_row. simpl. rewrite as_u64_as_i64 by done. by rewrite as_u64_id by (unfold is_u64; lia).
    + apply list_elem_of_filter. split; [simpl; lia|]. apply elem_of_map_to_list. rewrite HM, Es by done.
      apply persistable_exact. lia.
Qed.

Lemma books_load b b0 t :
  book_wf b -> mirrors (t_book_levels t) b -> tables_keys t -> (forall k side p s, level_at b k side p = Some s -> s <= i64_max) ->
  forall key side p, level_at (import_from_persist b0 (load_book_levels t) (load_book_meta t)) key side p = level_at b key side p.
Proof.
  intros W HM HK Hfit key side p. pose proof (loaded_levels b t) as HX. unfold import_from_persist.
  destruct (import_levels (foldl import_meta {| shards := ∅; trade_seq := trade_seq b0 |} (load_book_meta t)) (load_book_levels t) key side p)
    as [I1 I2].
  assert (forall x, x ∈ load_book_levels t -> sets_level key side p x -> level_at b key side p = Some (pbl_size_raw x)) as Hset.
  { intros x (k & sd & q & s & Es & ->)%HX (E1 & E2 & E3 & _); try done. simpl in *.
    destruct (level_at b k sd q) as [s'|] eqn:E; [|done]. injection Es as ->.
    assert (normalize_spot_market_key k = k) as Hk; [|apply side_str_inj in E2; congruence].
    assert (t_book_levels t !! (k, side_str sd, as_i64 q) = Some s) as Ht.
    { destruct W as [_ W]. destruct (W _ _ _ _ E) as [Hq Hs]. pose proof (Hfit _ _ _ _ E). rewrite HM, E by done.
      apply persistable_exact. lia. }
    by apply (tk_levels t HK) in Ht as [? _]. }
  destruct (level_at b key side p) as [s|] eqn:Es.
  - apply I1; [|by intros x Hx Hs; specialize (Hset x Hx Hs); congruence].
    assert (level_row key side p s ∈ load_book_levels t) as Hin by (apply HX; try done; by exists key, side, p, s).
    exists (level_row key side p s). split; [done|]. split_and!; simpl; try done.
    + destruct W as [_ W]. destruct (W _ _ _ _ Es) as [Hq Hs]. pose proof (Hfit _ _ _ _ Es).
      assert (t_book_levels t !! (key, side_str side, as_i64 p) = Some s) as Ht by (rewrite HM, Es by done; apply persistable_exact; lia).
      by apply (tk_levels t HK) in Ht as [? _].
    + destruct W as [_ W]. apply W in Es. lia.
  - rewrite I2; [by rewrite import_metas_levels; unfold level_at; simpl; rewrite lookup_empty|].
    intros x Hx Hs. specialize (Hset x Hx Hs). congruence.
Qed.

Lemma row_head_back m b key row :
  heads_ok b -> mirrors_meta m b -> m !! key = Some row ->
  (as_u64 (bm_sequence row), as_u64 <$> bm_last_trade_price row) = book_head b key.
Proof.
  intros Hh [H _] E. apply H in E as [_ ->]. destruct (Hh key) as (H1 & H2 & _). destruct (book_head b key) as [s [p|]]; simpl in *.
  - rewrite !as_u64_as_i64 by auto. done.
  - by rewrite as_u64_as_i64.
Qed.

(** The heads of the books come back, each with its row. *)
Lemma heads_load b b0 t levels :
  keys_normal b -> heads_ok b -> mirrors_meta (t_book_meta t) b ->
  let b' := import_from_persist b0 levels (load_book_meta t) in
  (forall key, book_head b' key = book_head b key) /\ mirrors_meta (t_book_meta t) b'.
Proof.
  intros HK Hh HM b'. unfold b', import_from_persist. set (b1 := {| shards := ∅; trade_seq := trade_seq b0 |}).
  set (row_of := fun p : string * BookMetaRow => {| pbm_spot_market := p.1; pbm_sequence := as_u64 (bm_sequence p.2);
    pbm_last_trade_price := as_u64 <$> bm_last_trade_price p.2 |}).
  assert (forall k row, t_book_meta t !! k = Some row -> normalize_spot_market_key k = k) as Hk.
  { intros k row E. destruct (mm_row _ _ HM _ _ E) as [[sh Hsh] _]. by eapply HK. }
  assert (NoDup ((fun m => normalize_spot_market_key (pbm_spot_market m)) <$> load_book_meta t)) as Hnd.
  { unfold load_book_meta. rewrite <- list_fmap_compose. rewrite (list_fmap_ext _ fst); [apply NoDup_fst_map_to_list|].
    intros n [k row] Hi%list_elem_of_lookup_2%elem_of_map_to_list. simpl. by eapply Hk. }
  destruct (import_metas b1 (load_book_meta t) Hnd) as [_ M].
  assert (forall k row, t_book_meta t !! k = Some row ->
    head_at (foldl import_level (foldl import_meta b1 (load_book_meta t)) levels) k = Some (book_head b k, true)) as HS.
  { intros k row E. apply import_levels_head. rewrite <- (row_head_back _ _ _ _ Hh HM E).
    assert (row_of (k, row) ∈ load_book_meta t) as Hin by (apply (list_elem_of_fmap_2 row_of); by apply elem_of_map_to_list).
    specialize (M _ Hin). unfold row_of in M. cbn [pbm_spot_market pbm_sequence pbm_last_trade_price fst snd] in M.
    by rewrite (Hk _ _ E) in M. }
  assert (forall key, book_head (foldl import_level (foldl import_meta b1 (load_book_meta t)) levels) key = book_head b key) as HB.
  { intros key. destruct (t_book_meta t !! key) as [row|] eqn:E.
    - rewrite book_head_at, (HS _ _ E). by destruct (book_head b key).
    - rewrite import_levels_book_head, book_head_at, import_metas_other.
      + simpl. destruct (Hh key) as (_ & _ & H3). pose proof (mm_none _ _ HM _ E) as H0. specialize (H3 H0).
        destruct (book_head b key). simpl in *. by subst.
      + intros m ([k row] & -> & Hp%elem_of_map_to_list)%list_elem_of_fmap. simpl in *. rewrite (Hk _ _ Hp).
        intros ->. congruence. }
  split; [done|]. split.
  - intros key row E. rewrite HB. split; [|by apply (mm_row _ _ HM)].
    pose proof (HS _ _ E) as H. unfold head_at in H. by destruct (shards _ !! key).
  - intros key E. rewrite HB. by apply (mm_none _ _ HM).
Qed.

(** ** Loading the markets *)

(** Part of a catalogue: what [load_markets] has put back so far. *)
Definition part_of (c s : Markets) : Prop := forall i m, m_markets c !! i = Some m -> m_markets s !! i = Some m.

Lemma part_upsert_ok c s m :
  markets_inv c -> markets_inv s -> part_of c s -> m_markets s !! MarketOps.id m = Some m -> m_markets c !! MarketOps.id m = None ->
  market_op_ok c (MUpsert m) /\ upsert_target c m = m.
Proof.
  intros [_ Sc] [V Ss] Hp Hs Hc. assert (normal_venues m) as Hn by by eapply vo_normal. split; [split_and!|].
  - intros e He. congruence.
  - intros Hspot. pose proof (vo_spot s V _ _ Hs Hspot) as E. rewrite E. f_equal. unfold normal_venues in Hn.
    destruct (set_venues_props (normalize_spot_market_key (MarketOps.yes_spot_market m))
      (normalize_spot_market_key (MarketOps.no_spot_market m)) m) as (_ & _ & _ & H3).
    rewrite Hn in H3. rewrite H3 by (by rewrite Hspot). by rewrite normalize_idemp.
  - intros i Hi. destruct (proj1 (Sc _ _) Hi) as (Hne & x & Hx & Ex).
    assert (m_slug s !! MarketOps.slug m = Some i) as H1 by (apply Ss; split; [done|]; exists x; split; [by apply Hp|done]).
    assert (m_slug s !! MarketOps.slug m = Some (MarketOps.id m)) as H2 by (apply Ss; split; [done|]; by exists m). congruence.
  - unfold upsert_target, merged. by rewrite Hc.
Qed.

(** The upsert of [e] does not take [x] for an orphan shell at one of its legs. *)
Definition safe_from (e : Market) (x : Market) : Prop :=
  MarketOps.category x = CSpot -> MarketOps.category e = CEvent ->
  MarketOps.id x <> market_uuid (normalize_spot_market_key (MarketOps.yes_spot_market e)) /\
  MarketOps.id x <> market_uuid (normalize_spot_market_key (MarketOps.no_spot_market e)).

(** An upsert under a fresh id: the market comes in, spot shells may go. *)
Lemma upsert_fresh_markets c m :
  markets_inv c -> market_op_ok c (MUpsert m) -> m_markets c !! MarketOps.id m = None -> upsert_target c m = m ->
  (forall i x, m_markets (upsert_market c m None).1 !! i = Some x -> i = MarketOps.id m /\ x = m \/ m_markets c !! i = Some x) /\
  (forall i x, i = MarketOps.id m /\ x = m \/ m_markets c !! i = Some x -> safe_from m x ->
    m_markets (upsert_market c m None).1 !! i = Some x).
Proof.
  intros Hi Hok Hc Ht. pose proof (upsert_stored_venues c m Hi Hok) as V. pose proof (upsert_stored_slugs c m Hi Hok) as Sl.
  assert (m_markets (upsert_stored c m) = <[MarketOps.id m := m]> (m_markets c)) as Es.
  { unfold upsert_stored. simpl. rewrite Ht. unfold upsert_slugged. by case_decide. }
  assert (forall i x, m_markets (upsert_stored c m) !! i = Some x <-> i = MarketOps.id m /\ x = m \/ m_markets c !! i = Some x) as Hst.
  { intros i x. rewrite Es, lookup_insert_Some. destruct (decide (MarketOps.id m = i)) as [<-|]; naive_solver. }
  unfold upsert_market. fold (merged c m). fold (upsert_slugged c m). fold (upsert_target c m). fold (upsert_stored c m).
  destruct (MarketOps.category (upsert_target c m)) eqn:Ec; simpl; try (by split; [intros i x ?%Hst|intros i x ?%Hst]).
  unfold safe_from. rewrite Ht in *. assert (merged c m = m) as -> by (unfold merged; by rewrite Hc).
  unfold bind_event_spot_legs. cbn [foldl].
  set (y := normalize_spot_market_key _). set (n := normalize_spot_market_key _).
  destruct (bind_leg_venues (MarketOps.id m) (upsert_stored c m) None (y, "yes"%string) m) as [V1 _]; try done;
    [by apply Hst; left|apply normalize_idemp|by left|].
  pose proof (fun i x => bind_leg_keeps (MarketOps.id m) (upsert_stored c m) None (y, "yes"%string) i x V) as K1.
  destruct (bind_leg _ _ (y, _)) as [s1 w1]. simpl in *.
  pose proof (fun i x => bind_leg_keeps (MarketOps.id m) s1 w1 (n, "no"%string) i x V1) as K2. split; intros i x.
  - intros [[H _]%K1 _]%K2. by apply Hst.
  - intros H%Hst Hx. pose proof (vo_id _ V _ _ H) as Ei. apply K2. rewrite K1. subst i.
    split; [split; [done|]|]; intros [E Hsp]; by destruct (Hx Hsp Ec).
Qed.

Lemma upsert_trades s m ws : m_last_trade (upsert_market s m ws).1 = m_last_trade s.
Proof.
  unfold upsert_market. fold (merged s m). fold (upsert_slugged s m). fold (upsert_target s m). fold (upsert_stored s m).
  assert (m_last_trade (upsert_stored s m) = m_last_trade s) as <- by (unfold upsert_stored, upsert_slugged; by case_decide).
  destruct (MarketOps.category (upsert_target s m)); [done| |done]. unfold bind_event_spot_legs. cbn [foldl].
  rewrite (surjective_pairing (bind_leg _ (upsert_stored s m, _) _)), leg_trades. apply leg_trades.
Qed.

Lemma load_upserts_spec s l c :
  markets_inv s -> markets_inv c -> part_of c s ->
  (forall m, m ∈ l -> m_markets s !! MarketOps.id m = Some m /\ m_markets c !! MarketOps.id m = None) ->
  NoDup (MarketOps.id <$> l) ->
  markets_inv (load_upserts c l) /\ part_of (load_upserts c l) s /\ m_last_trade (load_upserts c l) = m_last_trade c /\
  forall i m, m_markets c !! i = Some m \/ m ∈ l /\ MarketOps.id m = i -> (forall e, e ∈ l -> safe_from e m) ->
    m_markets (load_upserts c l) !! i = Some m.
Proof.
  intros Is. unfold load_upserts. revert c. induction l as [|m l IH]; intros c Ic Hp Hl Hnd; [set_solver|].
  destruct (Hl m) as [Hs Hc]; [set_solver|]. csimpl in Hnd. apply NoDup_cons in Hnd as [Hnin Hnd].
  destruct (part_upsert_ok c s m Ic Is Hp Hs Hc) as [Hok Ht]. destruct (upsert_fresh_markets c m Ic Hok Hc Ht) as [U1 U2].
  destruct (upsert_good c m Ic Hok) as [G _]. cbn [foldl].
  destruct (IH (upsert_market c m None).1) as (I' & P' & T' & K').
  - apply G.
  - intros i x [[-> ->]|H]%U1; [done|by apply Hp].
  - intros x Hx. destruct (Hl x) as [H1 H2]; [set_solver|]. split; [done|].
    destruct (m_markets (upsert_market c m None).1 !! MarketOps.id x) as [z|] eqn:E; [|done]. apply U1 in E as [[E _]|E]; [|congruence].
    exfalso. apply Hnin. rewrite <- E. by apply list_elem_of_fmap_2.
  - done.
  - split; [done|]. split; [done|]. split.
    + etransitivity; [apply T'|]. apply upsert_trades.
    + intros i x H Hx. apply K'; [|intros e He; apply Hx; set_solver]. setoid_rewrite elem_of_cons in H.
      assert (safe_from m x) as Hm by (apply Hx; set_solver).
      destruct H as [H|[[->|H] <-]]; [left; apply U2; [by right|done]|left; apply U2; [by left|done]|by right].
Qed.

(** No stored spot shell is a leg of a stored event. *)
Definition shells_apart (t : IndexStateTables) : Prop := forall e m, e ∈ load_markets t -> m ∈ load_markets t -> safe_from e m.

Lemma markets_load s t :
  markets_inv s -> mirrors_markets (t_markets t) s -> tables_keys t ->
  let c := load_upserts Markets_new (load_markets t) in
  markets_inv c /\ part_of c s /\ m_last_trade c = ∅ /\
  (forall i m, m_markets s !! i = Some m -> MarketOps.category m <> CSpot -> m_markets c !! i = Some m) /\
  (shells_apart t -> mirrors_markets (t_markets t) c).
Proof.
  intros Is [M1 M2] HK c.
  assert (forall m, m ∈ load_markets t <-> t_markets t !! uuid_to_string (MarketOps.id m) = Some m) as Hin.
  { intros m. unfold load_markets. rewrite list_elem_of_fmap. split.
    - intros ([k x] & -> & H%elem_of_map_to_list). simpl. by rewrite <- (tk_markets t HK _ _ H).
    - intros H. exists (uuid_to_string (MarketOps.id m), m). split; [done|]. by apply elem_of_map_to_list. }
  destruct (load_upserts_spec s (load_markets t) Markets_new Is) as (I' & P' & T' & K').
  - apply markets_reach_inv, mreach_new.
  - intros i m. simpl. by rewrite lookup_empty.
  - intros m Hm%Hin. split; [by apply M1|apply lookup_empty].
  - apply (NoDup_fmap_1 uuid_to_string). unfold load_markets. rewrite <- !list_fmap_compose.
    rewrite (list_fmap_ext _ fst); [apply NoDup_fst_map_to_list|]. intros i [k m] Hi%list_elem_of_lookup_2.
    apply elem_of_map_to_list, (tk_markets t HK) in Hi. by rewrite Hi.
  - assert (forall i m, m_markets s !! i = Some m -> MarketOps.category m <> CSpot -> m_markets c !! i = Some m) as H4.
    { intros i m Hm Hc. pose proof (vo_id s (proj1 Is) _ _ Hm) as Hi. apply K'; [|by intros e _ ?]. right. split; [|done].
      apply Hin. rewrite Hi. by apply M2. }
    split_and!; try done. intros HA. split; intros i m H; [|intros Hc; by apply M2; [apply P'|]].
    pose proof (vo_id s (proj1 Is) _ _ (M1 _ _ H)) as Hi. assert (m ∈ load_markets t) as Hm by (apply Hin; by rewrite Hi).
    apply K'; [by right|]. intros e He. by apply HA.
Qed.

(** ** Loading prices and vaults *)

Lemma load_prices_trades c l :
  m_last_trade (load_prices c l) = foldl (fun m p => <[normalize_spot_market_key p.1 := p.2]> m) (m_last_trade c) l.
Proof. unfold load_prices. revert c. induction l as [|p l IH]; intros c; cbn [foldl]; [done|]. by rewrite IH. Qed.

Lemma load_prices_same c l :
  m_markets (load_prices c l) = m_markets c /\ m_spot (load_prices c l) = m_spot c /\ m_slug (load_prices c l) = m_slug c.
Proof. unfold load_prices. revert c. induction l as [|p l IH]; intros c; cbn [foldl]; [done|]. apply (IH (record_last_trade_price c p.1 p.2 None).1). Qed.

Lemma prices_load s t c :
  prices_ok s -> mirrors_prices (t_last_trades t) s -> m_last_trade c = ∅ ->
  m_last_trade (load_prices c (load_last_trades t)) = m_last_trade s.
Proof.
  intros HP HM Hc. rewrite load_prices_trades, Hc. apply map_eq. intros k. apply option_eq. intros p.
  assert (forall a, a ∈ load_last_trades t <-> m_last_trade s !! a.1 = Some a.2) as Hin.
  { intros [a q]. unfold load_last_trades. rewrite list_elem_of_fmap. split.
    - intros ([x v] & [= -> ->] & Hv%elem_of_map_to_list). rewrite HM in Hv. simpl.
      destruct (m_last_trade s !! x) as [z|] eqn:E; [|done]. injection Hv as <-. rewrite as_u64_as_i64; [done|]. by eapply HP.
    - simpl. intros E. exists (a, as_i64 q). split; [simpl; rewrite as_u64_as_i64; [done|by eapply HP]|].
      apply elem_of_map_to_list. by rewrite HM, E. }
  rewrite fold_insert_Some.
  - rewrite lookup_empty. split; [intros [(a & Ha%Hin & <- & <-)|[? _]]; [|done]|].
    + by destruct (HP _ _ Ha) as [-> _].
    + intros E. left. exists (k, p). split; [by apply Hin|]. split; [|done]. simpl. by destruct (HP _ _ E) as [-> _].
  - intros a b Ha%Hin Hb%Hin. destruct (HP _ _ Ha) as [-> _], (HP _ _ Hb) as [-> _]. congruence.
Qed.

Lemma load_vault_list_map c l :
  v_vaults (load_vault_list c l) = foldl (fun m v => <[vlt_id v := v]> m) (v_vaults c) l.
Proof. unfold load_vault_list. revert c. induction l as [|v l IH]; intros c; cbn [foldl]; [done|]. by rewrite IH. Qed.

Lemma load_vault_list_holding c l i k : holding_at (load_vault_list c l) i k = holding_at c i k.
Proof. unfold load_vault_list. revert c. induction l as [|v l IH]; intros c; cbn [foldl]; [done|]. by rewrite IH, upsert_holding. Qed.

Lemma import_row_vaults s r : v_vaults (import_portfolio_row s r) = v_vaults s.
Proof. unfold import_portfolio_row. destruct (uuid_parse _); [|done]. by case_decide. Qed.

Lemma import_portfolio_vaults s l : v_vaults (import_vault_portfolio_for_persist s l) = v_vaults s.
Proof.
  unfold import_vault_portfolio_for_persist. change (v_vaults s) with (v_vaults (with_holdings (fun _ => ∅) s)).
  generalize (with_holdings (fun _ => ∅) s). intros c. revert c. induction l as [|r l IH]; intros c; cbn [foldl]; [done|].
  by rewrite IH, import_row_vaults.
Qed.

Lemma vaults_load s t :
  vaults_wf s -> t_vaults t = vault_table s -> v_vaults (load_vault_list Vaults_new (load_vaults t)) = clear_portfolio <$> v_vaults s.
Proof.
  intros [W _] Ht. rewrite load_vault_list_map. apply map_eq. intros i. apply option_eq. intros v.
  assert (forall x, x ∈ load_vaults t <-> (clear_portfolio <$> v_vaults s) !! vlt_id x = Some x) as Hin.
  { intros x. unfold load_vaults. rewrite list_elem_of_fmap, Ht. unfold vault_table. split.
    - intros ([k y] & -> & H%elem_of_map_to_list). rewrite lookup_kmap_Some in H by apply uuid_to_string_inj. destruct H as (j & -> & H).
      pose proof H as (y0 & <- & Hy)%lookup_fmap_Some. cbn [snd]. change (vlt_id (clear_portfolio y0)) with (vlt_id y0).
      by rewrite (W _ _ Hy).
    - intros H. exists (uuid_to_string (vlt_id x), x). split; [done|]. apply elem_of_map_to_list. rewrite lookup_kmap_Some by apply uuid_to_string_inj.
      by exists (vlt_id x). }
  rewrite fold_insert_Some.
  - cbn [Vaults_new v_vaults]. rewrite lookup_empty. split; [intros [(x & Hx%Hin & <- & <-)|[? _]]; done|]. intros E. left. exists v.
    pose proof E as (v0 & E0 & Hv)%lookup_fmap_Some. assert (vlt_id v = i) as Hid by (rewrite <- E0; exact (W _ _ Hv)).
    split_and!; try done. apply Hin. by rewrite Hid.
  - intros a b Ha%Hin Hb%Hin. congruence.
Qed.

(** ** Loading the index *)

(** Sizes the tables can hold: what is beyond [i64::MAX] is deleted from them. *)
Record fits (i : Index) : Prop := {
  ft_orders : sizes_u64 (ix_orders i);
  ft_levels k side p s : level_at (ix_books i) k side p = Some s -> s <= i64_max;
  ft_holdings v k a : holding_at (ix_vaults i) v k = Some a -> a <= i64_max
}.

(** Nothing indexed, whatever the queues and the hub hold. *)
Record blank (i : Index) : Prop := {
  bl_markets : ix_markets i = Markets_new;
  bl_orders : orders_wf (ix_orders i) /\ o_orders (ix_orders i) = ∅;
  bl_vaults : ix_vaults i = Vaults_new
}.

Lemma index_new_blank persist : blank (Index_new persist).
Proof. split; [done|split; [apply orders_new_wf|done]|done]. Qed.

(** The live state of two indexes agrees; spot shells are registered again when
    a block needs them, and portfolios are rendered from the holdings. *)
Record same_live (i i' : Index) : Prop := {
  sl_levels k side p : level_at (ix_books i') k side p = level_at (ix_books i) k side p;
  sl_heads key : book_head (ix_books i') key = book_head (ix_books i) key;
  sl_orders : o_orders (ix_orders i') = o_orders (ix_orders i);
  sl_by_id : o_by_id (ix_orders i') = o_by_id (ix_orders i);
  sl_by_user user : default ∅ (o_by_user (ix_orders i') !! user) = default ∅ (o_by_user (ix_orders i) !! user);
  sl_part : part_of (ix_markets i') (ix_markets i);
  sl_markets j m : m_markets (ix_markets i) !! j = Some m -> MarketOps.category m <> CSpot -> m_markets (ix_markets i') !! j = Some m;
  sl_prices : m_last_trade (ix_markets i') = m_last_trade (ix_markets i);
  sl_vaults : v_vaults (ix_vaults i') = clear_portfolio <$> v_vaults (ix_vaults i);
  sl_holdings v k : holding_at (ix_vaults i') v k = holding_at (ix_vaults i) v k
}.

Definition snapshot_in (i0 : Index) (t : IndexStateTables) : Index :=
  apply_snapshot_to_memory i0 (load_markets t) (load_orders t) (load_last_trades t) (load_book_levels t) (load_book_meta t)
    (load_vaults t) (load_vault_portfolio t).

Lemma load_same i t i0 is_event :
  index_inv is_event i -> persisted t i -> fits i -> blank i0 -> same_live i (snapshot_in i0 t).
Proof.
  intros Hi Hp Hf [Hm [Wo Ho] Hv]. destruct Hi, Hp. unfold snapshot_in, apply_snapshot_to_memory.
  destruct (orders_load (ix_orders i) t (ix_orders i0) iv_orders (ft_orders i Hf) ps_orders Wo Ho) as [W' E'].
  destruct (orders_wf_determined _ _ W' iv_orders E') as [E1 E2].
  destruct (markets_load (ix_markets i) t iv_markets ps_markets ps_keys) as (_ & P & T & K & _).
  destruct (load_prices_same (load_upserts Markets_new (load_markets t)) (load_last_trades t)) as (Em & _ & _).
  split; cbn [set_vaults set_books set_markets set_orders ix_books ix_markets ix_orders ix_vaults]; rewrite ?Hm, ?Hv; try done.
  - by apply books_load, ft_levels.
  - by apply heads_load.
  - unfold part_of. by rewrite Em.
  - by rewrite Em.
  - by apply prices_load.
  - rewrite import_portfolio_vaults. by apply vaults_load.
  - apply holdings_load; try done; [by apply ft_holdings|]. intros v k a. by apply tk_holdings.
Qed.

Lemma same_live_inv is_event i i' :
  index_inv is_event i -> same_live i i' -> book_wf (ix_books i') -> keys_normal (ix_books i') -> orders_wf (ix_orders i') -> markets_inv (ix_markets i') ->
  index_inv is_event i'.
Proof.
  intros [] [] Hb Hk Ho Hm. split; try done.
  - intros key. rewrite sl_heads0. apply iv_heads.
  - intros k st. unfold abs. rewrite sl_orders0, sl_by_id0. apply iv_uuids.
  - intros j m Hj%sl_part0. by apply iv_roles.
  - intros k p. rewrite sl_prices0. apply iv_prices.
  - destruct iv_vaults as [W1 W2]. split.
    + intros j v. rewrite sl_vaults0. intros (v0 & <- & Hj)%lookup_fmap_Some. exact (W1 _ _ Hj).
    + intros j k a. rewrite sl_holdings0. apply W2.
Qed.

Lemma same_live_persisted t i i' :
  persisted t i -> same_live i i' -> mirrors_meta (t_book_meta t) (ix_books i') -> mirrors_markets (t_markets t) (ix_markets i') ->
  persisted t i'.
Proof.
  intros [] [] Hb Hm. split; try done.
  - intros k side p Hp. rewrite sl_levels0. by apply ps_levels.
  - unfold table_of. rewrite sl_orders0. exact ps_orders.
  - intros k. rewrite sl_prices0. apply ps_prices.
  - unfold vault_table. rewrite sl_vaults0, <- map_fmap_compose. exact ps_vaults.
  - intros v k. rewrite sl_holdings0. apply ps_holdings.
Qed.

Lemma load_inv i t i0 is_event :
  index_inv is_event i -> persisted t i -> fits i -> blank i0 ->
  index_inv is_event (snapshot_in i0 t) /\ (shells_apart t -> persisted t (snapshot_in i0 t)).
Proof.
  intros Hi Hp Hf Hbl. pose proof (load_same i t i0 is_event Hi Hp Hf Hbl) as HS.
  destruct (markets_load (ix_markets i) t) as (Im & _ & _ & _ & Mm); [apply Hi|apply Hp|apply Hp|].
  destruct (load_prices_same (load_upserts Markets_new (load_markets t)) (load_last_trades t)) as (Em & Es & El).
  assert (ix_markets (snapshot_in i0 t) = load_prices (load_upserts Markets_new (load_markets t)) (load_last_trades t)) as E.
  { unfold snapshot_in, apply_snapshot_to_memory. simpl. by rewrite (bl_markets i0 Hbl). }
  split.
  - apply (same_live_inv is_event i); [done|done| |apply import_keys_normal| |].
    + apply import_wf. apply Forall_forall. intros x Hx. apply (loaded_levels (ix_books i)) in Hx as (k & side & p & s & Hs & ->);
        [|apply Hi|apply Hp|apply Hp|apply (ft_levels i Hf)]. destruct (iv_books _ i Hi) as [_ W]. destruct (W _ _ _ _ Hs). simpl.
      split; [done|]. unfold is_u64. lia.
    + apply (orders_load (ix_orders i)); [apply Hi|apply Hf|apply Hp|apply Hbl|apply Hbl].
    + rewrite E. destruct Im as [V Sl]. split; [by apply (venues_other (load_upserts Markets_new (load_markets t)))|].
      unfold slugs_ok. by rewrite Em, El.
  - intros HA. apply (same_live_persisted t i); [done|done|by apply (heads_load (ix_books i)); [apply Hi|apply Hi|apply Hp]|]. rewrite E. by apply (mirrors_other _ (load_upserts Markets_new (load_markets t))), Mm.
Qed.

(** ** Writing the whole index *)

Lemma exported_levels b x :
  book_wf b -> x ∈ (export_for_persist b).1 <-> exists k side p s, level_at b k side p = Some s /\ x = level_row k side p s.
Proof.
  intros [Hn _]. rewrite export_all. cbn [fst]. rewrite list_elem_of_bind. setoid_rewrite list_elem_of_fmap. unfold level_at. split.
  - intros (sh & Hx & ([k sh'] & -> & Hk%elem_of_map_to_list)). apply export_shard_elem in Hx as (side & p & s & Hs & ->). simpl in *.
    exists k, side, p, s. rewrite Hk. split; [exact Hs|]. unfold level_row. by rewrite (Hn _ _ Hk).
  - intros (k & side & p & s & Hs & ->). destruct (shards b !! k) as [sh|] eqn:Hk; [|done]. simpl in Hs. exists sh. split.
    + apply export_shard_elem. exists side, p, s. split; [done|]. unfold level_row. by rewrite (Hn _ _ Hk).
    + exists (k, sh). split; [done|]. by apply elem_of_map_to_list.
Qed.

Lemma delta_over_empty {K V} `{Countable K} (m : gmap K V) : delta_apply (m, ∅) ∅ = m.
Proof. apply map_eq. intros k. rewrite delta_apply_lookup. simpl. destruct (m !! k); [done|]. by rewrite lookup_empty; case_decide. Qed.

(** The rows of a map written one by one under injective keys. *)
Lemma insert_all_kmap {A K K' V} `{Countable K} `{Countable K'} (f : K -> K') (key : A -> K') (val : A -> V) (g : gmap K A) :
  Inj (=) (=) f -> (forall k a, g !! k = Some a -> key a = f k) ->
  insert_all key val (map_to_list g).*2 = kmap f (val <$> g).
Proof.
  intros Hf Hk. apply map_eq. intros k'. apply option_eq. intros v.
  assert (forall a, a ∈ (map_to_list g).*2 <-> exists k, g !! k = Some a) as Hin.
  { intros a. rewrite list_elem_of_fmap. split.
    - intros ([k x] & -> & H2%elem_of_map_to_list). by exists k.
    - intros (k & H2). exists (k, a). split; [done|]. by apply elem_of_map_to_list. }
  rewrite insert_all_Some; [rewrite lookup_kmap_Some by done; split|].
  - intros (a & (k & Ha)%Hin & <- & <-). exists k. split; [by apply Hk|]. by rewrite lookup_fmap, Ha.
  - intros (k & -> & (a & <- & Ha)%lookup_fmap_Some). exists a. split; [apply Hin; by exists k|]. split; [by apply Hk|done].
  - intros a b (k1 & H1)%Hin (k2 & H2)%Hin E. rewrite (Hk _ _ H1), (Hk _ _ H2) in E. apply Hf in E as ->. congruence.
Qed.

Lemma full_levels b :
  book_wf b -> keys_normal b -> (forall k side p s, level_at b k side p = Some s -> s <= i64_max) ->
  let m := insert_all (fun l => (normalize_spot_market_key (pbl_spot_market l), pbl_side l, as_i64 (pbl_price_raw l)))
             (fun l => as_i64 (pbl_size_raw l)) (filter (fun l => pbl_size_raw l <> 0) (export_for_persist b).1) in
  forall k d p v, m !! (k, d, p) = Some v <->
    exists side q, level_at b k side q = Some v /\ d = side_str side /\ p = as_i64 q.
Proof.
  intros W HK Hfit m k d p v. destruct W as [Hn W].
  assert (forall k side q s, level_at b k side q = Some s -> normalize_spot_market_key k = k /\ is_u64 q /\ 0 < s <= i64_max) as HL.
  { intros k' side q s E. destruct (W _ _ _ _ E). pose proof (Hfit _ _ _ _ E). split; [|split; [done|lia]].
    unfold level_at in E. destruct (shards b !! k') eqn:Esh; [|done]. by eapply HK. }
  assert (forall x, x ∈ filter (fun l => pbl_size_raw l <> 0) (export_for_persist b).1 <->
    exists k side q s, level_at b k side q = Some s /\ x = level_row k side q s) as Hin.
  { intros x. rewrite list_elem_of_filter, exported_levels by done. split; [by intros [_ ?]|].
    intros (k' & side & q & s & E & ->). split; [|by exists k', side, q, s]. apply HL in E. simpl. lia. }
  unfold m. rewrite insert_all_Some.
  - split.
    + intros (x & (k' & side & q & s & E & ->)%Hin & Ek & <-). simpl in *. destruct (HL _ _ _ _ E) as (Hk & Hq & Hs).
      rewrite Hk in Ek. injection Ek as -> <- <-. exists side, q. rewrite as_i64_id by (unfold is_i64, i64_min; lia). done.
    + intros (side & q & E & -> & ->). destruct (HL _ _ _ _ E) as (Hk & Hq & Hs). exists (level_row k side q v).
      split; [apply Hin; by exists k, side, q, v|]. simpl. rewrite Hk. split; [done|]. apply as_i64_id. unfold is_i64, i64_min. lia.
  - intros x y (k1 & s1 & q1 & z1 & E1 & ->)%Hin (k2 & s2 & q2 & z2 & E2 & ->)%Hin. simpl.
    destruct (HL _ _ _ _ E1) as (-> & Hq1 & _), (HL _ _ _ _ E2) as (-> & Hq2 & _).
    intros (-> & -> & ->)%level_key_inj; [congruence|done|done].
Qed.

Lemma exported_holdings s r :
  r ∈ export_vault_portfolio_for_persist s <->
  exists v k a, holding_at s v k = Some a /\ a <> 0 /\ r = {| pvp_vault_id := uuid_to_string v; pvp_spot_market := k; pvp_amount_raw := a |}.
Proof.
  unfold export_vault_portfolio_for_persist, holding_at. rewrite list_elem_of_bind. setoid_rewrite list_elem_of_fmap. split.
  - intros ([v h] & ([k a] & -> & [Ha Hk%elem_of_map_to_list]%list_elem_of_filter) & Hv%elem_of_map_to_list). simpl in *.
    exists v, k, a. by rewrite Hv.
  - intros (v & k & a & E & Ha & ->). destruct (v_portfolio s !! v) as [h|] eqn:Ev; simpl in E; [|by rewrite lookup_empty in E].
    exists (v, h). split; [|by apply elem_of_map_to_list]. exists (k, a). split; [done|]. apply list_elem_of_filter.
    split; [done|]. by apply elem_of_map_to_list.
Qed.

Lemma full_holdings s :
  vaults_wf s -> (forall v k a, holding_at s v k = Some a -> a <= i64_max) ->
  let m := insert_all (fun r => (pvp_vault_id r, normalize_spot_market_key (pvp_spot_market r))) (fun r => as_i64 (pvp_amount_raw r))
             (filter (fun r => pvp_amount_raw r <> 0) (export_vault_portfolio_for_persist s)) in
  forall i k a, m !! (i, k) = Some a <-> exists v, i = uuid_to_string v /\ holding_at s v k = Some a.
Proof.
  intros [_ W] Hfit m i k a.
  assert (forall v k a, holding_at s v k = Some a -> normalize_spot_market_key k = k /\ 0 < a <= i64_max) as HL.
  { intros v k' a' E. destruct (W _ _ _ E). pose proof (Hfit _ _ _ E). split; [done|lia]. }
  assert (forall r, r ∈ filter (fun r => pvp_amount_raw r <> 0) (export_vault_portfolio_for_persist s) <->
    exists v k a, holding_at s v k = Some a /\ r = {| pvp_vault_id := uuid_to_string v; pvp_spot_market := k; pvp_amount_raw := a |}) as Hin.
  { intros r. rewrite list_elem_of_filter, exported_holdings. split; [by intros [_ (v & k' & a' & E & _ & ->)]; exists v, k', a'|].
    intros (v & k' & a' & E & ->). pose proof (HL _ _ _ E). simpl. split; [lia|]. exists v, k', a'. split_and!; [done|lia|done]. }
  unfold m. rewrite insert_all_Some.
  - split.
    + intros (r & (v & k' & a' & E & ->)%Hin & Ek & <-). simpl in *. destruct (HL _ _ _ E) as [Hk Ha]. rewrite Hk in Ek.
      injection Ek as <- ->. exists v. rewrite as_i64_id by (unfold is_i64, i64_min; lia). done.
    + intros (v & -> & E). destruct (HL _ _ _ E) as [Hk Ha]. eexists. split; [apply Hin; by eexists v, k, a|]. simpl. rewrite Hk.
      split; [done|]. apply as_i64_id. unfold is_i64, i64_min. lia.
  - intros x y (v1 & k1 & a1 & E1 & ->)%Hin (v2 & k2 & a2 & E2 & ->)%Hin. simpl.
    destruct (HL _ _ _ E1) as [-> _], (HL _ _ _ E2) as [-> _]. intros [= ->%uuid_to_string_inj ->]. congruence.
Qed.

Lemma export_orders_all o : export_orders_for_persist o = stored_to_persist_row <$> (map_to_list (o_orders o)).*2.
Proof. unfold export_orders_for_persist, export_orders_for_persist_spots. by rewrite filter_all by by apply Forall_true. Qed.
Lemma export_last_trades_all m : export_last_trades_for_persist m = map_to_list (m_last_trade m).
Proof. unfold export_last_trades_for_persist, export_last_trades_for_persist_spots. by rewrite filter_all by by apply Forall_true. Qed.

Lemma full_orders o :
  orders_wf o ->
  insert_all (fun row => uuid_to_string (ord_id (por_order row)))
    (fun row => order_row_from_parts (por_order row) (por_user_address row) (por_chain_order_id row) (por_spot_market row)
                  (por_size_raw row) (por_filled_raw row)) (export_orders_for_persist o) = table_of o.
Proof.
  intros W. rewrite export_orders_all. unfold table_of, insert_all. rewrite foldl_fmap.
  apply (insert_all_kmap uuid_to_string (fun st => uuid_to_string (ord_id (so_order st))) stored_row (o_orders o)).
  - intros u v. apply uuid_to_string_inj.
  - intros u st H. by destruct (ow_orders o W _ _ H) as (-> & _).
Qed.

Lemma full_prices s :
  prices_ok s ->
  mirrors_prices (insert_all (fun p => normalize_spot_market_key p.1) (fun p => as_i64 p.2) (export_last_trades_for_persist s)) s.
Proof.
  intros HP k. apply option_eq. intros v. rewrite export_last_trades_all.
  assert (forall p, p ∈ map_to_list (m_last_trade s) -> normalize_spot_market_key p.1 = p.1 /\ m_last_trade s !! p.1 = Some p.2) as Hin.
  { intros [k' p] H%elem_of_map_to_list. split; [by eapply HP|done]. }
  rewrite insert_all_Some; [rewrite fmap_Some; split|].
  - intros (p & [Hn Hp]%Hin & <- & <-). rewrite Hn. by exists p.2.
  - intros (p & Hp & ->). exists (k, p). split; [by apply elem_of_map_to_list|]. simpl. by destruct (HP _ _ Hp) as [-> _].
  - intros [k1 p1] [k2 p2] [H1 E1]%Hin [H2 E2]%Hin E. simpl in *. congruence.
Qed.

Lemma full_markets s :
  markets_inv s ->
  insert_all (fun m => uuid_to_string (MarketOps.id m)) (fun m => m) (export_markets_for_persist s) = kmap uuid_to_string (m_markets s).
Proof.
  intros [V _]. unfold export_markets_for_persist. rewrite (insert_all_kmap uuid_to_string); [by rewrite map_fmap_id| |].
  - intros u v. apply uuid_to_string_inj.
  - intros u m H. by rewrite (vo_id _ V _ _ H).
Qed.

(** The rows of all shards, under their keys. *)
Lemma full_meta b :
  book_wf b -> keys_normal b ->
  mirrors_meta (insert_all (fun m => normalize_spot_market_key (pbm_spot_market m))
    (fun m => {| bm_sequence := as_i64 (pbm_sequence m); bm_last_trade_price := as_i64 <$> pbm_last_trade_price m |}) (export_for_persist b).2) b.
Proof.
  intros [Hn _] HK. rewrite export_all. cbn [snd]. unfold insert_all. rewrite foldl_fmap.
  set (m := foldl _ ∅ _).
  assert (m = (fun sh => meta_row (sequence (ms_book sh), last_trade_price (ms_book sh))) <$> shards b) as ->.
  { set (g := _ <$> shards b). assert (g = kmap id g) as ->.
    { apply map_eq. intros k. symmetry. exact (lookup_kmap id g k). }
    unfold m, g. apply (insert_all_kmap id (fun sh => normalize_spot_market_key (ms_spot_market sh))); [intros x y; done|].
    intros k sh E. simpl. rewrite (Hn _ _ E). by eapply HK. }
  split; intros key.
  - intros row. rewrite lookup_fmap. unfold book_head. destruct (shards b !! key); simpl; [|done]. intros [= <-]. by split; [eexists|].
  - rewrite lookup_fmap. unfold book_head. by destruct (shards b !! key).
Qed.

(** A full write makes any tables agree with the index, whatever they held. *)
Lemma full_write t i n digest is_event :
  index_inv is_event i -> fits i -> persisted (apply_index_write_set t (full_index_write i n digest)) i.
Proof.
  intros [] [F1 F2 F3]. unfold full_index_write. pose proof (full_levels (ix_books i) iv_books iv_keys F2) as HL.
  pose proof (full_meta (ix_books i) iv_books iv_keys) as HT.
  destruct (export_for_persist (ix_books i)) as [levels metas]. rewrite replace_batch by done.
  pose proof (full_holdings (ix_vaults i) iv_vaults F3) as HH. simpl in HL, HH.
  split; simpl; rewrite ?delta_over_empty, ?full_markets by done.
  - intros k side p Hp. apply option_eq. intros v. rewrite HL. split.
    + intros (side' & q & E & Es%side_str_inj & Ep). subst side'. destruct (iv_books) as [_ W]. destruct (W _ _ _ _ E) as [Hq Hv].
      apply as_i64_inj in Ep as ->; [|done|done]. rewrite E. apply persistable_exact. pose proof (F2 _ _ _ _ E). lia.
    + destruct (level_at (ix_books i) k side p) as [s|] eqn:E; [|done]. simpl. destruct (iv_books) as [_ W]. destruct (W _ _ _ _ E).
      pose proof (F2 _ _ _ _ E). rewrite persistable_exact by lia. intros [= ->]. by exists side, p.
  - exact HT.
  - by apply full_orders.
  - split; intros j m.
    + intros H. rewrite lookup_kmap in H by (intros u v; apply uuid_to_string_inj). done.
    + intros H _. rewrite lookup_kmap by (intros u v; apply uuid_to_string_inj). done.
  - by apply full_prices.
  - unfold export_vaults_for_persist, vault_table. apply insert_all_kmap; [intros u v; apply uuid_to_string_inj|].
    intros u v H. by rewrite (vw_id _ iv_vaults _ _ H).
  - intros v k. apply option_eq. intros a. rewrite HH. split.
    + intros (v' & ->%uuid_to_string_inj & E). rewrite E. apply persistable_exact. destruct (vw_holding _ iv_vaults _ _ _ E).
      pose proof (F3 _ _ _ E). lia.
    + destruct (holding_at (ix_vaults i) v k) as [b|] eqn:E; [|done]. simpl. destruct (vw_holding _ iv_vaults _ _ _ E).
      pose proof (F3 _ _ _ E). rewrite persistable_exact by lia. intros [= ->]. by exists v.
  - split; simpl; rewrite ?delta_over_empty, ?full_markets by done.
    + intros k d p v (side & q & E & -> & ->)%HL. destruct (iv_books) as [_ W]. destruct (W _ _ _ _ E). split; [|by exists side, q].
      unfold level_at in E. destruct (shards (ix_books i) !! k) eqn:Esh; [|done]. by eapply iv_keys.
    + intros k m H. rewrite lookup_kmap_Some in H by (intros u v; apply uuid_to_string_inj). destruct H as (u & -> & H).
      by rewrite (vo_id _ (proj1 iv_markets) _ _ H).
    + intros v k a (u & -> & _)%HH. by exists u.
Qed.

Definition position_is (t : IndexStateTables) (n : Z) (digest : string) : Prop :=
  read_meta t = Ok (Some {| pm_block_num := n; pm_digest := digest |}).

Lemma full_position t i n digest : is_u64 n -> position_is (apply_index_write_set t (full_index_write i n digest)) n digest.
Proof.
  intros Hn. unfold position_is. rewrite meta_after_apply; unfold full_index_write; destruct (export_for_persist _); [done|exact Hn].
Qed.

(** C4: a restart loses nothing the tables hold: from tables that agree with the
    index, loading into a blank index succeeds with the stored position and
    gives an index with the same levels, live orders and order indexes, event
    markets, prices, vaults and holdings, which satisfies every invariant and,
    unless a stored spot shell is a leg of a stored event, agrees with the
    tables again. *)
Theorem restart_lossless is_event i t i0 meta :
  index_inv is_event i -> persisted t i -> fits i -> blank i0 -> read_meta t = Ok meta ->
  exists i', load_into t i0 = Ok (i', meta) /\ same_live i i' /\ index_inv is_event i' /\ (shells_apart t -> persisted t i').
Proof.
  intros Hi Hp Hf Hb Hm. exists (snapshot_in i0 t). unfold load_into. rewrite Hm. split; [done|].
  split; [by eapply load_same|]. by apply (load_inv i).
Qed.

End Facts.

Section Stored.
Context {SD : Sdk} {L : SdkLaws} {NC : NoCollision} {J : Json} {K : BlockCodec}.

(** An epoch checkpoint leaves complete tables: whenever it reports a block
    as written, the write it has asked for, if any, leaves tables that agree with
    the whole index and are at that block; it asks for none only when the stored
    position is already the head's. *)
Theorem checkpoint_complete is_event head i skip_if idle n digest actions now d :
  index_inv is_event i -> fits i -> is_u64 (hd_block_num head) ->
  (position_is (dk_index d) (hd_block_num head) (hd_digest head) -> persisted (dk_index d) i) ->
  checkpoint_once head i skip_if idle (read_meta (dk_index d)) = Ok (Written n digest, actions) ->
  let d' := foldl (on_disk now) d actions in
  n = hd_block_num head /\ digest = hd_digest head /\ persisted (dk_index d') i /\ position_is (dk_index d') n digest /\
  dk_blocks d' = dk_blocks d.
Proof.
  intros Hi Hf Hn Hq. unfold checkpoint_once.
  set (full := [AIndexWrite (full_index_write i (hd_block_num head) (hd_digest head))]).
  assert (let d' := foldl (on_disk now) d full in
    persisted (dk_index d') i /\ position_is (dk_index d') (hd_block_num head) (hd_digest head) /\ dk_blocks d' = dk_blocks d) as HF.
  { simpl. split; [by eapply full_write|]. split; [by apply full_position|done]. }
  case_decide; [done|]. destruct (match skip_if with Some _ => _ | None => _ end); [done|].
  destruct idle; [|by intros [= <- <- <-]]. simpl. destruct (read_meta (dk_index d)) as [[m|]|e] eqn:Em; simpl; [| |done].
  - case_decide as Hm; intros [= <- <- <-]; [|done]. simpl. assert (position_is (dk_index d) (hd_block_num head) (hd_digest head)) as Hp.
    { unfold position_is. rewrite Em. destruct m. simpl in Hm. by destruct Hm as [-> ->]. }
    split_and!; try done. by apply Hq.
  - by intros [= <- <- <-].
Qed.

End Stored.

(** ** Catching up *)

Section Catchup.
Context {SD : Sdk} {L : SdkLaws} {NC : NoCollision} {B : Bincode} {C : Chain} {CU : ChainU64} {PC : PaperChain}.
Context {J : Json} {K : BlockCodec}.
Context (is_event : string -> Prop) (clock : ReceiptBlock -> ProcessEnv).

Definition State : Type := Index * Registry.
Definition replayed (st : State) (blocks : list ReceiptBlock) : State := foldl (replay_block clock) st blocks.

(** Every block is acceptable in the state it meets. *)
Fixpoint blocks_ok (st : State) (blocks : list ReceiptBlock) : Prop :=
  match blocks with
  | [] => True
  | b :: blocks => received_ok is_event (ix_orders st.1) b /\ blocks_ok (replay_block clock st b) blocks
  end.

(** Some tables agree with the index: what a block is asked to start from. *)
Definition sound (i : Index) : Prop := index_inv is_event i /\ exists t, persisted t i.

(** The write sets of replayed blocks, which [replay_block] drops. *)
Fixpoint dropped_writes (st : State) (blocks : list ReceiptBlock) : list IndexWriteSet :=
  match blocks with
  | [] => []
  | b :: blocks => (process_block (quiet (clock b)) st.1 st.2 b).2 :: dropped_writes (replay_block clock st b) blocks
  end.

(** Committed, they would have kept the tables with the index. *)
Lemma replayed_written t st blocks :
  index_inv is_event st.1 -> persisted t st.1 -> blocks_ok st blocks ->
  index_inv is_event (replayed st blocks).1 /\ persisted (foldl apply_index_write_set t (dropped_writes st blocks)) (replayed st blocks).1.
Proof.
  revert t st. induction blocks as [|b blocks IH]; intros t st Hi Hp; [done|]. intros [Hr%received_prepared Hok].
  destruct (prepared_commit is_event (quiet (clock b)) st.1 st.2 t _ Hi Hp Hr) as (Hi' & Hp' & _). by apply IH.
Qed.

Lemma replayed_sound st blocks : sound st.1 -> blocks_ok st blocks -> sound (replayed st blocks).1.
Proof. intros [Hi [t Hp]] Hok. destruct (replayed_written t st blocks Hi Hp Hok) as [Hi' Hp']. split; [exact Hi'|]. by eexists. Qed.

(** Live blocks that have not been applied, each digest once. *)
Fixpoint fresh_blocks (applied : gset string) (live : list ReceiptBlock) : list ReceiptBlock :=
  match live with
  | [] => []
  | b :: live =>
      if decide (rb_digest b ∈ applied) then fresh_blocks applied live
      else b :: fresh_blocks ({[rb_digest b]} ∪ applied) live
  end.

Lemma fresh_once applied live :
  NoDup (rb_digest <$> fresh_blocks applied live) /\ Forall (fun b => rb_digest b ∉ applied) (fresh_blocks applied live) /\
  fresh_blocks applied live `sublist_of` live /\
  (forall b, b ∈ live -> rb_digest b ∈ applied \/ exists b', b' ∈ fresh_blocks applied live /\ rb_digest b' = rb_digest b).
Proof.
  revert applied. induction live as [|b live IH]; intros applied; csimpl.
  { split_and!; [constructor|constructor|constructor|]. by intros b ?%not_elem_of_nil. }
  case_decide as Hb; [destruct (IH applied) as (H1 & H2 & H3 & H4)|destruct (IH ({[rb_digest b]} ∪ applied)) as (H1 & H2 & H3 & H4)].
  - split_and!; [done|done|by constructor|]. intros x [->|Hx]%elem_of_cons; [by left|by apply H4].
  - rewrite Forall_forall in H2. csimpl. split_and!.
    + apply NoDup_cons. split; [|done]. intros (x & E & Hx)%list_elem_of_fmap. apply (H2 x Hx). set_solver.
    + constructor; [done|]. apply Forall_forall. intros x Hx. pose proof (H2 x Hx). set_solver.
    + by constructor.
    + intros x [->|Hx]%elem_of_cons; [right; exists b; set_solver|]. destruct (H4 x Hx) as [Ha|(x' & Hx' & E)].
      * apply elem_of_union in Ha as [Ha%elem_of_singleton|Ha]; [right; exists b; set_solver|by left].
      * right. exists x'. set_solver.
Qed.

Definition decoded (pb : PeerBlock) (b : ReceiptBlock) : Prop := decode_block_payload pb.1.1 pb.2 = Ok b.
Definition peer_position (pb : PeerBlock) : PersistMeta := {| pm_block_num := pb.1.1; pm_digest := pb.1.2 |}.
Definition block_position (b : ReceiptBlock) : PersistMeta := {| pm_block_num := rb_block_num b; pm_digest := rb_digest b |}.
Definition save_action (pb : PeerBlock) : PersistAction := ASaveBlock pb.1.1 pb.1.2 pb.2.

Lemma peer_blocks_fold pbs bs c :
  Forall2 decoded pbs bs ->
  exists c', fold_ok (peer_block clock) c pbs = Ok c' /\
    (cu_index c', cu_wait c') = replayed (cu_index c, cu_wait c) bs /\ cu_actions c' = cu_actions c ++ (save_action <$> pbs) /\
    cu_tip c' = default (cu_tip c) (last (peer_position <$> pbs)) /\ cu_applied c' = cu_applied c /\ cu_head c' = cu_head c.
Proof.
  intros H. revert c. induction H as [|[[n digest] payload] b pbs bs Hd _ IH]; intros c.
  { exists c. by rewrite app_nil_r. }
  cbn [fold_ok]. unfold decoded in Hd. cbn [fst snd] in Hd.
  destruct (peer_block clock c (n, digest, payload)) as [c1|e] eqn:Ec; unfold peer_block in Ec; rewrite Hd in Ec; [|done].
  cbn -[replay_block] in Ec. injection Ec as <-.
  edestruct IH as (c' & E & E1 & E2 & E3 & E4 & E5). exists c'. split; [exact E|]. cbn -[replay_block last] in *.
  rewrite <- surjective_pairing in E1. split_and!; try done.
  - by rewrite E2, <- app_assoc.
  - rewrite E3. rewrite last_cons. by destruct (last (peer_position <$> pbs)).
Qed.

Lemma live_blocks_fold now live c :
  let fresh := fresh_blocks (cu_applied c) live in
  let c' := foldl (live_block clock now) c live in
  (cu_index c', cu_wait c') = replayed (cu_index c, cu_wait c) fresh /\ cu_actions c' = cu_actions c ++ (AEnqueueBlock <$> fresh) /\
  cu_tip c' = default (cu_tip c) (last (block_position <$> fresh)).
Proof.
  revert c. induction live as [|b live IH]; intros c; [by cbn; rewrite app_nil_r|]. cbn [foldl fresh_blocks].
  destruct (IH (live_block clock now c b)) as (E1 & E2 & E3). rewrite E1, E2, E3. clear E1 E2 E3 IH. unfold live_block.
  destruct (decide (rb_digest b ∈ cu_applied c)); [done|]. cbn -[replay_block last]. rewrite last_cons, <- app_assoc.
  split_and!; [by destruct (replay_block clock _ b)|done|]. by destruct (last (block_position <$> _)).
Qed.

Lemma clear_all_blank i : blank (clear_all i).
Proof. split; simpl; [done| |done]. split; [|done]. split; simpl; intros *; rewrite ?lookup_empty; [done|done|set_solver]. Qed.

Lemma same_live_fits i i' : same_live i i' -> fits i -> fits i'.
Proof.
  intros [] [F1 F2 F3]. split; [by unfold sizes_u64; rewrite sl_orders0|intros *; rewrite sl_levels0; apply F2|].
  intros *. rewrite sl_holdings0. apply F3.
Qed.

(** A peer's checkpoint, taken over. *)
Lemma snapshot_taken peer_i peer_t snapshot i :
  index_inv is_event peer_i -> persisted peer_t peer_i -> fits peer_i -> export_checkpoint_snapshot peer_t = Ok (Some snapshot) ->
  same_live peer_i (apply_snapshot i snapshot) /\ sound (apply_snapshot i snapshot).
Proof.
  intros Hi Hp Hf He. assert (apply_snapshot i snapshot = snapshot_in (clear_all i) peer_t) as ->.
  { unfold export_checkpoint_snapshot in He. destruct (read_meta peer_t) as [[m|]|]; simpl in He; [|done|done]. by injection He as <-. }
  pose proof (clear_all_blank i) as Hb. pose proof (load_same _ _ _ _ Hi Hp Hf Hb) as HS. split; [exact HS|].
  destruct (load_inv _ _ _ _ Hi Hp Hf Hb) as [Hi' _]. split; [exact Hi'|]. eexists.
  apply (full_write tables_empty _ 0 "" is_event Hi'). by eapply same_live_fits.
Qed.

(** The last position taken: of the snapshot, a peer's block or a live block. *)
Definition catchup_tip (snapshot : CheckpointSnapshot) (pbs : list PeerBlock) (fresh : list ReceiptBlock) : PersistMeta :=
  default {| pm_block_num := cs_block_num snapshot; pm_digest := cs_digest snapshot |}
    (last ((peer_position <$> pbs) ++ (block_position <$> fresh))).

(** What [apply_catchup] does with a complete download. *)
Lemma catchup_applied peer_i peer_t snapshot now d i wait head pbs bs live :
  index_inv is_event peer_i -> persisted peer_t peer_i -> fits peer_i -> export_checkpoint_snapshot peer_t = Ok (Some snapshot) ->
  Forall2 decoded pbs bs ->
  let fresh := fresh_blocks ({[cs_digest snapshot]} ∪ digest_set_from_blocks pbs) live in
  let st := (apply_snapshot i snapshot, wait) in
  let r := replayed st (bs ++ fresh) in
  let tip := catchup_tip snapshot pbs fresh in
  blocks_ok st (bs ++ fresh) -> fits r.1 -> is_u64 (pm_block_num tip) ->
  same_live peer_i st.1 /\
  exists head' actions,
    apply_catchup clock now i wait head snapshot pbs live = Ok (r.1, r.2, head', actions) /\
    hd_catching_up head' = false /\ (hd_block_num head', hd_digest head') = (pm_block_num tip, pm_digest tip) /\
    let t' := dk_index (foldl (on_disk now) d actions) in persisted t' r.1 /\ read_meta t' = Ok (Some tip).
Proof.
  intros Hi Hp Hf He Hd fresh st r tip Hok Hfr Hn. destruct (snapshot_taken peer_i peer_t snapshot i Hi Hp Hf He) as [HS Hs].
  split; [exact HS|]. assert (sound r.1) as [Hr _] by by apply replayed_sound.
  unfold apply_catchup. set (c0 := {| cu_index := apply_snapshot i snapshot |}).
  destruct (peer_blocks_fold pbs bs c0 Hd) as (c1 & -> & E1 & _ & T1 & A1 & _).
  destruct (live_blocks_fold now live c1) as (E2 & _ & T2). rewrite A1 in E2, T2.
  change (fresh_blocks (cu_applied c0) live) with fresh in E2, T2.
  set (c2 := foldl (live_block clock now) c1 live) in *.
  assert ((cu_index c2, cu_wait c2) = r) as Er by (rewrite E2, E1; unfold r, replayed; by rewrite foldl_app).
  assert (cu_tip c2 = tip) as Et.
  { rewrite T2, T1. unfold tip, catchup_tip. rewrite last_app. by destruct (last (block_position <$> fresh)). }
  eexists _, _. cbn -[foldl]. fold c2. rewrite <- Er. split; [reflexivity|]. rewrite Et. split; [done|]. split; [done|].
  rewrite foldl_app. cbn [foldl on_disk dk_index]. rewrite <- Er in Hr, Hfr. split; [by eapply full_write|].
  etransitivity; [exact (full_position _ _ _ _ Hn)|]. by destruct tip.
Qed.

(** Catching up from a peer takes its whole state over: with the peer's
    checkpoint, its blocks and the live blocks buffered meanwhile, the node
    starts from exactly the peer's live state, applies the peer's blocks in
    order and then the buffered blocks whose digest is new, each once and in
    order, ends with the head at the last of them and catching-up cleared, and
    leaves tables that hold the whole index at that position. *)
Theorem catchup_complete peer_i peer_t snapshot now d i wait head pbs bs live :
  index_inv is_event peer_i -> persisted peer_t peer_i -> fits peer_i -> export_checkpoint_snapshot peer_t = Ok (Some snapshot) ->
  Forall2 decoded pbs bs ->
  let fresh := fresh_blocks ({[cs_digest snapshot]} ∪ digest_set_from_blocks pbs) live in
  let st := (apply_snapshot i snapshot, wait) in
  let r := replayed st (bs ++ fresh) in
  let tip := catchup_tip snapshot pbs fresh in
  blocks_ok st (bs ++ fresh) -> fits r.1 -> is_u64 (pm_block_num tip) ->
  same_live peer_i st.1 /\
  exists head' actions,
    apply_catchup clock now i wait head snapshot pbs live = Ok (r.1, r.2, head', actions) /\
    hd_catching_up head' = false /\ (hd_block_num head', hd_digest head') = (pm_block_num tip, pm_digest tip) /\
    let t' := dk_index (foldl (on_disk now) d actions) in persisted t' r.1 /\ read_meta t' = Ok (Some tip).
Proof. apply catchup_applied. Qed.

(** ** Replaying the block log *)

(** What [recover_from_persist] loads before it replays. *)
Definition restored (d : Disk) (i0 : Index) : Index :=
  let i := snapshot_in i0 (dk_index d) in
  if p_persist (ix_paper i)
  then set_paper (hydrate_paper_house_history_from_persist (house_rows_on_disk (dk_state d)) (ix_paper i)) i else i.

Lemma restored_sound i d i0 :
  index_inv is_event i -> persisted (dk_index d) i -> fits i -> blank i0 -> shells_apart (dk_index d) ->
  index_inv is_event (restored d i0) /\ persisted (dk_index d) (restored d i0).
Proof.
  intros Hi Hp Hf Hb Hs. destruct (load_inv i _ i0 is_event Hi Hp Hf Hb) as [HI HP]. specialize (HP Hs).
  unfold restored. destruct (p_persist _); [|done]. destruct HI, HP. by split; split.
Qed.

Lemma replay_log_replayed st head pbs bs :
  Forall2 decoded pbs bs -> replay_log clock st head pbs = (replayed st bs, Ok (match last (peer_position <$> pbs) with Some p => Some p | None => head end)).
Proof.
  intros H. revert st head. induction H as [|[[n digest] payload] b pbs bs Hd _ IH]; intros st head; [done|].
  cbn [replay_log]. unfold decoded in Hd. cbn [fst snd] in Hd. rewrite Hd. csimpl. rewrite IH, last_cons.
  by destruct (last (peer_position <$> pbs)).
Qed.

Lemma recover_replays d i0 wait meta bs :
  read_meta (dk_index d) = Ok meta -> Forall2 decoded (load_blocks_after (dk_blocks d) (pm_block_num <$> meta) None) bs ->
  exists head, recover_from_persist clock d i0 wait = (replayed (restored d i0, wait) bs, Ok head).
Proof. intros Hm Hd. eexists. unfold recover_from_persist, load_into. rewrite Hm. by apply replay_log_replayed. Qed.

Lemma load_blocks_none (s : BlockStore) n :
  (forall k row, s !! k = Some row -> k <= as_i64 n) -> load_blocks_after s (Some n) None = [].
Proof.
  intros H. unfold load_blocks_after.
  assert (filter (fun p : Z * BlockRow => as_i64 n < p.1) (map_to_list s) = []) as ->; [|done].
  apply filter_none, Forall_forall. intros [k row] Hin%elem_of_map_to_list Hk. specialize (H _ _ Hin). simpl in Hk. lia.
Qed.

(** The write set neither stores nor deletes the order's row. *)
Definition leaves_order (ws : IndexWriteSet) (k : string) : Prop :=
  to_store (ws_orders ws) !! k = None /\ k ∉ to_delete (ws_orders ws).

(** C35: what a replay of the block log adds to the index never reaches the
    tables.  From tables that agree with an index, recovery leaves the index
    with every logged block applied; the write sets those blocks made would
    have kept the tables with it, but they are dropped.  The next block, any
    block, then commits its own position over the old tables: every order that
    the replay changed and this block does not write stays in the tables as it
    was before the replay, while the index holds the replayed state; and the
    next start loads those tables at that position and replays nothing. *)
Theorem replay_not_persisted i d i0 wait meta bs env next k i0' wait' :
  index_inv is_event i -> persisted (dk_index d) i -> fits i -> blank i0 -> shells_apart (dk_index d) ->
  read_meta (dk_index d) = Ok meta ->
  Forall2 decoded (load_blocks_after (dk_blocks d) (pm_block_num <$> meta) None) bs ->
  let st0 := (restored d i0, wait) in
  let st := replayed st0 bs in
  blocks_ok st0 bs -> received_ok is_event (ix_orders st.1) next ->
  (forall n row, dk_blocks d !! n = Some row -> n <= as_i64 (rb_block_num next)) ->
  let r := process_block env st.1 st.2 next in
  let d' := {| dk_blocks := dk_blocks d; dk_state := dk_state d; dk_index := apply_index_write_set (dk_index d) r.2 |} in
  table_of (ix_orders st.1) !! k <> t_orders (dk_index d) !! k -> leaves_order r.2 k ->
  (exists head, recover_from_persist clock d i0 wait = (st, Ok head)) /\
  persisted (foldl apply_index_write_set (dk_index d) (dropped_writes st0 bs)) st.1 /\
  position_is (dk_index d') (rb_block_num next) (rb_digest next) /\
  t_orders (dk_index d') !! k = t_orders (dk_index d) !! k /\
  table_of (ix_orders r.1.1) !! k = table_of (ix_orders st.1) !! k /\
  recover_from_persist clock d' i0' wait' = ((restored d' i0', wait'), Ok (Some (block_position next))).
Proof.
  intros Hi Hp Hf Hb Hs Hm Hd st0 st Hok Hn Hlog r d' Hk [Hl1 Hl2].
  destruct (restored_sound i d i0 Hi Hp Hf Hb Hs) as [Hi0 Hp0].
  destruct (replayed_written (dk_index d) st0 bs Hi0 Hp0 Hok) as [Hi1 Hp1].
  pose proof (received_prepared is_event _ _ Hn) as Hpn.
  destruct (prepared_commit is_event env st.1 st.2 _ _ Hi1 Hp1 Hpn) as (_ & Hp2 & _ & Hinc).
  assert (forall t, t_orders (apply_index_write_set t r.2) !! k = t_orders t !! k) as Hrow.
  { intros t. unfold apply_index_write_set. rewrite incremental_batch by exact Hinc. simpl.
    rewrite delta_apply_lookup, Hl1. by rewrite decide_False. }
  assert (position_is (dk_index d') (rb_block_num next) (rb_digest next)) as Hpos.
  { unfold position_is. destruct (prepared_good is_event env st.1 st.2 _ _ Hi1 Hp1 Hpn) as (w & E & _).
    destruct (prepared_position (ix_orders st.1) next) as [E1 E2]. rewrite E1, E2 in E. simpl. unfold r, process_block. rewrite E.
    apply (meta_after_apply _ (set_block _ _ w)). apply Hn. }
  split; [by apply (recover_replays d i0 wait meta bs)|]. split; [exact Hp1|]. split; [exact Hpos|]. split; [apply Hrow|]. split.
  - fold r in Hp2. transitivity (t_orders (apply_index_write_set (foldl apply_index_write_set (dk_index d) (dropped_writes st0 bs)) r.2) !! k).
    { f_equal. symmetry. exact (ps_orders _ _ Hp2). }
    rewrite Hrow. f_equal. exact (ps_orders _ _ Hp1).
  - unfold recover_from_persist, load_into. unfold position_is in Hpos. rewrite Hpos. cbn -[load_blocks_after restored].
    rewrite load_blocks_none by done. done.
Qed.

End Catchup.

(** ** What replay and catch-up leave out *)

Section Gaps.
Context {SD : Sdk} {B : Bincode} {C : Chain} {PC : PaperChain} {J : Json} {K : BlockCodec}.

(** A block without transactions writes its position and nothing else. *)
Lemma empty_block_writes env i wait b :
  rb_transaction_outputs b = [] ->
  (process_block env i wait b).2 = set_block (rb_block_num b) (rb_digest b) (ws_default 0 "" false) /\
  ix_orders (process_block env i wait b).1.1 = set_indexing_block_timestamp (ix_orders i) (rb_timestamp b).
Proof.
  intros Hb. unfold process_block, prepare_block. rewrite Hb. unfold process_prepared_block. cbn [pb_block pb_markets pb_unmapped pb_block_num
    pb_block_digest foldl]. rewrite Hb, map_to_list_empty. done.
Qed.

Lemma empty_block_fits clock st b : rb_transaction_outputs b = [] -> fits st.1 -> fits (replay_block clock st b).1.
Proof.
  intros Hb [F1 F2 F3]. unfold replay_block. pose proof (empty_block_writes (quiet (clock b)) st.1 st.2 b Hb) as [_ Eo].
  assert (ix_books (process_block (quiet (clock b)) st.1 st.2 b).1.1 = ix_books st.1 /\
          ix_vaults (process_block (quiet (clock b)) st.1 st.2 b).1.1 = ix_vaults st.1) as [Eb Ev].
  { unfold process_block, prepare_block. rewrite Hb. unfold process_prepared_block. cbn [pb_block pb_markets pb_unmapped pb_block_num
      pb_block_digest foldl]. rewrite Hb, map_to_list_empty. done. }
  split; [by rewrite Eo|intros *; rewrite Eb; apply F2|intros *; rewrite Ev; apply F3].
Qed.

(** C38: catch-up tells blocks apart by digest only: a buffered live block that
    is older than the peer's checkpoint, and so already part of it, is applied
    again on top of it and takes the head back to its own number. *)
Theorem catchup_reapplies_old_block clock now i wait head snapshot b :
  rb_block_num b < cs_block_num snapshot -> rb_digest b <> cs_digest snapshot ->
  let again := replay_block clock (apply_snapshot i snapshot, wait) b in
  exists head' actions,
    apply_catchup clock now i wait head snapshot [] [b] = Ok (again.1, again.2, head', actions) /\
    hd_block_num head' = rb_block_num b /\ hd_block_num head' < cs_block_num snapshot.
Proof.
  intros Hn Hd again. unfold apply_catchup. cbn -[replay_block on_disk]. unfold live_block. cbn [cu_applied].
  rewrite decide_False by set_solver. eexists _, _. cbn -[replay_block]. by fold again.
Qed.

End Gaps.

(** ** Witnesses: an index with a bid and a last price *)

Definition demo_op : BookOp := OpCreated "c7" Buy 5 9 1.
Definition demo_stage (t : IndexStateTables) (i : Index) : Index * option IndexWriteSet :=
  let st := record_last_trade_price (S := DemoSdk) (ix_markets i) "c7" 5 (Some (ws_default 4 "d4" false)) in
  let i := set_markets st.1 i in
  let st := book_step (SD := DemoSdk) false (ix_books i, st.2) demo_op in (set_books st.1 i, st.2).
Definition demo_index : Index := (demo_stage tables_empty (Index_new false)).1.
Definition demo_tables : IndexStateTables :=
  apply_index_write_set tables_empty (default (ws_default 4 "d4" false) (demo_stage tables_empty (Index_new false)).2).

Lemma demo_stage_good : good (SD := DemoSdk) demo_is_event tables_empty (demo_stage tables_empty (Index_new false)).
Proof.
  unfold demo_stage. apply (good_book_op (SD := DemoSdk)); [|split; vm_compute; split; congruence|exact I].
  apply (good_price (SD := DemoSdk)); [|vm_compute; split; congruence]. apply (good_start (SD := DemoSdk)); [apply new_persisted|apply index_new_inv].
Qed.

Lemma demo_index_inv : index_inv (SD := DemoSdk) demo_is_event demo_index /\ persisted (SD := DemoSdk) demo_tables demo_index.
Proof.
  destruct demo_stage_good as (w & E & _ & Hf & Hp & Hi). split; [exact Hi|]. unfold demo_tables. rewrite E. simpl.
  unfold apply_index_write_set. by rewrite incremental_batch.
Qed.

Lemma demo_level k side p s : level_at (ix_books demo_index) k side p = Some s -> s = 9.
Proof.
  unfold demo_index, demo_stage. cbn [fst set_books ix_books]. rewrite (step_levels (SD := DemoSdk)). unfold level_after.
  change (op_effect demo_op) with (Some (Buy, 5, 9, true)). cbv iota beta.
  assert (level_at (ix_books (Index_new false)) k side p = None) as E by (unfold level_at; simpl; by rewrite lookup_empty).
  cbn [set_markets ix_books]. case_decide; rewrite E; [|done]. vm_compute. congruence.
Qed.

Lemma demo_index_fits : fits demo_index.
Proof.
  split.
  - intros u st. simpl. by rewrite lookup_empty.
  - intros k side p s ->%demo_level. vm_compute. congruence.
  - intros v k a. unfold holding_at. simpl. by rewrite !lookup_empty.
Qed.

Lemma restart_lossless_witness :
  exists i', load_into (SD := DemoSdk) demo_tables (Index_new true) = Ok (i', Some {| pm_block_num := 4; pm_digest := "d4" |}) /\
    level_at (ix_books i') "c7" Buy 5 = Some 9 /\ book_head (ix_books i') "c7" = (1, None) /\
    m_last_trade (ix_markets i') !! "c7"%string = Some 5.
Proof.
  destruct (restart_lossless (SD := DemoSdk) demo_is_event demo_index demo_tables (Index_new true) (Some {| pm_block_num := 4; pm_digest := "d4" |}))
    as (i' & E & [H1 H3 _ _ _ _ _ H2 _ _] & _); [apply demo_index_inv|apply demo_index_inv|apply demo_index_fits|apply index_new_blank|reflexivity|].
  exists i'. split; [exact E|]. split; [etransitivity; [apply H1|]; vm_compute; reflexivity|].
  split; [etransitivity; [apply H3|]; vm_compute; reflexivity|].
  etransitivity; [exact (f_equal (fun m => m !! "c7"%string) H2)|]. vm_compute. reflexivity.
Defined.

Definition demo_head : IndexedBlockHead :=
  {| hd_block_num := 9; hd_digest := "d9"; hd_tx_count := 0; hd_connected := true; hd_catching_up := false; hd_last_indexed_at_ms := 0 |}.
Definition demo_disk : Disk := {| dk_blocks := ∅; dk_state := StateStore_empty; dk_index := demo_tables |}.

Lemma checkpoint_complete_witness :
  position_is (dk_index (foldl (on_disk (SD := DemoSdk) (K := DemoCodec) 0) demo_disk
    [AIndexWrite (SD := DemoSdk) (full_index_write (SD := DemoSdk) demo_index 9 "d9")])) 9 "d9".
Proof.
  apply (checkpoint_complete (SD := DemoSdk) (K := DemoCodec) demo_is_event demo_head demo_index None true 9 "d9"
    [AIndexWrite (SD := DemoSdk) (full_index_write (SD := DemoSdk) demo_index 9 "d9")] 0 demo_disk).
  - apply demo_index_inv.
  - apply demo_index_fits.
  - vm_compute. split; congruence.
  - intros _. apply demo_index_inv.
  - reflexivity.
Defined.

Definition demo_snapshot : CheckpointSnapshot :=
  match export_checkpoint_snapshot (SD := DemoSdk) demo_tables with
  | Ok (Some s) => s
  | _ => Build_CheckpointSnapshot 0 "" [] [] [] [] [] [] []
  end.

Lemma demo_block_received store n : is_u64 n -> received_ok (SD := DemoSdk) demo_is_event store (demo_block n).
Proof. intros Hn. split; [exact Hn|]. split; [constructor|]. by intros e k x ?%not_elem_of_nil. Qed.

Lemma catchup_complete_witness :
  exists i wait head actions,
    apply_catchup (SD := DemoSdk) (C := DemoChain) (K := DemoCodec) (fun _ => demo_env) 0 (Index_new true) demo_no_waiters demo_head
      demo_snapshot [(6, "d6"%string, [x06])] [demo_block 7; demo_block 8] = Ok (i, wait, head, actions) /\
    hd_block_num head = 7 /\ position_is (dk_index (foldl (on_disk (SD := DemoSdk) (K := DemoCodec) 0) demo_disk actions)) 7 "d".
Proof.
  assert (fits (apply_snapshot (SD := DemoSdk) (Index_new true) demo_snapshot)) as Hf.
  { eapply same_live_fits; [|apply demo_index_fits].
    apply (snapshot_taken (SD := DemoSdk) (C := DemoChain) demo_is_event demo_index demo_tables demo_snapshot (Index_new true)
      (proj1 demo_index_inv) (proj2 demo_index_inv) demo_index_fits eq_refl). }
  edestruct (catchup_complete (SD := DemoSdk) (C := DemoChain) (K := DemoCodec) demo_is_event (fun _ => demo_env) demo_index demo_tables
    demo_snapshot 0 demo_disk (Index_new true) demo_no_waiters demo_head [(6, "d6"%string, [x06])] [demo_block 6] [demo_block 7; demo_block 8])
    as (_ & head & actions & E & _ & Eh & _ & Em).
  - apply demo_index_inv.
  - apply demo_index_inv.
  - apply demo_index_fits.
  - reflexivity.
  - constructor; [reflexivity|constructor].
  - split; [apply demo_block_received; vm_compute; split; congruence|].
    split; [apply demo_block_received; vm_compute; split; congruence|exact I].
  - apply empty_block_fits; [reflexivity|]. by apply empty_block_fits.
  - vm_compute. split; congruence.
  - eexists _, _, head, actions. split; [exact E|]. split; [exact (f_equal fst Eh)|exact Em].
Defined.

(** A log with the one block that created an order, over empty tables. *)
Definition demo_created_block : ReceiptBlock (SD := DemoSdk) :=
  Build_ReceiptBlock (SD := DemoSdk) 7 "d7" 1700000000
    [Build_TransactionResult (SD := DemoSdk) "t1" 2%N true
       (Build_TransactionReceipt (SD := DemoSdk) (demo_event <$> ["event_contract_created"; "order_created"]%string) true)].
#[local] Instance DemoLog : BlockCodec (H := DemoSdk).
Proof. refine (Build_BlockCodec DemoSdk (fun _ => Some [x07]) (fun _ => Some demo_created_block) (fun _ => None)). Defined.
Definition demo_created_disk : Disk :=
  {| dk_blocks := save_block 0 ∅ 7 "d7" [x07]; dk_state := StateStore_empty; dk_index := tables_empty |}.
Definition demo_clock : ReceiptBlock (SD := DemoSdk) -> ProcessEnv := fun _ => demo_env.
Lemma demo_created_received store : received_ok (SD := DemoSdk) demo_is_event store demo_created_block.
Proof.
  split; [vm_compute; split; congruence|]. split.
  - apply Forall_singleton. cbn [tr_receipt rc_events]. rewrite Forall_fmap. apply Forall_true. intros a. apply demo_block_event_ok.
  - intros e k x He. unfold block_events, demo_created_block in He. cbn [rb_transaction_outputs] in He. csimpl in He.
    repeat (apply elem_of_cons in He as [->|He]); [..|by apply not_elem_of_nil in He];
      unfold routed; cbn; intros [= <- <-]; (split; [vm_compute; congruence|]); split; vm_compute; split; congruence.
Qed.

(** The state recovery leaves, and the table key of the order it replayed. *)
Definition demo_replayed : Index * Registry (SD := DemoSdk) :=
  replayed (SD := DemoSdk) (C := DemoChain) demo_clock (restored (SD := DemoSdk) demo_created_disk (Index_new false), demo_no_waiters) [demo_created_block].
Definition demo_replayed_key : string := default ""%string (head (map_to_list (table_of (SD := DemoSdk) (ix_orders demo_replayed.1))).*1).

Lemma replay_not_persisted_witness :
  let r := process_block (SD := DemoSdk) (C := DemoChain) demo_env demo_replayed.1 demo_replayed.2 (demo_block 8) in
  t_orders (apply_index_write_set tables_empty r.2) !! demo_replayed_key = None /\
  table_of (SD := DemoSdk) (ix_orders r.1.1) !! demo_replayed_key = table_of (SD := DemoSdk) (ix_orders demo_replayed.1) !! demo_replayed_key.
Proof.
  destruct (replay_not_persisted (SD := DemoSdk) (C := DemoChain) (K := DemoLog) demo_is_event demo_clock (Index_new false) demo_created_disk
    (Index_new false) demo_no_waiters None [demo_created_block] demo_env (demo_block 8) demo_replayed_key (Index_new true) demo_no_waiters)
    as (_ & _ & _ & E1 & E2 & _).
  - apply index_new_inv.
  - apply new_persisted.
  - split; [intros u st; simpl; by rewrite lookup_empty|intros *|intros *]; [unfold level_at|unfold holding_at]; simpl; by rewrite !lookup_empty.
  - apply index_new_blank.
  - by intros e m ?%not_elem_of_nil.
  - reflexivity.
  - constructor; [reflexivity|constructor].
  - split; [apply demo_created_received|exact I].
  - apply demo_block_received. vm_compute. split; congruence.
  - intros n row H. cbn [dk_blocks demo_created_disk] in H. unfold save_block in H. apply lookup_insert_Some in H as [[<- _]|[_ H]]; [vm_compute; congruence|by rewrite lookup_empty in H].
  - intros H. apply (f_equal (from_option (fun _ => true) false)) in H. vm_compute in H. discriminate.
  - split; [vm_compute; reflexivity|]. vm_compute. set_solver.
  - split; [exact E1|exact E2].
Defined.

Lemma catchup_reapplies_old_block_witness :
  exists head actions,
    apply_catchup (SD := DemoSdk) (C := DemoChain) (K := DemoCodec) demo_clock 0 (Index_new false) demo_no_waiters demo_head demo_snapshot [] [demo_block 3] =
      Ok ((replay_block (SD := DemoSdk) (C := DemoChain) demo_clock (apply_snapshot (SD := DemoSdk) (Index_new false) demo_snapshot, demo_no_waiters) (demo_block 3)).1,
          (replay_block (SD := DemoSdk) (C := DemoChain) demo_clock (apply_snapshot (SD := DemoSdk) (Index_new false) demo_snapshot, demo_no_waiters) (demo_block 3)).2,
          head, actions) /\ hd_block_num head = 3 /\ 3 < cs_block_num demo_snapshot.
Proof.
  destruct (catchup_reapplies_old_block (SD := DemoSdk) (C := DemoChain) (K := DemoCodec) demo_clock 0 (Index_new false) demo_no_waiters demo_head
    demo_snapshot (demo_block 3)) as (head & actions & E & E1 & E2); [reflexivity|vm_compute; congruence|].
  exists head, actions. split; [exact E|]. split; [exact E1|]. by rewrite E1 in E2.
Defined.
