(* ===== verification/Pipeline.v ===== *)
(** * Pipeline: the live block pipeline of [indexer/pipeline.rs]

    Three tasks joined by two bounded channels: receive takes blocks from the
    subscription, decode saves each block and groups its order events, apply
    processes the prepared blocks and hands their write sets to the index
    writer.  One step is one task's turn between two waits, so the three run in
    any interleaving; a send waits while its channel is full, and its step is
    then not enabled.  What the tasks ask of the persistence handle is recorded
    in order.  A cancelled task finishes the block it holds and takes no other. *)
From S2P Require Import Prelude Text Errors Sdk Keys Domain WriteSet Tables Orders Paper Submit Events Peer Hydrate Processor.

Local Open Scope list_scope.
Local Open Scope Z_scope.

Definition PIPELINE_RAW_CAPACITY : nat := 64.
Definition PIPELINE_PREPARED_CAPACITY : nat := 64.
Definition QUIET_APPLY_BACKLOG : Z := 8.

Section Pipeline.
Context {SD : Sdk} {B : Bincode} {C : Chain} {PC : PaperChain}.

(** [lightpool_sdk::Message], as the subscription delivers it. *)
Inductive Message := NewBlock (block : ReceiptBlock) | MsgError (err : string) | MsgReceiptBlock | MsgClosed.

Inductive PersistRequest :=
| RqReceiptBlock (block : ReceiptBlock)
| RqModes (secondary_persist epoch_checkpoint : bool)
| RqIndexWrite (ws : IndexWriteSet).

(** The channels, what each task holds between two steps, the backlog counters,
    the shared index, registry and head, and the result of the receive task. *)
Record Pipeline := {
  pl_recv_hand : option ReceiptBlock;
  pl_recv_result : option (AppResult unit);
  pl_raw : list ReceiptBlock;
  pl_decode_hand : option ReceiptBlock;
  pl_decode_out : option PreparedBlock;
  pl_prepared : list PreparedBlock;
  pl_apply_out : option IndexWriteSet;
  pl_decode_backlog : Z;
  pl_apply_backlog : Z;
  pl_index : Index;
  pl_wait : Registry;
  pl_head : IndexedBlockHead;
  pl_requests : list PersistRequest;
  pl_cancelled : bool
}.

Definition pipeline_start (i : Index) (wait : Registry) (head : IndexedBlockHead) : Pipeline :=
  {| pl_recv_hand := None; pl_recv_result := None; pl_raw := []; pl_decode_hand := None; pl_decode_out := None; pl_prepared := [];
     pl_apply_out := None; pl_decode_backlog := 0; pl_apply_backlog := 0; pl_index := i; pl_wait := wait; pl_head := head;
     pl_requests := []; pl_cancelled := false |}.

(** ** Receive *)

Definition set_recv (hand : option ReceiptBlock) (result : option (AppResult unit)) (raw : list ReceiptBlock) (backlog : Z) (p : Pipeline) : Pipeline :=
  {| pl_recv_hand := hand; pl_recv_result := result; pl_raw := raw; pl_decode_hand := pl_decode_hand p; pl_decode_out := pl_decode_out p;
     pl_prepared := pl_prepared p; pl_apply_out := pl_apply_out p; pl_decode_backlog := backlog; pl_apply_backlog := pl_apply_backlog p;
     pl_index := pl_index p; pl_wait := pl_wait p; pl_head := pl_head p; pl_requests := pl_requests p; pl_cancelled := pl_cancelled p |}.

Definition receive (msg : Message) (p : Pipeline) : option Pipeline :=
  match pl_recv_hand p, pl_recv_result p with
  | None, None =>
      if pl_cancelled p then Some (set_recv None (Some (Ok tt)) (pl_raw p) (pl_decode_backlog p) p)
      else match msg with
           | NewBlock block => Some (set_recv (Some block) None (pl_raw p) (pl_decode_backlog p + 1) p)
           | MsgError err => Some (set_recv None (Some (Err (Internal ("ws error: " ++ err)))) (pl_raw p) (pl_decode_backlog p) p)
           | MsgReceiptBlock => Some p
           | MsgClosed => Some (set_recv None (Some (Ok tt)) (pl_raw p) (pl_decode_backlog p) p)
           end
  | _, _ => None
  end.

(** [raw_tx.send]. *)
Definition send_raw (p : Pipeline) : option Pipeline :=
  match pl_recv_hand p with
  | Some block =>
      if decide (length (pl_raw p) < PIPELINE_RAW_CAPACITY)%nat
      then Some (set_recv None None (pl_raw p ++ [block]) (pl_decode_backlog p) p) else None
  | None => None
  end.

(** ** Decode *)

Definition set_decode (raw : list ReceiptBlock) (hand : option ReceiptBlock) (out : option PreparedBlock) (prepared : list PreparedBlock)
    (decode_backlog apply_backlog : Z) (requests : list PersistRequest) (p : Pipeline) : Pipeline :=
  {| pl_recv_hand := pl_recv_hand p; pl_recv_result := pl_recv_result p; pl_raw := raw; pl_decode_hand := hand; pl_decode_out := out;
     pl_prepared := prepared; pl_apply_out := pl_apply_out p; pl_decode_backlog := decode_backlog; pl_apply_backlog := apply_backlog;
     pl_index := pl_index p; pl_wait := pl_wait p; pl_head := pl_head p; pl_requests := pl_requests p ++ requests;
     pl_cancelled := pl_cancelled p |}.

(** A raw block is taken and saved. *)
Definition decode_take (p : Pipeline) : option Pipeline :=
  match pl_decode_hand p, pl_decode_out p, pl_raw p with
  | None, None, block :: raw =>
      if pl_cancelled p then None
      else Some (set_decode raw (Some block) None (pl_prepared p) (pl_decode_backlog p - 1) (pl_apply_backlog p) [RqReceiptBlock block] p)
  | _, _, _ => None
  end.

(** It is prepared against the orders as they are now, which blocks still in
    the channel may be about to change. *)
Definition decode_prepare (p : Pipeline) : option Pipeline :=
  match pl_decode_hand p with
  | Some block =>
      Some (set_decode (pl_raw p) None (Some (prepare_block (ix_orders (pl_index p)) block)) (pl_prepared p) (pl_decode_backlog p)
              (pl_apply_backlog p + 1) [] p)
  | None => None
  end.

(** [prepared_tx.send]. *)
Definition send_prepared (p : Pipeline) : option Pipeline :=
  match pl_decode_out p with
  | Some prepared =>
      if decide (length (pl_prepared p) < PIPELINE_PREPARED_CAPACITY)%nat
      then Some (set_decode (pl_raw p) (pl_decode_hand p) None (pl_prepared p ++ [prepared]) (pl_decode_backlog p) (pl_apply_backlog p) [] p)
      else None
  | None => None
  end.

(** ** Apply *)

Definition is_quiet (catching_up : bool) (remaining : Z) : bool := catching_up || bool_decide (QUIET_APPLY_BACKLOG <= remaining).

(** One prepared block, start to end under the apply gate; [env] gives the
    query account and the clocks. *)
Definition apply_take (env : ProcessEnv) (p : Pipeline) : option Pipeline :=
  match pl_apply_out p, pl_prepared p with
  | None, prepared :: rest =>
      if pl_cancelled p then None
      else
        let remaining := sat_sub (pl_apply_backlog p) 1 in
        let catching_up := hd_catching_up (pl_head p) in
        let quiet := is_quiet catching_up remaining in
        let env := {| pe_query_account := pe_query_account env; pe_block_num := pb_block_num prepared; pe_publish_ws := negb quiet;
                      pe_now_ts := pe_now_ts env; pe_now_ms := pe_now_ms env |} in
        let '(i, wait, ws) := process_prepared_block env (pl_index p) (pl_wait p) prepared in
        Some {| pl_recv_hand := pl_recv_hand p; pl_recv_result := pl_recv_result p; pl_raw := pl_raw p; pl_decode_hand := pl_decode_hand p;
                pl_decode_out := pl_decode_out p; pl_prepared := rest; pl_apply_out := Some ws; pl_decode_backlog := pl_decode_backlog p;
                pl_apply_backlog := pl_apply_backlog p - 1; pl_index := i; pl_wait := wait;
                pl_head := {| hd_block_num := pb_block_num prepared; hd_digest := pb_block_digest prepared;
                              hd_tx_count := pb_tx_count prepared; hd_connected := hd_connected (pl_head p);
                              hd_catching_up := catching_up; hd_last_indexed_at_ms := pe_now_ms env |};
                pl_requests := pl_requests p ++ [RqModes (negb quiet) (negb catching_up)]; pl_cancelled := pl_cancelled p |}
  | _, _ => None
  end.

(** [enqueue_index_write]. *)
Definition apply_enqueue (p : Pipeline) : option Pipeline :=
  match pl_apply_out p with
  | Some ws =>
      Some {| pl_recv_hand := pl_recv_hand p; pl_recv_result := pl_recv_result p; pl_raw := pl_raw p; pl_decode_hand := pl_decode_hand p;
              pl_decode_out := pl_decode_out p; pl_prepared := pl_prepared p; pl_apply_out := None; pl_decode_backlog := pl_decode_backlog p;
              pl_apply_backlog := pl_apply_backlog p; pl_index := pl_index p; pl_wait := pl_wait p; pl_head := pl_head p;
              pl_requests := pl_requests p ++ [RqIndexWrite ws]; pl_cancelled := pl_cancelled p |}
  | None => None
  end.

(** ** The whole *)

Definition cancel_pipeline (p : Pipeline) : Pipeline :=
  {| pl_recv_hand := pl_recv_hand p; pl_recv_result := pl_recv_result p; pl_raw := pl_raw p; pl_decode_hand := pl_decode_hand p;
     pl_decode_out := pl_decode_out p; pl_prepared := pl_prepared p; pl_apply_out := pl_apply_out p;
     pl_decode_backlog := pl_decode_backlog p; pl_apply_backlog := pl_apply_backlog p; pl_index := pl_index p; pl_wait := pl_wait p;
     pl_head := pl_head p; pl_requests := pl_requests p; pl_cancelled := true |}.

Inductive PipelineEvent :=
| EvMessage (msg : Message)
| EvSendRaw
| EvDecodeTake
| EvDecodePrepare
| EvSendPrepared
| EvApply (env : ProcessEnv)
| EvEnqueue
| EvCancel.

Definition pipeline_step (e : PipelineEvent) (p : Pipeline) : option Pipeline :=
  match e with
  | EvMessage msg => receive msg p
  | EvSendRaw => send_raw p
  | EvDecodeTake => decode_take p
  | EvDecodePrepare => decode_prepare p
  | EvSendPrepared => send_prepared p
  | EvApply env => apply_take env p
  | EvEnqueue => apply_enqueue p
  | EvCancel => Some (cancel_pipeline p)
  end.

Fixpoint pipeline_events (es : list PipelineEvent) (p : Pipeline) : option Pipeline :=
  match es with [] => Some p | e :: es => p ← pipeline_step e p; pipeline_events es p end.

(** [run_live_pipeline] returns the result of the receive task once the three
    tasks are over: with nothing left to take, or cancelled and between blocks
    (what is still in the channels is then dropped). *)
Definition pipeline_result (p : Pipeline) : option (AppResult unit) :=
  if pl_cancelled p then
    match pl_decode_hand p, pl_apply_out p with
    | None, None => Some (default (Ok tt) (pl_recv_result p))
    | _, _ => None
    end
  else
    match pl_recv_hand p, pl_raw p, pl_decode_hand p, pl_decode_out p, pl_prepared p, pl_apply_out p with
    | None, [], None, None, [], None => pl_recv_result p
    | _, _, _, _, _, _ => None
    end.

End Pipeline.
