(* ===== verification/PipelineFacts.v ===== *)
(** * PipelineFacts: what the live pipeline guarantees

    Order, bounds and exact counters in every interleaving of the three tasks,
    the tables that follow the index, and that every schedule drains. *)
From S2P Require Import Prelude Text Errors Sdk Keys Domain WriteSet Tables Orders Paper Submit Events Peer Hydrate Processor.
From S2P Require Import Books Markets Vaults Decode ProcessorFacts Pipeline.

Local Open Scope list_scope.
Local Open Scope Z_scope.

Section Facts.
Context {SD : Sdk} {L : SdkLaws} {NC : NoCollision} {B : Bincode} {C : Chain} {CU : ChainU64} {PC : PaperChain}.

(** ** Runs, with the blocks received and the blocks applied *)

Definition receives (e : PipelineEvent) (p : Pipeline) : list ReceiptBlock :=
  match e with EvMessage (NewBlock b) => if pl_cancelled p then [] else [b] | _ => [] end.
Definition applies (e : PipelineEvent) (p : Pipeline) : list PreparedBlock :=
  match e, pl_prepared p with EvApply _, b :: _ => [b] | _, _ => [] end.

Inductive pipeline_run (i : Index) (wait : Registry) (head : IndexedBlockHead) : list ReceiptBlock -> list PreparedBlock -> Pipeline -> Prop :=
| prun_start : pipeline_run i wait head [] [] (pipeline_start i wait head)
| prun_step received applied p e p' :
    pipeline_run i wait head received applied p -> pipeline_step e p = Some p' ->
    pipeline_run i wait head (received ++ receives e p) (applied ++ applies e p) p'.

(** Prepared blocks past the decode task, raw blocks before it. *)
Definition past_decode (p : Pipeline) : list PreparedBlock := pl_prepared p ++ option_list (pl_decode_out p).
Definition before_decode (p : Pipeline) : list ReceiptBlock := pl_raw p ++ option_list (pl_recv_hand p).

Definition saved_blocks (l : list PersistRequest) : list ReceiptBlock := omap (fun r => match r with RqReceiptBlock b => Some b | _ => None end) l.
Definition index_writes (l : list PersistRequest) : list IndexWriteSet := omap (fun r => match r with RqIndexWrite ws => Some ws | _ => None end) l.
(** The write sets made so far: those handed to the writer, and the one the
    apply task is about to hand over. *)
Definition writes_of (p : Pipeline) : list IndexWriteSet := index_writes (pl_requests p) ++ option_list (pl_apply_out p).

Definition prepared_from (b : PreparedBlock) : Prop := exists store, b = prepare_block store (pb_block b).

Record pipeline_inv (received : list ReceiptBlock) (applied : list PreparedBlock) (p : Pipeline) : Prop := {
  pi_order : received = (pb_block <$> (applied ++ past_decode p)) ++ option_list (pl_decode_hand p) ++ before_decode p;
  pi_saved : saved_blocks (pl_requests p) = (pb_block <$> (applied ++ past_decode p)) ++ option_list (pl_decode_hand p);
  pi_raw : (length (pl_raw p) <= PIPELINE_RAW_CAPACITY)%nat;
  pi_prepared : (length (pl_prepared p) <= PIPELINE_PREPARED_CAPACITY)%nat;
  pi_decode_backlog : pl_decode_backlog p = Z.of_nat (length (before_decode p));
  pi_apply_backlog : pl_apply_backlog p = Z.of_nat (length (past_decode p));
  pi_from : Forall prepared_from (applied ++ past_decode p);
  pi_busy : pl_decode_hand p = None \/ pl_decode_out p = None;
  pi_ended : pl_recv_hand p = None \/ pl_recv_result p = None;
  pi_writes : (fun ws => (ws_block_num ws, ws_digest ws)) <$> writes_of p = (fun b => (pb_block_num b, pb_block_digest b)) <$> applied
}.

Lemma saved_app l l' : saved_blocks (l ++ l') = saved_blocks l ++ saved_blocks l'.
Proof. apply omap_app. Qed.
Lemma writes_app l l' : index_writes (l ++ l') = index_writes l ++ index_writes l'.
Proof. apply omap_app. Qed.

Lemma processed_position env i wait b :
  let r := process_prepared_block env i wait b in (ws_block_num r.2, ws_digest r.2) = (pb_block_num b, pb_block_digest b).
Proof. unfold process_prepared_block. by destruct (apply_markets _ _ _). Qed.

#[local] Ltac fin := try done; try (by left); try (by right).

Lemma receive_inv received applied p msg p' :
  pipeline_inv received applied p -> receive msg p = Some p' ->
  pipeline_inv (received ++ receives (EvMessage msg) p) applied p'.
Proof.
  intros [H1 H2 H3 H4 H5 H6 H7 H8 H10 H9]. unfold receive. destruct (pl_recv_hand p) eqn:Eh; [done|]. destruct (pl_recv_result p); [done|].
  unfold before_decode in *. rewrite Eh in H1, H5. simpl in H1, H5. rewrite app_nil_r in H1, H5.
  destruct (pl_cancelled p) eqn:Ec, msg; intros [= <-]; simpl; rewrite ?Ec, ?app_nil_r; split; unfold before_decode; simpl;
    rewrite ?Eh, ?app_nil_r; fin.
  - by rewrite H1, <- !app_assoc.
  - rewrite length_app. simpl. lia.
Qed.

Lemma send_raw_inv received applied p p' : pipeline_inv received applied p -> send_raw p = Some p' -> pipeline_inv received applied p'.
Proof.
  intros [H1 H2 H3 H4 H5 H6 H7 H8 H10 H9]. unfold send_raw. destruct (pl_recv_hand p) as [b|] eqn:Eh; [|done]. case_decide; [|done].
  intros [= <-]. unfold before_decode in *. rewrite Eh in H1, H5. split; unfold before_decode; simpl; rewrite ?app_nil_r; fin.
  rewrite length_app. simpl. lia.
Qed.

Lemma decode_take_inv received applied p p' : pipeline_inv received applied p -> decode_take p = Some p' -> pipeline_inv received applied p'.
Proof.
  intros [H1 H2 H3 H4 H5 H6 H7 H8 H10 H9]. unfold decode_take. destruct (pl_decode_hand p) eqn:Eh; [done|]. destruct (pl_decode_out p) eqn:Eo; [done|].
  destruct (pl_raw p) as [|b raw] eqn:Er; [done|]. destruct (pl_cancelled p); [done|]. intros [= <-].
  unfold before_decode, past_decode, writes_of in *. rewrite Eo in H1, H2, H6, H7. rewrite Er in H1, H5. simpl in *.
  split; unfold before_decode, past_decode, writes_of; simpl; fin.
  - by rewrite saved_app, H2, app_nil_r.
  - lia.
  - lia.
  - by rewrite writes_app, app_nil_r.
Qed.

Lemma decode_prepare_inv received applied p p' : pipeline_inv received applied p -> decode_prepare p = Some p' -> pipeline_inv received applied p'.
Proof.
  intros [H1 H2 H3 H4 H5 H6 H7 H8 H10 H9]. unfold decode_prepare. destruct (pl_decode_hand p) as [b|] eqn:Eh; [|done]. intros [= <-].
  destruct H8 as [?|Eo]; [done|]. unfold before_decode, past_decode, writes_of in *. rewrite Eo in *. simpl in *. rewrite app_nil_r in *.
  set (x := prepare_block (ix_orders (pl_index p)) b).
  assert ((pb_block <$> applied ++ pl_prepared p ++ [x]) = (pb_block <$> applied ++ pl_prepared p) ++ [b]) as EA.
  { rewrite (app_assoc applied), (fmap_app pb_block (applied ++ pl_prepared p)). unfold x. csimpl. by rewrite prepare_block_block. }
  split; unfold before_decode, past_decode, writes_of; simpl; rewrite ?EA, ?app_nil_r; fin.
  - by rewrite H1, <- app_assoc.
  - rewrite length_app. simpl. lia.
  - rewrite app_assoc. apply Forall_app. split; [done|]. constructor; [|done]. eexists. unfold x. by rewrite prepare_block_block.
Qed.

Lemma send_prepared_inv received applied p p' : pipeline_inv received applied p -> send_prepared p = Some p' -> pipeline_inv received applied p'.
Proof.
  intros [H1 H2 H3 H4 H5 H6 H7 H8 H10 H9]. unfold send_prepared. destruct (pl_decode_out p) as [b|] eqn:Eo; [|done]. case_decide; [|done].
  intros [= <-]. unfold before_decode, past_decode, writes_of in *. rewrite Eo in *. simpl in *.
  split; unfold before_decode, past_decode, writes_of; simpl; rewrite ?app_nil_r; fin.
  - rewrite length_app. simpl. lia.
Qed.

Lemma apply_take_inv received applied p env p' :
  pipeline_inv received applied p -> apply_take env p = Some p' -> pipeline_inv received (applied ++ applies (EvApply env) p) p'.
Proof.
  intros [H1 H2 H3 H4 H5 H6 H7 H8 H10 H9]. unfold apply_take, applies. destruct (pl_apply_out p) eqn:Eo; [done|].
  destruct (pl_prepared p) as [|b rest] eqn:Ep; [done|]. destruct (pl_cancelled p); [done|]. cbv zeta. set (env' := Build_ProcessEnv _ _ _ _ _).
  pose proof (processed_position env' (pl_index p) (pl_wait p) b) as HP. cbv zeta in HP.
  destruct (process_prepared_block _ _ _ b) as [[i wait] ws]. intros [= <-].
  unfold before_decode, past_decode, writes_of in *. rewrite Ep in *. rewrite Eo in H9. simpl in *. rewrite app_nil_r in H9.
  assert (forall l, (applied ++ [b]) ++ l = applied ++ b :: l) as EA by (intros; by rewrite <- app_assoc).
  split; unfold before_decode, past_decode, writes_of; simpl; rewrite ?EA; fin.
  - by rewrite saved_app, app_nil_r.
  - lia.
  - lia.
  - rewrite writes_app. simpl. rewrite app_nil_r, !fmap_app, H9. simpl. by rewrite HP.
Qed.

Lemma apply_enqueue_inv received applied p p' : pipeline_inv received applied p -> apply_enqueue p = Some p' -> pipeline_inv received applied p'.
Proof.
  intros [H1 H2 H3 H4 H5 H6 H7 H8 H10 H9]. unfold apply_enqueue. destruct (pl_apply_out p) as [ws|] eqn:Eo; [|done]. intros [= <-].
  unfold writes_of in *. rewrite Eo in H9. split; unfold writes_of; simpl; fin.
  - by rewrite saved_app, app_nil_r.
  - by rewrite writes_app, app_nil_r.
Qed.

Lemma pipeline_run_inv i wait head received applied p : pipeline_run i wait head received applied p -> pipeline_inv received applied p.
Proof.
  induction 1 as [|received applied p e p' _ IH HS].
  { split; simpl; fin; lia. }
  destruct e as [msg| | | | |env| |]; cbn [pipeline_step receives applies] in *; rewrite ?app_nil_r.
  - by apply (receive_inv _ _ p).
  - by apply (send_raw_inv _ _ p).
  - by apply (decode_take_inv _ _ p).
  - by apply (decode_prepare_inv _ _ p).
  - by apply (send_prepared_inv _ _ p).
  - by eapply (apply_take_inv _ _ p).
  - by apply (apply_enqueue_inv _ _ p).
  - injection HS as <-. by destruct IH; split.
Qed.

(** C12: the live pipeline keeps the order and loses nothing: in every
    interleaving of receive, decode and apply, the blocks received are, in order,
    those applied, those prepared, the one being decoded and those still raw;
    each block is saved before it is applied; both channels stay within 64
    blocks; the two backlog counters are exact; and the write sets go to the
    index writer one per applied block, in block order. *)
Theorem pipeline_order i wait head received applied p :
  pipeline_run i wait head received applied p -> pipeline_inv received applied p.
Proof. apply pipeline_run_inv. Qed.

(** ** The tables follow the index *)

Context (is_event : string -> Prop).

Definition acceptable (b : ReceiptBlock) : Prop := forall store, received_ok is_event store b.
(** The tables once all of them are committed. *)
Definition written (t : IndexStateTables) (p : Pipeline) : IndexStateTables := foldl apply_index_write_set t (writes_of p).
Definition position_of (head : IndexedBlockHead) (applied : list PreparedBlock) : Z * string :=
  default (hd_block_num head, hd_digest head) ((fun b => (pb_block_num b, pb_block_digest b)) <$> last applied).

Record follows (t : IndexStateTables) (head : IndexedBlockHead) (applied : list PreparedBlock) (p : Pipeline) : Prop := {
  fo_inv : index_inv is_event (pl_index p);
  fo_tables : persisted (written t p) (pl_index p);
  fo_head : (hd_block_num (pl_head p), hd_digest (pl_head p)) = position_of head applied;
  fo_position b : last applied = Some b -> read_meta (written t p) = Ok (Some {| pm_block_num := pb_block_num b; pm_digest := pb_block_digest b |})
}.

(** Every step but [apply_take] leaves the index, the head and the writes alone. *)
Definition same_index (p p' : Pipeline) : Prop := pl_index p' = pl_index p /\ pl_head p' = pl_head p /\ writes_of p' = writes_of p.

Lemma step_same_index e p p' : (forall env, e <> EvApply env) -> pipeline_step e p = Some p' -> same_index p p'.
Proof.
  unfold same_index, writes_of. intros He HS.
  destruct e as [msg| | | | |env| |]; simpl in HS;
    unfold receive, send_raw, decode_take, decode_prepare, send_prepared, apply_enqueue in HS; [..|by destruct (He env)| |];
    repeat case_match; try discriminate HS; injection HS as <-; simpl; rewrite ?writes_app, ?app_nil_r; simpl; rewrite ?app_nil_r;
    split_and!; congruence.
Qed.

Lemma follows_same t head applied p p' : same_index p p' -> follows t head applied p -> follows t head applied p'.
Proof. intros (E1 & E2 & E3) []. split; unfold written in *; by rewrite ?E1, ?E2, ?E3. Qed.

Lemma apply_follows t head received applied p env p' :
  pipeline_inv received applied p -> Forall acceptable received -> follows t head applied p -> apply_take env p = Some p' ->
  follows t head (applied ++ applies (EvApply env) p) p'.
Proof.
  intros HI Hok [F1 F2 _ _]. unfold apply_take, applies. destruct (pl_apply_out p) eqn:Eo; [done|].
  destruct (pl_prepared p) as [|b rest] eqn:Ep; [done|]. destruct (pl_cancelled p); [done|]. cbv zeta. set (env' := Build_ProcessEnv _ _ _ _ _).
  assert (b ∈ applied ++ past_decode p) as Hb by (unfold past_decode; rewrite Ep; set_solver).
  assert (block_ok is_event b) as Hbok.
  { pose proof (pi_from _ _ _ HI) as HF. rewrite Forall_forall in HF. destruct (HF b Hb) as [store ->]. apply received_prepared.
    rewrite Forall_forall in Hok. apply Hok. rewrite (pi_order _ _ _ HI). apply elem_of_app. left.
    apply (list_elem_of_fmap_2 pb_block) in Hb. exact Hb. }
  destruct (prepared_commit is_event env' (pl_index p) (pl_wait p) (written t p) b F1 F2 Hbok) as (G1 & G2 & G3 & _).
  destruct (process_prepared_block _ _ _ b) as [[i wait] ws]. intros [= <-]. unfold written, writes_of in *. rewrite Eo in *. simpl in *.
  rewrite app_nil_r in *. split; unfold written, writes_of; simpl; rewrite ?writes_app; simpl; rewrite ?app_nil_r, ?foldl_app; try done.
  - unfold position_of. by rewrite last_snoc.
  - intros b'. rewrite last_snoc. intros [= <-]. exact G3.
Qed.

(** C5: the tables follow the pipeline: from an index its tables agree with, at
    every moment of every interleaving the tables reached by the write sets made
    so far (those handed to the writer and the one, if any, that the apply task
    holds and is about to hand over) agree with the index ([persisted]: levels
    and holdings up to [i64::MAX], book heads, live orders, markets other than
    spot shells, last prices, vaults) and hold the position of the last block
    applied, which is also the head's; this does not depend on how far the
    decode task, which reads the same index, has run ahead. *)
Theorem pipeline_tables_follow t i wait head received applied p :
  index_inv is_event i -> persisted t i -> pipeline_run i wait head received applied p -> Forall acceptable received ->
  follows t head applied p.
Proof.
  intros Hi Hp. induction 1 as [|received applied p e p' HR IH HS]; [by split|]. intros [Hok _]%Forall_app. specialize (IH Hok).
  pose proof (pipeline_run_inv _ _ _ _ _ _ HR) as HI.
  assert ((exists env, e = EvApply env) \/ forall env, e <> EvApply env) as [[env ->]|He] by (destruct e; by eauto).
  - by eapply apply_follows.
  - assert (applies e p = []) as -> by (destruct e; try done; by destruct (He env)). rewrite app_nil_r.
    eapply follows_same; [by eapply step_same_index|done].
Qed.

(** ** Every schedule drains *)

(** The steps the tasks take on their own. *)
Definition internal (e : PipelineEvent) : Prop := match e with EvMessage _ | EvCancel => False | _ => True end.

(** Steps left: each block has up to six to go. *)
Definition weight (p : Pipeline) : nat :=
  6 * length (option_list (pl_recv_hand p)) + 5 * length (pl_raw p) + 4 * length (option_list (pl_decode_hand p)) +
  3 * length (option_list (pl_decode_out p)) + 2 * length (pl_prepared p) + length (option_list (pl_apply_out p)).

Lemma internal_weight e p p' : pl_decode_hand p = None \/ pl_decode_out p = None ->
  internal e -> pipeline_step e p = Some p' -> (weight p' < weight p)%nat.
Proof.
  intros Hb Hi HS. unfold weight. destruct e as [msg| | | | |env| |]; try done; simpl in HS.
  - unfold send_raw in HS. destruct (pl_recv_hand p); [|done]. case_decide; [|done]. injection HS as <-. simpl. rewrite length_app. simpl. lia.
  - unfold decode_take in HS. destruct (pl_decode_hand p), (pl_decode_out p), (pl_raw p); try done. destruct (pl_cancelled p); [done|].
    injection HS as <-. simpl. lia.
  - unfold decode_prepare in HS. destruct (pl_decode_hand p); [|done]. destruct Hb as [?|Ho]; [done|]. injection HS as <-. rewrite Ho. simpl. lia.
  - unfold send_prepared in HS. destruct (pl_decode_out p); [|done]. case_decide; [|done]. injection HS as <-. simpl. rewrite length_app. simpl. lia.
  - unfold apply_take in HS. destruct (pl_apply_out p), (pl_prepared p); try done. destruct (pl_cancelled p); [done|].
    destruct (process_prepared_block _ _ _ _) as [[i w] ws]. injection HS as <-. simpl. lia.
  - unfold apply_enqueue in HS. destruct (pl_apply_out p); [|done]. injection HS as <-. simpl. lia.
Qed.

(** Unless cancelled, the tasks only stop when there is nothing left: full
    channels never block each other for good. *)
Lemma stuck_drained p :
  pl_cancelled p = false -> (forall e, internal e -> pipeline_step e p = None) ->
  pl_recv_hand p = None /\ pl_raw p = [] /\ pl_decode_hand p = None /\ pl_decode_out p = None /\ pl_prepared p = [] /\ pl_apply_out p = None.
Proof.
  intros Hc HS. pose proof (HS EvEnqueue I) as H1.
  pose proof (HS (EvApply (Build_ProcessEnv "" 0 false 0 0)) I) as H2. pose proof (HS EvSendPrepared I) as H3.
  pose proof (HS EvDecodePrepare I) as H4. pose proof (HS EvDecodeTake I) as H5. pose proof (HS EvSendRaw I) as H6. simpl in *.
  unfold apply_enqueue in H1. destruct (pl_apply_out p) eqn:E1; [done|].
  unfold apply_take in H2. rewrite E1, Hc in H2. destruct (pl_prepared p) eqn:E2; [|by destruct (process_prepared_block _ _ _ _) as [[] ?]].
  unfold send_prepared in H3. rewrite E2 in H3. destruct (pl_decode_out p) eqn:E3; [done|].
  unfold decode_prepare in H4. destruct (pl_decode_hand p) eqn:E4; [done|].
  unfold decode_take in H5. rewrite E3, E4, Hc in H5. destruct (pl_raw p) eqn:E5; [|done].
  unfold send_raw in H6. rewrite E5 in H6. by destruct (pl_recv_hand p).
Qed.

Lemma drained_stuck p :
  pl_recv_hand p = None -> pl_raw p = [] -> pl_decode_hand p = None -> pl_decode_out p = None -> pl_prepared p = [] -> pl_apply_out p = None ->
  forall e, internal e -> pipeline_step e p = None.
Proof.
  intros E1 E2 E3 E4 E5 E6 e He. destruct e; try done; simpl; unfold send_raw, decode_take, decode_prepare, send_prepared, apply_take, apply_enqueue;
    by rewrite ?E1, ?E2, ?E3, ?E4, ?E5, ?E6.
Qed.

Lemma internal_keeps e p p' : pl_recv_hand p = None -> internal e -> pipeline_step e p = Some p' ->
  pl_recv_hand p' = None /\ pl_recv_result p' = pl_recv_result p /\ pl_cancelled p' = pl_cancelled p /\ receives e p = [].
Proof.
  intros Hh Hi HS. destruct e as [msg| | | | |env| |]; try done; simpl in HS;
    unfold send_raw, decode_take, decode_prepare, send_prepared, apply_enqueue, apply_take in HS; rewrite ?Hh in HS; repeat case_match;
    try discriminate HS; by injection HS as <-.
Qed.

Lemma events_keep i wait head received applied p es p' :
  pipeline_run i wait head received applied p -> pl_recv_hand p = None -> Forall internal es -> pipeline_events es p = Some p' ->
  (length es + weight p' <= weight p)%nat /\ pl_recv_result p' = pl_recv_result p /\ pl_cancelled p' = pl_cancelled p /\
  exists applied', pipeline_run i wait head received applied' p'.
Proof.
  revert applied p. induction es as [|e es IH]; intros applied p HR Hh HF; simpl.
  { intros [= <-]. split; [lia|]. split_and!; try done. by exists applied. }
  inversion_clear HF as [|? ? Hi HF']. intros (p1 & HS & HE)%bind_Some. destruct (internal_keeps e p p1 Hh Hi HS) as (K1 & K2 & K3 & K4).
  pose proof (prun_step _ _ _ _ _ _ _ _ HR HS) as HR1. rewrite K4, app_nil_r in HR1.
  destruct (IH _ p1 HR1 K1 HF' HE) as (I1 & I2 & I3 & I4). rewrite <- K2, <- K3. split_and!; try done.
  pose proof (internal_weight e p p1 (pi_busy _ _ _ (pipeline_run_inv _ _ _ _ _ _ HR)) Hi HS). lia.
Qed.

(** C20: the pipeline comes to an end with everything applied: once the
    subscription is over (and unless cancelled), every schedule of the three
    tasks is finite, within six steps per block still held, and one that cannot
    go on, whichever it is, has applied every block received and returned the
    result of the receive task: full channels never leave two tasks waiting for
    each other. *)
Theorem pipeline_drains i wait head received applied p r es p' :
  pipeline_run i wait head received applied p -> pl_cancelled p = false -> pl_recv_result p = Some r ->
  Forall internal es -> pipeline_events es p = Some p' ->
  (length es <= weight p)%nat /\
  ((forall e, internal e -> pipeline_step e p' = None) ->
    pipeline_result p' = Some r /\ exists applied', pipeline_run i wait head received applied' p' /\ pb_block <$> applied' = received).
Proof.
  intros HR Hc Hr HF HE. pose proof (pipeline_run_inv _ _ _ _ _ _ HR) as HI.
  destruct (pi_ended _ _ _ HI) as [Hh|]; [|congruence].
  destruct (events_keep _ _ _ _ _ _ _ _ HR Hh HF HE) as (K1 & K2 & K3 & applied' & HR'). split; [lia|]. intros Hstuck.
  destruct (stuck_drained p') as (E1 & E2 & E3 & E4 & E5 & E6); [by rewrite K3|done|].
  pose proof (pipeline_run_inv _ _ _ _ _ _ HR') as HI'. split.
  - unfold pipeline_result. by rewrite K3, Hc, E1, E2, E3, E4, E5, E6, K2.
  - exists applied'. split; [done|]. rewrite (pi_order _ _ _ HI'). unfold past_decode, before_decode. rewrite E1, E2, E3, E4, E5. simpl.
    by rewrite !app_nil_r.
Qed.

(** ** Following a list of events *)

Fixpoint traced (es : list PipelineEvent) (p : Pipeline) : option (list ReceiptBlock * list PreparedBlock * Pipeline) :=
  match es with
  | [] => Some ([], [], p)
  | e :: es =>
      p' ← pipeline_step e p;
      '(rs, bs, q) ← traced es p';
      Some (receives e p ++ rs, applies e p ++ bs, q)
  end.

Lemma traced_run i wait head es received applied p rs bs q :
  pipeline_run i wait head received applied p -> traced es p = Some (rs, bs, q) ->
  pipeline_run i wait head (received ++ rs) (applied ++ bs) q.
Proof.
  revert received applied p rs bs. induction es as [|e es IH]; intros received applied p rs bs HR; simpl.
  { intros [= <- <- <-]. by rewrite !app_nil_r. }
  intros (p1 & HS & ([[rs1 bs1] q1] & HT & [= <- <- <-])%bind_Some)%bind_Some.
  rewrite !app_assoc. apply (IH _ _ p1); [|done]. by apply prun_step.
Qed.

(** A block applied and its write set handed over. *)
Lemma apply_then_enqueue env p p' b rest :
  pl_prepared p = b :: rest -> apply_take env p = Some p' ->
  exists q, pipeline_events [EvApply env; EvEnqueue] p = Some q /\ traced [EvApply env; EvEnqueue] p = Some ([], [b], q) /\
    pl_prepared q = rest /\ pl_apply_out q = None /\ pl_recv_hand q = pl_recv_hand p /\ pl_raw q = pl_raw p /\
    pl_decode_hand q = pl_decode_hand p /\ pl_decode_out q = pl_decode_out p.
Proof.
  intros Hp HS. assert (exists ws, pl_apply_out p' = Some ws /\ pl_prepared p' = rest /\ pl_recv_hand p' = pl_recv_hand p /\ pl_raw p' = pl_raw p /\
    pl_decode_hand p' = pl_decode_hand p /\ pl_decode_out p' = pl_decode_out p) as (ws & Ew & E1 & E2 & E3 & E4 & E5).
  { unfold apply_take in HS. rewrite Hp in HS. destruct (pl_apply_out p), (pl_cancelled p); try done. cbv zeta in HS.
    destruct (process_prepared_block _ _ _ _) as [[i w] ws]. injection HS as <-. by exists ws. }
  simpl. rewrite HS. simpl. unfold apply_enqueue. rewrite Ew. simpl. rewrite Hp. by eexists.
Qed.

End Facts.

(** ** Witnesses: one block, from the subscription to the index writer *)

Definition demo_start : Pipeline (SD := DemoSdk) := pipeline_start (Index_new false) demo_no_waiters new_head.
Definition demo_run (es : list (PipelineEvent (SD := DemoSdk))) : Pipeline (SD := DemoSdk) :=
  default demo_start (pipeline_events (SD := DemoSdk) (C := DemoChain) es demo_start).
Definition demo_arrival : list (PipelineEvent (SD := DemoSdk)) := [EvMessage (NewBlock demo_raw_block); EvSendRaw; EvMessage MsgClosed].
Definition demo_decode : list (PipelineEvent (SD := DemoSdk)) := [EvDecodeTake; EvDecodePrepare; EvSendPrepared].
Definition demo_apply : list (PipelineEvent (SD := DemoSdk)) := [EvApply demo_env; EvEnqueue].
Definition demo_prepared : PreparedBlock (SD := DemoSdk) := prepare_block (ix_orders (Index_new false)) demo_raw_block.

Notation demo_pipeline_run := (pipeline_run (SD := DemoSdk) (C := DemoChain) (Index_new false) demo_no_waiters new_head).

Lemma demo_decoded : demo_pipeline_run [demo_raw_block] [] (demo_run (demo_arrival ++ demo_decode)).
Proof. apply (traced_run (SD := DemoSdk) (C := DemoChain) _ _ _ (demo_arrival ++ demo_decode) [] [] demo_start); [constructor|reflexivity]. Qed.

Lemma demo_applied : exists q,
  pipeline_events (SD := DemoSdk) (C := DemoChain) demo_apply (demo_run (demo_arrival ++ demo_decode)) = Some q /\
  demo_pipeline_run [demo_raw_block] [demo_prepared] q /\ forall e, internal e -> pipeline_step (SD := DemoSdk) (C := DemoChain) e q = None.
Proof.
  destruct (apply_take (SD := DemoSdk) (C := DemoChain) demo_env (demo_run (demo_arrival ++ demo_decode))) as [p|] eqn:E.
  - destruct (apply_then_enqueue (SD := DemoSdk) (C := DemoChain) demo_env (demo_run (demo_arrival ++ demo_decode)) p demo_prepared [] eq_refl E) as (q & E1 & E2 & E3 & E4 & E5 & E6 & E7 & E8).
    exists q. split; [exact E1|]. split.
    { exact (traced_run (SD := DemoSdk) (C := DemoChain) (Index_new false) demo_no_waiters new_head [EvApply demo_env; EvEnqueue] [demo_raw_block] []
        (demo_run (demo_arrival ++ demo_decode)) [] [demo_prepared] q demo_decoded E2). }
    exact (drained_stuck (SD := DemoSdk) (C := DemoChain) q E5 E6 E7 E8 E3 E4).
  - apply (f_equal (fun o => bool_decide (is_Some o))) in E. vm_compute in E. discriminate E.
Qed.

Lemma demo_acceptable : acceptable (SD := DemoSdk) demo_is_event demo_raw_block.
Proof. intros store. apply demo_received. Qed.

Lemma pipeline_order_witness :
  exists q, demo_pipeline_run [demo_raw_block] [demo_prepared] q /\
    saved_blocks (pl_requests q) = (pb_block <$> (demo_prepared :: past_decode q)) ++ option_list (pl_decode_hand q).
Proof. destruct demo_applied as (q & _ & HR & _). exists q. split; [exact HR|]. exact (pi_saved _ _ _ (pipeline_order _ _ _ _ _ q HR)). Defined.

Lemma pipeline_tables_follow_witness :
  exists q, demo_pipeline_run [demo_raw_block] [demo_prepared] q /\
    read_meta (written tables_empty q) = Ok (Some {| pm_block_num := 7; pm_digest := "d7" |}).
Proof.
  destruct demo_applied as (q & _ & HR & _). exists q. split; [exact HR|].
  apply (fo_position _ _ _ _ _ (pipeline_tables_follow (SD := DemoSdk) (C := DemoChain) demo_is_event tables_empty (Index_new false) demo_no_waiters new_head
    [demo_raw_block] [demo_prepared] q (index_new_inv false) (new_persisted false) HR (proj2 (Forall_singleton _ _) demo_acceptable)) demo_prepared eq_refl).
Defined.

Lemma pipeline_drains_witness :
  exists q, pipeline_events (SD := DemoSdk) (C := DemoChain) demo_apply (demo_run (demo_arrival ++ demo_decode)) = Some q /\ pipeline_result q = Some (Ok tt).
Proof.
  destruct demo_applied as (q & E & _ & Hstuck). exists q. split; [exact E|].
  assert (Forall internal demo_apply) as HF by (repeat constructor).
  exact (proj1 (proj2 (pipeline_drains (SD := DemoSdk) (C := DemoChain) (Index_new false) demo_no_waiters new_head [demo_raw_block] [] _ (Ok tt)
    demo_apply q demo_decoded eq_refl eq_refl HF E) Hstuck)).
Defined.
