(* ===== verification/Supervise.v ===== *)
(** * Supervise: the life of the indexer, [spawn] and [run_once] of [indexer/mod.rs]

    A session hydrates the books, subscribes to the node, catches up from a
    peer if it is the first one, and runs the live pipeline until the stream
    ends; the supervisor then starts the next session.  While a peer is
    downloaded the session waits on three things at once: cancellation, the
    live blocks and the download; a [CatchupEvent] is what it saw next.  The
    answers of the peers and of the node's socket are arguments.  Cancelling
    the supervisor drops the session at its next wait and ends the loop, so the
    turns of the model are the sessions that reach their end. *)
From Stdlib Require Import Strings.Byte.
From S2P Require Import Prelude Text Errors Sdk Keys Domain WriteSet Tables Books Bars Orders Markets Vaults Rings Paper Submit Events.
From S2P Require Import Store Persist Peer Hydrate Writes StoreFacts Processor ProcessorFacts Recover RecoverFacts Pipeline.

Local Open Scope list_scope.
Local Open Scope Z_scope.

Record PeerCatchupConfig := { pc_peer_urls : list string; pc_threshold : Z }.

Section Supervise.
Context {SD : Sdk} {B : Bincode} {C : Chain} {PC : PaperChain} {J : Json} {K : BlockCodec}.
Context (clock : ReceiptBlock -> ProcessEnv) (now_ms : Z) (query_account : string) (has_persist : bool).

(** What the sessions share; the two modes are those of the persist handle. *)
Record Indexer := {
  in_index : Index;
  in_wait : Registry;
  in_head : IndexedBlockHead;
  in_secondary : bool;
  in_epoch : bool;
  in_actions : list PersistAction
}.

Definition with_flags (connected catching_up : bool) (h : IndexedBlockHead) : IndexedBlockHead :=
  {| hd_block_num := hd_block_num h; hd_digest := hd_digest h; hd_tx_count := hd_tx_count h; hd_connected := connected;
     hd_catching_up := catching_up; hd_last_indexed_at_ms := hd_last_indexed_at_ms h |}.

Definition with_index (i : Index) (s : Indexer) : Indexer :=
  {| in_index := i; in_wait := in_wait s; in_head := in_head s; in_secondary := in_secondary s; in_epoch := in_epoch s;
     in_actions := in_actions s |}.

(** [catching_up] and [set_secondary_persist], which change together. *)
Definition catching (on : bool) (s : Indexer) : Indexer :=
  {| in_index := in_index s; in_wait := in_wait s; in_head := with_flags (hd_connected (in_head s)) on (in_head s);
     in_secondary := negb on; in_epoch := in_epoch s; in_actions := in_actions s |}.

(** ** Catching up *)

Inductive CatchupEvent :=
| CeCancelled
| CeMessage (msg : Message)
| CeDownload (result : AppResult (CheckpointSnapshot * list PeerBlock))
| CeJoinError (error : string).

Inductive BufferExit :=
| BxCancelled
| BxFailed (e : AppError)
| BxDownloaded (snapshot : CheckpointSnapshot) (blocks : list PeerBlock) (live_buffer : list ReceiptBlock).

(** The loop while the download runs: one turn, and the whole. *)
Definition buffer_turn (live_buffer : list ReceiptBlock) (e : CatchupEvent) : list ReceiptBlock + BufferExit :=
  match e with
  | CeCancelled => inr BxCancelled
  | CeMessage (NewBlock block) => inl (buffer_live live_buffer block)
  | CeMessage (MsgError err) => inr (BxFailed (Internal ("ws error during peer catch-up: " +:+ err)%string))
  | CeMessage MsgReceiptBlock => inl live_buffer
  | CeMessage MsgClosed => inr (BxFailed (Internal "ws closed during peer catch-up"))
  | CeDownload (Ok (snapshot, blocks)) => inr (BxDownloaded snapshot blocks live_buffer)
  | CeDownload (Err error) => inr (BxFailed error)
  | CeJoinError error => inr (BxFailed (Internal ("peer download join: " +:+ error)%string))
  end.

Fixpoint buffer_loop (live_buffer : list ReceiptBlock) (events : list CatchupEvent) : option BufferExit :=
  match events with
  | [] => None
  | e :: events => match buffer_turn live_buffer e with inl live_buffer => buffer_loop live_buffer events | inr exit => Some exit end
  end.

(** The task that downloads; [None] when the fuel runs out. *)
Definition download_task (fuel : nat) (checkpoint : AppResult CheckpointSnapshot) (blocks_after : Z -> nat -> AppResult (list PeerBlock))
    : option (AppResult (CheckpointSnapshot * list PeerBlock)) :=
  match checkpoint with
  | Err e => Some (Err e)
  | Ok snapshot => r ← download_blocks fuel blocks_after (cs_block_num snapshot) []; Some (blocks ← r; Ok (snapshot, blocks))
  end.

(** A peer that does not answer is left out. *)
Definition probe_tips (tip : string -> AppResult PeerTip) (urls : list string) : list (string * PeerTip) :=
  omap (fun url => t ← ok (tip url); Some (url, t)) urls.

(** The blocks applied before one that does not decode. *)
Fixpoint applied_prefix (c : Catchup) (blocks : list PeerBlock) : Catchup :=
  match blocks with
  | [] => c
  | b :: blocks => match peer_block clock c b with Ok c => applied_prefix c blocks | Err _ => c end
  end.

Definition catchup_start (s : Indexer) (snapshot : CheckpointSnapshot) (blocks : list PeerBlock) : Catchup :=
  {| cu_index := apply_snapshot (in_index s) snapshot; cu_wait := in_wait s; cu_actions := [ACheckpoint snapshot];
     cu_tip := {| pm_block_num := cs_block_num snapshot; pm_digest := cs_digest snapshot |};
     cu_applied := {[cs_digest snapshot]} ∪ digest_set_from_blocks blocks; cu_head := in_head s |}.

(** After the download: everything is applied, or an error leaves what was. *)
Definition take_over (s : Indexer) (snapshot : CheckpointSnapshot) (blocks : list PeerBlock) (live_buffer : list ReceiptBlock)
    : Indexer * AppResult unit :=
  match apply_catchup clock now_ms (in_index s) (in_wait s) (in_head s) snapshot blocks live_buffer with
  | Ok (i, wait, head, actions) =>
      ({| in_index := i; in_wait := wait; in_head := head; in_secondary := true; in_epoch := in_epoch s; in_actions := in_actions s ++ actions |}, Ok tt)
  | Err e =>
      let c := applied_prefix (catchup_start s snapshot blocks) blocks in
      ({| in_index := cu_index c; in_wait := cu_wait c; in_head := in_head s; in_secondary := in_secondary s; in_epoch := in_epoch s;
          in_actions := in_actions s ++ cu_actions c |}, Err e)
  end.

Definition run_peer_catchup (tip : string -> AppResult PeerTip) (cfg : PeerCatchupConfig) (events : list CatchupEvent) (s : Indexer)
    : option (Indexer * AppResult unit) :=
  match select_catchup_peer (probe_tips tip (pc_peer_urls cfg)) (hd_block_num (in_head s)) (pc_threshold cfg) with
  | None => Some (s, Ok tt)
  | Some _ =>
      let s := catching true s in
      exit ← buffer_loop [] events;
      Some match exit with
           | BxCancelled => (catching false s, Ok tt)
           | BxFailed e => (catching false s, Err e)
           | BxDownloaded snapshot blocks live_buffer => take_over s snapshot blocks live_buffer
           end
  end.

(** ** One session *)

(** What a session meets: whether it is cancelled at each of the three tests,
    the two answers of the socket, the peers, and the events of the catch-up
    and of the pipeline. *)
Record SessionInputs := {
  si_cancelled_first : bool;
  si_cancelled_hydrated : bool;
  si_cancelled_caught_up : bool;
  si_connect : option string;
  si_subscribe : option string;
  si_tip : string -> AppResult PeerTip;
  si_catchup : list CatchupEvent;
  si_pipeline : list PipelineEvent
}.

(** Up to the pipeline: the session ends with a result, or goes live. *)
Inductive SessionStart := Ended (result : AppResult unit) | Live.

Definition run_once_start (x : SessionInputs) (peer_catchup : option PeerCatchupConfig) (s : Indexer) : option (Indexer * SessionStart) :=
  if si_cancelled_first x then Some (s, Ended (Ok tt))
  else
    let s := with_index (hydrate_all_spot_markets (in_index s) query_account None).1 s in
    if si_cancelled_hydrated x then Some (s, Ended (Ok tt))
    else
      match si_connect x, si_subscribe x with
      | Some e, _ => Some (s, Ended (Err (Internal ("create ws client: " +:+ e)%string)))
      | None, Some e => Some (s, Ended (Err (Internal ("subscribe NewBlocks: " +:+ e)%string)))
      | None, None =>
          let s := {| in_index := in_index s; in_wait := in_wait s; in_head := with_flags true (hd_catching_up (in_head s)) (in_head s);
                      in_secondary := in_secondary s; in_epoch := in_epoch s; in_actions := in_actions s |} in
          '(s, r) ← match peer_catchup with
                    | Some cfg =>
                        if has_persist && negb (bool_decide (pc_peer_urls cfg = [])) then run_peer_catchup (si_tip x) cfg (si_catchup x) s
                        else Some (s, Ok tt)
                    | None => Some (s, Ok tt)
                    end;
          match r with
          | Err e => Some (s, Ended (Err e))
          | Ok _ => if si_cancelled_caught_up x then Some (s, Ended (Ok tt)) else Some (s, Live)
          end
      end.

(** What the pipeline asked for as requests to the stores, and the modes it
    left. *)
Definition request_action (r : PersistRequest) : option PersistAction :=
  match r with RqReceiptBlock block => Some (AEnqueueBlock block) | RqIndexWrite ws => Some (AIndexWrite ws) | RqModes _ _ => None end.
Definition request_modes (modes : bool * bool) (r : PersistRequest) : bool * bool :=
  match r with RqModes secondary epoch => (secondary, epoch) | _ => modes end.

Definition after_pipeline (p : Pipeline) (s : Indexer) : Indexer :=
  let modes := foldl request_modes (in_secondary s, in_epoch s) (pl_requests p) in
  {| in_index := pl_index p; in_wait := pl_wait p; in_head := pl_head p; in_secondary := modes.1; in_epoch := modes.2;
     in_actions := in_actions s ++ omap request_action (pl_requests p) |}.

(** [run_once]; [None] while it still waits for something. *)
Definition run_once (x : SessionInputs) (peer_catchup : option PeerCatchupConfig) (s : Indexer) : option (Indexer * AppResult unit) :=
  '(s, start) ← run_once_start x peer_catchup s;
  match start with
  | Ended r => Some (s, r)
  | Live =>
      p ← pipeline_events (si_pipeline x) (pipeline_start (in_index s) (in_wait s) (in_head s));
      r ← pipeline_result p;
      Some (after_pipeline p s, r)
  end.

(** ** The supervisor *)

Record Supervisor := { sv_indexer : Indexer; sv_first : bool; sv_peer_catchup : option PeerCatchupConfig }.

(** The state every session leaves behind. *)
Definition session_end (s : Indexer) : Indexer :=
  {| in_index := in_index s; in_wait := in_wait s; in_head := with_flags false false (in_head s);
     in_secondary := if has_persist then true else in_secondary s; in_epoch := if has_persist then true else in_epoch s;
     in_actions := in_actions s |}.

(** One turn of the loop: [take] empties the configuration the first time. *)
Definition supervise_turn (x : SessionInputs) (v : Supervisor) : option Supervisor :=
  let catchup := if sv_first v then sv_peer_catchup v else None in
  let kept := if sv_first v then None else sv_peer_catchup v in
  '(s, _) ← run_once x catchup (sv_indexer v);
  Some {| sv_indexer := session_end s; sv_first := false; sv_peer_catchup := kept |}.

Fixpoint supervise (xs : list SessionInputs) (v : Supervisor) : option Supervisor :=
  match xs with [] => Some v | x :: xs => v ← supervise_turn x v; supervise xs v end.

End Supervise.

(** ** What a session guarantees *)

Section Facts.
Context {SD : Sdk} {B : Bincode} {C : Chain} {PC : PaperChain} {J : Json} {K : BlockCodec}.
Context (clock : ReceiptBlock -> ProcessEnv) (now_ms : Z) (query_account : string).

Lemma buffer_live_newest l b : buffer_live (newest PEER_LIVE_BUFFER_MAX l) b = newest PEER_LIVE_BUFFER_MAX (l ++ [b]).
Proof.
  assert (0 < PEER_LIVE_BUFFER_MAX)%nat as Hn by (unfold PEER_LIVE_BUFFER_MAX; lia). revert Hn.
  unfold buffer_live, newest. generalize PEER_LIVE_BUFFER_MAX as n. intros n Hn. rewrite length_drop, length_app. cbn [length].
  destruct (decide (n <= length l - (length l - n))%nat) as [H|H].
  - replace (tail (drop (length l - n) l)) with (drop 1 (drop (length l - n) l)) by (by destruct (drop _ l)).
    rewrite drop_drop. rewrite drop_app_le by lia. by replace (length l + 1 - n)%nat with (length l - n + 1)%nat by lia.
  - replace (length l - n)%nat with O by lia. replace (length l + 1 - n)%nat with O by lia. done.
Qed.

(** The live blocks among the events, in order. *)
Definition live_blocks (events : list CatchupEvent) : list ReceiptBlock :=
  omap (fun e => match e with CeMessage (NewBlock b) => Some b | _ => None end) events.

Lemma buffer_loop_downloaded l events snapshot blocks live :
  buffer_loop (newest PEER_LIVE_BUFFER_MAX l) events = Some (BxDownloaded snapshot blocks live) ->
  exists before after, events = before ++ CeDownload (Ok (snapshot, blocks)) :: after /\
    live = newest PEER_LIVE_BUFFER_MAX (l ++ live_blocks before).
Proof.
  revert l. induction events as [|e events IH]; intros l; [done|]. cbn [buffer_loop].
  destruct e as [|[b|err| |]|[[s bs]|err]|err]; cbn [buffer_turn]; try done.
  - rewrite buffer_live_newest. intros (before & after & -> & ->)%IH. exists (CeMessage (NewBlock b) :: before), after.
    split; [done|]. cbn. by rewrite <- app_assoc.
  - intros (before & after & -> & ->)%IH. by exists (CeMessage MsgReceiptBlock :: before), after.
  - intros [= -> -> <-]. exists [], events. split; [done|]. cbn. by rewrite app_nil_r.
Qed.

(** Where the application of a peer's blocks stops. *)
Lemma applied_until_error pre bs n digest payload post c e :
  Forall2 decoded pre bs -> decode_block_payload n payload = Err e ->
  fold_ok (peer_block clock) c (pre ++ (n, digest, payload) :: post) = Err e /\
  let c' := applied_prefix clock c (pre ++ (n, digest, payload) :: post) in
  (cu_index c', cu_wait c') = replayed clock (cu_index c, cu_wait c) bs /\
  cu_actions c' = cu_actions c ++ (save_action <$> pre).
Proof.
  intros H He. revert c. induction H as [|[[m dg] pl] b pre bs Hd _ IH]; intros c; cbn [app fold_ok applied_prefix].
  - assert (peer_block clock c (n, digest, payload) = Err e) as -> by (unfold peer_block; by rewrite He).
    cbn [mbind AppResult_bind]. split_and!; [done|done|by rewrite app_nil_r].
  - unfold decoded in Hd. cbn [fst snd] in Hd.
    destruct (peer_block clock c (m, dg, pl)) as [c1|e1] eqn:Ec; unfold peer_block in Ec; rewrite Hd in Ec; [|done].
    cbn -[replay_block] in Ec. injection Ec as <-. destruct (IH {| cu_index := (replay_block clock (cu_index c, cu_wait c) b).1;
      cu_wait := (replay_block clock (cu_index c, cu_wait c) b).2; cu_actions := cu_actions c ++ [ASaveBlock m dg pl];
      cu_tip := {| pm_block_num := m; pm_digest := dg |}; cu_applied := cu_applied c; cu_head := cu_head c |}) as (E1 & E2 & E3).
    split; [exact E1|]. cbn -[replay_block] in *. rewrite <- surjective_pairing in E2. split; [exact E2|]. by rewrite E3, <- app_assoc.
Qed.

(** A message that does not end the wait. *)
Definition delivered (m : Message) : Prop := match m with NewBlock _ | MsgReceiptBlock => True | _ => False end.

(** The download ends with the newest live blocks: the buffer drops the oldest
    of more than it holds. *)
Lemma buffer_loop_newest l events rest snapshot blocks :
  Forall (fun e => exists m, e = CeMessage m /\ delivered m) events ->
  buffer_loop (newest PEER_LIVE_BUFFER_MAX l) (events ++ CeDownload (Ok (snapshot, blocks)) :: rest) =
    Some (BxDownloaded snapshot blocks (newest PEER_LIVE_BUFFER_MAX (l ++ live_blocks events))).
Proof.
  intros H. revert l. induction H as [|e events (m & -> & Hm) _ IH]; intros l; [by rewrite app_nil_r|].
  destruct m as [b|err| |]; try done; cbn [app buffer_loop buffer_turn].
  - rewrite buffer_live_newest, IH. change (live_blocks (CeMessage (NewBlock b) :: events)) with (b :: live_blocks events).
    by rewrite <- app_assoc.
  - apply IH.
Qed.

(** A session that nothing stops before the pipeline. *)
Definition uninterrupted (x : SessionInputs) : Prop :=
  si_cancelled_first x = false /\ si_cancelled_hydrated x = false /\ si_cancelled_caught_up x = false /\
  si_connect x = None /\ si_subscribe x = None.

Definition index_hydrated (i : Index) : Index := (hydrate_all_spot_markets i query_account None).1.

(** The session as the catch-up meets it. *)
Definition subscribed (s : Indexer) : Indexer :=
  {| in_index := index_hydrated (in_index s); in_wait := in_wait s; in_head := with_flags true (hd_catching_up (in_head s)) (in_head s);
     in_secondary := in_secondary s; in_epoch := in_epoch s; in_actions := in_actions s |}.

Lemma start_catching_up x cfg s t :
  uninterrupted x -> pc_peer_urls cfg <> [] ->
  select_catchup_peer (probe_tips (si_tip x) (pc_peer_urls cfg)) (hd_block_num (in_head s)) (pc_threshold cfg) = Some t ->
  run_once_start clock now_ms query_account true x (Some cfg) s =
    ('(s, r) ← (exit ← buffer_loop [] (si_catchup x);
       Some match exit with
            | BxCancelled => (catching false (catching true (subscribed s)), Ok tt)
            | BxFailed e => (catching false (catching true (subscribed s)), Err e)
            | BxDownloaded snapshot blocks live => take_over clock now_ms (catching true (subscribed s)) snapshot blocks live
            end);
     match r with Err e => Some (s, Ended (Err e)) | Ok _ => Some (s, Live) end).
Proof.
  intros (E1 & E2 & E3 & E4 & E5) Hu Hs. unfold run_once_start. rewrite E1, E2, E3, E4, E5. cbn [andb].
  rewrite bool_decide_eq_false_2 by done. cbn [negb]. unfold run_peer_catchup. cbn [in_head with_index with_flags hd_block_num].
  rewrite Hs. fold (index_hydrated (in_index s)). reflexivity.
Qed.

(** Without peers a session goes live on the index as it is, with the books
    hydrated. *)
Lemma start_without_peers persist x s s' :
  run_once_start clock now_ms query_account persist x None s = Some (s', Live) ->
  in_index s' = index_hydrated (in_index s) /\ in_wait s' = in_wait s /\ hd_block_num (in_head s') = hd_block_num (in_head s) /\
  in_actions s' = in_actions s.
Proof.
  unfold run_once_start. destruct (si_cancelled_first x); [done|]. destruct (si_cancelled_hydrated x); [done|].
  destruct (si_connect x), (si_subscribe x); try done. cbn [mbind option_bind]. destruct (si_cancelled_caught_up x); [done|].
  by intros [= <-].
Qed.

Lemma later_turn persist x v v' :
  sv_first v = false -> supervise_turn clock now_ms query_account persist x v = Some v' ->
  exists s r, run_once clock now_ms query_account persist x None (sv_indexer v) = Some (s, r) /\ sv_indexer v' = session_end persist s /\
    sv_first v' = false.
Proof.
  intros Hf. unfold supervise_turn. rewrite Hf. destruct (run_once _ _ _ _ x None (sv_indexer v)) as [[s r]|]; [|done].
  cbn [mbind option_bind]. intros [= <-]. by exists s, r.
Qed.

(** C39: A catch-up that fails half-way is not tried again: when a block of the
    peer does not decode, the checkpoint and the blocks before it stay in the
    index while the head keeps the number it had, and as the peers are asked in
    the first session only, the next session goes live on that index: every
    block between the one that failed and the first one of the new subscription
    is missing from it. *)
Theorem half_takeover_goes_live x v cfg t snapshot pre n digest payload post bs e live :
  uninterrupted x -> sv_first v = true -> sv_peer_catchup v = Some cfg -> pc_peer_urls cfg <> [] ->
  select_catchup_peer (probe_tips (si_tip x) (pc_peer_urls cfg)) (hd_block_num (in_head (sv_indexer v))) (pc_threshold cfg) = Some t ->
  buffer_loop [] (si_catchup x) = Some (BxDownloaded snapshot (pre ++ (n, digest, payload) :: post) live) ->
  Forall2 decoded pre bs -> decode_block_payload n payload = Err e ->
  let s := sv_indexer v in
  exists v', supervise_turn clock now_ms query_account true x v = Some v' /\
    let s' := sv_indexer v' in
    (in_index s', in_wait s') = replayed clock (apply_snapshot (index_hydrated (in_index s)) snapshot, in_wait s) bs /\
    hd_block_num (in_head s') = hd_block_num (in_head s) /\ hd_digest (in_head s') = hd_digest (in_head s) /\ hd_catching_up (in_head s') = false /\
    forall y v'', supervise_turn clock now_ms query_account true y v' = Some v'' ->
      exists r, run_once clock now_ms query_account true y None s' = Some r /\ sv_indexer v'' = session_end true r.1 /\
        forall s'', run_once_start clock now_ms query_account true y None s' = Some (s'', Live) ->
          in_index s'' = index_hydrated (in_index s') /\ hd_block_num (in_head s'') = hd_block_num (in_head s).
Proof.
  intros Hx Hf Hc Hu Ht Hb Hd He s. unfold supervise_turn at 1. rewrite Hf, Hc. unfold run_once at 1.
  fold s in Ht |- *. rewrite (start_catching_up x cfg s t) by done. rewrite Hb. cbn [mbind option_bind]. unfold take_over.
  destruct (applied_until_error pre bs n digest payload post (catchup_start (catching true (subscribed s)) snapshot (pre ++ (n, digest, payload) :: post))
    e Hd He) as (E1 & E2 & _).
  assert (apply_catchup clock now_ms (in_index (catching true (subscribed s))) (in_wait (catching true (subscribed s)))
    (in_head (catching true (subscribed s))) snapshot (pre ++ (n, digest, payload) :: post) live = Err e) as ->.
  { unfold apply_catchup. cbv zeta. match goal with |- context [fold_ok ?f ?c ?l] =>
      assert (fold_ok f c l = Err e) as -> by exact E1 end. done. }
  cbn [mbind option_bind]. eexists. split; [reflexivity|]. cbn [sv_indexer session_end in_index in_wait in_head].
  split; [exact E2|]. split_and!; [done..|]. intros y v'' Hy.
  apply later_turn in Hy as (s1 & r & Hr & Hv & _); [|done]. exists (s1, r). split_and!; [exact Hr|exact Hv|].
  intros s'' Hs. apply start_without_peers in Hs as (-> & _ & -> & _). done.
Qed.

(** C8: The first session of a node that lags takes a peer over: when the
    download succeeds, the session goes live with the state the peer's
    checkpoint holds (levels, book heads, live orders, event markets, prices,
    vaults and holdings, nothing of the paper state), then the peer's blocks and
    the buffered live blocks applied in order, each digest once, with the head
    at the last of them, catching-up over, the history written again, and, once
    its requests are carried out, tables that agree with its index ([persisted]).
    The buffered blocks are the newest 256 of the live blocks that came
    meanwhile; older ones are dropped. *)
Theorem first_session_takes_over `{!SdkLaws} `{!NoCollision} `{!ChainU64} is_event x cfg s t peer_i peer_t snapshot pbs bs events rest d :
  uninterrupted x -> pc_peer_urls cfg <> [] ->
  select_catchup_peer (probe_tips (si_tip x) (pc_peer_urls cfg)) (hd_block_num (in_head s)) (pc_threshold cfg) = Some t ->
  si_catchup x = events ++ CeDownload (Ok (snapshot, pbs)) :: rest -> Forall (fun e => exists m, e = CeMessage m /\ delivered m) events ->
  index_inv is_event peer_i -> persisted peer_t peer_i -> fits peer_i -> export_checkpoint_snapshot peer_t = Ok (Some snapshot) ->
  Forall2 decoded pbs bs ->
  let st := (apply_snapshot (index_hydrated (in_index s)) snapshot, in_wait s) in
  let fresh := fresh_blocks ({[cs_digest snapshot]} ∪ digest_set_from_blocks pbs) (newest PEER_LIVE_BUFFER_MAX (live_blocks events)) in
  let r := replayed clock st (bs ++ fresh) in
  let tip := catchup_tip snapshot pbs fresh in
  blocks_ok is_event clock st (bs ++ fresh) -> fits r.1 -> is_u64 (pm_block_num tip) ->
  same_live peer_i st.1 /\
  exists s', run_once_start clock now_ms query_account true x (Some cfg) s = Some (s', Live) /\
    (in_index s', in_wait s') = r /\ (hd_block_num (in_head s'), hd_digest (in_head s')) = (pm_block_num tip, pm_digest tip) /\
    hd_catching_up (in_head s') = false /\ in_secondary s' = true /\
    exists actions, in_actions s' = in_actions s ++ actions /\
      let t' := dk_index (foldl (on_disk now_ms) d actions) in persisted t' r.1 /\ read_meta t' = Ok (Some tip).
Proof.
  intros Hx Hu Ht Hev Hm Hi Hp Hf He Hd st fresh r tip Hok Hfr Hn.
  set (live := newest PEER_LIVE_BUFFER_MAX (live_blocks events)) in *.
  assert (buffer_loop [] (si_catchup x) = Some (BxDownloaded snapshot pbs live)) as Hb.
  { rewrite Hev. by apply (buffer_loop_newest []). }
  destruct (catchup_applied is_event clock peer_i peer_t snapshot now_ms d (index_hydrated (in_index s)) (in_wait s)
    (in_head (catching true (subscribed s))) pbs bs live Hi Hp Hf He Hd Hok Hfr Hn) as (HS & head & actions & Ha & Hc & Hpos & Hdisk).
  split; [exact HS|]. eexists. rewrite (start_catching_up x cfg _ t) by done. rewrite Hb. cbn [mbind option_bind].
  assert (take_over clock now_ms (catching true (subscribed s)) snapshot pbs live =
    ({| in_index := r.1; in_wait := r.2; in_head := head; in_secondary := true; in_epoch := in_epoch s; in_actions := in_actions s ++ actions |}, Ok tt)) as ->.
  { unfold take_over. change (in_index (catching true (subscribed s))) with (index_hydrated (in_index s)).
    change (in_wait (catching true (subscribed s))) with (in_wait s). by rewrite Ha. }
  cbn [mbind option_bind]. split; [reflexivity|]. cbn [in_index in_wait in_head in_secondary in_actions].
  split; [symmetry; apply surjective_pairing|]. split; [exact Hpos|]. split; [exact Hc|]. split; [done|]. exists actions. split; [done|exact Hdisk].
Qed.

End Facts.

(** ** Witnesses: a node that lags behind one peer *)

Definition demo_indexer : Indexer (SD := DemoSdk) :=
  Build_Indexer (SD := DemoSdk) (Index_new true) demo_no_waiters demo_head true true [].

Definition demo_tip (url : string) : AppResult PeerTip :=
  if decide (url = "p")%string
  then Ok {| tip_block_num := 100; tip_digest := "d100"; tip_connected := true; tip_checkpoint_block_num := Some 4; tip_checkpoint_digest := Some "d4"%string |}
  else Err (Internal "no peer").

Definition demo_peers : PeerCatchupConfig := {| pc_peer_urls := ["q"; "p"]%string; pc_threshold := 50 |}.

Definition demo_session (blocks : list PeerBlock) : SessionInputs (SD := DemoSdk) :=
  Build_SessionInputs (SD := DemoSdk) false false false None None demo_tip
    [CeMessage (NewBlock (demo_block 7)); CeMessage MsgReceiptBlock; CeMessage (NewBlock (demo_block 8)); CeDownload (Ok (demo_snapshot, blocks))] [].

Lemma first_session_takes_over_witness :
  exists s', run_once_start (SD := DemoSdk) (C := DemoChain) (K := DemoCodec) (fun _ => demo_env) 0 "a1" true (demo_session [(6, "d6"%string, [x06])])
      (Some demo_peers) demo_indexer = Some (s', Live) /\ hd_block_num (in_head s') = 7 /\ in_secondary s' = true.
Proof.
  assert (fits (apply_snapshot (SD := DemoSdk) (Index_new true) demo_snapshot)) as Hf.
  { eapply same_live_fits; [|apply demo_index_fits].
    apply (snapshot_taken (SD := DemoSdk) (C := DemoChain) demo_is_event demo_index demo_tables demo_snapshot (Index_new true)
      (proj1 demo_index_inv) (proj2 demo_index_inv) demo_index_fits eq_refl). }
  edestruct (first_session_takes_over (SD := DemoSdk) (C := DemoChain) (K := DemoCodec) (fun _ => demo_env) 0 "a1" demo_is_event
    (demo_session [(6, "d6"%string, [x06])]) demo_peers demo_indexer)
    with (pbs := [(6, "d6"%string, [x06])]) (bs := [demo_block 6]) (d := demo_disk)
    (events := [CeMessage (NewBlock (demo_block 7)); CeMessage (@MsgReceiptBlock DemoSdk); CeMessage (NewBlock (demo_block 8))])
    as (_ & s' & Es & _ & Eh & _ & Esec & _).
  - repeat split.
  - discriminate.
  - reflexivity.
  - reflexivity.
  - repeat constructor; eexists; (split; [reflexivity|exact I]).
  - apply demo_index_inv.
  - apply demo_index_inv.
  - apply demo_index_fits.
  - reflexivity.
  - constructor; [reflexivity|constructor].
  - split; [apply demo_block_received; vm_compute; split; congruence|].
    split; [apply demo_block_received; vm_compute; split; congruence|exact I].
  - apply empty_block_fits; [reflexivity|]. by apply empty_block_fits.
  - vm_compute. split; congruence.
  - exists s'. split; [exact Es|]. split; [exact (f_equal fst Eh)|exact Esec].
Defined.

Lemma half_takeover_goes_live_witness :
  exists v', supervise_turn (SD := DemoSdk) (C := DemoChain) (K := DemoCodec) (fun _ => demo_env) 0 "a1" true
      (demo_session [(6, "d6"%string, [x06]); (7, "d7"%string, []); (8, "d8"%string, [x08])])
      (Build_Supervisor (SD := DemoSdk) demo_indexer true (Some demo_peers)) = Some v' /\
    hd_block_num (in_head (sv_indexer v')) = 9 /\ hd_catching_up (in_head (sv_indexer v')) = false.
Proof.
  edestruct (half_takeover_goes_live (SD := DemoSdk) (C := DemoChain) (K := DemoCodec) (fun _ => demo_env) 0 "a1"
    (demo_session [(6, "d6"%string, [x06]); (7, "d7"%string, []); (8, "d8"%string, [x08])])
    (Build_Supervisor (SD := DemoSdk) demo_indexer true (Some demo_peers)) demo_peers)
    with (pre := [(6, "d6"%string, [x06])]) (bs := [demo_block 6]) (n := 7) (digest := "d7"%string) (payload := @nil byte)
      (post := [(8, "d8"%string, [x08])]) as (v' & Ev & _ & Eh & _ & Ec & _).
  - repeat split.
  - reflexivity.
  - reflexivity.
  - discriminate.
  - reflexivity.
  - reflexivity.
  - constructor; [reflexivity|constructor].
  - reflexivity.
  - exists v'. split; [exact Ev|]. split; [exact Eh|exact Ec].
Defined.
