(* ===== verification/App.v ===== *)
(** * App: the life of the process, [app.rs], [state.rs] and [PersistWorkers::spawn]

    [App::build] opens the stores the configuration asks for and defers the
    workers; [recover] fills the index and the head; [start_workers] starts each
    deferred part once; the shutdown signal ends in a last checkpoint.  A worker
    is its name: what it does is the subject of Submit, Persist, Tables and
    Supervise.  Sockets, CORS, the log and the failures of [expect] (an address
    or a store that cannot be opened stops the process) are left out. *)
From Stdlib Require Import Strings.Byte.
From S2P Require Import Prelude Text Errors Sdk Keys Domain WriteSet Tables Books BooksFacts BooksPersist Bars Orders Markets Vaults Rings Paper Submit Events.
From S2P Require Import Store Persist Peer Hydrate Writes StoreFacts Processor ProcessorFacts Config OrdersFacts Recover RecoverFacts Supervise.

Local Open Scope list_scope.
Local Open Scope Z_scope.

(** ** The workers *)

Definition encode_workers (lane : string) : list string :=
  (fun worker_id : nat => "persist_sqlite_encode_" +:+ lane +:+ "_" +:+ dec (Z.of_nat worker_id)) <$>
    seq 0 (Nat.max 1 DEFAULT_PERSIST_ENCODE_WORKERS).
Definition spawn_blocks_persist : list string :=
  encode_workers "blocks" ++ ["persist_blocks_coalesce"%string; "persist_blocks_write"%string].
Definition spawn_history_persist : list string :=
  encode_workers "history" ++ ["persist_history_coalesce"%string; "persist_history_write"%string].
Definition spawn_index_state_write : list string := ["persist_index_state_build"%string; "persist_index_state_write"%string].

(** [PersistWorkers]: which pipelines [open] has made receivers for. *)
Record PersistWorkers := { pw_blocks : bool; pw_index : bool }.
Definition persist_workers_spawn (w : PersistWorkers) : list string :=
  (if pw_blocks w then spawn_blocks_persist else []) ++ spawn_history_persist ++ (if pw_index w then spawn_index_state_write else []).

Section App.
Context {SD : Sdk} {B : Bincode} {C : Chain} {PC : PaperChain} {J : Json} {K : BlockCodec}.

(** ** Building *)

(** [AppState]: the parts the life of the process turns on. *)
Record AppState := {
  st_config : Config;
  st_index : Index;
  st_submit_wait : Registry;
  st_head : IndexedBlockHead;
  st_persist : option SharedPersist
}.

Definition AppState_build (cfg : Config) (d : Disk) : AppState * option PersistWorkers :=
  let persist :=
    if cfg_enable_sqlite cfg
    then Some (SharedPersist_open (dk_blocks d) (dk_state d) (dk_index d) (cfg_checkpoint_every_blocks cfg)
                 (cfg_enable_blocks_persist cfg) (cfg_enable_index_state_persist cfg) (cfg_enable_epoch_checkpoint cfg))
    else None in
  ({| st_config := cfg; st_index := Index_new (bool_decide (is_Some persist)); st_submit_wait := SubmitWaitRegistry_new;
      st_head := new_head; st_persist := persist |},
   (fun p => {| pw_blocks := bool_decide (is_Some (sp_blocks_lane p)); pw_index := sp_index_write p |}) <$> persist).

Record App := {
  app_state : AppState;
  app_background : list string;
  app_submit_ingress : bool;
  app_persist_workers : option PersistWorkers;
  app_apply_gate : bool
}.

Definition App_build (cfg : Config) (d : Disk) : App :=
  let '(state, persist_workers) := AppState_build cfg d in
  {| app_state := state; app_background := []; app_submit_ingress := true; app_persist_workers := persist_workers;
     app_apply_gate := cfg_enable_indexer cfg && bool_decide (is_Some (st_persist state)) |}.

(** ** Start-up *)


Definition peer_catchup (cfg : Config) : option PeerCatchupConfig :=
  match cfg_peer_index_urls cfg with
  | [] => None
  | urls => Some {| pc_peer_urls := urls; pc_threshold := cfg_peer_catchup_threshold cfg |}
  end.

(** [take] on the deferred parts: a second call starts none of them again. *)
Definition start_workers (a : App) : App :=
  let background := app_background a ++ (if app_submit_ingress a then ["submit_queue"%string] else []) ++
                    match app_persist_workers a with Some w => persist_workers_spawn w | None => [] end in
  {| app_state := app_state a;
     app_background := if cfg_enable_indexer (st_config (app_state a)) then background ++ ["indexer"%string; "bars_closer"%string] else background;
     app_submit_ingress := false; app_persist_workers := None; app_apply_gate := app_apply_gate a |}.

(** ** Shutdown *)

(** The last checkpoint, once the background tasks have ended or been given up:
    only with a store, the indexer and epoch checkpoints, and with no position
    to skip. *)
Definition shutdown (a : App) (head : IndexedBlockHead) (i : Index) (idle : bool) (meta : AppResult (option PersistMeta))
    : option (AppResult (CheckpointOutcome * list PersistAction)) :=
  match st_persist (app_state a), app_apply_gate a with
  | Some p, true => if sp_epoch_ckpt_configured p then Some (checkpoint_once head i None idle meta) else None
  | _, _ => None
  end.

(** ** Facts *)

(** Every worker is started once, under a name of its own. *)
Lemma start_workers_once cfg d :
  NoDup (app_background (start_workers (App_build cfg d))) /\
  (app_background (start_workers (App_build cfg d)) = app_background (start_workers (start_workers (App_build cfg d))) <->
   cfg_enable_indexer cfg = false).
Proof.
  split.
  - unfold App_build, AppState_build, start_workers. simpl.
    destruct (cfg_enable_sqlite cfg), (cfg_enable_blocks_persist cfg), (cfg_enable_index_state_persist cfg), (cfg_enable_indexer cfg);
      apply (bool_decide_unpack _); vm_compute; exact I.
  - unfold App_build, AppState_build, start_workers. cbn [app_state app_background app_submit_ingress app_persist_workers st_config].
    destruct (cfg_enable_indexer cfg) eqn:E; rewrite ?app_nil_r; [|done].
    split; [|done]. intros H%(f_equal length). rewrite !length_app in H. simpl in H. lia.
Qed.

(** A last checkpoint is taken exactly when the configuration keeps one. *)
Lemma shutdown_checkpoints cfg d head i idle meta :
  is_Some (shutdown (App_build cfg d) head i idle meta) <->
  cfg_enable_sqlite cfg && cfg_enable_indexer cfg && cfg_enable_index_state_persist cfg && cfg_enable_epoch_checkpoint cfg = true.
Proof.
  unfold shutdown, App_build, AppState_build. simpl.
  destruct (cfg_enable_sqlite cfg), (cfg_enable_indexer cfg), (cfg_enable_index_state_persist cfg), (cfg_enable_epoch_checkpoint cfg); simpl;
    (split; [by intros [? ?]|try done; intros _; by eexists]).
Qed.

End App.

(** ** Shutting down and starting again *)

Section Restart.
Context {SD : Sdk} {L : SdkLaws} {NC : NoCollision} {B : Bincode} {C : Chain} {PC : PaperChain} {J : Json} {K : BlockCodec}.
Context (is_event : string -> Prop) (clock : ReceiptBlock -> ProcessEnv).






End Restart.


