(* ===== verification/Timing.v ===== *)
(** * Timing: [persist/timing.rs], the timings of the operations handed to persistence

    Every operation gets an id and an entry in one shared table when it is
    enqueued; the tasks stamp the entry as the operation passes and the writer
    takes it out, reporting what was slow.  An [Instant] is its nanoseconds, a
    [Duration] is nanoseconds; sums of durations stay far below their range.
    The line of text a report prints is left out: a report is the id and the
    level.  A definition is one access to the table. *)
From S2P Require Import Prelude Text Errors Sdk Keys Domain WriteSet Rings Paper Events Store.

Local Open Scope list_scope.
Local Open Scope Z_scope.

Definition MAX_ENTRIES : nat := 4096.
Definition SLOW_PERSIST_THRESHOLD : Z := 50 * 1000000.

Inductive PersistOpKind :=
| KBlock | KOrderHistory | KClosedBar | KPaperHouseHistory | KPaperPositionHistory | KIndexWrite.

Definition kind_name (k : PersistOpKind) : string :=
  match k with
  | KBlock => "block" | KOrderHistory => "history" | KClosedBar => "bar" | KPaperHouseHistory => "paper_house"
  | KPaperPositionHistory => "paper_position" | KIndexWrite => "index"
  end.

Definition from_op {SD : Sdk} (op : PersistOp) : PersistOpKind :=
  match op with
  | SaveReceiptBlock _ => KBlock | UpsertOrderHistory _ => KOrderHistory | SaveClosedBar _ => KClosedBar
  | SavePaperHouseHistory _ => KPaperHouseHistory | SavePaperPositionHistory _ => KPaperPositionHistory | IndexWrite _ => KIndexWrite
  end.

Definition block_num_of {SD : Sdk} (op : PersistOp) : option Z :=
  match op with SaveReceiptBlock block => Some (rb_block_num block) | IndexWrite ws => Some (ws_block_num ws) | _ => None end.

Record PersistOpTiming := {
  tm_kind : PersistOpKind; tm_block_num : option Z; tm_encode_worker : option nat;
  tm_t0 : Z; tm_t1 : option Z; tm_t2 : option Z; tm_t3 : option Z; tm_t4 : option Z; tm_t5 : option Z
}.

Record PersistTimingCollector := { next_id : Z; entries : gmap Z PersistOpTiming }.

Definition PersistTimingCollector_new : PersistTimingCollector := {| next_id := 1; entries := ∅ |}.

Definition with_entries (f : gmap Z PersistOpTiming -> gmap Z PersistOpTiming) (c : PersistTimingCollector) : PersistTimingCollector :=
  {| next_id := next_id c; entries := f (entries c) |}.

(** ** Operations *)

(** A full table keeps the younger half. *)
Definition maybe_trim (c : PersistTimingCollector) : PersistTimingCollector :=
  if decide (size (entries c) < MAX_ENTRIES)%nat then c
  else
    let keys := merge_sort Z.le (map_to_list (entries c)).*1 in
    let remove_count := (length keys - MAX_ENTRIES / 2)%nat in
    with_entries (fun m => foldl (fun m key => delete key m) m (take remove_count keys)) c.

(** [fetch_add] wraps around. *)
Definition mark_enqueued (now : Z) (kind : PersistOpKind) (block_num : option Z) (c : PersistTimingCollector) : PersistTimingCollector * Z :=
  let c := maybe_trim c in
  let op_id := next_id c in
  ({| next_id := as_u64 (op_id + 1);
      entries := <[op_id := {| tm_kind := kind; tm_block_num := block_num; tm_encode_worker := None; tm_t0 := now; tm_t1 := None;
                               tm_t2 := None; tm_t3 := None; tm_t4 := None; tm_t5 := None |}]> (entries c) |}, op_id).

Definition cancel (op_id : Z) : PersistTimingCollector -> PersistTimingCollector := with_entries (delete op_id).

Definition mark_encode_start (now op_id : Z) (worker_id : nat) : PersistTimingCollector -> PersistTimingCollector :=
  with_entries (alter (fun e => {| tm_kind := tm_kind e; tm_block_num := tm_block_num e; tm_encode_worker := Some worker_id;
    tm_t0 := tm_t0 e; tm_t1 := Some now; tm_t2 := tm_t2 e; tm_t3 := tm_t3 e; tm_t4 := tm_t4 e; tm_t5 := tm_t5 e |}) op_id).
Definition mark_encode_done (now op_id : Z) : PersistTimingCollector -> PersistTimingCollector :=
  with_entries (alter (fun e => {| tm_kind := tm_kind e; tm_block_num := tm_block_num e; tm_encode_worker := tm_encode_worker e;
    tm_t0 := tm_t0 e; tm_t1 := tm_t1 e; tm_t2 := Some now; tm_t3 := tm_t3 e; tm_t4 := tm_t4 e; tm_t5 := tm_t5 e |}) op_id).
Definition mark_encoded_sent (now op_id : Z) : PersistTimingCollector -> PersistTimingCollector :=
  with_entries (alter (fun e => {| tm_kind := tm_kind e; tm_block_num := tm_block_num e; tm_encode_worker := tm_encode_worker e;
    tm_t0 := tm_t0 e; tm_t1 := tm_t1 e; tm_t2 := tm_t2 e; tm_t3 := Some now; tm_t4 := tm_t4 e; tm_t5 := tm_t5 e |}) op_id).
Definition mark_coalesce_recv (now op_id : Z) : PersistTimingCollector -> PersistTimingCollector :=
  with_entries (alter (fun e => {| tm_kind := tm_kind e; tm_block_num := tm_block_num e; tm_encode_worker := tm_encode_worker e;
    tm_t0 := tm_t0 e; tm_t1 := tm_t1 e; tm_t2 := tm_t2 e; tm_t3 := tm_t3 e; tm_t4 := Some now; tm_t5 := tm_t5 e |}) op_id).
Definition mark_batch_sent (now : Z) (op_ids : list Z) (c : PersistTimingCollector) : PersistTimingCollector :=
  foldl (fun c op_id => with_entries (alter (fun e =>
    {| tm_kind := tm_kind e; tm_block_num := tm_block_num e; tm_encode_worker := tm_encode_worker e; tm_t0 := tm_t0 e;
       tm_t1 := tm_t1 e; tm_t2 := tm_t2 e; tm_t3 := tm_t3 e; tm_t4 := tm_t4 e; tm_t5 := Some now |}) op_id) c) c op_ids.

Inductive Report := Warn (op_id : Z) | Debug (op_id : Z).

(** [saturating_duration_since]. *)
Definition duration_since (earlier now : Z) : Z := Z.max 0 (now - earlier).

(** Enqueued to written; the write alone if the batch was not stamped. *)
Definition total (write batch_wait : Z) (t : PersistOpTiming) : Z :=
  match tm_t5 t with Some t5 => duration_since (tm_t0 t) t5 + batch_wait + write | None => write end.

Definition finish_one (debug_enabled : bool) (write batch_wait : Z) (s : PersistTimingCollector * list Report) (op_id : Z)
    : PersistTimingCollector * list Report :=
  match entries s.1 !! op_id with
  | None => s
  | Some timing =>
      let slow := bool_decide (SLOW_PERSIST_THRESHOLD <= total write batch_wait timing) || bool_decide (SLOW_PERSIST_THRESHOLD <= write) in
      (cancel op_id s.1,
       s.2 ++ (if slow || debug_enabled then [if slow then Warn op_id else Debug op_id] else []))
  end.
Definition finish_write (debug_enabled : bool) (op_ids : list Z) (write batch_wait : Z) (c : PersistTimingCollector)
    : PersistTimingCollector * list Report :=
  foldl (finish_one debug_enabled write batch_wait) (c, []) op_ids.

(** ** The table stays small *)

(** Ids are handed out in order. *)
Record timing_ok (c : PersistTimingCollector) : Prop := {
  tk_size : (size (entries c) <= MAX_ENTRIES)%nat;
  tk_ids k e : entries c !! k = Some e -> k < next_id c
}.

Lemma timing_new_ok : timing_ok PersistTimingCollector_new.
Proof. split; simpl; [rewrite map_size_empty; lia|]. intros k e. by rewrite lookup_empty. Qed.

Lemma foldl_delete_lookup {V} (m : gmap Z V) keys k :
  foldl (fun m key => delete key m) m keys !! k = if decide (k ∈ keys) then None else m !! k.
Proof.
  revert m. induction keys as [|k' keys IH]; intros m; [done|]. simpl. rewrite IH.
  destruct (decide (k = k')) as [->|Hn].
  - rewrite (decide_True (P := k' ∈ k' :: keys)) by apply list_elem_of_here. rewrite lookup_delete_eq. by case_decide.
  - rewrite lookup_delete_ne by done. assert (k ∈ k' :: keys <-> k ∈ keys) as Hk by set_solver.
    destruct (decide (k ∈ keys)), (decide (k ∈ k' :: keys)); tauto.
Qed.

Lemma foldl_delete_size {V} (m : gmap Z V) keys :
  NoDup keys -> (forall k, k ∈ keys -> is_Some (m !! k)) ->
  size (foldl (fun m key => delete key m) m keys) = (size m - length keys)%nat.
Proof.
  revert m. induction keys as [|k keys IH]; intros m Hn Hk; simpl; [lia|]. apply NoDup_cons in Hn as [Hk' Hn].
  rewrite IH; [|done|].
  - assert (is_Some (m !! k)) as [v Hv] by (apply Hk, list_elem_of_here). rewrite map_size_delete, Hv. simpl. lia.
  - intros k' Hin. rewrite lookup_delete_ne by congruence. by apply Hk, list_elem_of_further.
Qed.

Lemma trim_keys (m : gmap Z PersistOpTiming) :
  let keys := merge_sort Z.le (map_to_list m).*1 in
  NoDup keys /\ length keys = size m /\ StronglySorted Z.le keys /\ forall k, k ∈ keys <-> is_Some (m !! k).
Proof.
  cbv zeta. pose proof (merge_sort_Permutation Z.le (map_to_list m).*1) as Hp. split_and!.
  - rewrite Hp. apply NoDup_fst_map_to_list.
  - by rewrite Hp, length_fmap, length_map_to_list.
  - apply Sorted_StronglySorted; [intros ???; lia|]. apply Sorted_merge_sort. intros x y. lia.
  - intros k. rewrite Hp, list_elem_of_fmap. split.
    + intros ([k' v] & -> & Hin%elem_of_map_to_list). by eexists.
    + intros [v Hv]. exists (k, v). split; [done|]. by apply elem_of_map_to_list.
Qed.

(** A full table is halved, and what goes is older than what stays. *)
Lemma trim_halves c :
  let c' := maybe_trim c in
  next_id c' = next_id c /\ entries c' ⊆ entries c /\
  size (entries c') = (if decide (size (entries c) < MAX_ENTRIES)%nat then size (entries c) else MAX_ENTRIES / 2)%nat /\
  forall k k' e e', entries c !! k = Some e -> entries c' !! k = None -> entries c' !! k' = Some e' -> k < k'.
Proof.
  cbv zeta. unfold maybe_trim. case_decide as Hs; simpl.
  { split_and!; [done..|]. intros. congruence. }
  destruct (trim_keys (entries c)) as (Hn & Hl & Hsort & Hin). set (keys := merge_sort Z.le (map_to_list (entries c)).*1) in *.
  set (n := (length keys - MAX_ENTRIES / 2)%nat). rewrite <- (take_drop n keys) in Hn, Hsort.
  apply NoDup_app in Hn as (Hn & Hdisj & _). apply StronglySorted_app in Hsort as (Hle & _ & _). split_and!.
  - done.
  - apply map_subseteq_spec. intros k e. rewrite foldl_delete_lookup. by case_decide.
  - rewrite foldl_delete_size; [|done|].
    + rewrite length_take, <- Hl. unfold n. unfold MAX_ENTRIES in Hs. lia.
    + intros k Hk. apply Hin. rewrite <- (take_drop n keys). apply elem_of_app. by left.
  - intros k k' e e'. rewrite !foldl_delete_lookup. intros Hk. case_decide as Hk1; [|congruence]. intros _. case_decide as Hk2; [done|].
    intros Hk'. assert (k' ∈ drop n keys) as Hd.
    { assert (k' ∈ keys) as H by (apply Hin; by eexists). rewrite <- (take_drop n keys) in H. by apply elem_of_app in H as [|]. }
    specialize (Hle _ _ Hk1 Hd). assert (k <> k') by (intros ->; by eapply Hdisj). lia.
Qed.

(** ** Any sequence of accesses *)

Inductive TimingOp :=
| TEnqueued (now : Z) (kind : PersistOpKind) (block_num : option Z)
| TCancel (op_id : Z)
| TEncodeStart (now op_id : Z) (worker_id : nat)
| TEncodeDone (now op_id : Z)
| TEncodedSent (now op_id : Z)
| TCoalesceRecv (now op_id : Z)
| TBatchSent (now : Z) (op_ids : list Z)
| TFinish (debug_enabled : bool) (op_ids : list Z) (write batch_wait : Z).

Definition timing_step (c : PersistTimingCollector) (op : TimingOp) : PersistTimingCollector :=
  match op with
  | TEnqueued now kind n => (mark_enqueued now kind n c).1
  | TCancel op_id => cancel op_id c
  | TEncodeStart now op_id w => mark_encode_start now op_id w c
  | TEncodeDone now op_id => mark_encode_done now op_id c
  | TEncodedSent now op_id => mark_encoded_sent now op_id c
  | TCoalesceRecv now op_id => mark_coalesce_recv now op_id c
  | TBatchSent now op_ids => mark_batch_sent now op_ids c
  | TFinish debug_enabled op_ids write batch_wait => (finish_write debug_enabled op_ids write batch_wait c).1
  end.

(** No new entry, and the same ids. *)
Definition shrinks (c c' : PersistTimingCollector) : Prop := next_id c' = next_id c /\ dom (entries c') ⊆ dom (entries c).

#[global] Instance shrinks_po : PreOrder shrinks.
Proof. split; [by intros c|]. intros c1 c2 c3 [H1 H2] [H3 H4]. split; [congruence|set_solver]. Qed.

Lemma shrinks_alter f op_id c : shrinks c (with_entries (alter f op_id) c).
Proof. split; [done|]. simpl. by rewrite dom_alter. Qed.

Lemma shrinks_cancel op_id c : shrinks c (cancel op_id c).
Proof. split; [done|]. simpl. rewrite dom_delete. set_solver. Qed.

Lemma shrinks_fold {A} (f : PersistTimingCollector -> A -> PersistTimingCollector) l c :
  (forall c a, shrinks c (f c a)) -> shrinks c (foldl f c l).
Proof. intros Hf. revert c. induction l as [|a l IH]; intros c; simpl; [done|]. etransitivity; [apply Hf|apply IH]. Qed.

Lemma shrinks_finish debug_enabled op_ids write batch_wait c : shrinks c (finish_write debug_enabled op_ids write batch_wait c).1.
Proof.
  unfold finish_write. generalize (@nil Report). revert c. induction op_ids as [|k op_ids IH]; intros c r; simpl; [done|].
  unfold finish_one at 2. simpl. destruct (entries c !! k); [|apply IH]. etransitivity; [apply (shrinks_cancel k)|apply IH].
Qed.

Lemma shrinks_ok c c' : timing_ok c -> shrinks c c' -> timing_ok c'.
Proof.
  intros [Hs Hk] [Hn Hd]. split.
  - etransitivity; [|exact Hs]. rewrite <- !size_dom. by apply subseteq_size.
  - intros k e Hk'. rewrite Hn. assert (k ∈ dom (entries c)) as [e' He]%elem_of_dom by (by eapply Hd, elem_of_dom_2). by eapply Hk.
Qed.

Lemma mark_enqueued_ok now kind n c :
  timing_ok c -> 0 <= next_id c < u64_max ->
  timing_ok (mark_enqueued now kind n c).1 /\ next_id (mark_enqueued now kind n c).1 = next_id c + 1.
Proof.
  intros [Hs Hk] Hn. destruct (trim_halves c) as (Hi & Hsub & Hsz & _). unfold mark_enqueued. simpl. rewrite Hi.
  assert (entries (maybe_trim c) !! next_id c = None) as Hfresh.
  { destruct (_ !! _) eqn:E; [|done]. eapply lookup_weaken in E; [|exact Hsub]. apply Hk in E. lia. }
  rewrite as_u64_id by mach. split; [|done]. split; simpl; rewrite ?as_u64_id by mach.
  - rewrite map_size_insert_None by done. rewrite Hsz. case_decide; [lia|]. unfold MAX_ENTRIES. vm_compute. lia.
  - intros k e. destruct (decide (k = next_id c)) as [->|]; [lia|]. rewrite lookup_insert_ne by done.
    intros E. eapply lookup_weaken in E; [|exact Hsub]. apply Hk in E. lia.
Qed.

Lemma step_shrinks op c : (exists now kind n, op = TEnqueued now kind n) \/ shrinks c (timing_step c op).
Proof.
  destruct op; [left; by eauto|right..]; simpl;
    first [apply shrinks_cancel|apply shrinks_finish|apply shrinks_alter|apply shrinks_fold; intros; apply shrinks_alter].
Qed.

(** Whatever the tasks do, the table never holds more than [MAX_ENTRIES], and
    no id is given twice while it counts below 2^64. *)
Lemma timing_bounded ops c :
  timing_ok c -> 0 <= next_id c -> next_id c + Z.of_nat (length ops) <= u64_max ->
  timing_ok (foldl timing_step c ops) /\ next_id c <= next_id (foldl timing_step c ops) <= next_id c + Z.of_nat (length ops).
Proof.
  revert c. induction ops as [|op ops IH]; intros c Hc H0 Hl; simpl; [split; [done|lia]|].
  simpl in Hl. assert (timing_ok (timing_step c op) /\ next_id c <= next_id (timing_step c op) <= next_id c + 1) as [H1 H2].
  { destruct (step_shrinks op c) as [(now & kind & n & ->)|Hsh].
    - cbn [timing_step]. destruct (mark_enqueued_ok now kind n c Hc) as [H ->]; [lia|]. split; [done|lia].
    - split; [by eapply shrinks_ok|]. destruct Hsh as [-> _]. lia. }
  destruct (IH _ H1) as [H3 H4]; [lia|lia|]. split; [done|lia].
Qed.

(** Slow from enqueue to write, fast, and cancelled before the write. *)
Example finish_reports_slow :
  let c := (mark_enqueued 0 KBlock (Some 7) PersistTimingCollector_new).1 in
  let c := (mark_enqueued 55000000 KIndexWrite (Some 7) c).1 in
  let c := (mark_enqueued 55000000 KClosedBar None c).1 in
  let c := cancel 3 (mark_batch_sent 60000000 [1; 2; 3] c) in
  finish_write false [1; 2; 3] 1000000 500000 c = ({| next_id := 4; entries := ∅ |}, [Warn 1]).
Proof. vm_compute. reflexivity. Qed.
