(* ===== verification/TypedStore.v ===== *)
(** * TypedStore: [crates/typed-store], typed maps over byte column families

    [rocks/mod.rs] ([Database], [DBMap], [DBBatch], the range options),
    [rocks/memstore.rs] and [rocks/safe_iter.rs].  A key is written with
    bincode (big endian, fixed width), a value with bcs: the two codecs are the
    classes [Bincode] and [Bcs].  RocksDB is the class [Rocks], whose documented
    behaviour (column families ordered by bytes, atomic batches, scans within
    the bounds of the read options) is [RocksLaws]; a column family it does not
    have is the panic of [cf_handle(..).expect(..)].  Metrics, perf contexts,
    fail points, options and the feature [tide_hunter] (off) are left out. *)
From Stdlib Require Import Strings.Byte.
From S2P Require Import Prelude.

Local Open Scope list_scope.
Local Open Scope Z_scope.

(** ** Byte strings, compared as RocksDB compares keys *)

Notation bytes := (list byte).

#[global] Instance byte_eq_dec : EqDecision byte := Byte.byte_eq_dec.
#[global] Instance byte_countable : Countable byte := inj_countable Byte.to_N Byte.of_N Byte.of_to_N.

Definition byte_val (b : byte) : Z := Z.of_N (Byte.to_N b).
(** [v[i] += 1] below the maximum. *)
Definition byte_incr (b : byte) : byte := default x00 (Byte.of_N (Byte.to_N b + 1)).

Fixpoint bytes_lt (a b : bytes) : bool :=
  match a, b with
  | _, [] => false
  | [], _ :: _ => true
  | x :: a, y :: b => (byte_val x <? byte_val y) || ((byte_val x =? byte_val y) && bytes_lt a b)
  end.

(** The number a byte string is, big endian. *)
Fixpoint be_val (v : bytes) : Z :=
  match v with [] => 0 | b :: v => byte_val b * 256 ^ Z.of_nat (length v) + be_val v end.

Definition is_max (v : bytes) : bool := forallb (fun x => byte_val x =? 255) v.

(** The loop over [(0..v.len()).rev()], on the reversed key. *)
Fixpoint carry (r : bytes) : bytes :=
  match r with
  | [] => []
  | b :: r => if byte_val b =? 255 then x00 :: carry r else byte_incr b :: r
  end.

Definition big_endian_saturating_add_one (v : bytes) : bytes :=
  if is_max v then v else reverse (carry (reverse v)).

Lemma byte_val_range b : 0 <= byte_val b <= 255.
Proof. unfold byte_val. pose proof (Byte.to_N_bounded b). lia. Qed.

Lemma byte_val_inj a b : byte_val a = byte_val b -> a = b.
Proof.
  unfold byte_val. intros H. apply (inj Some). rewrite <- !Byte.of_to_N. f_equal. lia.
Qed.

Lemma byte_incr_val b : byte_val b <> 255 -> byte_val (byte_incr b) = byte_val b + 1.
Proof. destruct b; intros H; try reflexivity. by destruct H. Qed.

Lemma pow256_succ n : 256 ^ Z.of_nat (S n) = 256 * 256 ^ Z.of_nat n.
Proof. rewrite Nat2Z.inj_succ, Z.pow_succ_r; lia. Qed.

Lemma pow256_pos n : 0 < 256 ^ Z.of_nat n.
Proof. apply Z.pow_pos_nonneg; lia. Qed.

Lemma be_val_range v : 0 <= be_val v < 256 ^ Z.of_nat (length v).
Proof.
  induction v as [|b v IH]; [done|]. cbn [be_val length]. rewrite pow256_succ.
  pose proof (byte_val_range b). nia.
Qed.

Lemma be_val_app a b : be_val (a ++ b) = be_val a * 256 ^ Z.of_nat (length b) + be_val b.
Proof.
  induction a as [|x a IH]; [done|]. simpl. rewrite IH, length_app, Nat2Z.inj_add, Z.pow_add_r by lia. lia.
Qed.

(** Keys of one width are ordered as numbers. *)
Lemma bytes_lt_val a b : length a = length b -> bytes_lt a b = (be_val a <? be_val b).
Proof.
  revert b. induction a as [|x a IH]; intros [|y b] Hl; [done|done|done|]. injection Hl as Hl.
  cbn [bytes_lt be_val]. rewrite (IH b Hl), Hl.
  pose proof (be_val_range a) as Ha. pose proof (be_val_range b) as Hb. rewrite Hl in Ha.
  revert Ha Hb. pose proof (pow256_pos (length b)). generalize (256 ^ Z.of_nat (length b)) as n.
  intros n Ha Hb. destruct (Z.ltb_spec (byte_val x) (byte_val y)) as [Hlt|Hge]; simpl.
  - symmetry. apply Z.ltb_lt. nia.
  - destruct (Z.eqb_spec (byte_val x) (byte_val y)) as [->|Hne]; simpl.
    + destruct (Z.ltb_spec (be_val a) (be_val b)); symmetry; [apply Z.ltb_lt|apply Z.ltb_ge]; lia.
    + symmetry. apply Z.ltb_ge. nia.
Qed.

Lemma is_max_val v : is_max v = (be_val v =? 256 ^ Z.of_nat (length v) - 1).
Proof.
  induction v as [|b v IH]; [done|]. cbn [is_max forallb be_val length]. fold (is_max v). rewrite IH, pow256_succ.
  pose proof (be_val_range v) as Hv. pose proof (byte_val_range b).
  revert Hv. generalize (256 ^ Z.of_nat (length v)) as n. intros n Hv.
  destruct (Z.eqb_spec (byte_val b) 255) as [->|]; simpl.
  - destruct (Z.eqb_spec (be_val v) (n - 1)); symmetry; [apply Z.eqb_eq|apply Z.eqb_neq]; lia.
  - symmetry. apply Z.eqb_neq. nia.
Qed.

Lemma carry_length r : length (carry r) = length r.
Proof. induction r as [|b r IH]; [done|]. simpl. destruct (byte_val b =? 255); simpl; by rewrite ?IH. Qed.

Lemma carry_val r : is_max r = false -> be_val (reverse (carry r)) = be_val (reverse r) + 1.
Proof.
  induction r as [|b r IH]; intros Hm; [done|]. cbn [carry]. cbn [is_max forallb] in Hm.
  destruct (Z.eqb_spec (byte_val b) 255) as [Hb|Hb]; simpl in Hm.
  - rewrite !reverse_cons, !be_val_app, (IH Hm). cbn [be_val length]. rewrite Hb. change (byte_val x00) with 0. lia.
  - rewrite !reverse_cons, !be_val_app. cbn [be_val length]. rewrite byte_incr_val by done. lia.
Qed.

Lemma is_max_reverse v : is_max (reverse v) = is_max v.
Proof.
  unfold is_max. apply eq_bool_prop_intro. rewrite !Is_true_true, !forallb_forall.
  split; intros H x Hx; apply H; apply list_elem_of_In in Hx; apply list_elem_of_In; by rewrite ?elem_of_reverse in *.
Qed.

Lemma add_one_length v : length (big_endian_saturating_add_one v) = length v.
Proof. unfold big_endian_saturating_add_one. destruct (is_max v); [done|]. by rewrite length_reverse, carry_length, length_reverse. Qed.

(** One more than the number, unless it is the largest of its width. *)
Lemma add_one_val v :
  be_val (big_endian_saturating_add_one v) = if is_max v then be_val v else be_val v + 1.
Proof.
  unfold big_endian_saturating_add_one. destruct (is_max v) eqn:Hm; [done|].
  rewrite carry_val by by rewrite is_max_reverse. by rewrite reverse_involutive.
Qed.

Lemma not_lt_val (a b : bytes) : length a = length b -> (negb (bytes_lt a b) = true <-> be_val b <= be_val a).
Proof. intros Hl. rewrite bytes_lt_val by done. rewrite negb_true_iff, Z.ltb_ge. done. Qed.

Lemma lt_val (a b : bytes) : length a = length b -> (bytes_lt a b = true <-> be_val a < be_val b).
Proof. intros Hl. rewrite bytes_lt_val by done. by rewrite Z.ltb_lt. Qed.

Lemma bytes_lt_irrefl a : bytes_lt a a = false.
Proof. induction a as [|x a IH]; [done|]. simpl. by rewrite Z.ltb_irrefl, Z.eqb_refl, IH. Qed.

Lemma bytes_lt_cons x y a b :
  bytes_lt (x :: a) (y :: b) = true <-> byte_val x < byte_val y \/ (byte_val x = byte_val y /\ bytes_lt a b = true).
Proof. simpl. by rewrite orb_true_iff, andb_true_iff, Z.ltb_lt, Z.eqb_eq. Qed.

Lemma bytes_lt_trans a b c : bytes_lt a b = true -> bytes_lt b c = true -> bytes_lt a c = true.
Proof.
  revert b c. induction a as [|x a IH]; intros [|y b] [|z c] H1 H2; try done.
  apply bytes_lt_cons in H1, H2. apply bytes_lt_cons.
  destruct H1 as [?|[? H1]], H2 as [?|[? H2]]; [left; lia|left; lia|left; lia|].
  right. split; [lia|by apply (IH b)].
Qed.

Lemma bytes_lt_total a b : bytes_lt a b = false -> bytes_lt b a = false -> a = b.
Proof.
  revert b. induction a as [|x a IH]; intros [|y b] H1 H2; try done.
  apply not_true_iff_false in H1, H2. rewrite bytes_lt_cons in H1, H2.
  assert (byte_val x = byte_val y) as Hxy by lia. rewrite (byte_val_inj x y Hxy) in *. f_equal.
  apply IH; apply not_true_iff_false; tauto.
Qed.

(** The order rows are scanned in. *)
Definition row_le (x y : bytes * bytes) : Prop := bytes_lt y.1 x.1 = false.
#[global] Instance row_le_dec x y : Decision (row_le x y) := decide (bytes_lt y.1 x.1 = false).

#[global] Instance row_le_total : Total row_le.
Proof.
  intros x y. unfold row_le. destruct (bytes_lt y.1 x.1) eqn:E1; [right|by left].
  destruct (bytes_lt x.1 y.1) eqn:E2; [|done].
  pose proof (bytes_lt_trans _ _ _ E1 E2) as H. by rewrite bytes_lt_irrefl in H.
Qed.

#[global] Instance row_le_trans : Transitive row_le.
Proof.
  intros x y z. unfold row_le. intros H1 H2. apply not_true_iff_false. intros H3.
  destruct (bytes_lt x.1 y.1) eqn:E.
  - pose proof (bytes_lt_trans _ _ _ H3 E). congruence.
  - rewrite (bytes_lt_total _ _ E H1) in *. congruence.
Qed.

(** ** Errors *)

Inductive TypedStoreError :=
| RocksDBError (msg : string)
| SerializationError (msg : string)
| UnregisteredColumn (name : string)
| CrossDBBatch
| MetricsReporting
| RetryableTransactionError.

(** A call returns, fails, or panics. *)
Inductive TResult (A : Type) :=
| TOk (a : A)
| TErr (e : TypedStoreError)
| TPanic.
Arguments TOk {A} _.
Arguments TErr {A} _.
Arguments TPanic {A}.

#[global] Instance TResult_bind : MBind TResult := fun A B f r =>
  match r with TOk a => f a | TErr e => TErr e | TPanic => TPanic end.

Definition of_result {A} (mk : string -> TypedStoreError) (r : A + string) : TResult A :=
  match r with inl a => TOk a | inr msg => TErr (mk msg) end.
Definition typed_store_err_from_bincode_err (msg : string) : TypedStoreError := SerializationError msg.
Definition typed_store_err_from_bcs_err (msg : string) : TypedStoreError := SerializationError msg.
Definition typed_store_err_from_rocks_err (msg : string) : TypedStoreError := RocksDBError msg.
Definition invariant_violation {A} : TResult A := TErr (RocksDBError "typed store invariant violation").

(** ** Changes of one column family: [None] deletes *)

Definition map_write {K V} `{Countable K} (cs : list (K * option V)) (m : gmap K V) : gmap K V :=
  foldl (fun m c => partial_alter (fun _ => c.2) c.1 m) m cs.

Lemma map_write_app {K V} `{Countable K} (a b : list (K * option V)) m :
  map_write (a ++ b) m = map_write b (map_write a m).
Proof. apply foldl_app. Qed.

(** ** [rocks/memstore.rs] *)

Inductive InMemoryChange :=
| MemDelete (cf : string) (key : bytes)
| MemPut (cf : string) (key value : bytes).

Notation InMemoryDB := (gmap string (gmap bytes bytes)).

Definition mem_get (db : InMemoryDB) (cf : string) (key : bytes) : option bytes :=
  match db !! cf with Some rows => rows !! key | None => None end.

(** No answers at all, not [None] for each key, when the column family is absent. *)
Definition mem_multi_get (db : InMemoryDB) (cf : string) (keys : list bytes) : list (option bytes) :=
  match db !! cf with Some rows => (fun k => rows !! k) <$> keys | None => [] end.

Definition mem_delete (db : InMemoryDB) (cf : string) (key : bytes) : InMemoryDB :=
  <[cf := delete key (default ∅ (db !! cf))]> db.
Definition mem_put (db : InMemoryDB) (cf : string) (key value : bytes) : InMemoryDB :=
  <[cf := <[key := value]> (default ∅ (db !! cf))]> db.

Definition mem_step (db : InMemoryDB) (c : InMemoryChange) : InMemoryDB :=
  match c with MemDelete cf key => mem_delete db cf key | MemPut cf key value => mem_put db cf key value end.
Definition mem_write (db : InMemoryDB) (batch : list InMemoryChange) : InMemoryDB := foldl mem_step db batch.
Definition mem_drop_cf (db : InMemoryDB) (name : string) : InMemoryDB := delete name db.

(** ** RocksDB *)

Record ReadOptions := { ro_lower : option bytes; ro_upper : option bytes; ro_ignore_range_deletions : bool }.

(** The lower bound is inclusive, the upper one exclusive. *)
Definition in_bounds (ro : ReadOptions) (key : bytes) : bool :=
  match ro_lower ro with Some lo => negb (bytes_lt key lo) | None => true end &&
  match ro_upper ro with Some hi => bytes_lt key hi | None => true end.

(** The updates collected in a [rocksdb::WriteBatch]. *)
Inductive RocksChange :=
| RkDelete (cf : string) (key : bytes)
| RkPut (cf : string) (key value : bytes)
| RkDeleteRange (cf : string) (from to : bytes).

Class Rocks := {
  rocks_db : Type;
  cf_handle : rocks_db -> string -> bool;
  rk_get : rocks_db -> ReadOptions -> string -> bytes -> option bytes + string;
  rk_multi_get : rocks_db -> ReadOptions -> string -> list bytes -> list (option bytes + string);
  rk_key_may_exist : rocks_db -> ReadOptions -> string -> bytes -> bool;
  rk_put : rocks_db -> string -> bytes -> bytes -> rocks_db + string;
  rk_delete : rocks_db -> string -> bytes -> rocks_db + string;
  rk_write : rocks_db -> list RocksChange -> rocks_db + string;
  rk_create_cf : rocks_db -> string -> rocks_db + string;
  rk_drop_cf : rocks_db -> string -> rocks_db + string;
  (** The rows [seek_to_first] and [next] visit, and the error of [status], if
      any, once the iterator is no longer valid. *)
  rk_scan : rocks_db -> ReadOptions -> string -> list (bytes * bytes) * option string;
  (** The same for [seek_to_last] or [seek_for_prev(key)] and [prev]. *)
  rk_scan_back : rocks_db -> ReadOptions -> string -> option bytes -> list (bytes * bytes) * option string
}.

Definition rocks_step (v : gmap string (gmap bytes bytes)) (c : RocksChange) : gmap string (gmap bytes bytes) :=
  match c with
  | RkDelete cf key => alter (delete key) cf v
  | RkPut cf key value => alter <[key := value]> cf v
  | RkDeleteRange cf from to => alter (filter (fun p => ~ (bytes_lt p.1 from = false /\ bytes_lt p.1 to = true))) cf v
  end.

Definition is_range (c : RocksChange) : bool := match c with RkDeleteRange _ _ _ => true | _ => false end.

(** The rows of a column family in the order of their keys. *)
Definition scan_rows (rows : gmap bytes bytes) : list (bytes * bytes) := merge_sort row_le (map_to_list rows).

(** A scan visits the rows from the start, all of them unless it fails. *)
Definition scan_of (status : option string) (seen rows : list (bytes * bytes)) : Prop :=
  match status with None => seen = rows | Some _ => seen `prefix_of` rows end.

(** What the program relies on.  [rk_view] are the rows once every range
    deletion has taken effect; [rk_settled] says none is pending, without which
    reads that ignore range deletions may still see deleted rows. *)
Class RocksLaws `{R : Rocks} := {
  rk_view : rocks_db -> gmap string (gmap bytes bytes);
  rk_settled : rocks_db -> Prop;
  rk_handle db cf : cf_handle db cf = bool_decide (is_Some (rk_view db !! cf));
  rk_get_law db ro cf key o :
    ro_ignore_range_deletions ro = false \/ rk_settled db -> rk_get db ro cf key = inl o -> o = rk_view db !! cf ≫= lookup key;
  rk_multi_get_law db ro cf keys : rk_multi_get db ro cf keys = rk_get db ro cf <$> keys;
  rk_may_exist_law db ro cf key :
    ro_ignore_range_deletions ro = false \/ rk_settled db -> is_Some (rk_view db !! cf ≫= lookup key) -> rk_key_may_exist db ro cf key = true;
  rk_put_law db cf key value : rk_put db cf key value = rk_write db [RkPut cf key value];
  rk_delete_law db cf key : rk_delete db cf key = rk_write db [RkDelete cf key];
  rk_write_law db cs db' :
    rk_write db cs = inl db' -> rk_view db' = foldl rocks_step (rk_view db) cs /\
    (rk_settled db -> existsb is_range cs = false -> rk_settled db');
  rk_scan_law db ro cf rows status :
    ro_ignore_range_deletions ro = false \/ rk_settled db -> rk_scan db ro cf = (rows, status) ->
    scan_of status rows (filter (fun p => in_bounds ro p.1 = true) (scan_rows (default ∅ (rk_view db !! cf))));
  rk_scan_back_law db ro cf from rows status :
    ro_ignore_range_deletions ro = false \/ rk_settled db -> rk_scan_back db ro cf from = (rows, status) ->
    scan_of status rows
      (reverse (filter (fun p => in_bounds ro p.1 && match from with Some k => negb (bytes_lt k p.1) | None => true end = true)
                       (scan_rows (default ∅ (rk_view db !! cf)))))
}.

(** ** Serialization *)

Class Bincode (K : Type) := {
  bincode_serialize : K -> bytes + string;
  bincode_deserialize : bytes -> K + string
}.
Class BincodeLaws (K : Type) `{B : Bincode K} : Prop := {
  bincode_round k b : bincode_serialize k = inl b -> bincode_deserialize b = inl k
}.
Class Bcs (V : Type) := {
  bcs_to_bytes : V -> bytes + string;
  bcs_from_bytes : bytes -> V + string
}.
Class BcsLaws (V : Type) `{B : Bcs V} : Prop := {
  bcs_round v b : bcs_to_bytes v = inl b -> bcs_from_bytes b = inl v
}.

Definition be_fix_int_ser {K} `{Bincode K} (t : K) : TResult bytes :=
  of_result typed_store_err_from_bincode_err (bincode_serialize t).
Definition bcs_ser {V} `{Bcs V} (v : V) : TResult bytes := of_result typed_store_err_from_bcs_err (bcs_to_bytes v).
Definition bcs_de {V} `{Bcs V} (b : bytes) : TResult V := of_result typed_store_err_from_bcs_err (bcs_from_bytes b).

(** [Result::ok]. *)
Definition inl_opt {A B} (r : A + B) : option A := match r with inl a => Some a | inr _ => None end.

(** ** [Database] *)

Section Database.
Context {R : Rocks}.

Inductive ColumnFamily := CfRocks (name : string) | CfInMemory (name : string).
Inductive Storage := SRocks (db : rocks_db) | SInMemory (db : InMemoryDB).

(** [db_id] is the identity [Arc::ptr_eq] compares. *)
Record Database := { db_id : nat; storage : Storage }.
Definition with_storage (db : Database) (s : Storage) : Database := {| db_id := db_id db; storage := s |}.

(** [rocks_cf]: the handle, or a panic. *)
Definition rocks_cf {A} (db : rocks_db) (name : string) (k : TResult A) : TResult A :=
  if cf_handle db name then k else TPanic.

Definition db_get (db : Database) (ro : ReadOptions) (cf : ColumnFamily) (key : bytes) : TResult (option bytes) :=
  match storage db, cf with
  | SRocks r, CfRocks name => rocks_cf r name (of_result typed_store_err_from_rocks_err (rk_get r ro name key))
  | SInMemory m, CfInMemory name => TOk (mem_get m name key)
  | _, _ => invariant_violation
  end.

Fixpoint collect_results {A} (mk : string -> TypedStoreError) (l : list (A + string)) : TResult (list A) :=
  match l with
  | [] => TOk []
  | inl a :: l => r ← collect_results mk l; TOk (a :: r)
  | inr msg :: _ => TErr (mk msg)
  end.

(** The errors of the keys are collected by the caller, [multi_get_pinned]. *)
Definition db_multi_get (db : Database) (ro : ReadOptions) (cf : ColumnFamily) (keys : list bytes) : TResult (list (option bytes)) :=
  match storage db, cf with
  | SRocks r, CfRocks name => rocks_cf r name (collect_results typed_store_err_from_rocks_err (rk_multi_get r ro name keys))
  | SInMemory m, CfInMemory name => TOk (mem_multi_get m name keys)
  | _, _ => TPanic
  end.

Definition db_delete_cf (db : Database) (cf : ColumnFamily) (key : bytes) : TResult Database :=
  match storage db, cf with
  | SRocks r, CfRocks name =>
      rocks_cf r name (r' ← of_result typed_store_err_from_rocks_err (rk_delete r name key); TOk (with_storage db (SRocks r')))
  | SInMemory m, CfInMemory name => TOk (with_storage db (SInMemory (mem_delete m name key)))
  | _, _ => invariant_violation
  end.

Definition db_put_cf (db : Database) (cf : ColumnFamily) (key value : bytes) : TResult Database :=
  match storage db, cf with
  | SRocks r, CfRocks name =>
      rocks_cf r name (r' ← of_result typed_store_err_from_rocks_err (rk_put r name key value); TOk (with_storage db (SRocks r')))
  | SInMemory m, CfInMemory name => TOk (with_storage db (SInMemory (mem_put m name key value)))
  | _, _ => invariant_violation
  end.

Definition key_may_exist_cf (db : Database) (ro : ReadOptions) (cf_name : string) (key : bytes) : TResult bool :=
  match storage db with
  | SRocks r => rocks_cf r cf_name (TOk (rk_key_may_exist r ro cf_name key))
  | SInMemory _ => TOk true
  end.

Inductive StorageWriteBatch := RocksBatch (cs : list RocksChange) | InMemoryBatch (cs : list InMemoryChange).

Definition db_write (db : Database) (batch : StorageWriteBatch) : TResult Database :=
  match storage db, batch with
  | SRocks r, RocksBatch cs =>
      r' ← of_result typed_store_err_from_rocks_err (rk_write r cs); TOk (with_storage db (SRocks r'))
  | SInMemory m, InMemoryBatch cs => TOk (with_storage db (SInMemory (mem_write m cs)))
  | _, _ => TErr (RocksDBError "using invalid batch type for the database")
  end.

Definition db_create_cf (db : Database) (name : string) : TResult Database :=
  match storage db with
  | SRocks r => r' ← of_result typed_store_err_from_rocks_err (rk_create_cf r name); TOk (with_storage db (SRocks r'))
  | SInMemory _ => TOk db
  end.

Definition db_drop_cf (db : Database) (name : string) : TResult Database :=
  match storage db with
  | SRocks r => r' ← of_result typed_store_err_from_rocks_err (rk_drop_cf r name); TOk (with_storage db (SRocks r'))
  | SInMemory m => TOk (with_storage db (SInMemory (mem_drop_cf m name)))
  end.

(** Iterators exist for RocksDB only ([unimplemented!] otherwise). *)
Definition raw_iterator_cf (db : Database) (cf_name : string) (ro : ReadOptions) : TResult (list (bytes * bytes) * option string) :=
  match storage db with SRocks r => rocks_cf r cf_name (TOk (rk_scan r ro cf_name)) | SInMemory _ => TPanic end.
Definition raw_iterator_back (db : Database) (cf_name : string) (ro : ReadOptions) (from : option bytes) :
    TResult (list (bytes * bytes) * option string) :=
  match storage db with SRocks r => rocks_cf r cf_name (TOk (rk_scan_back r ro cf_name from)) | SInMemory _ => TPanic end.

End Database.

(** ** [DBMap] and [DBBatch] *)

Record DBMap (K V : Type) := {
  dm_db : nat; dm_column_family : ColumnFamily; dm_cf : string; dm_ignore_range_deletions : bool
}.
Arguments dm_db {K V} _.
Arguments dm_column_family {K V} _.
Arguments dm_cf {K V} _.
Arguments dm_ignore_range_deletions {K V} _.

Inductive Bound (K : Type) := Included (k : K) | Excluded (k : K) | Unbounded.
Arguments Included {K} _.
Arguments Excluded {K} _.
Arguments Unbounded {K}.

Record DBBatch := { bt_database : nat; bt_batch : StorageWriteBatch }.

(** [SafeIter]: the rows ahead of the cursor, in its direction, and the status
    at their end. *)
Record SafeIter := { si_rows : list (bytes * bytes); si_status : option string }.

Section DBMap.
Context {R : Rocks} {K V : Type} {BK : Bincode K} {BV : Bcs V}.
Implicit Types (m : DBMap K V) (db : Database) (b : DBBatch).

Definition reopen db (opt_cf : option string) (ignore_range_deletions : bool) : DBMap K V :=
  let cf_key := default "default"%string opt_cf in
  {| dm_db := db_id db; dm_column_family := CfRocks cf_key; dm_cf := cf_key;
     dm_ignore_range_deletions := ignore_range_deletions |}.

Definition readopts m : ReadOptions :=
  {| ro_lower := None; ro_upper := None; ro_ignore_range_deletions := dm_ignore_range_deletions m |}.
Definition set_iterate_lower_bound (key : bytes) (ro : ReadOptions) : ReadOptions :=
  {| ro_lower := Some key; ro_upper := ro_upper ro; ro_ignore_range_deletions := ro_ignore_range_deletions ro |}.
Definition set_iterate_upper_bound (key : bytes) (ro : ReadOptions) : ReadOptions :=
  {| ro_lower := ro_lower ro; ro_upper := Some key; ro_ignore_range_deletions := ro_ignore_range_deletions ro |}.

(** [expect] and [unwrap]. *)
Definition expect {A} (r : TResult A) : TResult A := match r with TOk a => TOk a | _ => TPanic end.

Definition create_read_options_with_bounds m (lower_bound upper_bound : option K) : TResult ReadOptions :=
  ro ← match lower_bound with
       | Some k => key ← expect (be_fix_int_ser k); TOk (set_iterate_lower_bound key (readopts m))
       | None => TOk (readopts m)
       end;
  match upper_bound with
  | Some k => key ← expect (be_fix_int_ser k); TOk (set_iterate_upper_bound key ro)
  | None => TOk ro
  end.

(** The two halves of [create_read_options_with_range]. *)
Definition range_lower m (lower_bound : Bound K) : TResult ReadOptions :=
  match lower_bound with
  | Included k => key ← expect (be_fix_int_ser k); TOk (set_iterate_lower_bound key (readopts m))
  | Excluded k => key ← expect (be_fix_int_ser k);
                  TOk (set_iterate_lower_bound (big_endian_saturating_add_one key) (readopts m))
  | Unbounded => TOk (readopts m)
  end.
Definition range_upper (upper_bound : Bound K) (ro : ReadOptions) : TResult ReadOptions :=
  match upper_bound with
  | Included k => key ← expect (be_fix_int_ser k);
                  if is_max key then TOk ro else TOk (set_iterate_upper_bound (big_endian_saturating_add_one key) ro)
  | Excluded k => key ← expect (be_fix_int_ser k); TOk (set_iterate_upper_bound key ro)
  | Unbounded => TOk ro
  end.
Definition create_read_options_with_range m (lower_bound upper_bound : Bound K) : TResult ReadOptions :=
  ro ← range_lower m lower_bound; range_upper upper_bound ro.

(** *** Iterators: [rocks/safe_iter.rs] *)

Definition advance (it : SafeIter) : SafeIter := {| si_rows := tail (si_rows it); si_status := si_status it |}.

(** A row whose key or value does not decode is the end of the iteration. *)
Definition safe_iter_next (it : SafeIter) : option (TResult (K * V)) * SafeIter :=
  match si_rows it with
  | (raw_key, raw_value) :: _ =>
      let key := inl_opt (bincode_deserialize raw_key) in
      let value := inl_opt (bcs_from_bytes raw_value) in
      (k ← key; v ← value; Some (TOk (k, v)), advance it)
  | [] => (match si_status it with None => None | Some msg => Some (TErr (RocksDBError msg)) end, it)
  end.

Definition safe_raw_value_iter_next (it : SafeIter) : option (TResult (K * bytes)) * SafeIter :=
  match si_rows it with
  | (raw_key, raw_value) :: _ =>
      (match bincode_deserialize raw_key with
       | inl k => Some (TOk (k, raw_value))
       | inr msg => Some (TErr (SerializationError msg))
       end, advance it)
  | [] => (match si_status it with None => None | Some msg => Some (TErr (RocksDBError msg)) end, it)
  end.

Definition safe_iter db m : TResult SafeIter :=
  r ← raw_iterator_cf db (dm_cf m) (readopts m); TOk {| si_rows := r.1; si_status := r.2 |}.
Definition safe_iter_raw_values db m : TResult SafeIter :=
  r ← raw_iterator_cf db (dm_cf m) (readopts m); TOk {| si_rows := r.1; si_status := r.2 |}.
Definition safe_iter_with_bounds db m (lower_bound upper_bound : option K) : TResult SafeIter :=
  ro ← create_read_options_with_bounds m lower_bound upper_bound;
  r ← raw_iterator_cf db (dm_cf m) ro; TOk {| si_rows := r.1; si_status := r.2 |}.
Definition safe_range_iter db m (lower_bound upper_bound : Bound K) : TResult SafeIter :=
  ro ← create_read_options_with_range m lower_bound upper_bound;
  r ← raw_iterator_cf db (dm_cf m) ro; TOk {| si_rows := r.1; si_status := r.2 |}.

Definition bound_of (k : option K) : Bound K := match k with Some k => Included k | None => Unbounded end.

Definition reversed_safe_iter_with_bounds db m (lower_bound upper_bound : option K) : TResult SafeIter :=
  ro ← create_read_options_with_range m (bound_of lower_bound) (bound_of upper_bound);
  from ← match upper_bound with Some k => key ← be_fix_int_ser k; TOk (Some key) | None => TOk None end;
  r ← raw_iterator_back db (dm_cf m) ro from; TOk {| si_rows := r.1; si_status := r.2 |}.

Definition raw_entry_count db m : TResult nat :=
  r ← raw_iterator_cf db (dm_cf m) (readopts m);
  match r.2 with None => TOk (length r.1) | Some msg => TErr (RocksDBError msg) end.

(** A [for] loop with [?] on the items, or [collect::<Result<Vec<_>, _>>()]. *)
Fixpoint drain {A} (next : SafeIter -> option (TResult A) * SafeIter) (fuel : nat) (it : SafeIter) : TResult (list A) :=
  match fuel with
  | O => TOk []
  | S fuel =>
      match next it with
      | (None, _) => TOk []
      | (Some r, it') => a ← r; rest ← drain next fuel it'; TOk (a :: rest)
      end
  end.
Definition iter_fuel (it : SafeIter) : nat := S (length (si_rows it)).
Definition collect_iter (it : SafeIter) : TResult (list (K * V)) := drain safe_iter_next (iter_fuel it) it.
Definition collect_raw_iter (it : SafeIter) : TResult (list (K * bytes)) := drain safe_raw_value_iter_next (iter_fuel it) it.

(** *** [DBBatch] *)

Definition batch db m : DBBatch :=
  {| bt_database := db_id db;
     bt_batch := match storage db with SRocks _ => RocksBatch [] | SInMemory _ => InMemoryBatch [] end |}.

Definition batch_push db b (cf : ColumnFamily) (mk_rocks : string -> RocksChange) (mk_mem : string -> InMemoryChange) : TResult DBBatch :=
  match bt_batch b, cf with
  | RocksBatch cs, CfRocks name =>
      match storage db with
      | SRocks r => rocks_cf r name (TOk {| bt_database := bt_database b; bt_batch := RocksBatch (cs ++ [mk_rocks name]) |})
      | SInMemory _ => TErr (RocksDBError "using invalid batch type for the database")
      end
  | InMemoryBatch cs, CfInMemory name =>
      TOk {| bt_database := bt_database b; bt_batch := InMemoryBatch (cs ++ [mk_mem name]) |}
  | _, _ => invariant_violation
  end.

(** [try_for_each] over the keys; [Arc::ptr_eq] first. *)
Definition delete_batch db b m (purged_vals : list K) : TResult DBBatch :=
  if decide (dm_db m = bt_database b) then
    foldl (fun r k => b ← r; k_buf ← be_fix_int_ser k;
                      batch_push db b (dm_column_family m) (fun cf => RkDelete cf k_buf) (fun cf => MemDelete cf k_buf))
          (TOk b) purged_vals
  else TErr CrossDBBatch.

Definition insert_batch db b m (new_vals : list (K * V)) : TResult DBBatch :=
  if decide (dm_db m = bt_database b) then
    foldl (fun r p => b ← r; k_buf ← be_fix_int_ser p.1; v_buf ← bcs_ser p.2;
                      batch_push db b (dm_column_family m) (fun cf => RkPut cf k_buf v_buf) (fun cf => MemPut cf k_buf v_buf))
          (TOk b) new_vals
  else TErr CrossDBBatch.

(** Nothing is added to a batch in memory. *)
Definition schedule_delete_range db b m (from to : K) : TResult DBBatch :=
  if decide (dm_db m = bt_database b) then
    from_buf ← be_fix_int_ser from; to_buf ← be_fix_int_ser to;
    match bt_batch b with
    | RocksBatch cs =>
        match storage db with
        | SRocks r => rocks_cf r (dm_cf m)
            (TOk {| bt_database := bt_database b; bt_batch := RocksBatch (cs ++ [RkDeleteRange (dm_cf m) from_buf to_buf]) |})
        | SInMemory _ => TErr (RocksDBError "using invalid batch type for the database")
        end
    | InMemoryBatch _ => TOk b
    end
  else TErr CrossDBBatch.

Definition batch_write db b : TResult Database := db_write db (bt_batch b).

(** *** The operations of a map *)

Definition contains_key db m (key : K) : TResult bool :=
  key_buf ← be_fix_int_ser key;
  may ← key_may_exist_cf db (readopts m) (dm_cf m) key_buf;
  if may : bool then o ← db_get db (readopts m) (dm_column_family m) key_buf; TOk (bool_decide (is_Some o)) else TOk false.

Definition get db m (key : K) : TResult (option V) :=
  key_buf ← be_fix_int_ser key;
  res ← db_get db (readopts m) (dm_column_family m) key_buf;
  match res with Some data => v ← bcs_de data; TOk (Some v) | None => TOk None end.

Definition insert db m (key : K) (value : V) : TResult Database :=
  key_buf ← be_fix_int_ser key; value_buf ← bcs_ser value; db_put_cf db (dm_column_family m) key_buf value_buf.

Definition remove db m (key : K) : TResult Database :=
  key_buf ← be_fix_int_ser key; db_delete_cf db (dm_column_family m) key_buf.

Fixpoint traverse {A B} (f : A -> TResult B) (l : list A) : TResult (list B) :=
  match l with [] => TOk [] | a :: l => b ← f a; bs ← traverse f l; TOk (b :: bs) end.

Definition multi_get_pinned db m (keys : list K) : TResult (list (option bytes)) :=
  keys_bytes ← traverse be_fix_int_ser keys; db_multi_get db (readopts m) (dm_column_family m) keys_bytes.

Definition multi_contains_keys db m (keys : list K) : TResult (list bool) :=
  values ← multi_get_pinned db m keys; TOk (map (fun v => bool_decide (is_Some v)) values).

Definition multi_get db m (keys : list K) : TResult (list (option V)) :=
  results ← multi_get_pinned db m keys;
  traverse (fun o => match o with Some data => v ← bcs_de data; TOk (Some v) | None => TOk None end) results.

Definition multi_insert db m (key_val_pairs : list (K * V)) : TResult Database :=
  b ← insert_batch db (batch db m) m key_val_pairs; batch_write db b.

Definition multi_remove db m (keys : list K) : TResult Database :=
  b ← delete_batch db (batch db m) m keys; batch_write db b.

Definition is_empty db m : TResult bool :=
  it ← safe_iter db m; TOk (match (safe_iter_next it).1 with None => true | Some _ => false end).

(** [next().transpose()?.map(|(k, _)| k)]. *)
Definition first_of (it : SafeIter) : TResult (option K) :=
  match (safe_iter_next it).1 with Some r => p ← r; TOk (Some p.1) | None => TOk None end.

Definition schedule_delete_all db m : TResult Database :=
  it ← safe_iter db m;
  first_key ← first_of it;
  rev ← reversed_safe_iter_with_bounds db m None None;
  last_key ← first_of rev;
  match first_key, last_key with
  | Some first_key, Some last_key => b ← schedule_delete_range db (batch db m) m first_key last_key; batch_write db b
  | _, _ => TOk db
  end.

(** [drop_cf] with its result ignored, then [create_cf]. *)
Definition unsafe_clear db m : TResult Database :=
  let db' := match db_drop_cf db (dm_cf m) with TOk db' => db' | _ => db end in
  db_create_cf db' (dm_cf m).

End DBMap.
