(* ===== verification/TypedStoreFacts.v ===== *)
(** * TypedStoreFacts: a typed map is a finite map

    The rows of a column family encode a map ([encodes], [holds]); reads answer
    it, writes change exactly it ([typed_map_refines_map]), range iterators
    answer their range ([range_iter_exact]).  [outcome] is the result of a call
    that may fail but never panics.  Last, what the store does not do: a row
    that does not decode hides those behind it, and deleting everything keeps
    the last row. *)
From Stdlib Require Import Strings.Byte.
From S2P Require Import Prelude TypedStore.

Local Open Scope list_scope.
Local Open Scope Z_scope.

(** ** Iteration: what a loop over an iterator sees *)

Section Iter.
Context {K V : Type} {BK : Bincode K} {BV : Bcs V}.

Definition decode_row (p : bytes * bytes) : option (K * V) :=
  k ← inl_opt (bincode_deserialize p.1); v ← inl_opt (bcs_from_bytes p.2); Some (k, v).

(** The rows up to the first that does not decode. *)
Fixpoint decodable (rows : list (bytes * bytes)) : list (K * V) :=
  match rows with
  | p :: rows => match decode_row p with Some kv => kv :: decodable rows | None => [] end
  | [] => []
  end.

Lemma collect_iter_cons p rows status :
  collect_iter {| si_rows := p :: rows; si_status := status |} =
    match decode_row p with
    | Some kv => l ← collect_iter {| si_rows := rows; si_status := status |}; TOk (kv :: l)
    | None => TOk []
    end.
Proof.
  destruct p as [kb vb]. unfold decode_row. cbn [fst snd].
  change (collect_iter {| si_rows := (kb, vb) :: rows; si_status := status |}) with
    (match (k ← inl_opt (bincode_deserialize kb); v ← inl_opt (bcs_from_bytes vb); Some (TOk (k, v))) : option (TResult (K * V)) with
     | None => TOk []
     | Some r => a ← r; rest ← collect_iter {| si_rows := rows; si_status := status |}; TOk (a :: rest)
     end).
  destruct (inl_opt (bincode_deserialize kb)) as [k|]; [|done]. simpl.
  by destruct (inl_opt (bcs_from_bytes vb)) as [v|].
Qed.

(** Every row decodes: all of them, or the error of the scan. *)
Lemma collect_iter_all rows kvs status :
  Forall2 (fun p kv => decode_row p = Some kv) rows kvs ->
  collect_iter {| si_rows := rows; si_status := status |} =
    match status with None => TOk kvs | Some msg => TErr (RocksDBError msg) end.
Proof.
  induction 1 as [|p kv rows kvs Hd _ IH]; [by destruct status|].
  rewrite collect_iter_cons, Hd, IH. by destruct status.
Qed.

(** A row that does not decode ends the loop as if the table ended there:
    neither the rows behind it nor the status are looked at. *)
Lemma collect_iter_bad good kvs bad rest status :
  Forall2 (fun p kv => decode_row p = Some kv) good kvs -> decode_row bad = None ->
  collect_iter {| si_rows := good ++ bad :: rest; si_status := status |} = TOk kvs.
Proof.
  intros Hg Hb. induction Hg as [|p kv good kvs Hd _ IH]; simpl; rewrite collect_iter_cons; [by rewrite Hb|].
  by rewrite Hd, IH.
Qed.

End Iter.

(** ** The rows that encode a map *)

Section Encoding.
Context {K V : Type} `{Countable K} {BK : Bincode K} {BV : Bcs V} {LK : BincodeLaws K} {LV : BcsLaws V}.
Implicit Types (rows : gmap bytes bytes) (m : gmap K V).

Definition row_of (k : K) (v : V) (kb vb : bytes) : Prop := bincode_serialize k = inl kb /\ bcs_to_bytes v = inl vb.

Definition encodes rows m : Prop :=
  (forall k v, m !! k = Some v -> exists kb vb, row_of k v kb vb /\ rows !! kb = Some vb) /\
  (forall kb vb, rows !! kb = Some vb -> exists k v, row_of k v kb vb /\ m !! k = Some v).

Lemma ser_inj k1 k2 kb : bincode_serialize k1 = inl kb -> bincode_serialize k2 = inl kb -> k1 = k2.
Proof. intros H1%bincode_round H2%bincode_round. congruence. Qed.

Lemma row_of_decodes k v kb vb : row_of k v kb vb -> decode_row (kb, vb) = Some (k, v).
Proof. intros [H1%bincode_round H2%bcs_round]. unfold decode_row. simpl. by rewrite H1, H2. Qed.

Lemma encodes_empty : encodes ∅ ∅.
Proof. split; intros ?? Hl; by rewrite lookup_empty in Hl. Qed.

(** A lookup by the bytes of the key is a lookup by the key. *)
Lemma encodes_lookup rows m k kb :
  encodes rows m -> bincode_serialize k = inl kb ->
  match m !! k with Some v => exists vb, bcs_to_bytes v = inl vb /\ rows !! kb = Some vb | None => rows !! kb = None end.
Proof.
  intros [H1 H2] Hk. destruct (m !! k) as [v|] eqn:Em.
  - destruct (H1 k v Em) as (kb' & vb & [Hk' Hv] & Hr). assert (kb' = kb) as -> by congruence. by exists vb.
  - destruct (rows !! kb) as [vb|] eqn:Er; [|done].
    destruct (H2 kb vb Er) as (k' & v & [Hk' _] & Hm). rewrite (ser_inj _ _ _ Hk' Hk) in Hm. congruence.
Qed.

(** A change of the map and the change of the rows that writes it. *)
Definition change_enc (c : K * option V) (d : bytes * option bytes) : Prop :=
  bincode_serialize c.1 = inl d.1 /\
  match c.2, d.2 with Some v, Some vb => bcs_to_bytes v = inl vb | None, None => True | _, _ => False end.

Lemma encodes_change rows m c d :
  encodes rows m -> change_enc c d ->
  encodes (partial_alter (fun _ => d.2) d.1 rows) (partial_alter (fun _ => c.2) c.1 m).
Proof.
  destruct c as [k ov], d as [kb ovb]. intros [H1 H2] [Hk Hv]. simpl in *. split.
  - intros k' v'. destruct (decide (k' = k)) as [->|Hne].
    + rewrite lookup_partial_alter_eq. intros ->. destruct ovb as [vb|]; [|done].
      exists kb, vb. by rewrite lookup_partial_alter_eq.
    + rewrite lookup_partial_alter_ne by done. intros (kb' & vb & Hr & Hl)%H1. exists kb', vb.
      split; [done|]. rewrite lookup_partial_alter_ne; [done|]. intros ->. apply Hne. destruct Hr as [Hr _].
      by apply (ser_inj _ _ kb').
  - intros kb' vb'. destruct (decide (kb' = kb)) as [->|Hne].
    + rewrite lookup_partial_alter_eq. intros ->. destruct ov as [v|]; [|done].
      exists k, v. by rewrite lookup_partial_alter_eq.
    + rewrite lookup_partial_alter_ne by done. intros (k' & v & Hr & Hl)%H2. exists k', v.
      split; [done|]. rewrite lookup_partial_alter_ne; [done|]. intros ->. apply Hne. destruct Hr as [Hr _]. congruence.
Qed.

Lemma encodes_write rows m cs ds :
  encodes rows m -> Forall2 change_enc cs ds -> encodes (map_write ds rows) (map_write cs m).
Proof.
  intros He Hcs. revert rows m He. induction Hcs as [|c d cs ds Hc _ IH]; intros rows m He; [done|].
  apply IH. by apply encodes_change.
Qed.

(** The rows in any order decode to the entries of the map. *)
Lemma encodes_decode rows m l :
  encodes rows m -> l ≡ₚ map_to_list rows ->
  exists kvs, Forall2 (fun p kv => row_of kv.1 kv.2 p.1 p.2) l kvs /\ kvs ≡ₚ map_to_list m.
Proof.
  intros [H1 H2] Hl.
  assert (Hall : Forall (fun p => exists kv, decode_row p = Some kv /\ m !! kv.1 = Some kv.2 /\ row_of kv.1 kv.2 p.1 p.2) l).
  { apply Forall_forall. intros [kb vb] Hp. rewrite Hl in Hp. apply elem_of_map_to_list in Hp.
    destruct (H2 kb vb Hp) as (k & v & Hr & Hm). exists (k, v). by rewrite (row_of_decodes _ _ _ _ Hr). }
  apply Forall_exists_Forall2_l in Hall as [kvs Hkvs].
  exists kvs. split; [by eapply Forall2_impl; [exact Hkvs|]; intros ?? (_ & _ & ?)|].
  assert (Hnd : NoDup l.*1) by (rewrite Hl; apply NoDup_fst_map_to_list).
  apply NoDup_Permutation.
  - apply (NoDup_fmap_1 fst). revert Hnd. clear Hl. induction Hkvs as [|p kv l kvs (_ & _ & [Hk _]) Hl IH]; [constructor|].
    rewrite !fmap_cons, !NoDup_cons. intros [Hp Hnd]. split; [|by apply IH].
    rewrite list_elem_of_fmap. intros (kv' & Heq & Hin). apply Hp.
    apply list_elem_of_lookup_1 in Hin as [i Hi].
    destruct (Forall2_lookup_r _ _ _ _ _ Hl Hi) as (p' & Hp' & _ & _ & [Hk' _]).
    apply list_elem_of_fmap. exists p'. split; [|by eapply list_elem_of_lookup_2]. rewrite <- Heq in Hk'. congruence.
  - apply NoDup_map_to_list.
  - intros [k v]. rewrite elem_of_map_to_list. split.
    + intros [i Hi]%list_elem_of_lookup_1.
      by destruct (Forall2_lookup_r _ _ _ _ _ Hkvs Hi) as (p & _ & _ & Hm & _).
    + intros Hm. destruct (H1 k v Hm) as (kb & vb & Hr & Hrow).
      assert ((kb, vb) ∈ l) as Hin by (rewrite Hl; by apply elem_of_map_to_list).
      apply list_elem_of_lookup_1 in Hin as [i Hi].
      destruct (Forall2_lookup_l _ _ _ _ _ Hkvs Hi) as (kv & Hkv & Hd & _).
      rewrite (row_of_decodes _ _ _ _ Hr) in Hd. simplify_eq. by eapply list_elem_of_lookup_2.
Qed.

End Encoding.

(** ** What a batch does to the column families *)

Section Contents.
Context {R : Rocks} {LR : RocksLaws}.
Implicit Types (db : Database) (b : DBBatch).

Definition storage_view (s : Storage) : gmap string (gmap bytes bytes) :=
  match s with SRocks r => rk_view r | SInMemory m => m end.
Definition db_rows db (cf : string) : gmap bytes bytes := default ∅ (storage_view (storage db) !! cf).

(** The column family a map works on: registered, for RocksDB. *)
Definition has_cf db (cf : ColumnFamily) (name : string) : Prop :=
  match storage db, cf with
  | SRocks r, CfRocks n => n = name /\ is_Some (rk_view r !! n)
  | SInMemory _, CfInMemory n => n = name
  | _, _ => False
  end.

Definition db_settled db : Prop := match storage db with SRocks r => rk_settled r | SInMemory _ => True end.

(** A batch made for the storage of the database, with no range deletion. *)
Definition batch_fits db b : Prop :=
  match storage db, bt_batch b with
  | SRocks _, RocksBatch cs => existsb is_range cs = false
  | SInMemory _, InMemoryBatch _ => True
  | _, _ => False
  end.

Definition rocks_change (cf : string) (c : RocksChange) : option (bytes * option bytes) :=
  match c with
  | RkDelete n k => if decide (n = cf) then Some (k, None) else None
  | RkPut n k v => if decide (n = cf) then Some (k, Some v) else None
  | RkDeleteRange _ _ _ => None
  end.
Definition mem_change (cf : string) (c : InMemoryChange) : option (bytes * option bytes) :=
  match c with
  | MemDelete n k => if decide (n = cf) then Some (k, None) else None
  | MemPut n k v => if decide (n = cf) then Some (k, Some v) else None
  end.
Definition batch_changes b (cf : string) : list (bytes * option bytes) :=
  match bt_batch b with
  | RocksBatch cs => omap (rocks_change cf) cs
  | InMemoryBatch cs => omap (mem_change cf) cs
  end.

Lemma rocks_step_rows v c cf :
  is_range c = false -> is_Some (v !! cf) ->
  is_Some (rocks_step v c !! cf) /\
  default ∅ (rocks_step v c !! cf) = map_write (option_list (rocks_change cf c)) (default ∅ (v !! cf)).
Proof.
  intros Hr [rows Hv]. unfold map_write. destruct c as [n k|n k x|]; [| |done]; simpl; case_decide as Hn; subst; simpl.
  - rewrite lookup_alter_eq, Hv. by split; [eexists|].
  - rewrite lookup_alter_ne by done. rewrite Hv. by split; [eexists|].
  - rewrite lookup_alter_eq, Hv. by split; [eexists|].
  - rewrite lookup_alter_ne by done. rewrite Hv. by split; [eexists|].
Qed.

Lemma omap_cons_list {A B} (f : A -> option B) a l : omap f (a :: l) = option_list (f a) ++ omap f l.
Proof. simpl. by destruct (f a). Qed.

Lemma rocks_write_rows cs v cf :
  existsb is_range cs = false -> is_Some (v !! cf) ->
  is_Some (foldl rocks_step v cs !! cf) /\
  default ∅ (foldl rocks_step v cs !! cf) = map_write (omap (rocks_change cf) cs) (default ∅ (v !! cf)).
Proof.
  revert v. induction cs as [|c cs IH]; intros v Hr Hv; [done|].
  apply orb_false_iff in Hr as [Hc Hr]. destruct (rocks_step_rows v c cf Hc Hv) as [Hv' He].
  destruct (IH (rocks_step v c) Hr Hv') as [Hs Hw]. split; [done|].
  change (foldl rocks_step v (c :: cs)) with (foldl rocks_step (rocks_step v c) cs).
  by rewrite Hw, He, omap_cons_list, map_write_app.
Qed.

Lemma mem_step_rows (m : InMemoryDB) (c : InMemoryChange) cf :
  default ∅ (mem_step m c !! cf) = map_write (option_list (mem_change cf c)) (default ∅ (m !! cf)).
Proof.
  destruct c as [n k|n k x]; simpl; unfold mem_delete, mem_put, map_write; case_decide as Hn; subst; simpl;
    by rewrite ?lookup_insert_eq, ?lookup_insert_ne.
Qed.

Lemma mem_write_rows (cs : list InMemoryChange) (m : InMemoryDB) cf :
  default ∅ (mem_write m cs !! cf) = map_write (omap (mem_change cf) cs) (default ∅ (m !! cf)).
Proof.
  revert m. induction cs as [|c cs IH]; intros m; [done|].
  change (mem_write m (c :: cs)) with (mem_write (mem_step m c) cs).
  by rewrite IH, mem_step_rows, omap_cons_list, map_write_app.
Qed.

(** A committed batch changes every column family by its own changes, in
    order; no range deletion becomes pending. *)
Lemma db_write_rows db b db' cf name :
  batch_fits db b -> db_write db (bt_batch b) = TOk db' -> has_cf db cf name ->
  has_cf db' cf name /\ db_rows db' name = map_write (batch_changes b name) (db_rows db name).
Proof.
  unfold batch_fits, db_write, has_cf, db_rows, batch_changes, with_storage.
  destruct db as [id [r|m]], b as [id' [cs|cs]]; simpl; intros Hf Hw Hc; try done.
  - destruct (rk_write r cs) as [r'|msg] eqn:Er; simplify_eq/=. destruct (rk_write_law _ _ _ Er) as [Hv _].
    destruct cf as [n|n]; [|done]. destruct Hc as [-> Hs].
    destruct (rocks_write_rows cs (rk_view r) name Hf Hs) as [Hs' He]. by rewrite Hv.
  - simplify_eq/=. destruct cf; [done|]. by rewrite mem_write_rows.
Qed.

Lemma db_write_settled db b db' :
  batch_fits db b -> db_write db (bt_batch b) = TOk db' -> db_settled db -> db_settled db' /\ db_id db' = db_id db.
Proof.
  unfold batch_fits, db_write, db_settled, with_storage.
  destruct db as [id [r|m]], b as [id' [cs|cs]]; simpl; intros Hf Hw Hs; try done; [|by simplify_eq].
  destruct (rk_write r cs) as [r'|msg] eqn:Er; simplify_eq/=. destruct (rk_write_law _ _ _ Er) as [_ Hl]. auto.
Qed.

End Contents.

(** The result of a call: [P] of what it returns, or an error of the storage,
    or one in [E]; never a panic. *)
Definition outcome {A} (r : TResult A) (P : A -> Prop) (E : TypedStoreError -> Prop) : Prop :=
  match r with TOk a => P a | TErr e => (exists msg, e = RocksDBError msg) \/ E e | TPanic => False end.
Definition no_error (e : TypedStoreError) : Prop := False.

Lemma outcome_bind {A B} (r : TResult A) (f : A -> TResult B) (P : A -> Prop) (Q : B -> Prop) (E F : TypedStoreError -> Prop) :
  outcome r P E -> (forall e, E e -> F e) -> (forall a, P a -> outcome (f a) Q F) -> outcome (r ≫= f) Q F.
Proof. destruct r; simpl; intros H1 HE Hf; [by apply Hf| |done]. destruct H1; auto. Qed.

Lemma outcome_impl {A} (r : TResult A) (P Q : A -> Prop) (E F : TypedStoreError -> Prop) :
  outcome r P E -> (forall a, P a -> Q a) -> (forall e, E e -> F e) -> outcome r Q F.
Proof. destruct r; simpl; intros H1 HP HE; auto. destruct H1; auto. Qed.

Lemma foldl_bind_err {A B} (g : B -> A -> TResult B) l e :
  foldl (fun r a => b ← r; g b a) (TErr e) l = TErr e.
Proof. by induction l. Qed.

(** Reasoning about [try_for_each]. *)
Lemma foldl_bind_outcome {A B} (g : B -> A -> TResult B) (P : list A -> B -> Prop) (E : TypedStoreError -> Prop) l b :
  P [] b ->
  (forall prev a b1, a ∈ l -> P prev b1 -> outcome (g b1 a) (P (prev ++ [a])) E) ->
  outcome (foldl (fun r a => b ← r; g b a) (TOk b) l) (P l) E.
Proof.
  intros Hb Hstep.
  enough (forall l' prev b, P prev b -> (forall a, a ∈ l' -> a ∈ l) -> outcome (foldl (fun r a => b ← r; g b a) (TOk b) l') (P (prev ++ l')) E)
    as Hall by by apply (Hall l [] b).
  intros l'. induction l' as [|a l' IH]; intros prev b0 H0 Hin; simpl; [by rewrite app_nil_r|].
  pose proof (Hstep prev a b0 (Hin a (list_elem_of_here a l')) H0) as Ha.
  destruct (g b0 a) as [b1|e|]; simpl in Ha; [|by rewrite foldl_bind_err|done].
  rewrite cons_middle, app_assoc. apply IH; [done|]. intros a' Ha'. apply Hin. by apply list_elem_of_further.
Qed.

Section Refinement.
Context {R : Rocks} {LR : RocksLaws}.
Context {K V : Type} `{Countable K} {BK : Bincode K} {BV : Bcs V} {LK : BincodeLaws K} {LV : BcsLaws V}.
Implicit Types (dm : DBMap K V) (m : gmap K V) (db : Database) (b : DBBatch).

(** A typed map stands for [m]. *)
Definition holds db dm m : Prop :=
  dm_db dm = db_id db /\ has_cf db (dm_column_family dm) (dm_cf dm) /\ encodes (db_rows db (dm_cf dm)) m.

(** Reads see every deletion. *)
Definition readable db dm : Prop := dm_ignore_range_deletions dm = false \/ db_settled db.

Definition batch_appends b b' (name : string) (ds : list (bytes * option bytes)) : Prop :=
  forall cf, batch_changes b' cf = batch_changes b cf ++ (if decide (name = cf) then ds else []).

Definition ready db b : Prop := bt_database b = db_id db /\ batch_fits db b.

Definition key_error (k : K) (e : TypedStoreError) : Prop := exists msg, bincode_serialize k = inr msg /\ e = SerializationError msg.
Definition value_error (v : V) (e : TypedStoreError) : Prop := exists msg, bcs_to_bytes v = inr msg /\ e = SerializationError msg.
Lemma ser_outcome k : outcome (be_fix_int_ser k) (fun kb => bincode_serialize k = inl kb) (key_error k).
Proof.
  unfold be_fix_int_ser, key_error, outcome, of_result. destruct (bincode_serialize k) as [kb|msg] eqn:E; [done|].
  right. by exists msg.
Qed.

Lemma bcs_ser_outcome v : outcome (bcs_ser v) (fun vb => bcs_to_bytes v = inl vb) (value_error v).
Proof.
  unfold bcs_ser, value_error, outcome, of_result. destruct (bcs_to_bytes v) as [kb|msg] eqn:E; [done|].
  right. by exists msg.
Qed.

Lemma batch_ready db dm : ready db (batch db dm) /\ forall cf, batch_changes (batch db dm) cf = [].
Proof. unfold ready, batch, batch_fits, batch_changes. simpl. by destruct (storage db). Qed.

Lemma batch_push_outcome db b cf name key ov mk_rocks mk_mem :
  has_cf db cf name -> ready db b ->
  (forall n c, is_range (mk_rocks n) = false /\ rocks_change c (mk_rocks n) = if decide (n = c) then Some (key, ov) else None) ->
  (forall n c, mem_change c (mk_mem n) = if decide (n = c) then Some (key, ov) else None) ->
  outcome (batch_push db b cf mk_rocks mk_mem) (fun b' => ready db b' /\ batch_appends b b' name [(key, ov)]) no_error.
Proof.
  unfold ready, batch_fits, has_cf, batch_push, batch_appends, batch_changes.
  destruct db as [id [r|mm]], b as [id' [cs|cs]], cf as [n|n]; simpl; intros Hc [Hid Hf] Hr Hm; try done.
  - destruct Hc as [-> Hs]. unfold rocks_cf. rewrite rk_handle, bool_decide_eq_true_2 by done. simpl.
    split; [split; [done|]; rewrite existsb_app, Hf; simpl; by rewrite (proj1 (Hr name name))|].
    intros cf. rewrite omap_app. simpl. rewrite (proj2 (Hr name cf)). by case_decide.
  - subst n. split; [done|]. intros cf. rewrite omap_app. simpl. rewrite Hm. by case_decide.
Qed.

Lemma batch_appends_nil b name : batch_appends b b name [].
Proof. intros cf. case_decide; by rewrite app_nil_r. Qed.

Lemma batch_appends_snoc b b1 b2 name ds ds' :
  batch_appends b b1 name ds -> batch_appends b1 b2 name ds' -> batch_appends b b2 name (ds ++ ds').
Proof. intros H1 H2 cf. rewrite H2, H1, <- app_assoc. by case_decide. Qed.

(** What [insert_batch] and [delete_batch] leave behind. *)
Definition batch_holds db dm b (cs : list (K * option V)) b' : Prop :=
  ready db b' /\ exists ds, Forall2 change_enc cs ds /\ batch_appends b b' (dm_cf dm) ds.

Lemma batch_holds_nil db dm b : ready db b -> batch_holds db dm b [] b.
Proof. intros Hr. split; [done|]. exists []. split; [constructor|apply batch_appends_nil]. Qed.

Lemma batch_holds_snoc db dm b b1 b2 cs c d :
  batch_holds db dm b cs b1 -> change_enc c d -> ready db b2 /\ batch_appends b1 b2 (dm_cf dm) [d] -> batch_holds db dm b (cs ++ [c]) b2.
Proof.
  intros (_ & ds & Hds & Ha) Hc [Hr Hd]. split; [done|]. exists (ds ++ [d]).
  split; [|by eapply batch_appends_snoc]. apply Forall2_app; [done|]. by constructor.
Qed.

Lemma delete_batch_outcome db b dm keys :
  dm_db dm = db_id db -> has_cf db (dm_column_family dm) (dm_cf dm) -> ready db b ->
  outcome (delete_batch db b dm keys) (batch_holds db dm b ((fun k => (k, None)) <$> keys))
    (fun e => exists k, k ∈ keys /\ key_error k e).
Proof.
  intros Hd Hc Hr. unfold delete_batch. rewrite decide_True by (destruct Hr as [Hr0 _]; congruence).
  apply (foldl_bind_outcome _ (fun keys => batch_holds db dm b ((fun k => (k, None)) <$> keys))); [by apply batch_holds_nil|].
  intros prev k b1 Hk Hp. eapply outcome_bind; [apply ser_outcome|by intros; exists k|]. intros kb Hkb.
  eapply outcome_impl with (E := no_error); [|intros b2 H2|by intros e []].
  - apply (batch_push_outcome db b1 _ (dm_cf dm) kb None _ _ Hc (proj1 Hp)); done.
  - rewrite fmap_app. refine (batch_holds_snoc _ _ _ _ _ _ _ _ Hp _ H2). done.
Qed.

Lemma insert_batch_outcome db b dm kvs :
  dm_db dm = db_id db -> has_cf db (dm_column_family dm) (dm_cf dm) -> ready db b ->
  outcome (insert_batch db b dm kvs) (batch_holds db dm b ((fun p => (p.1, Some p.2)) <$> kvs))
    (fun e => exists p, p ∈ kvs /\ (key_error p.1 e \/ value_error p.2 e)).
Proof.
  intros Hd Hc Hr. unfold insert_batch. rewrite decide_True by (destruct Hr as [Hr0 _]; congruence).
  apply (foldl_bind_outcome _ (fun kvs => batch_holds db dm b ((fun p => (p.1, Some p.2)) <$> kvs))); [by apply batch_holds_nil|].
  intros prev [k v] b1 Hk Hp. eapply outcome_bind; [apply ser_outcome|intros; exists (k, v); by eauto|]. intros kb Hkb.
  eapply outcome_bind; [apply bcs_ser_outcome|intros; exists (k, v); by eauto|]. intros vb Hvb.
  eapply outcome_impl with (E := no_error); [|intros b2 H2|by intros e []].
  - apply (batch_push_outcome db b1 _ (dm_cf dm) kb (Some vb) _ _ Hc (proj1 Hp)); done.
  - rewrite fmap_app. refine (batch_holds_snoc _ _ _ _ _ _ _ _ Hp _ H2). done.
Qed.

(** Committing a batch moves a map by the changes the batch has for it. *)
Lemma batch_write_holds db b db' dm m cs ds :
  holds db dm m -> ready db b -> batch_changes b (dm_cf dm) = ds -> Forall2 change_enc cs ds ->
  batch_write db b = TOk db' -> holds db' dm (map_write cs m).
Proof.
  intros (Hid & Hc & He) [Hb Hf] <- Hcs Hw. unfold batch_write in Hw.
  destruct (db_write_rows _ _ _ _ _ Hf Hw Hc) as [Hc' Hrows].
  split_and!; [|done|rewrite Hrows; by apply encodes_write].
  unfold db_write, with_storage in Hw. destruct (storage db), (bt_batch b); simplify_eq/=; [|done].
  by destruct (rk_write db0 cs0); simplify_eq/=.
Qed.

(** ** Reads *)

Lemma rocks_cf_ok {A} db r (name : string) (k : TResult A) :
  storage db = SRocks r -> is_Some (rk_view r !! name) -> rocks_cf r name k = k.
Proof. intros _ Hs. unfold rocks_cf. by rewrite rk_handle, bool_decide_eq_true_2. Qed.

Lemma of_rocks_outcome {A} (r : A + string) :
  outcome (of_result typed_store_err_from_rocks_err r) (fun a => r = inl a) no_error.
Proof. destruct r; simpl; [done|]. left. by eexists. Qed.

Lemma db_get_outcome db dm key :
  has_cf db (dm_column_family dm) (dm_cf dm) -> readable db dm ->
  outcome (db_get db (readopts dm) (dm_column_family dm) key) (fun o => o = db_rows db (dm_cf dm) !! key) no_error.
Proof.
  unfold db_get, has_cf, readable, db_settled, db_rows.
  destruct (storage db) as [r|mm] eqn:Es, (dm_column_family dm) as [n|n]; intros Hc Hr; try done.
  - destruct Hc as [<- Hs]. rewrite (rocks_cf_ok db) by done.
    eapply outcome_impl; [apply of_rocks_outcome| |done]. intros o Ho. simpl.
    rewrite (rk_get_law r (readopts dm) n key o Hr Ho). destruct Hs as [rows ->]. done.
  - subst n. simpl. unfold mem_get. destruct (mm !! dm_cf dm); [done|]. simpl. by rewrite lookup_empty.
Qed.

Lemma get_outcome db dm m k :
  holds db dm m -> readable db dm -> outcome (get db dm k) (fun o => o = m !! k) (key_error k).
Proof.
  intros (_ & Hc & He) Hr. unfold get. eapply outcome_bind; [apply ser_outcome|done|]. intros kb Hk.
  eapply outcome_bind; [by apply db_get_outcome|done|]. intros o ->.
  pose proof (encodes_lookup _ _ _ _ He Hk) as Hl. destruct (m !! k) as [v|]; [|by rewrite Hl].
  destruct Hl as (vb & Hv & ->). unfold bcs_de. by rewrite (bcs_round v vb Hv).
Qed.

Lemma contains_key_outcome db dm m k :
  holds db dm m -> readable db dm -> outcome (contains_key db dm k) (fun r => r = bool_decide (is_Some (m !! k))) (key_error k).
Proof.
  intros (_ & Hc & He) Hr. unfold contains_key. eapply outcome_bind; [apply ser_outcome|done|]. intros kb Hk.
  pose proof (encodes_lookup _ _ _ _ He Hk) as Hl.
  assert (Hiff : is_Some (db_rows db (dm_cf dm) !! kb) <-> is_Some (m !! k)).
  { destruct (m !! k); [destruct Hl as (vb & _ & ->)|rewrite Hl]; split; intros []; by eauto. }
  apply outcome_bind with (P := fun may => may = true \/ m !! k = None) (E := no_error); [|done|].
  - unfold key_may_exist_cf. unfold has_cf in Hc. unfold readable, db_settled, db_rows in *.
    destruct (storage db) as [r|mm] eqn:Es; [|by left].
    destruct (dm_column_family dm) as [n|n]; [|done]. destruct Hc as [-> Hs]. rewrite (rocks_cf_ok db) by done. simpl.
    destruct (rk_key_may_exist r (readopts dm) (dm_cf dm) kb) eqn:Em; [by left|]. right.
    destruct (m !! k) as [v|] eqn:Ek; [|done]. exfalso.
    pose proof (rk_may_exist_law r (readopts dm) (dm_cf dm) kb Hr) as Hm. rewrite Em in Hm.
    apply diff_false_true, Hm. destruct Hs as [rows Hs]. simpl in Hiff. rewrite Hs in *. apply Hiff. by eexists.
  - intros [] Hm; [|destruct Hm as [|Hm]; [done|by rewrite Hm]].
    eapply outcome_bind; [by apply db_get_outcome|done|]. intros o ->. simpl. by apply bool_decide_ext.
Qed.

(** ** Iteration *)

Definition on_rocks db : Prop := match storage db with SRocks _ => True | SInMemory _ => False end.

Lemma Forall2_filter_iff {A B} (R2 : A -> B -> Prop) (P : A -> Prop) (Q : B -> Prop) `{!forall x, Decision (P x)} `{!forall y, Decision (Q y)} (l1 : list A) (l2 : list B) :
  Forall2 R2 l1 l2 -> (forall x y, R2 x y -> (P x <-> Q y)) -> Forall2 R2 (filter P l1) (filter Q l2).
Proof.
  intros Hl Hi. induction Hl as [|x y l1 l2 Hxy _ IH]; [constructor|].
  rewrite !filter_cons. destruct (decide (P x)) as [Hx|Hx], (decide (Q y)) as [Hy|Hy];
    [by constructor|by destruct Hy; apply (Hi x y)|by destruct Hx; apply (Hi x y)|done].
Qed.

Lemma rows_decode (rows : list (bytes * bytes)) (kvs : list (K * V)) :
  Forall2 (fun p kv => row_of kv.1 kv.2 p.1 p.2) rows kvs -> Forall2 (fun p kv => decode_row p = Some kv) rows kvs.
Proof. intros Hl. eapply Forall2_impl; [exact Hl|]. intros [kb vb] [k v] Hr. by apply row_of_decodes. Qed.

(** A scan of rows that all decode: everything, or the error of the storage. *)
Lemma collect_scan rows status seen (kvs : list (K * V)) :
  Forall2 (fun p kv => row_of kv.1 kv.2 p.1 p.2) rows kvs -> scan_of status seen rows ->
  outcome (collect_iter {| si_rows := seen; si_status := status |}) (fun l => l = kvs) no_error.
Proof.
  intros Hl. unfold scan_of. destruct status as [msg|].
  - intros [rest ->]. apply Forall2_app_inv_l in Hl as (kvs1 & kvs2 & Hl & _ & ->).
    rewrite (collect_iter_all _ _ _ (rows_decode _ _ Hl)). left. by exists msg.
  - intros ->. by rewrite (collect_iter_all _ _ _ (rows_decode _ _ Hl)).
Qed.

(** The entries of [m] in the order of the bytes of their keys. *)
Lemma scan_entries db dm m :
  holds db dm m -> exists kvs,
    Forall2 (fun p kv => row_of kv.1 kv.2 p.1 p.2) (scan_rows (db_rows db (dm_cf dm))) kvs /\ kvs ≡ₚ map_to_list m.
Proof. intros (_ & _ & He). apply (encodes_decode _ _ _ He). apply merge_sort_Permutation. Qed.

(** A loop over an iterator with read options [ro]: the entries whose key lies
    in the bounds, in the order of the bytes of the keys. *)
Lemma iter_outcome db dm m ro (Q : K * V -> Prop) `{!forall kv, Decision (Q kv)} :
  holds db dm m -> on_rocks db -> ro_ignore_range_deletions ro = false \/ db_settled db ->
  (forall k v kb, bincode_serialize k = inl kb -> (in_bounds ro kb = true <-> Q (k, v))) ->
  outcome (it ← (r ← raw_iterator_cf db (dm_cf dm) ro; TOk {| si_rows := r.1; si_status := r.2 |}); collect_iter it)
    (fun l => l ≡ₚ filter Q (map_to_list m) /\
              Forall2 (fun p kv => row_of kv.1 kv.2 p.1 p.2)
                (filter (fun p => in_bounds ro p.1 = true) (scan_rows (db_rows db (dm_cf dm)))) l) no_error.
Proof.
  intros Hh Hrk Hr HQ. destruct (scan_entries _ _ _ Hh) as (kvs & Hkvs & Hp). destruct Hh as (_ & Hc & _).
  unfold raw_iterator_cf, has_cf, on_rocks, db_settled, db_rows in *.
  destruct (storage db) as [r|] eqn:Es; [|done]. destruct (dm_column_family dm) as [n|]; [|done].
  destruct Hc as [-> Hs]. rewrite (rocks_cf_ok db) by done. simpl. simpl in Hkvs.
  destruct (rk_scan r ro (dm_cf dm)) as [rows status] eqn:Esc. pose proof (rk_scan_law r ro (dm_cf dm) rows status Hr Esc) as Hscan.
  assert (Hf : Forall2 (fun p kv => row_of kv.1 kv.2 p.1 p.2)
    (filter (fun p => in_bounds ro p.1 = true) (scan_rows (default ∅ (rk_view r !! dm_cf dm)))) (filter Q kvs)).
  { apply (Forall2_filter_iff _ (fun p => in_bounds ro p.1 = true) Q _ _ Hkvs). intros [kb vb] [k v] [Hk _]. by apply HQ. }
  eapply outcome_impl; [by apply (collect_scan _ _ _ _ Hf Hscan)| |done].
  intros l ->. split; [by rewrite Hp|done].
Qed.

Lemma safe_iter_outcome db dm m :
  holds db dm m -> on_rocks db -> readable db dm ->
  outcome (it ← safe_iter db dm; collect_iter it) (fun l => l ≡ₚ map_to_list m) no_error.
Proof.
  intros Hh Hrk Hr. eapply outcome_impl; [apply (iter_outcome db dm m (readopts dm) (fun _ => True) Hh Hrk Hr)| |done].
  - done.
  - intros l [Hl _]. by rewrite Hl, filter_all by by apply Forall_true.
Qed.

(** ** Writes *)

(** One change of one column family, as a batch. *)
Definition single db (cf : string) (d : bytes * option bytes) : DBBatch :=
  {| bt_database := db_id db;
     bt_batch := match storage db with
                 | SRocks _ => RocksBatch [match d.2 with Some v => RkPut cf d.1 v | None => RkDelete cf d.1 end]
                 | SInMemory _ => InMemoryBatch [match d.2 with Some v => MemPut cf d.1 v | None => MemDelete cf d.1 end]
                 end |}.

Lemma single_ready db cf d :
  ready db (single db cf d) /\ forall cf', batch_changes (single db cf d) cf' = if decide (cf = cf') then [d] else [].
Proof.
  destruct d as [kb [vb|]]; unfold ready, batch_fits, single, batch_changes; simpl;
    destruct (storage db); simpl; (split; [done|]); intros cf'; by case_decide.
Qed.

Lemma put_delete_single db dm d :
  has_cf db (dm_column_family dm) (dm_cf dm) ->
  match d.2 with Some v => db_put_cf db (dm_column_family dm) d.1 v | None => db_delete_cf db (dm_column_family dm) d.1 end =
  batch_write db (single db (dm_cf dm) d).
Proof.
  unfold has_cf, db_put_cf, db_delete_cf, batch_write, db_write, single.
  destruct d as [kb [vb|]]; simpl; destruct (storage db) as [r|mm] eqn:Es, (dm_column_family dm) as [n|n]; simpl; intros Hc; subst; try done.
  - destruct Hc as [-> Hs]. rewrite (rocks_cf_ok db) by done. by rewrite rk_put_law.
  - destruct Hc as [-> Hs]. rewrite (rocks_cf_ok db) by done. by rewrite rk_delete_law.
Qed.

Lemma batch_write_outcome db b : batch_fits db b -> outcome (batch_write db b) (fun db' => batch_write db b = TOk db') no_error.
Proof.
  unfold batch_write, batch_fits, db_write. destruct (storage db), (bt_batch b); intros Hf; try done.
  destruct (rk_write db0 cs); simpl; [done|]. left. by eexists.
Qed.

(** The state after a write: the same database, the map changed, every other
    column family as it was. *)
Definition wrote db dm m db' (cs : list (K * option V)) : Prop :=
  holds db' dm (map_write cs m) /\ (db_settled db -> db_settled db') /\ db_id db' = db_id db /\
  (forall cf name, name <> dm_cf dm -> has_cf db cf name -> has_cf db' cf name /\ db_rows db' name = db_rows db name).

Lemma write_outcome db b dm m cs ds :
  holds db dm m -> ready db b -> (forall cf, batch_changes b cf = if decide (dm_cf dm = cf) then ds else []) ->
  Forall2 change_enc cs ds -> outcome (batch_write db b) (fun db' => wrote db dm m db' cs) no_error.
Proof.
  intros Hh Hr Hb Hcs. eapply outcome_impl; [by apply batch_write_outcome, Hr| |done].
  intros db' Hw. assert (Hb0 : batch_changes b (dm_cf dm) = ds) by by rewrite Hb, decide_True.
  pose proof (batch_write_holds _ _ _ _ _ _ _ Hh Hr Hb0 Hcs Hw) as Hh'.
  split_and!; [done| | |].
  - intros Hs. by apply (db_write_settled _ _ _ (proj2 Hr) Hw Hs).
  - destruct Hh as (Hi & _), Hh' as (Hi' & _). congruence.
  - intros cf name Hne Hc. destruct (db_write_rows _ _ _ _ _ (proj2 Hr) Hw Hc) as [Hc' Hrows].
    rewrite Hb, decide_False in Hrows by done. done.
Qed.

Lemma insert_outcome db dm m k v :
  holds db dm m -> outcome (insert db dm k v) (fun db' => wrote db dm m db' [(k, Some v)]) (fun e => key_error k e \/ value_error v e).
Proof.
  intros Hh. unfold insert. eapply outcome_bind; [apply ser_outcome|by left|]. intros kb Hk.
  eapply outcome_bind; [apply bcs_ser_outcome|by right|]. intros vb Hv.
  pose proof Hh as (_ & Hc & _). pose proof (put_delete_single db dm (kb, Some vb) Hc) as Hw. simpl in Hw. rewrite Hw.
  destruct (single_ready db (dm_cf dm) (kb, Some vb)) as [Hr Hb].
  eapply outcome_impl; [apply (write_outcome _ _ _ _ [(k, Some v)] _ Hh Hr Hb)|done|done]. by constructor.
Qed.

Lemma remove_outcome db dm m k :
  holds db dm m -> outcome (remove db dm k) (fun db' => wrote db dm m db' [(k, None)]) (key_error k).
Proof.
  intros Hh. unfold remove. eapply outcome_bind; [apply ser_outcome|done|]. intros kb Hk.
  pose proof Hh as (_ & Hc & _). pose proof (put_delete_single db dm (kb, None) Hc) as Hw. simpl in Hw. rewrite Hw.
  destruct (single_ready db (dm_cf dm) (kb, None)) as [Hr Hb].
  eapply outcome_impl; [apply (write_outcome _ _ _ _ [(k, None)] _ Hh Hr Hb)|done|done]. by constructor.
Qed.

Lemma appended_outcome db b dm m cs :
  holds db dm m -> batch_holds db dm (batch db dm) cs b ->
  outcome (batch_write db b) (fun db' => wrote db dm m db' cs) no_error.
Proof.
  intros Hh (Hr & ds & Hds & Ha). apply (write_outcome _ _ _ _ _ ds Hh Hr); [|done].
  intros cf. by rewrite Ha, (proj2 (batch_ready db dm)).
Qed.

Lemma multi_insert_outcome db dm m kvs :
  holds db dm m -> outcome (multi_insert db dm kvs) (fun db' => wrote db dm m db' ((fun p => (p.1, Some p.2)) <$> kvs))
    (fun e => exists p, p ∈ kvs /\ (key_error p.1 e \/ value_error p.2 e)).
Proof.
  intros Hh. unfold multi_insert.
  eapply outcome_bind; [by apply insert_batch_outcome; [apply Hh|apply Hh|apply batch_ready]|done|].
  intros b Hb. eapply outcome_impl; [by apply appended_outcome|done|by intros e []].
Qed.

Lemma multi_remove_outcome db dm m keys :
  holds db dm m -> outcome (multi_remove db dm keys) (fun db' => wrote db dm m db' ((fun k => (k, None)) <$> keys))
    (fun e => exists k, k ∈ keys /\ key_error k e).
Proof.
  intros Hh. unfold multi_remove.
  eapply outcome_bind; [by apply delete_batch_outcome; [apply Hh|apply Hh|apply batch_ready]|done|].
  intros b Hb. eapply outcome_impl; [by apply appended_outcome|done|by intros e []].
Qed.

(** C11: a typed map is a finite map.  Whatever the rows of its column family
    encode, a lookup, a membership test and a loop over the iterator answer it,
    and an insertion, a removal and their batches change exactly it: the bytes
    written encode the changed map, every other column family keeps its rows,
    and the only failures are those of the storage and of the codecs. *)
Theorem typed_map_refines_map db dm m :
  holds db dm m -> readable db dm ->
  (forall k, outcome (get db dm k) (fun o => o = m !! k) (key_error k)) /\
  (forall k, outcome (contains_key db dm k) (fun r => r = bool_decide (is_Some (m !! k))) (key_error k)) /\
  (on_rocks db -> outcome (it ← safe_iter db dm; collect_iter it) (fun l => l ≡ₚ map_to_list m) no_error) /\
  (forall k v, outcome (insert db dm k v) (fun db' => wrote db dm m db' [(k, Some v)]) (fun e => key_error k e \/ value_error v e)) /\
  (forall k, outcome (remove db dm k) (fun db' => wrote db dm m db' [(k, None)]) (key_error k)) /\
  (forall kvs, outcome (multi_insert db dm kvs) (fun db' => wrote db dm m db' ((fun p => (p.1, Some p.2)) <$> kvs))
     (fun e => exists p, p ∈ kvs /\ (key_error p.1 e \/ value_error p.2 e))) /\
  (forall keys, outcome (multi_remove db dm keys) (fun db' => wrote db dm m db' ((fun k => (k, None)) <$> keys))
     (fun e => exists k, k ∈ keys /\ key_error k e)).
Proof.
  intros Hh Hr. split_and!; intros.
  - by apply get_outcome.
  - by apply contains_key_outcome.
  - by apply safe_iter_outcome.
  - by apply insert_outcome.
  - by apply remove_outcome.
  - by apply multi_insert_outcome.
  - by apply multi_remove_outcome.
Qed.

(** ** Ranges *)

(** The number the key is written as. *)
Definition key_num (k : K) : Z := match bincode_serialize k with inl kb => be_val kb | inr _ => 0 end.

Definition in_range (lo hi : Bound K) (k : K) : Prop :=
  match lo with Included l => key_num l <= key_num k | Excluded l => key_num l < key_num k | Unbounded => True end /\
  match hi with Included h => key_num k <= key_num h | Excluded h => key_num k < key_num h | Unbounded => True end.
#[global] Instance in_range_dec lo hi k : Decision (in_range lo hi k).
Proof. unfold in_range. destruct lo, hi; apply _. Defined.

(** Every key is written in [n] bytes. *)
Definition width (n : nat) : Prop := forall k : K, exists kb, bincode_serialize k = inl kb /\ length kb = n.

(** The lower bound of the range is not the exclusion of the largest key. *)
Definition lower_room (lo : Bound K) : Prop :=
  match lo with Excluded l => forall kb, bincode_serialize l = inl kb -> is_max kb = false | _ => True end.

Definition low_ok (ro : ReadOptions) (kb : bytes) : bool :=
  match ro_lower ro with Some lo => negb (bytes_lt kb lo) | None => true end.
Definition high_ok (ro : ReadOptions) (kb : bytes) : bool :=
  match ro_upper ro with Some hi => bytes_lt kb hi | None => true end.

Lemma width_len n k kb : width n -> bincode_serialize k = inl kb -> length kb = n.
Proof. intros Hw Hk. destruct (Hw k) as (kb' & Hk' & <-). congruence. Qed.

Lemma key_num_ser k kb : bincode_serialize k = inl kb -> key_num k = be_val kb.
Proof. intros Hk. unfold key_num. by rewrite Hk. Qed.

Lemma range_lower_ok dm lo n :
  width n -> lower_room lo ->
  exists ro, range_lower dm lo = TOk ro /\ ro_upper ro = None /\
    ro_ignore_range_deletions ro = dm_ignore_range_deletions dm /\
    forall k kb, bincode_serialize k = inl kb -> (low_ok ro kb = true <->
      match lo with Included l => key_num l <= key_num k | Excluded l => key_num l < key_num k | Unbounded => True end).
Proof.
  intros Hw Hlo. destruct lo as [l|l|]; unfold range_lower, be_fix_int_ser; [| |by exists (readopts dm)];
    destruct (Hw l) as (lb & Hl & Hn); rewrite Hl; simpl; (eexists; split_and!; [done|done|done|]); intros k kb Hk;
    unfold low_ok; simpl; pose proof (width_len _ _ _ Hw Hk);
    rewrite not_lt_val by (rewrite ?add_one_length; congruence); rewrite (key_num_ser _ _ Hk), (key_num_ser _ _ Hl); [done|].
  rewrite add_one_val, (Hlo lb Hl). lia.
Qed.

Lemma range_upper_ok hi ro n :
  width n -> ro_upper ro = None ->
  exists ro', range_upper hi ro = TOk ro' /\ ro_lower ro' = ro_lower ro /\
    ro_ignore_range_deletions ro' = ro_ignore_range_deletions ro /\
    forall k kb, bincode_serialize k = inl kb -> (high_ok ro' kb = true <->
      match hi with Included h => key_num k <= key_num h | Excluded h => key_num k < key_num h | Unbounded => True end).
Proof.
  intros Hw Hro. destruct hi as [h|h|]; unfold range_upper, be_fix_int_ser.
  - destruct (Hw h) as (hb & Hh & Hn); rewrite Hh; simpl. destruct (is_max hb) eqn:Hm.
    + exists ro. split_and!; [done|done|done|]. intros k kb Hk. unfold high_ok. rewrite Hro.
      rewrite (key_num_ser _ _ Hk), (key_num_ser _ _ Hh). split; [intros _|done].
      rewrite is_max_val in Hm. apply Z.eqb_eq in Hm. pose proof (be_val_range kb) as Hb.
      rewrite (width_len _ _ _ Hw Hk) in Hb. rewrite Hn in Hm. lia.
    + eexists. split_and!; [done|done|done|]. intros k kb Hk. unfold high_ok. simpl. pose proof (width_len _ _ _ Hw Hk).
      rewrite lt_val by (rewrite add_one_length; congruence). rewrite add_one_val, Hm, (key_num_ser _ _ Hk), (key_num_ser _ _ Hh). lia.
  - destruct (Hw h) as (hb & Hh & Hn); rewrite Hh; simpl.
    eexists. split_and!; [done|done|done|]. intros k kb Hk. unfold high_ok. simpl. pose proof (width_len _ _ _ Hw Hk).
    rewrite lt_val by congruence. by rewrite (key_num_ser _ _ Hk), (key_num_ser _ _ Hh).
  - exists ro. split_and!; [done|done|done|]. intros k kb Hk. unfold high_ok. by rewrite Hro.
Qed.

Lemma range_options dm lo hi n :
  width n -> lower_room lo ->
  exists ro, create_read_options_with_range dm lo hi = TOk ro /\
    ro_ignore_range_deletions ro = dm_ignore_range_deletions dm /\
    forall k kb, bincode_serialize k = inl kb -> (in_bounds ro kb = true <-> in_range lo hi k).
Proof.
  intros Hw Hlo. destruct (range_lower_ok dm lo n Hw Hlo) as (ro & E1 & Hu & Hi & Hlow).
  destruct (range_upper_ok hi ro n Hw Hu) as (ro' & E2 & Hl & Hi' & Hhigh). exists ro'.
  unfold create_read_options_with_range. rewrite E1. simpl. split_and!; [done|congruence|].
  intros k kb Hk. unfold in_bounds, in_range. rewrite Hl. fold (low_ok ro kb) (high_ok ro' kb).
  by rewrite andb_true_iff, (Hlow k kb Hk), (Hhigh k kb Hk).
Qed.

Lemma strong_sorted_decoded n (rows : list (bytes * bytes)) (kvs : list (K * V)) :
  width n -> Forall2 (fun p kv => row_of kv.1 kv.2 p.1 p.2) rows kvs -> StronglySorted row_le rows ->
  StronglySorted (fun x y => key_num x.1 <= key_num y.1) kvs.
Proof.
  intros Hw Hl. induction Hl as [|[kb vb] [k v] rows kvs [Hk _] Hl IH]; intros Hs; [constructor|].
  apply StronglySorted_inv in Hs as [Hs Hf]. constructor; [by apply IH|].
  apply Forall_forall. intros [k' v'] [i Hi]%list_elem_of_lookup_1.
  destruct (Forall2_lookup_r _ _ _ _ _ Hl Hi) as ([kb' vb'] & Hi' & [Hk' _]).
  rewrite Forall_forall in Hf. specialize (Hf _ (list_elem_of_lookup_2 _ _ _ Hi')). unfold row_le in Hf. simpl in *.
  rewrite (key_num_ser _ _ Hk), (key_num_ser _ _ Hk').
  rewrite bytes_lt_val in Hf by by rewrite (width_len _ _ _ Hw Hk), (width_len _ _ _ Hw Hk'). lia.
Qed.

(** C25: a range iterator answers its range.  With keys of one width, every kind
    of bound on either side and however the bytes of the bound are incremented,
    the loop sees exactly the entries whose key lies in the range, ascending;
    the one bound it cannot express is the exclusion of the largest key, which
    it takes as its inclusion. *)
Theorem range_iter_exact db dm m lo hi n :
  holds db dm m -> on_rocks db -> readable db dm -> width n ->
  (lower_room lo ->
   outcome (it ← safe_range_iter db dm lo hi; collect_iter it)
     (fun l => l ≡ₚ filter (fun kv => in_range lo hi kv.1) (map_to_list m) /\
               StronglySorted (fun x y => key_num x.1 <= key_num y.1) l) no_error) /\
  (forall k kb, lo = Excluded k -> bincode_serialize k = inl kb -> is_max kb = true ->
     safe_range_iter db dm lo hi = safe_range_iter db dm (Included k) hi).
Proof.
  intros Hh Hrk Hr Hw. split.
  - intros Hlo. destruct (range_options dm lo hi n Hw Hlo) as (ro & E & Hi & Hb).
    unfold safe_range_iter. rewrite E. simpl.
    eapply outcome_impl; [apply (iter_outcome db dm m ro (fun kv => in_range lo hi kv.1) Hh Hrk)| |done].
    + by rewrite Hi.
    + intros k v kb Hk. by apply Hb.
    + intros l [Hp Hrows]. split; [done|]. apply (strong_sorted_decoded n _ _ Hw Hrows).
      apply filter_sorted. apply (StronglySorted_merge_sort _).
  - intros k kb -> Hk Hm. unfold safe_range_iter, create_read_options_with_range, range_lower, be_fix_int_ser.
    rewrite Hk. simpl. unfold big_endian_saturating_add_one. by rewrite Hm.
Qed.

(** ** What the store does not do *)

Lemma first_of_scan rows status seen (kvs : list (K * V)) :
  Forall2 (fun p kv => row_of kv.1 kv.2 p.1 p.2) rows kvs -> scan_of status seen rows ->
  outcome (first_of (K := K) (V := V) {| si_rows := seen; si_status := status |}) (fun o => o = fst <$> head kvs) no_error.
Proof.
  intros Hl Hs. unfold scan_of in Hs. unfold first_of, safe_iter_next. simpl.
  destruct seen as [|[kb vb] seen].
  - destruct status as [msg|]; [left; by exists msg|]. subst rows. by inversion Hl.
  - assert (exists rest, rows = (kb, vb) :: rest) as [rest ->]
      by (destruct status as [msg|]; [destruct Hs as [rest ->]|]; by eexists).
    inversion Hl as [|? [k v] ? kvs' [Hk%bincode_round Hv%bcs_round] _]; subst. simpl in *. by rewrite Hk, Hv.
Qed.

(** The two ends of the table, as [schedule_delete_all] finds them. *)
Lemma ends_outcome db dm m :
  holds db dm m -> on_rocks db -> readable db dm ->
  exists kvs, Forall2 (fun p kv => row_of kv.1 kv.2 p.1 p.2) (scan_rows (db_rows db (dm_cf dm))) kvs /\ kvs ≡ₚ map_to_list m /\
    outcome (it ← safe_iter db dm; first_of (K := K) (V := V) it) (fun o => o = fst <$> head kvs) no_error /\
    outcome (rev ← reversed_safe_iter_with_bounds db dm None None; first_of (K := K) (V := V) rev) (fun o => o = fst <$> last kvs) no_error.
Proof.
  intros Hh Hrk Hr. destruct (scan_entries _ _ _ Hh) as (kvs & Hkvs & Hp). exists kvs. split_and!; [done|done| |].
  all: destruct Hh as (_ & Hc & _); unfold safe_iter, reversed_safe_iter_with_bounds, raw_iterator_cf, raw_iterator_back, has_cf,
         on_rocks, readable, db_settled, db_rows in *; simpl;
       destruct (storage db) as [r|] eqn:Es; [|done]; destruct (dm_column_family dm) as [n|]; [|done];
       destruct Hc as [-> Hs]; rewrite (rocks_cf_ok db) by done; simpl; simpl in Hkvs.
  - destruct (rk_scan r (readopts dm) (dm_cf dm)) as [rows status] eqn:Esc.
    pose proof (rk_scan_law r (readopts dm) (dm_cf dm) rows status Hr Esc) as Hscan.
    rewrite filter_all in Hscan by by apply Forall_true. by apply (first_of_scan _ _ _ _ Hkvs).
  - destruct (rk_scan_back r (readopts dm) (dm_cf dm) None) as [rows status] eqn:Esc.
    pose proof (rk_scan_back_law r (readopts dm) (dm_cf dm) None rows status Hr Esc) as Hscan.
    rewrite filter_all in Hscan by by apply Forall_true.
    rewrite <- head_reverse. apply (first_of_scan _ _ _ _ (Forall2_reverse _ _ _ Hkvs) Hscan).
Qed.

Lemma sorted_ends (l : list (bytes * bytes)) p1 pn p :
  StronglySorted row_le l -> head l = Some p1 -> last l = Some pn -> p ∈ l ->
  bytes_lt p.1 p1.1 = false /\ bytes_lt pn.1 p.1 = false.
Proof.
  intros Hs H1 Hn Hp. split.
  - destruct l as [|q l]; [done|]. simplify_eq/=. apply StronglySorted_cons in Hs as [Hq _].
    apply elem_of_cons in Hp as [->|Hp]; [apply bytes_lt_irrefl|]. rewrite Forall_forall in Hq. by apply Hq.
  - apply last_Some in Hn as [l' ->]. apply elem_of_app in Hp as [Hp| ->%list_elem_of_singleton]; [|apply bytes_lt_irrefl].
    apply (StronglySorted_app_1_elem_of _ _ _ _ _ Hs Hp). by apply list_elem_of_here.
Qed.

Lemma Forall2_last {A B} (S : A -> B -> Prop) l1 l2 y :
  Forall2 S l1 l2 -> last l2 = Some y -> exists x, last l1 = Some x /\ S x y.
Proof.
  intros Hl [l' ->]%last_Some. apply Forall2_app_inv_r in Hl as (l1' & l1'' & _ & Hl & ->).
  apply Forall2_cons_inv_r in Hl as (x & rest & Hx & ->%Forall2_nil_inv_r & ->). exists x. by rewrite last_snoc.
Qed.

(** The rows outside [[first, last)]: the last one. *)
Lemma range_leaves_last (rows : gmap bytes bytes) from to p1 pn :
  head (scan_rows rows) = Some p1 -> last (scan_rows rows) = Some pn -> from = p1.1 -> to = pn.1 ->
  filter (fun p : bytes * bytes => ~ (bytes_lt p.1 from = false /\ bytes_lt p.1 to = true)) rows = {[pn.1 := pn.2]}.
Proof.
  intros H1 Hn -> ->. assert (Hin : forall p, p ∈ scan_rows rows <-> rows !! p.1 = Some p.2).
  { intros [kb vb]. unfold scan_rows. rewrite (elem_of_Permutation_proper _ _ _ (merge_sort_Permutation _ _)). apply elem_of_map_to_list. }
  assert (Hpn : rows !! pn.1 = Some pn.2) by (apply Hin; apply last_Some in Hn as [l' ->]; set_solver).
  pose proof (StronglySorted_merge_sort row_le (map_to_list rows)) as Hs. fold (scan_rows rows) in Hs.
  apply map_eq. intros kb. apply option_eq. intros vb. rewrite map_lookup_filter_Some, lookup_singleton_Some. split.
  - intros [Hl Hkeep]. simpl in Hkeep.
    destruct (sorted_ends _ _ _ (kb, vb) Hs H1 Hn) as [Ha Hb]; [by apply Hin|]. simpl in *.
    destruct (bytes_lt kb pn.1) eqn:E; [tauto|]. assert (kb = pn.1) as -> by by apply bytes_lt_total.
    split; [done|]. congruence.
  - intros [<- <-]. split; [done|]. simpl. rewrite bytes_lt_irrefl. by intros [_ ?].
Qed.

(** Claim:  [schedule_delete_all] does not delete everything.  Once its range
    deletion has taken effect a map that had entries holds exactly one: the one
    with the largest key, the end the range excludes. *)
Theorem delete_all_keeps_last db dm m :
  holds db dm m -> on_rocks db -> readable db dm -> m <> ∅ ->
  exists k v, m !! k = Some v /\
    outcome (schedule_delete_all db dm) (fun db' => holds db' dm {[k := v]}) no_error.
Proof.
  intros Hh Hrk Hr Hne. destruct (ends_outcome db dm m Hh Hrk Hr) as (kvs & Hkvs & Hp & Hfirst & Hlast).
  destruct Hh as (Hid & Hc & He).
  destruct (last kvs) as [[kn vn]|] eqn:Eln.
  2:{ apply last_None in Eln as ->. apply Permutation_nil, map_to_list_empty_iff in Hp. done. }
  exists kn, vn. split.
  { apply elem_of_map_to_list. rewrite <- Hp. apply last_Some in Eln as [l' ->]. set_solver. }
  destruct (head kvs) as [[k1 v1]|] eqn:Eh; [|by destruct kvs].
  destruct (Forall2_last _ _ _ _ Hkvs Eln) as ([kbn vbn] & Eln' & [Hkn Hvn]).
  destruct (scan_rows (db_rows db (dm_cf dm))) as [|[kb1 vb1] rest] eqn:Esr; [by inversion Hkvs; subst|].
  inversion Hkvs as [|? [k1' v1'] ? ? [Hk1 _]]; subst. simpl in Eh, Hk1. simplify_eq.
  assert (E1 : head (scan_rows (db_rows db (dm_cf dm))) = Some (kb1, vb1)) by by rewrite Esr.
  rewrite <- Esr in Eln'. pose proof (range_leaves_last _ kb1 kbn _ _ E1 Eln' eq_refl eq_refl) as Hrange. simpl in *.
  unfold schedule_delete_all. destruct (safe_iter db dm) as [it|e|] eqn:Eit; simpl in Hfirst |- *; [|tauto|done].
  destruct (first_of it) as [o|e|] eqn:Efi; simpl in Hfirst |- *; [|tauto|done]. subst o.
  destruct (reversed_safe_iter_with_bounds db dm None None) as [rev|e|]; simpl in Hlast |- *; [|tauto|done].
  destruct (first_of rev) as [o|e|]; simpl in Hlast |- *; [|tauto|done]. subst o. simpl.
  unfold schedule_delete_range, be_fix_int_ser. simpl. rewrite decide_True by done. rewrite Hk1, Hkn. simpl.
  unfold on_rocks, has_cf, holds, db_rows, batch_write, db_write, with_storage, batch in *. simpl in *.
  destruct (storage db) as [r|] eqn:Es; [|done]. simpl in *. destruct (dm_column_family dm) as [n|] eqn:Ecf; [|done].
  destruct Hc as [-> Hs]. rewrite (rocks_cf_ok db) by done. simpl.
  destruct (rk_write r [RkDeleteRange (dm_cf dm) kb1 kbn]) as [r'|msg] eqn:Ew; simpl; [|left; by eexists].
  destruct (rk_write_law _ _ _ Ew) as [Hv _]. simpl in Hv. destruct Hs as [rows Hs]. rewrite Hs in Hrange. simpl in Hrange.
  assert (Hv2 : has_cf {| db_id := db_id db; storage := SRocks r' |} (CfRocks (dm_cf dm)) (dm_cf dm))
    by (split; [done|]; rewrite Hv, lookup_alter_eq, Hs; by eexists).
  split; [done|]. rewrite Hv, lookup_alter_eq, Hs. split; [exact Hv2|]. simpl. rewrite Hrange.
  split; intros ?? [<- <-]%lookup_singleton_Some; by eexists _, _; rewrite lookup_singleton_eq.
Qed.

Lemma collect_raw_cons p rows status :
  collect_raw_iter (K := K) {| si_rows := p :: rows; si_status := status |} =
    match bincode_deserialize p.1 with
    | inl k => l ← collect_raw_iter {| si_rows := rows; si_status := status |}; TOk ((k, p.2) :: l)
    | inr msg => TErr (SerializationError msg)
    end.
Proof.
  destruct p as [kb vb]. unfold collect_raw_iter, iter_fuel. cbn [drain safe_raw_value_iter_next si_rows fst snd length].
  by destruct (bincode_deserialize kb).
Qed.

Lemma collect_raw_all rows kbs :
  Forall2 (fun p kb => bincode_deserialize p.1 = inl kb.1 /\ kb.2 = p.2) rows kbs ->
  collect_raw_iter (K := K) {| si_rows := rows; si_status := None |} = TOk kbs.
Proof.
  induction 1 as [|p [k vb] rows kbs [Hk Hv] _ IH]; [done|]. simpl in *. subst vb.
  by rewrite collect_raw_cons, Hk, IH.
Qed.

(** C37: a row that does not decode hides every row behind it.  A loop over the
    typed iterator then ends without an error, as if the table ended there,
    even when the scan itself failed later; the iterator over raw values and
    the entry count see all the rows. *)
Theorem bad_row_hides_rest db dm good bad rest status (kvs : list (K * V)) :
  raw_iterator_cf db (dm_cf dm) (readopts dm) = TOk (good ++ bad :: rest, status) ->
  Forall2 (fun p kv => decode_row p = Some kv) good kvs -> decode_row (K := K) (V := V) bad = None ->
  (it ← safe_iter db dm; collect_iter it) = TOk kvs /\
  (status = None -> forall kbs, Forall2 (fun p kb => bincode_deserialize p.1 = inl kb.1 /\ kb.2 = p.2) (good ++ bad :: rest) kbs ->
     (it ← safe_iter_raw_values db dm; collect_raw_iter it) = TOk kbs /\
     raw_entry_count db dm = TOk (length kvs + S (length rest))%nat).
Proof.
  intros Hraw Hg Hb. unfold safe_iter, safe_iter_raw_values, raw_entry_count. rewrite Hraw. simpl. split.
  - by apply collect_iter_bad.
  - intros -> kbs Hk. split; [by apply collect_raw_all|]. rewrite length_app. simpl. by rewrite (Forall2_length _ _ _ Hg).
Qed.

End Refinement.

(** ** A store to look at: RocksDB as nothing but its rows *)

#[export] Instance DemoRocks : Rocks := {
  rocks_db := gmap string (gmap bytes bytes);
  cf_handle db cf := bool_decide (is_Some (db !! cf));
  rk_get db ro cf key := inl (db !! cf ≫= lookup key);
  rk_multi_get db ro cf keys := (fun key => inl (db !! cf ≫= lookup key)) <$> keys;
  rk_key_may_exist db ro cf key := true;
  rk_put db cf key value := inl (rocks_step db (RkPut cf key value));
  rk_delete db cf key := inl (rocks_step db (RkDelete cf key));
  rk_write db cs := inl (foldl rocks_step db cs);
  rk_create_cf db cf := inl (<[cf := ∅]> db);
  rk_drop_cf db cf := inl (delete cf db);
  rk_scan db ro cf := (filter (fun p => in_bounds ro p.1 = true) (scan_rows (default ∅ (db !! cf))), None);
  rk_scan_back db ro cf from :=
    (reverse (filter (fun p => in_bounds ro p.1 && match from with Some k => negb (bytes_lt k p.1) | None => true end = true)
                     (scan_rows (default ∅ (db !! cf)))), None)
}.

#[export] Instance DemoRocksLaws : RocksLaws (R := DemoRocks).
Proof.
  refine {| rk_view := fun db : rocks_db (Rocks := DemoRocks) => db; rk_settled := fun _ => True |};
    simpl; intros; try done; try congruence; by simplify_eq.
Defined.

(** One byte keys and values, written as themselves. *)
#[export] Instance DemoByteKey : Bincode byte := {
  bincode_serialize b := inl [b];
  bincode_deserialize l := match l with [b] => inl b | _ => inr "length"%string end
}.
#[export] Instance DemoByteValue : Bcs byte := {
  bcs_to_bytes b := inl [b];
  bcs_from_bytes l := match l with [b] => inl b | _ => inr "length"%string end
}.
#[export] Instance DemoByteKeyLaws : BincodeLaws byte.
Proof. constructor. intros k b Hk. by simplify_eq/=. Qed.
#[export] Instance DemoByteValueLaws : BcsLaws byte.
Proof. constructor. intros k b Hk. by simplify_eq/=. Qed.

Definition demo_map : gmap byte byte := <[x05 := x06]> {[x01 := x02]}.
Definition demo_store : Database (R := DemoRocks) :=
  {| db_id := 7; storage := SRocks (R := DemoRocks) {["m"%string := <[[x05] := [x06]]> {[ [x01] := [x02] ]}]} |}.
Definition demo_dbmap : DBMap byte byte := reopen (R := DemoRocks) demo_store (Some "m"%string) true.

Lemma demo_holds : holds demo_store demo_dbmap demo_map.
Proof.
  split; [done|]. split; [by split; [|eexists]|].
  apply (encodes_change _ _ (x05, Some x06) ([x05], Some [x06])); [|done].
  apply (encodes_change _ _ (x01, Some x02) ([x01], Some [x02])); [|done]. apply encodes_empty.
Qed.

Lemma demo_width : width (K := byte) 1.
Proof. intros k. by exists [k]. Qed.

Lemma typed_map_refines_map_witness :
  holds demo_store demo_dbmap demo_map /\
  outcome (get demo_store demo_dbmap x05) (fun o => o = demo_map !! x05) (key_error x05).
Proof.
  split; [apply demo_holds|].
  refine (proj1 (typed_map_refines_map demo_store demo_dbmap demo_map demo_holds (or_intror I)) x05).
Defined.

Lemma range_iter_exact_witness :
  outcome (it ← safe_range_iter demo_store demo_dbmap (Excluded x01) (Included xff); collect_iter it)
    (fun l => l ≡ₚ filter (fun kv => in_range (Excluded x01) (Included xff) kv.1) (map_to_list demo_map) /\
              StronglySorted (fun x y => key_num x.1 <= key_num y.1) l) no_error /\
  safe_range_iter demo_store demo_dbmap (Excluded xff) Unbounded = safe_range_iter demo_store demo_dbmap (Included xff) Unbounded.
Proof.
  split.
  - refine (proj1 (range_iter_exact demo_store demo_dbmap demo_map (Excluded x01) (Included xff) 1 demo_holds I (or_intror I) demo_width) _).
    simpl. intros kb Hk. by simplify_eq.
  - by apply (proj2 (range_iter_exact demo_store demo_dbmap demo_map (Excluded xff) Unbounded 1 demo_holds I (or_intror I) demo_width) xff [xff]).
Defined.

Lemma delete_all_keeps_last_witness :
  exists k v, demo_map !! k = Some v /\
    outcome (schedule_delete_all demo_store demo_dbmap) (fun db' => holds db' demo_dbmap {[k := v]}) no_error.
Proof.
  apply (delete_all_keeps_last demo_store demo_dbmap demo_map demo_holds I (or_intror I)).
  intros He. assert (Hn : demo_map !! x05 = None) by by rewrite He. done.
Defined.

(** The value of the second row has two bytes. *)
Definition demo_bad_store : Database (R := DemoRocks) :=
  {| db_id := 7; storage := SRocks (R := DemoRocks) {["m"%string :=
       <[[x09] := [x0a]]> (<[[x05] := [x06; x07]]> {[ [x01] := [x02] ]})]} |}.

Lemma bad_row_hides_rest_witness :
  (it ← safe_iter demo_bad_store demo_dbmap; collect_iter it) = TOk [(x01, x02)] /\
  raw_entry_count demo_bad_store demo_dbmap = TOk 3%nat.
Proof.
  assert (Hraw : raw_iterator_cf demo_bad_store (dm_cf demo_dbmap) (readopts demo_dbmap) =
    TOk ([([x01], [x02])] ++ ([x05], [x06; x07]) :: [([x09], [x0a])], None)) by by vm_compute.
  assert (Hg : Forall2 (fun p kv => decode_row p = Some kv) [([x01], [x02])] [(x01, x02)]) by by repeat constructor.
  destruct (bad_row_hides_rest demo_bad_store demo_dbmap _ _ _ _ _ Hraw Hg eq_refl) as [H1 H2]. split; [done|].
  apply (proj2 (H2 eq_refl [(x01, [x02]); (x05, [x06; x07]); (x09, [x0a])] ltac:(by repeat constructor))).
Defined.
