(* ===== verification/TablesStore.v ===== *)
(** * TablesStore: [persist/index_state_tables.rs] over the typed store

    [Tables] takes the column families of the index database as maps and a
    batch as the list of its operations.  Here the same functions are written
    over [DBMap] and [DBBatch] of [TypedStore], with the codecs and errors they
    have, and refine those of [Tables]: committing the batch of a write set
    leaves bytes that encode [apply_index_write_set], and every loader answers
    the rows [Tables] loads.  A failed write is logged and skipped, as by
    [persist/index_state_write.rs]. *)
From Stdlib Require Import Strings.Byte.
From S2P Require Import Prelude Text Errors Sdk Keys Domain WriteSet Tables TypedStore TypedStoreFacts.

Local Open Scope list_scope.
Local Open Scope Z_scope.

(** ** The maps of the database *)

Record IndexStateMaps := {
  im_meta : DBMap string string;
  im_markets : DBMap string Market;
  im_orders : DBMap string OrderRow;
  im_book_levels : DBMap LevelKey Z;
  im_book_meta : DBMap string BookMetaRow;
  im_last_trades : DBMap string Z;
  im_vaults : DBMap string Vault;
  im_vault_portfolio : DBMap (string * string) Z
}.

Definition typed_store_error_to_string (e : TypedStoreError) : string :=
  match e with
  | RocksDBError msg => "rocksdb error: " +:+ msg
  | SerializationError msg => "(de)serialization error: " +:+ msg
  | UnregisteredColumn name => "the column family " +:+ name +:+ " was not registered with the database"
  | CrossDBBatch => "a batch operation can't operate across databases"
  | MetricsReporting => "Metric reporting thread failed with error"
  | RetryableTransactionError => "Transaction should be retried"
  end%string.

(** [IndexStateTables::map_err]; [None] is a panic. *)
Definition map_err {A} (r : TResult A) : option (AppResult A) :=
  match r with
  | TOk a => Some (Ok a)
  | TErr e => Some (Err (Internal ("index-state rocksdb: " +:+ typed_store_error_to_string e)))
  | TPanic => None
  end.

(** Calls on one batch, one after the other, each with [?]. *)
Definition try_all (calls : list (DBBatch -> TResult DBBatch)) (b : DBBatch) : TResult DBBatch :=
  foldl (fun r call => b ← r; call b) (TOk b) calls.

Section IndexStore.
Context {R : Rocks}.
Context {BS : Bincode string} {BL : Bincode LevelKey} {BP : Bincode (string * string)}.
Context {CS : Bcs string} {CM : Bcs Market} {CO : Bcs OrderRow} {CZ : Bcs Z} {CB : Bcs BookMetaRow} {CV : Bcs Vault}.

(** Each field is the column family of its name, opened with the default
    options, which ignore range deletions. *)
Definition open_tables_read_write (db : Database) : IndexStateMaps :=
  {| im_meta := reopen db (Some "meta"%string) true;
     im_markets := reopen db (Some "markets"%string) true;
     im_orders := reopen db (Some "orders"%string) true;
     im_book_levels := reopen db (Some "book_levels"%string) true;
     im_book_meta := reopen db (Some "book_meta"%string) true;
     im_last_trades := reopen db (Some "last_trades"%string) true;
     im_vaults := reopen db (Some "vaults"%string) true;
     im_vault_portfolio := reopen db (Some "vault_portfolio"%string) true |}.

Section Calls.
Context {K V : Type} `{Countable K} {BK : Bincode K} {BV : Bcs V}.

(** [clear_map]. *)
Definition clear_map (db : Database) (map : DBMap K V) (b : DBBatch) : TResult DBBatch :=
  it ← safe_iter db map; items ← collect_iter (K := K) (V := V) it;
  match items.*1 with [] => TOk b | keys => TypedStore.delete_batch db b map keys end.

(** The guarded calls for the two sides of one delta. *)
Definition delete_of (db : Database) (map : DBMap K V) (d : Delta K V) (b : DBBatch) : TResult DBBatch :=
  if bool_decide (to_delete d = ∅) then TOk b else TypedStore.delete_batch db b map (elements (to_delete d)).
Definition store_of (db : Database) (map : DBMap K V) (d : Delta K V) (b : DBBatch) : TResult DBBatch :=
  if bool_decide (to_store d = ∅) then TOk b else TypedStore.insert_batch db b map (map_to_list (to_store d)).

End Calls.

Definition build_index_write_batch (db : Database) (ws : IndexWriteSet) : TResult DBBatch :=
  let t := open_tables_read_write db in
  b ← (if ws_full_replace ws then
         try_all [clear_map db (im_markets t); clear_map db (im_orders t); clear_map db (im_book_levels t);
                  clear_map db (im_book_meta t); clear_map db (im_last_trades t); clear_map db (im_vaults t);
                  clear_map db (im_vault_portfolio t)] (batch db (im_markets t))
       else TOk (batch db (im_markets t)));
  b ← try_all [delete_of db (im_markets t) (ws_markets ws); delete_of db (im_orders t) (ws_orders ws);
               delete_of db (im_book_levels t) (ws_book_levels ws); delete_of db (im_book_meta t) (ws_book_meta ws);
               delete_of db (im_last_trades t) (ws_last_trades ws); delete_of db (im_vaults t) (ws_vaults ws);
               delete_of db (im_vault_portfolio t) (ws_vault_portfolio ws)] b;
  b ← try_all [store_of db (im_markets t) (ws_markets ws); store_of db (im_orders t) (ws_orders ws);
               store_of db (im_book_levels t) (ws_book_levels ws); store_of db (im_book_meta t) (ws_book_meta ws);
               store_of db (im_last_trades t) (ws_last_trades ws); store_of db (im_vaults t) (ws_vaults ws);
               store_of db (im_vault_portfolio t) (ws_vault_portfolio ws)] b;
  TypedStore.insert_batch db b (im_meta t)
    [("last_block_num"%string, dec (ws_block_num ws)); ("last_digest"%string, ws_digest ws)].

Definition apply_index_write_set (db : Database) (ws : IndexWriteSet) : TResult Database :=
  b ← build_index_write_batch db ws; TypedStore.batch_write db b.

Definition read_meta (db : Database) : option (AppResult (option PersistMeta)) :=
  let t := open_tables_read_write db in
  match (b ← get db (im_meta t) "last_block_num"%string; d ← get db (im_meta t) "last_digest"%string; TOk (b, d)) with
  | TOk (Some b, Some d) =>
      match parse_u64 b with
      | Some n => Some (Ok (Some {| pm_block_num := n; pm_digest := d |}))
      | None => Some (Err (Internal "bad last_block_num"))
      end
  | TOk _ => Some (Ok None)
  | TErr e => map_err (TErr e)
  | TPanic => None
  end.

(** ** Loading: a loop over each iterator *)

Definition rows_of {K V} `{Bincode K} `{Bcs V} (db : Database) (map : DBMap K V) : TResult (list (K * V)) :=
  it ← safe_iter db map; collect_iter it.

Definition load_markets (db : Database) : TResult (list Market) :=
  l ← rows_of db (im_markets (open_tables_read_write db)); TOk l.*2.

Definition load_orders (db : Database) : TResult (list PersistOrderRow) :=
  l ← rows_of db (im_orders (open_tables_read_write db));
  TOk (map (fun row => {| por_order := or_order row; por_user_address := or_user_address row;
                      por_chain_order_id := or_chain_order_id row; por_spot_market := or_spot_market row;
                      por_size_raw := as_u64 (or_size_raw row); por_filled_raw := as_u64 (or_filled_raw row);
                      por_status_ts_ms := 0 |}) l.*2).

Definition load_last_trades (db : Database) : TResult (list (string * Z)) :=
  l ← rows_of db (im_last_trades (open_tables_read_write db)); TOk (map (fun p => (p.1, as_u64 p.2)) l).

Definition load_book_levels (db : Database) : TResult (list PersistBookLevel) :=
  l ← rows_of db (im_book_levels (open_tables_read_write db));
  TOk (map (fun p : LevelKey * Z => {| pbl_spot_market := p.1.1.1; pbl_side := p.1.1.2; pbl_price_raw := as_u64 p.1.2;
                                   pbl_size_raw := as_u64 p.2 |}) (filter (fun p => ~ p.2 <= 0) l)).

Definition load_book_meta (db : Database) : TResult (list PersistBookMeta) :=
  l ← rows_of db (im_book_meta (open_tables_read_write db));
  TOk (map (fun p => {| pbm_spot_market := p.1; pbm_sequence := as_u64 (bm_sequence p.2);
                    pbm_last_trade_price := as_u64 <$> bm_last_trade_price p.2 |}) l).

Definition load_vaults (db : Database) : TResult (list Vault) :=
  l ← rows_of db (im_vaults (open_tables_read_write db)); TOk l.*2.

Definition load_vault_portfolio `{!Sdk} (db : Database) : TResult (list PersistVaultPortfolioRow) :=
  l ← rows_of db (im_vault_portfolio (open_tables_read_write db));
  TOk (map (fun p : (string * string) * Z => {| pvp_vault_id := p.1.1; pvp_spot_market := normalize_spot_market_key p.1.2;
                                            pvp_amount_raw := as_u64 p.2 |}) (filter (fun p => ~ p.2 <= 0) l)).

(** ** The writer: a set whose batch or commit fails is logged and skipped *)

Definition index_write_turn (db : Database) (ws : IndexWriteSet) : Database :=
  match apply_index_write_set db ws with TOk db' => db' | TErr _ | TPanic => db end.
Definition index_writer (db : Database) (log : list IndexWriteSet) : Database := foldl index_write_turn db log.

End IndexStore.
