(* ===== verification/TablesStoreFacts.v ===== *)
(** * TablesStoreFacts: the bytes of the index database encode the tables

    [tables_hold]: every column family encodes the table of its name.  The
    batch of a write set keeps it with [Tables.apply_index_write_set]
    ([index_store_refines_tables]), the loaders answer the tables
    ([stored_tables_load]), and the writer commits its log without the sets
    that failed ([index_writer_skips_failures]). *)
From Stdlib Require Import Strings.Byte.
From S2P Require Import Prelude Text Errors Sdk Keys Domain WriteSet Tables TypedStore TypedStoreFacts TablesStore.

Local Open Scope list_scope.
Local Open Scope Z_scope.

(** ** Operations of [Tables] as changes of a map *)

Section Changes.
Context {K V : Type} `{Countable K}.

Definition change_of (op : CfOp K V) : K * option V := match op with CfDelete k => (k, None) | CfPut k v => (k, Some v) end.

Lemma map_write_cf (ops : list (CfOp K V)) m : map_write (change_of <$> ops) m = cf_write ops m.
Proof. revert m. induction ops as [|[k|k v] ops IH]; intros m; [done| |]; apply IH. Qed.

(** The keys may be deleted in any order. *)
Lemma clear_any_order (keys : list K) (m : gmap K V) :
  keys ≡ₚ (map_to_list m).*1 -> cf_write (CfDelete <$> keys) m = ∅.
Proof.
  intros Hk. rewrite cf_write_deletes. apply map_eq. intros i. rewrite delete_fold_lookup, lookup_empty.
  case_decide as Hi; [done|]. destruct (m !! i) as [v|] eqn:E; [|done]. destruct Hi. rewrite Hk.
  apply list_elem_of_fmap. exists (i, v). split; [done|]. by apply elem_of_map_to_list.
Qed.
End Changes.

Section Facts.
Context {R : Rocks} {LR : RocksLaws}.
Context {BS : Bincode string} {BL : Bincode LevelKey} {BP : Bincode (string * string)}.
Context {CS : Bcs string} {CM : Bcs Market} {CO : Bcs OrderRow} {CZ : Bcs Z} {CB : Bcs BookMetaRow} {CV : Bcs Vault}.
Context {LBS : BincodeLaws string} {LBL : BincodeLaws LevelKey} {LBP : BincodeLaws (string * string)}.
Context {LCS : BcsLaws string} {LCM : BcsLaws Market} {LCO : BcsLaws OrderRow} {LCZ : BcsLaws Z} {LCB : BcsLaws BookMetaRow} {LCV : BcsLaws Vault}.
Implicit Types (db : Database) (b : TypedStore.DBBatch) (m : IndexStateTables) (ws : IndexWriteSet).

Definition codec_error (e : TypedStoreError) : Prop := exists msg, e = SerializationError msg.

(** ** Calls on a batch, and what each appends *)

Notation changes := (list (bytes * option bytes)).

Definition stepped db (name : string) (G : changes -> Prop) (call : TypedStore.DBBatch -> TResult TypedStore.DBBatch) : Prop :=
  forall b, ready db b -> outcome (call b) (fun b' => ready db b' /\ exists ds, G ds /\ batch_appends b b' name ds) codec_error.

Notation Call := (string * (changes -> Prop) * (TypedStore.DBBatch -> TResult TypedStore.DBBatch))%type.

(** The changes the calls make to one column family. *)
Fixpoint gathers (cf : string) (calls : list Call) (ds : changes) : Prop :=
  match calls with
  | [] => ds = []
  | c :: calls =>
      if decide (c.1.1 = cf) then exists d1 d2, ds = d1 ++ d2 /\ c.1.2 d1 /\ gathers cf calls d2 else gathers cf calls ds
  end.

Definition gathered db b (calls : list Call) b' : Prop :=
  ready db b' /\ forall cf, exists ds, gathers cf calls ds /\ batch_changes b' cf = batch_changes b cf ++ ds.

Lemma gathers_snoc cf calls c ds d :
  gathers cf calls ds -> (if decide (c.1.1 = cf) then c.1.2 d else d = []) -> gathers cf (calls ++ [c]) (ds ++ d).
Proof.
  revert ds. induction calls as [|c0 calls IH]; intros ds Hg Hd; simpl in *.
  - subst ds. case_decide; [|done]. exists d, []. by rewrite app_nil_r.
  - destruct (decide (c0.1.1 = cf)); [|by apply IH]. destruct Hg as (d1 & d2 & -> & H1 & H2).
    exists d1, (d2 ++ d). rewrite app_assoc. split_and!; [done|done|by apply IH].
Qed.

Lemma try_all_outcome db (calls : list Call) b :
  Forall (fun c => stepped db c.1.1 c.1.2 c.2) calls -> ready db b ->
  outcome (try_all calls.*2 b) (gathered db b calls) codec_error.
Proof.
  intros Hc Hr. unfold try_all. rewrite foldl_fmap.
  apply (foldl_bind_outcome (fun b c => c.2 b) (gathered db b)).
  - split; [done|]. intros cf. exists []. by rewrite app_nil_r.
  - intros prev c b1 Hin [Hr1 Hg]. rewrite Forall_forall in Hc.
    eapply outcome_impl; [by apply (Hc c Hin b1)| |done].
    intros b2 [Hr2 (d & Hd & Ha)]. split; [done|]. intros cf. destruct (Hg cf) as (ds & Hds & Hb).
    exists (ds ++ (if decide (c.1.1 = cf) then d else [])). split.
    + apply gathers_snoc; [done|]. by case_decide.
    + by rewrite Ha, Hb, app_assoc.
Qed.

Section Table.
Context {K V : Type} `{Countable K} {BK : Bincode K} {BV : Bcs V} {LK : BincodeLaws K} {LV : BcsLaws V}.
Implicit Types (dm : DBMap K V) (d : Delta K V) (mm : gmap K V).

Definition ops_enc (ops : list (CfOp K V)) (ds : changes) : Prop := Forall2 change_enc (change_of <$> ops) ds.
Definition clear_enc mm (ds : changes) : Prop :=
  exists keys, keys ≡ₚ (map_to_list mm).*1 /\ ops_enc (CfDelete <$> keys) ds.

Lemma appended_step db b dm b' cs (G : changes -> Prop) :
  batch_holds db dm b cs b' -> (forall ds, Forall2 change_enc cs ds -> G ds) ->
  ready db b' /\ exists ds, G ds /\ batch_appends b b' (dm_cf dm) ds.
Proof. intros (Hr & ds & Hds & Ha) HG. split; [done|]. exists ds. auto. Qed.

Lemma nothing_step db b (G : changes -> Prop) name :
  ready db b -> G [] -> outcome (TOk b) (fun b' => ready db b' /\ exists ds, G ds /\ batch_appends b b' name ds) codec_error.
Proof. intros Hr HG. split; [done|]. exists []. split; [done|apply batch_appends_nil]. Qed.

Lemma delete_step db b dm keys (G : changes -> Prop) mm :
  holds db dm mm -> ready db b -> (forall ds, ops_enc (CfDelete <$> keys) ds -> G ds) ->
  outcome (TypedStore.delete_batch db b dm keys) (fun b' => ready db b' /\ exists ds, G ds /\ batch_appends b b' (dm_cf dm) ds) codec_error.
Proof.
  intros (Hid & Hc & _) Hr HG. eapply outcome_impl; [by apply delete_batch_outcome| |].
  - intros b' Hb. apply (appended_step _ _ _ _ _ _ Hb). intros ds Hds. apply HG. unfold ops_enc. by rewrite <- list_fmap_compose.
  - intros e (k & _ & msg & _ & ->). by exists msg.
Qed.

Lemma clear_map_stepped db dm mm :
  holds db dm mm -> on_rocks db -> readable db dm -> stepped db (dm_cf dm) (clear_enc mm) (clear_map db dm).
Proof.
  intros Hh Hrk Hre b Hr. pose proof (safe_iter_outcome db dm mm Hh Hrk Hre) as Hit. unfold clear_map.
  destruct (safe_iter db dm) as [it|e|]; simpl in Hit |- *; [|by destruct Hit; [left|]|done].
  destruct (collect_iter it) as [l|e|]; simpl in Hit |- *; [|by destruct Hit; [left|]|done].
  destruct l.*1 as [|k keys] eqn:El.
  - apply nothing_step; [done|]. exists []. split; [by rewrite <- Hit, El|constructor].
  - apply (delete_step db b dm (k :: keys) (clear_enc mm) mm Hh Hr). intros ds Hds. exists (k :: keys).
    split; [by rewrite <- Hit, El|done].
Qed.

Lemma delete_of_stepped db dm mm d :
  holds db dm mm -> stepped db (dm_cf dm) (ops_enc (Tables.delete_batch d)) (delete_of db dm d).
Proof.
  intros Hh b Hr. unfold delete_of. case_bool_decide as He.
  - apply nothing_step; [done|]. unfold ops_enc, Tables.delete_batch. rewrite He, elements_empty. constructor.
  - by apply (delete_step db b dm _ _ mm Hh Hr).
Qed.

Lemma store_of_stepped db dm mm d :
  holds db dm mm -> stepped db (dm_cf dm) (ops_enc (Tables.insert_batch d)) (store_of db dm d).
Proof.
  intros Hh b Hr. unfold store_of. case_bool_decide as He.
  - apply nothing_step; [done|]. unfold ops_enc, Tables.insert_batch. rewrite He, map_to_list_empty. constructor.
  - destruct Hh as (Hid & Hc & _). eapply outcome_impl; [by apply insert_batch_outcome| |].
    + intros b' Hb. apply (appended_step _ _ _ _ _ _ Hb). intros ds Hds. unfold ops_enc, Tables.insert_batch.
      by rewrite <- list_fmap_compose.
    + intros e (p & _ & [(msg & _ & ->)|(msg & _ & ->)]); by exists msg.
Qed.

(** One table across the commit of a whole batch. *)
Lemma table_committed db b db' dm mm d (fr : bool) ds0 ds1 ds2 :
  holds db dm mm -> ready db b -> (if fr then clear_enc mm ds0 else ds0 = []) ->
  ops_enc (Tables.delete_batch d) ds1 -> ops_enc (Tables.insert_batch d) ds2 ->
  batch_changes b (dm_cf dm) = ds0 ++ ds1 ++ ds2 -> TypedStore.batch_write db b = TOk db' ->
  holds db' dm (cf_write (cf_ops fr mm d) mm).
Proof.
  intros Hh Hr H0 H1 H2 Hb Hw.
  assert (exists ops0, ops_enc ops0 ds0 /\ cf_write ops0 mm = cf_write (if fr then Tables.clear_map mm else []) mm) as (ops0 & E0 & Eq0).
  { destruct fr; [|subst ds0; exists []; by split; [constructor|]]. destruct H0 as (keys & Hk & He). exists (CfDelete <$> keys).
    split; [done|]. by rewrite (clear_any_order _ _ Hk), cf_clear. }
  unfold cf_ops. rewrite !cf_write_app, <- Eq0, <- !cf_write_app, <- map_write_cf, !fmap_app.
  apply (batch_write_holds db b db' dm mm _ _ Hh Hr Hb); [|done]. apply Forall2_app; [done|]. by apply Forall2_app.
Qed.

End Table.

(** ** The database *)

Record tables_hold db m : Prop := {
  th_meta : holds db (im_meta (open_tables_read_write db)) (t_meta m);
  th_markets : holds db (im_markets (open_tables_read_write db)) (t_markets m);
  th_orders : holds db (im_orders (open_tables_read_write db)) (t_orders m);
  th_book_levels : holds db (im_book_levels (open_tables_read_write db)) (t_book_levels m);
  th_book_meta : holds db (im_book_meta (open_tables_read_write db)) (t_book_meta m);
  th_last_trades : holds db (im_last_trades (open_tables_read_write db)) (t_last_trades m);
  th_vaults : holds db (im_vaults (open_tables_read_write db)) (t_vaults m);
  th_vault_portfolio : holds db (im_vault_portfolio (open_tables_read_write db)) (t_vault_portfolio m);
  th_rocks : on_rocks db;
  th_settled : db_settled db
}.

Definition clear_calls db m : list Call :=
  let t := open_tables_read_write db in
  [("markets"%string, clear_enc (t_markets m), clear_map db (im_markets t));
   ("orders"%string, clear_enc (t_orders m), clear_map db (im_orders t));
   ("book_levels"%string, clear_enc (t_book_levels m), clear_map db (im_book_levels t));
   ("book_meta"%string, clear_enc (t_book_meta m), clear_map db (im_book_meta t));
   ("last_trades"%string, clear_enc (t_last_trades m), clear_map db (im_last_trades t));
   ("vaults"%string, clear_enc (t_vaults m), clear_map db (im_vaults t));
   ("vault_portfolio"%string, clear_enc (t_vault_portfolio m), clear_map db (im_vault_portfolio t))].

Definition delete_calls db ws : list Call :=
  let t := open_tables_read_write db in
  [("markets"%string, ops_enc (Tables.delete_batch (ws_markets ws)), delete_of db (im_markets t) (ws_markets ws));
   ("orders"%string, ops_enc (Tables.delete_batch (ws_orders ws)), delete_of db (im_orders t) (ws_orders ws));
   ("book_levels"%string, ops_enc (Tables.delete_batch (ws_book_levels ws)), delete_of db (im_book_levels t) (ws_book_levels ws));
   ("book_meta"%string, ops_enc (Tables.delete_batch (ws_book_meta ws)), delete_of db (im_book_meta t) (ws_book_meta ws));
   ("last_trades"%string, ops_enc (Tables.delete_batch (ws_last_trades ws)), delete_of db (im_last_trades t) (ws_last_trades ws));
   ("vaults"%string, ops_enc (Tables.delete_batch (ws_vaults ws)), delete_of db (im_vaults t) (ws_vaults ws));
   ("vault_portfolio"%string, ops_enc (Tables.delete_batch (ws_vault_portfolio ws)), delete_of db (im_vault_portfolio t) (ws_vault_portfolio ws))].

Definition store_calls db ws : list Call :=
  let t := open_tables_read_write db in
  [("markets"%string, ops_enc (Tables.insert_batch (ws_markets ws)), store_of db (im_markets t) (ws_markets ws));
   ("orders"%string, ops_enc (Tables.insert_batch (ws_orders ws)), store_of db (im_orders t) (ws_orders ws));
   ("book_levels"%string, ops_enc (Tables.insert_batch (ws_book_levels ws)), store_of db (im_book_levels t) (ws_book_levels ws));
   ("book_meta"%string, ops_enc (Tables.insert_batch (ws_book_meta ws)), store_of db (im_book_meta t) (ws_book_meta ws));
   ("last_trades"%string, ops_enc (Tables.insert_batch (ws_last_trades ws)), store_of db (im_last_trades t) (ws_last_trades ws));
   ("vaults"%string, ops_enc (Tables.insert_batch (ws_vaults ws)), store_of db (im_vaults t) (ws_vaults ws));
   ("vault_portfolio"%string, ops_enc (Tables.insert_batch (ws_vault_portfolio ws)), store_of db (im_vault_portfolio t) (ws_vault_portfolio ws))].

Lemma clear_calls_stepped db m : tables_hold db m -> Forall (fun c => stepped db c.1.1 c.1.2 c.2) (clear_calls db m).
Proof.
  intros []. repeat constructor; (refine (clear_map_stepped db _ _ _ _ _); [done|done|by right]).
Qed.

Lemma delete_calls_stepped db m ws : tables_hold db m -> Forall (fun c => stepped db c.1.1 c.1.2 c.2) (delete_calls db ws).
Proof. intros []. repeat constructor; by (refine (delete_of_stepped db _ _ _ _)). Qed.

Lemma store_calls_stepped db m ws : tables_hold db m -> Forall (fun c => stepped db c.1.1 c.1.2 c.2) (store_calls db ws).
Proof. intros []. repeat constructor; by (refine (store_of_stepped db _ _ _ _)). Qed.

Definition meta_ops ws : list (CfOp string string) :=
  [CfPut "last_block_num"%string (dec (ws_block_num ws)); CfPut "last_digest"%string (ws_digest ws)].

(** What the built batch holds for each column family. *)
Definition built db m ws b : Prop :=
  ready db b /\ forall cf, exists ds0 ds1 ds2 ds3,
    (if ws_full_replace ws then gathers cf (clear_calls db m) ds0 else ds0 = []) /\
    gathers cf (delete_calls db ws) ds1 /\ gathers cf (store_calls db ws) ds2 /\
    (if decide ("meta"%string = cf) then ops_enc (meta_ops ws) ds3 else ds3 = []) /\
    batch_changes b cf = ds0 ++ ds1 ++ ds2 ++ ds3.

Lemma clear_phase db m ws :
  tables_hold db m ->
  outcome (if ws_full_replace ws then try_all (clear_calls db m).*2 (batch db (im_markets (open_tables_read_write db)))
           else TOk (batch db (im_markets (open_tables_read_write db))))
    (fun b => ready db b /\ forall cf, exists ds0,
       (if ws_full_replace ws then gathers cf (clear_calls db m) ds0 else ds0 = []) /\ batch_changes b cf = ds0) codec_error.
Proof.
  intros Hh. destruct (batch_ready db (im_markets (open_tables_read_write db))) as [Hr Hb]. destruct (ws_full_replace ws).
  - eapply outcome_impl; [by apply try_all_outcome; [by apply clear_calls_stepped|]| |done].
    intros b [Hr' Hg]. split; [done|]. intros cf. destruct (Hg cf) as (ds & Hds & Hc). rewrite Hb in Hc. by exists ds.
  - split; [done|]. intros cf. by exists [].
Qed.

Lemma build_outcome db m ws : tables_hold db m -> outcome (build_index_write_batch db ws) (built db m ws) codec_error.
Proof.
  intros Hh. unfold build_index_write_batch. eapply outcome_bind; [apply (clear_phase db m ws Hh)|done|].
  intros b0 [Hr0 H0]. eapply outcome_bind; [apply (try_all_outcome db (delete_calls db ws) b0); [by eapply delete_calls_stepped|done]|done|].
  intros b1 [Hr1 H1]. eapply outcome_bind; [apply (try_all_outcome db (store_calls db ws) b1); [by eapply store_calls_stepped|done]|done|].
  intros b2 [Hr2 H2]. destruct (th_meta _ _ Hh) as (Hid & Hc & _). eapply outcome_impl; [by apply insert_batch_outcome| |].
  - intros b3 (Hr3 & ds3 & Hds3 & Ha). split; [done|]. intros cf.
    destruct (H0 cf) as (ds0 & Hg0 & E0), (H1 cf) as (ds1 & Hg1 & E1), (H2 cf) as (ds2 & Hg2 & E2).
    exists ds0, ds1, ds2, (if decide ("meta"%string = cf) then ds3 else []). split_and!; [done|done|done|by case_decide|].
    rewrite Ha, E2, E1, E0, <- !app_assoc. done.
  - intros e (p & _ & [(msg & _ & ->)|(msg & _ & ->)]); by exists msg.
Qed.

Definition cf_names : list string :=
  ["markets"; "orders"; "book_levels"; "book_meta"; "last_trades"; "vaults"; "vault_portfolio"]%string.

Lemma cf_names_nodup : NoDup cf_names.
Proof. apply (bool_decide_unpack _). by vm_compute. Qed.

Lemma gathers_none cf (calls : list Call) ds : cf ∉ (fun c => c.1.1) <$> calls -> gathers cf calls ds -> ds = [].
Proof.
  induction calls as [|c calls IH]; simpl; [done|]. intros [Hne Hin]%not_elem_of_cons. case_decide; [done|]. by apply IH.
Qed.

(** The one call on a column family. *)
Lemma gathers_one cf (calls : list Call) i c ds :
  NoDup ((fun c => c.1.1) <$> calls) -> calls !! i = Some c -> c.1.1 = cf -> gathers cf calls ds -> c.1.2 ds.
Proof.
  revert i. induction calls as [|c0 calls IH]; intros i Hnd Hi Hcf Hg; [done|].
  rewrite fmap_cons in Hnd. apply NoDup_cons in Hnd as [Hn Hnd]. destruct i as [|i]; cbn [gathers] in Hg; simpl in Hi.
  - simplify_eq. rewrite decide_True in Hg by done. destruct Hg as (d1 & d2 & -> & Hd & Hg).
    apply gathers_none in Hg as ->; [|done]. by rewrite app_nil_r.
  - rewrite decide_False in Hg; [by eapply IH|]. intros E. apply Hn. rewrite E, <- Hcf.
    apply list_elem_of_fmap. exists c. split; [done|]. by eapply list_elem_of_lookup_2.
Qed.

Lemma table_kept {K V} `{Countable K} {BK : Bincode K} {BV : Bcs V} {LK : BincodeLaws K} {LV : BcsLaws V}
    db m ws b db' (dm : DBMap K V) mm (d : Delta K V) i call0 call1 call2 :
  holds db dm mm -> built db m ws b -> TypedStore.batch_write db b = TOk db' -> "meta"%string <> dm_cf dm ->
  clear_calls db m !! i = Some (dm_cf dm, clear_enc mm, call0) ->
  delete_calls db ws !! i = Some (dm_cf dm, ops_enc (Tables.delete_batch d), call1) ->
  store_calls db ws !! i = Some (dm_cf dm, ops_enc (Tables.insert_batch d), call2) ->
  holds db' dm (cf_write (cf_ops (ws_full_replace ws) mm d) mm).
Proof.
  intros Hh [Hr Hb] Hw Hmeta H0 H1 H2. destruct (Hb (dm_cf dm)) as (ds0 & ds1 & ds2 & ds3 & G0 & G1 & G2 & G3 & E).
  rewrite decide_False in G3 by done. subst ds3. rewrite app_nil_r in E.
  pose proof cf_names_nodup as Hnd.
  apply (table_committed db b db' dm mm d _ ds0 ds1 ds2 Hh Hr); [| | |done|done].
  - destruct (ws_full_replace ws); [|done]. by apply (gathers_one (dm_cf dm) (clear_calls db m) i _ ds0 Hnd H0).
  - by apply (gathers_one (dm_cf dm) (delete_calls db ws) i _ ds1 Hnd H1).
  - by apply (gathers_one (dm_cf dm) (store_calls db ws) i _ ds2 Hnd H2).
Qed.

Lemma meta_kept db m ws b db' :
  tables_hold db m -> built db m ws b -> TypedStore.batch_write db b = TOk db' ->
  holds db' (im_meta (open_tables_read_write db)) (cf_write (meta_ops ws) (t_meta m)).
Proof.
  intros Hh [Hr Hb] Hw. destruct (Hb "meta"%string) as (ds0 & ds1 & ds2 & ds3 & H0 & H1 & H2 & H3 & E).
  assert (Hn : "meta"%string ∉ cf_names) by (apply (bool_decide_unpack _); by vm_compute).
  assert (ds0 = []) as -> by (destruct (ws_full_replace ws); [by apply (gathers_none _ (clear_calls db m) _ Hn)|done]).
  assert (ds1 = []) as -> by by apply (gathers_none _ (delete_calls db ws) _ Hn).
  assert (ds2 = []) as -> by by apply (gathers_none _ (store_calls db ws) _ Hn).
  rewrite <- map_write_cf. refine (batch_write_holds db b db' _ _ _ ds3 (th_meta _ _ Hh) Hr E _ Hw). by rewrite decide_True in H3.
Qed.

Lemma commit_holds db m ws b db' :
  tables_hold db m -> built db m ws b -> TypedStore.batch_write db b = TOk db' ->
  tables_hold db' (Tables.apply_index_write_set m ws).
Proof.
  intros Hh Hb Hw. pose proof (meta_kept _ _ _ _ _ Hh Hb Hw) as Hm. pose proof (proj1 Hb) as Hr.
  destruct (db_write_settled db b db' (proj2 Hr) Hw (th_settled _ _ Hh)) as [Hs Hid].
  assert (Ht : open_tables_read_write db' = open_tables_read_write db) by (unfold open_tables_read_write, reopen; by rewrite Hid).
  assert (Hrk : on_rocks db').
  { pose proof (th_rocks _ _ Hh) as Hrk. unfold on_rocks, TypedStore.batch_write, db_write, with_storage in *.
    destruct (storage db), (bt_batch b); try done. by destruct (rk_write db0 cs); simplify_eq/=. }
  split; rewrite ?Ht; [exact Hm| | | | | | | |done|done].
  - by refine (table_kept db m ws b db' _ _ _ 0 _ _ _ (th_markets _ _ Hh) Hb Hw _ eq_refl eq_refl eq_refl).
  - by refine (table_kept db m ws b db' _ _ _ 1 _ _ _ (th_orders _ _ Hh) Hb Hw _ eq_refl eq_refl eq_refl).
  - by refine (table_kept db m ws b db' _ _ _ 2 _ _ _ (th_book_levels _ _ Hh) Hb Hw _ eq_refl eq_refl eq_refl).
  - by refine (table_kept db m ws b db' _ _ _ 3 _ _ _ (th_book_meta _ _ Hh) Hb Hw _ eq_refl eq_refl eq_refl).
  - by refine (table_kept db m ws b db' _ _ _ 4 _ _ _ (th_last_trades _ _ Hh) Hb Hw _ eq_refl eq_refl eq_refl).
  - by refine (table_kept db m ws b db' _ _ _ 5 _ _ _ (th_vaults _ _ Hh) Hb Hw _ eq_refl eq_refl eq_refl).
  - by refine (table_kept db m ws b db' _ _ _ 6 _ _ _ (th_vault_portfolio _ _ Hh) Hb Hw _ eq_refl eq_refl eq_refl).
Qed.

Lemma index_store_refines db m ws :
  tables_hold db m ->
  outcome (apply_index_write_set db ws) (fun db' => tables_hold db' (Tables.apply_index_write_set m ws)) codec_error.
Proof.
  intros Hh. unfold apply_index_write_set. eapply outcome_bind; [by apply build_outcome|done|]. intros b Hb.
  eapply outcome_impl; [apply batch_write_outcome, Hb| |by intros e []].
  intros db' Hw. by apply (commit_holds db m ws b).
Qed.

(** C10: the index database on bytes.  When every column family encodes its
    table, building the batch of a write set and committing it (incremental or
    replacing everything) leaves column families that encode exactly the tables
    of the model after that write set; the only failures are those of the
    storage and of the codecs, and there is no panic. *)
Theorem index_store_refines_tables db m ws :
  tables_hold db m ->
  outcome (apply_index_write_set db ws) (fun db' => tables_hold db' (Tables.apply_index_write_set m ws)) codec_error.
Proof.
  apply index_store_refines.
Qed.

(** ** Loading *)

Lemma rows_outcome {K V} `{Countable K} {BK : Bincode K} {BV : Bcs V} {LK : BincodeLaws K} {LV : BcsLaws V}
    db m (dm : DBMap K V) mm {A} (f : list (K * V) -> A) (P : A -> Prop) :
  tables_hold db m -> holds db dm mm -> (forall l, l ≡ₚ map_to_list mm -> P (f l)) ->
  outcome (l ← rows_of db dm; TOk (f l)) P no_error.
Proof.
  intros Hh Hd HP. eapply outcome_bind; [|done|].
  - apply (safe_iter_outcome db dm mm Hd (th_rocks _ _ Hh)). right. apply Hh.
  - intros l Hl. by apply HP.
Qed.

(** The loaders answer the tables.  From column families that encode the
    tables every loader returns, up to the order of rows, what the model loads,
    or fails with an error of the storage; the stored position is the model's
    too.  No row is dropped and no loader panics. *)
Theorem stored_tables_load `{!Sdk} db m :
  tables_hold db m ->
  outcome (load_markets db) (fun l => l ≡ₚ Tables.load_markets m) no_error /\
  outcome (load_orders db) (fun l => l ≡ₚ Tables.load_orders m) no_error /\
  outcome (load_last_trades db) (fun l => l ≡ₚ Tables.load_last_trades m) no_error /\
  outcome (load_book_levels db) (fun l => l ≡ₚ Tables.load_book_levels m) no_error /\
  outcome (load_book_meta db) (fun l => l ≡ₚ Tables.load_book_meta m) no_error /\
  outcome (load_vaults db) (fun l => l ≡ₚ Tables.load_vaults m) no_error /\
  outcome (load_vault_portfolio db) (fun l => l ≡ₚ Tables.load_vault_portfolio m) no_error /\
  match read_meta db with
  | Some (Ok r) => Tables.read_meta m = Ok r
  | Some (Err e) => Tables.read_meta m = Err e \/ exists e', map_err (A := unit) (TErr e') = Some (Err e)
  | None => False
  end.
Proof.
  intros Hh. split_and!.
  - apply (rows_outcome db m _ _ _ _ Hh (th_markets _ _ Hh)). intros l Hl. unfold Tables.load_markets. by rewrite Hl.
  - apply (rows_outcome db m _ _ _ _ Hh (th_orders _ _ Hh)). intros l Hl. unfold Tables.load_orders. simpl. by rewrite Hl.
  - apply (rows_outcome db m _ _ _ _ Hh (th_last_trades _ _ Hh)). intros l Hl. by apply fmap_Permutation.
  - apply (rows_outcome db m _ _ _ _ Hh (th_book_levels _ _ Hh)). intros l Hl. apply fmap_Permutation. by rewrite Hl.
  - apply (rows_outcome db m _ _ _ _ Hh (th_book_meta _ _ Hh)). intros l Hl. by apply fmap_Permutation.
  - apply (rows_outcome db m _ _ _ _ Hh (th_vaults _ _ Hh)). intros l Hl. unfold Tables.load_vaults. by rewrite Hl.
  - apply (rows_outcome db m _ _ _ _ Hh (th_vault_portfolio _ _ Hh)). intros l Hl. apply fmap_Permutation. by rewrite Hl.
  - unfold read_meta, Tables.read_meta.
    pose proof (fun k => get_outcome db _ _ k (th_meta _ _ Hh) (or_intror (th_settled _ _ Hh))) as Hg.
    pose proof (Hg "last_block_num"%string) as Hb. pose proof (Hg "last_digest"%string) as Hd.
    destruct (get db _ "last_block_num"%string) as [o|e|]; simpl in Hb |- *; [|right; by exists e|done]. subst o.
    destruct (get db _ "last_digest"%string) as [o|e|]; simpl in Hd |- *; [|right; by exists e|done]. subst o.
    destruct (t_meta m !! "last_block_num"%string) as [n|], (t_meta m !! "last_digest"%string) as [d|]; try done.
    destruct (parse_u64 n); [done|by left].
Qed.

(** ** The writer *)

(** The write sets of a log whose commit succeeded. *)
Fixpoint committed db (log : list IndexWriteSet) : list IndexWriteSet :=
  match log with
  | [] => []
  | ws :: log =>
      match apply_index_write_set db ws with
      | TOk db' => ws :: committed db' log
      | TErr _ | TPanic => committed db log
      end
  end.

Lemma committed_snoc db log ws :
  committed db (log ++ [ws]) =
    committed db log ++ match apply_index_write_set (index_writer db log) ws with TOk _ => [ws] | _ => [] end.
Proof.
  revert db. induction log as [|w log IH]; intros db; simpl; [by destruct (apply_index_write_set db ws)|].
  unfold index_write_turn. destruct (apply_index_write_set db w); simpl; by rewrite IH.
Qed.

Lemma index_writer_holds db m log :
  tables_hold db m -> Forall (fun ws => ws_full_replace ws = false) log ->
  tables_hold (index_writer db log) (replay m (committed db log)).
Proof.
  intros Hh Hf. revert db m Hh. induction Hf as [|ws log Hw _ IH]; intros db m Hh; [done|]. simpl.
  unfold index_write_turn. pose proof (index_store_refines db m ws Hh) as Ho.
  destruct (apply_index_write_set db ws) as [db'|e|]; simpl in Ho; [|by apply IH|done].
  unfold Tables.apply_index_write_set in Ho. rewrite incremental_batch in Ho by done. by apply IH.
Qed.

(** C36: the index writer goes on after a failure.  Whatever fails, the database
    holds the replay of the write sets whose commit succeeded, in order, the
    failed ones left out; and as soon as a later one succeeds the stored
    position is its block, so that nothing stored tells of the gap. *)
Theorem index_writer_skips_failures db m log :
  tables_hold db m -> Forall (fun ws => ws_full_replace ws = false) log ->
  tables_hold (index_writer db log) (replay m (committed db log)) /\
  committed db log `sublist_of` log /\
  (forall pre ws db', log = pre ++ [ws] -> apply_index_write_set (index_writer db pre) ws = TOk db' -> is_u64 (ws_block_num ws) ->
     Tables.read_meta (replay m (committed db log)) = Ok (Some {| pm_block_num := ws_block_num ws; pm_digest := ws_digest ws |})).
Proof.
  intros Hh Hf. split_and!; [by apply index_writer_holds| |].
  - clear. revert db. induction log as [|ws log IH]; intros db; simpl; [constructor|].
    destruct (apply_index_write_set db ws); by constructor.
  - intros pre ws db' -> Hok Hn. rewrite committed_snoc, Hok, replay_snoc.
    apply Forall_app in Hf as [_ Hf]. apply Forall_cons in Hf as [Hw _].
    rewrite <- (incremental_batch (replay m (committed db pre)) ws) by done. by apply meta_after_apply.
Qed.

End Facts.

(** ** A database to look at *)

(** Text as its bytes; the other codecs of the demonstration know numbers of
    one byte and refuse everything else. *)
#[export] Instance DemoStringKey : Bincode string := {
  bincode_serialize s := inl (String.list_byte_of_string s);
  bincode_deserialize b := inl (String.string_of_list_byte b)
}.
#[export] Instance DemoLevelKey : Bincode LevelKey := { bincode_serialize _ := inr "level"%string; bincode_deserialize _ := inr "level"%string }.
#[export] Instance DemoPairKey : Bincode (string * string) := { bincode_serialize _ := inr "pair"%string; bincode_deserialize _ := inr "pair"%string }.
#[export] Instance DemoStringValue : Bcs string := {
  bcs_to_bytes s := inl (String.list_byte_of_string s);
  bcs_from_bytes b := inl (String.string_of_list_byte b)
}.
#[export] Instance DemoMarketValue : Bcs Market := { bcs_to_bytes _ := inr "market"%string; bcs_from_bytes _ := inr "market"%string }.
#[export] Instance DemoOrderValue : Bcs OrderRow := { bcs_to_bytes _ := inr "order"%string; bcs_from_bytes _ := inr "order"%string }.
#[export] Instance DemoMetaValue : Bcs BookMetaRow := { bcs_to_bytes _ := inr "meta"%string; bcs_from_bytes _ := inr "meta"%string }.
#[export] Instance DemoVaultValue : Bcs Vault := { bcs_to_bytes _ := inr "vault"%string; bcs_from_bytes _ := inr "vault"%string }.
#[export] Instance DemoNumberValue : Bcs Z := {
  bcs_to_bytes z := match Byte.of_N (Z.to_N z) with Some b => if decide (byte_val b = z) then inl [b] else inr "number"%string | None => inr "number"%string end;
  bcs_from_bytes l := match l with [b] => inl (byte_val b) | _ => inr "number"%string end
}.

#[export] Instance DemoStringKeyLaws : BincodeLaws string.
Proof. constructor. intros k b Hk. simplify_eq/=. by rewrite String.string_of_list_byte_of_string. Qed.
#[export] Instance DemoLevelKeyLaws : BincodeLaws LevelKey.
Proof. by constructor. Qed.
#[export] Instance DemoPairKeyLaws : BincodeLaws (string * string).
Proof. by constructor. Qed.
#[export] Instance DemoStringValueLaws : BcsLaws string.
Proof. constructor. intros v b Hv. simplify_eq/=. by rewrite String.string_of_list_byte_of_string. Qed.
#[export] Instance DemoMarketValueLaws : BcsLaws Market.
Proof. by constructor. Qed.
#[export] Instance DemoOrderValueLaws : BcsLaws OrderRow.
Proof. by constructor. Qed.
#[export] Instance DemoMetaValueLaws : BcsLaws BookMetaRow.
Proof. by constructor. Qed.
#[export] Instance DemoVaultValueLaws : BcsLaws Vault.
Proof. by constructor. Qed.
#[export] Instance DemoNumberValueLaws : BcsLaws Z.
Proof.
  constructor. intros z b Hz. simpl in *. destruct (Byte.of_N (Z.to_N z)) as [x|]; [|done].
  case_decide; simplify_eq. done.
Qed.

Definition demo_index_db : Database (R := DemoRocks) :=
  {| db_id := 3; storage := SRocks (R := DemoRocks)
       (list_to_map ((fun name => (name, ∅)) <$> "meta"%string :: cf_names)) |}.

Lemma demo_index_holds : tables_hold demo_index_db tables_empty.
Proof. split; try done; (split; [done|]; split; [split; [done|by eexists]|apply encodes_empty]). Qed.

(** A last price that fits the demonstration's codec, and one that does not. *)
Definition demo_price_ws (n price : Z) : IndexWriteSet :=
  with_last_trades (fun d => delta_store d "0x01"%string price) (ws_default n "d" false).

Lemma index_store_refines_tables_witness :
  outcome (apply_index_write_set demo_index_db (demo_price_ws 4 7))
    (fun db' => tables_hold db' (Tables.apply_index_write_set tables_empty (demo_price_ws 4 7))) codec_error.
Proof. apply (index_store_refines_tables demo_index_db tables_empty (demo_price_ws 4 7) demo_index_holds). Defined.

Lemma stored_tables_load_witness :
  outcome (load_last_trades demo_index_db) (fun l => l ≡ₚ Tables.load_last_trades tables_empty) no_error.
Proof. refine (proj1 (proj2 (proj2 (stored_tables_load (H := DemoSdk) demo_index_db tables_empty demo_index_holds)))). Defined.

(** Block 4 fails, block 5 is committed: the price of block 4 is gone and the
    stored position is block 5. *)
Lemma index_writer_skips_failures_witness :
  tables_hold (index_writer demo_index_db [demo_price_ws 4 700; demo_price_ws 5 8])
    (replay tables_empty (committed demo_index_db [demo_price_ws 4 700; demo_price_ws 5 8])) /\
  length (committed demo_index_db [demo_price_ws 4 700; demo_price_ws 5 8]) = 1%nat.
Proof.
  split; [|by vm_compute].
  refine (proj1 (index_writer_skips_failures demo_index_db tables_empty [demo_price_ws 4 700; demo_price_ws 5 8] demo_index_holds _)).
  by repeat constructor.
Defined.
