(* ===== verification/IndexSqlite.v ===== *)
(** * IndexSqlite: [persist/store.rs], the index tables of the SQLite store

    [StateStore] kept the live index in SQLite before [IndexStateStore]: its
    tables are still created and its operations still compiled.  One
    transaction deletes every row and inserts a snapshot ([checkpoint]); a
    plain [INSERT] refuses a primary key that is already there and rolls the
    transaction back.  Tables are maps from their primary key as in [Store];
    JSON is a parameter. *)
From S2P Require Import Prelude Text Errors Sdk Keys Domain WriteSet Paper Store StoreFacts.

Local Open Scope list_scope.
Local Open Scope Z_scope.

(** JSON of markets and vaults; a market is read through [serde_json::Value],
    so that an old flat payload can be tried next. *)
Class IndexJson := {
  JsonValue : Type;
  json_parse : string -> option JsonValue;
  market_to_json : Market -> option string;
  market_from_value : JsonValue -> option Market;
  flat_from_value : JsonValue -> option Flat;
  vault_to_json : Vault -> option string;
  vault_from_json : string -> option Vault
}.

Class IndexJsonLaws `{J : IndexJson} : Prop := {
  market_json m s : market_to_json m = Some s -> exists v, json_parse s = Some v /\ market_from_value v = Some m;
  vault_json v s : vault_to_json v = Some s -> vault_from_json s = Some v
}.

(** ** Inserting rows *)

Section Insert.
Context {A K V : Type} `{Countable K}.
Implicit Types (row : A -> option (K * V)) (l : list A) (m : gmap K V).

(** [stmt.execute] for each row: the payload is serialized first, then the row
    is inserted under its primary key. *)
Definition insert_rows (serialize_error insert_error : string) (row : A -> option (K * V)) (l : list A) (m : gmap K V) :
    AppResult (gmap K V) :=
  foldl (fun r a =>
    m ← r;
    match row a with
    | None => Err (Internal serialize_error)
    | Some (k, v) => match m !! k with Some _ => Err (Internal insert_error) | None => Ok (<[k := v]> m) end
    end) (Ok m) l.

(** Every row has a payload and no two rows share a key. *)
Definition storable (row : A -> option (K * V)) (l : list A) : Prop :=
  exists kvs, Forall2 (fun a kv => row a = Some kv) l kvs /\ NoDup kvs.*1.

Lemma insert_rows_fail se ie row l e :
  foldl (fun r a =>
    m ← r;
    match row a with
    | None => Err (Internal se)
    | Some (k, v) => match (m : gmap K V) !! k with Some _ => Err (Internal ie) | None => Ok (<[k := v]> m) end
    end) (Err e) l = Err e.
Proof. by induction l. Qed.

Lemma insert_rows_cons se ie row a l m :
  insert_rows se ie row (a :: l) m =
    match row a with
    | None => Err (Internal se)
    | Some (k, v) => match m !! k with Some _ => Err (Internal ie) | None => insert_rows se ie row l (<[k := v]> m) end
    end.
Proof.
  unfold insert_rows. simpl. destruct (row a) as [[k v]|]; [|by apply insert_rows_fail].
  destruct (m !! k); [by apply insert_rows_fail|done].
Qed.

Lemma insert_rows_ok se ie row l m m' :
  insert_rows se ie row l m = Ok m' <->
  exists kvs, Forall2 (fun a kv => row a = Some kv) l kvs /\ NoDup kvs.*1 /\ Forall (fun k => m !! k = None) kvs.*1 /\
    m' = list_to_map kvs ∪ m.
Proof.
  revert m. induction l as [|a l IH]; intros m.
  - unfold insert_rows. simpl. split.
    + intros ?. simplify_eq. exists []. split_and!; try constructor. simpl. by rewrite map_empty_union.
    + intros (kvs & Hk & _ & _ & ->). inversion Hk; subst. simpl. by rewrite map_empty_union.
  - rewrite insert_rows_cons. destruct (row a) as [[k v]|] eqn:Ea.
    2:{ split; [done|]. intros (kvs & Hk & _). inversion Hk; congruence. }
    destruct (m !! k) as [x|] eqn:Em.
    { split; [done|]. intros (kvs & Hk & _ & Hf & _). inversion Hk as [|? kv ? kvs' Hrow]; subst.
      rewrite Ea in Hrow. simplify_eq. apply Forall_cons in Hf as [Hf _]. simpl in Hf. congruence. }
    rewrite IH. split.
    + intros (kvs & Hk & Hnd & Hf & ->). exists ((k, v) :: kvs).
      assert (k ∉ kvs.*1) as Hn.
      { intros Hin. rewrite Forall_forall in Hf. specialize (Hf k Hin). by rewrite lookup_insert_eq in Hf. }
      split_and!; [by constructor|by constructor| |].
      * constructor; [done|]. rewrite Forall_forall in Hf |- *. intros k' Hk'. specialize (Hf k' Hk').
        by apply lookup_insert_None in Hf as [].
      * simpl. rewrite <- insert_union_r by by apply not_elem_of_list_to_map_1. by rewrite insert_union_l.
    + intros (kvs & Hk & Hnd & Hf & ->). inversion Hk as [|? kv ? kvs' Hrow Hk']; subst.
      rewrite Ea in Hrow. simplify_eq. rewrite fmap_cons in Hnd, Hf. apply NoDup_cons in Hnd as [Hn Hnd]. apply Forall_cons in Hf as [_ Hf].
      exists kvs'. split_and!; [done|done| |].
      * rewrite Forall_forall in Hf |- *. intros k' Hin. rewrite lookup_insert_ne; [by apply Hf|]. intros <-. done.
      * simpl. rewrite <- insert_union_r by by apply not_elem_of_list_to_map_1. by rewrite insert_union_l.
Qed.

Lemma insert_rows_empty se ie row l m' :
  insert_rows se ie row l ∅ = Ok m' <-> exists kvs, Forall2 (fun a kv => row a = Some kv) l kvs /\ NoDup kvs.*1 /\ m' = list_to_map kvs.
Proof.
  rewrite insert_rows_ok. split.
  - intros (kvs & H1 & H2 & _ & ->). exists kvs. by rewrite map_union_empty.
  - intros (kvs & H1 & H2 & ->). exists kvs. rewrite map_union_empty. split_and!; try done.
    apply Forall_forall. intros k _. apply lookup_empty.
Qed.

Lemma insert_rows_storable se ie row l : is_ok (insert_rows se ie row l ∅) = true <-> storable row l.
Proof.
  split.
  - destruct (insert_rows se ie row l ∅) as [m|e] eqn:E; [|done]. intros _.
    apply insert_rows_empty in E as (kvs & H1 & H2 & _). by exists kvs.
  - intros (kvs & H1 & H2). assert (E : insert_rows se ie row l ∅ = Ok (list_to_map kvs)) by (apply insert_rows_empty; by exists kvs).
    by rewrite E.
Qed.

(** Reading the rows back, in the order the table has. *)
Lemma collect_back {B} se ie row (decode : K * V -> AppResult B) (norm : A -> B) l m :
  insert_rows se ie row l ∅ = Ok m -> (forall a kv, a ∈ l -> row a = Some kv -> decode kv = Ok (norm a)) ->
  exists out, collect decode (map_to_list m) = Ok out /\ out ≡ₚ norm <$> l.
Proof.
  intros (kvs & Hk & Hnd & ->)%insert_rows_empty Hd.
  assert (Hp : map_to_list (list_to_map kvs : gmap K V) ≡ₚ kvs) by by apply map_to_list_to_map.
  assert (Hf : Forall2 (fun kv b => decode kv = Ok b) kvs (norm <$> l)).
  { apply Forall2_fmap_r, Forall2_flip. clear Hnd Hp.
    induction Hk as [|a kv l0 kvs0 Ha _ IH]; constructor; [apply Hd; [by apply list_elem_of_here|done]|].
    apply IH. intros a' kv' Hin. apply Hd. by apply list_elem_of_further. }
  destruct (Permutation_Forall2 (Permutation_sym Hp) Hf) as (out & Hout & Hf'). exists out. split; [|by symmetry].
  clear -Hf'. induction Hf' as [|kv b kvs1 out1 Hb _ IH]; [done|]. simpl. by rewrite Hb, IH.
Qed.

End Insert.

(** ** The tables *)

Record SqlOrderRow := {
  so_user_address : string; so_chain_order_id : string; so_spot_market : string; so_size_raw : Z; so_filled_raw : Z;
  so_status : string; so_payload : string
}.

Record IndexTables := {
  sq_meta : gmap string string;
  sq_markets : gmap string string;
  sq_orders : gmap string SqlOrderRow;
  sq_last_trades : gmap string Z;
  sq_book_levels : gmap (string * string * Z) Z;
  sq_book_meta : gmap string (Z * option Z);
  sq_vaults : gmap string string;
  sq_vault_portfolio : gmap (string * string) Z
}.

(** [migrate] of an empty file. *)
Definition IndexTables_empty : IndexTables :=
  {| sq_meta := ∅; sq_markets := ∅; sq_orders := ∅; sq_last_trades := ∅; sq_book_levels := ∅; sq_book_meta := ∅;
     sq_vaults := ∅; sq_vault_portfolio := ∅ |}.

Section Sqlite.
Context {SD : Sdk} {J : Json} {IJ : IndexJson}.

(** What each [INSERT] binds. *)
Definition market_row (market : Market) : option (string * string) :=
  payload ← market_to_json market; Some (uuid_to_string (MarketOps.id market), payload).
Definition order_row (row : PersistOrderRow) : option (string * SqlOrderRow) :=
  payload ← order_to_json (por_order row);
  Some (uuid_to_string (ord_id (por_order row)),
        {| so_user_address := por_user_address row; so_chain_order_id := por_chain_order_id row;
           so_spot_market := normalize_spot_market_key (por_spot_market row); so_size_raw := as_i64 (por_size_raw row);
           so_filled_raw := as_i64 (por_filled_raw row); so_status := ord_status (por_order row); so_payload := payload |}).
Definition last_trade_row (p : string * Z) : option (string * Z) := Some (normalize_spot_market_key p.1, as_i64 p.2).
Definition level_row (l : PersistBookLevel) : option (string * string * Z * Z) :=
  Some ((normalize_spot_market_key (pbl_spot_market l), pbl_side l, as_i64 (pbl_price_raw l)), as_i64 (pbl_size_raw l)).
Definition book_meta_row (b : PersistBookMeta) : option (string * (Z * option Z)) :=
  Some (normalize_spot_market_key (pbm_spot_market b), (as_i64 (pbm_sequence b), as_i64 <$> pbm_last_trade_price b)).
Definition vault_row (v : Vault) : option (string * string) :=
  payload ← vault_to_json v; Some (uuid_to_string (vlt_id v), payload).
Definition portfolio_row (r : PersistVaultPortfolioRow) : option (string * string * Z) :=
  Some ((pvp_vault_id r, normalize_spot_market_key (pvp_spot_market r)), as_i64 (pvp_amount_raw r)).

Definition put_meta (block_num : Z) (digest : string) (meta : gmap string string) : gmap string string :=
  <["last_digest"%string := digest]> (<["last_block_num"%string := dec block_num]> meta).

(** The seven tables are emptied and filled in one transaction. *)
Definition checkpoint (t : IndexTables) (block_num : Z) (digest : string) (markets : list Market) (orders : list PersistOrderRow)
    (last_trades : list (string * Z)) (levels : list PersistBookLevel) (metas : list PersistBookMeta) (vaults : list Vault)
    (vault_portfolio : list PersistVaultPortfolioRow) : AppResult IndexTables :=
  ms ← insert_rows "serialize market" "sqlite insert market" market_row markets ∅;
  os ← insert_rows "serialize order" "sqlite insert order" order_row orders ∅;
  ls ← insert_rows "" "sqlite insert last_trade" last_trade_row last_trades ∅;
  bs ← insert_rows "" "sqlite insert book_level" level_row levels ∅;
  bm ← insert_rows "" "sqlite insert book_meta" book_meta_row metas ∅;
  vs ← insert_rows "serialize vault" "sqlite insert vault" vault_row vaults ∅;
  ps ← insert_rows "" "sqlite insert vault_portfolio" portfolio_row vault_portfolio ∅;
  Ok {| sq_meta := put_meta block_num digest (sq_meta t); sq_markets := ms; sq_orders := os; sq_last_trades := ls;
        sq_book_levels := bs; sq_book_meta := bm; sq_vaults := vs; sq_vault_portfolio := ps |}.

Definition write_meta (t : IndexTables) (block_num : Z) (digest : string) : IndexTables :=
  {| sq_meta := put_meta block_num digest (sq_meta t); sq_markets := sq_markets t; sq_orders := sq_orders t;
     sq_last_trades := sq_last_trades t; sq_book_levels := sq_book_levels t; sq_book_meta := sq_book_meta t;
     sq_vaults := sq_vaults t; sq_vault_portfolio := sq_vault_portfolio t |}.

(** A position without its digest is an error, not an absent position. *)
Definition read_meta (t : IndexTables) : AppResult (option PersistMeta) :=
  match sq_meta t !! "last_block_num"%string with
  | None => Ok None
  | Some block_num =>
      match sq_meta t !! "last_digest"%string with
      | None => Err (Internal "sqlite read meta digest")
      | Some digest =>
          match parse_u64 block_num with
          | Some n => Ok (Some {| pm_block_num := n; pm_digest := digest |})
          | None => Err (Internal "sqlite meta block_num")
          end
      end
  end.

(** A market as the enum, else as the flat record of old checkpoints. *)
Definition market_of_payload (payload : string) : AppResult Market :=
  match json_parse payload with
  | None => Err (Internal "deserialize market json")
  | Some value =>
      match market_from_value value with
      | Some market => Ok market
      | None => match flat_from_value value with
                | Some flat => Ok (from_legacy_flat flat)
                | None => Err (Internal "deserialize market: unsupported payload")
                end
      end
  end.

Definition load_markets (t : IndexTables) : AppResult (list Market) :=
  collect (fun p => market_of_payload p.2) (map_to_list (sq_markets t)).

Definition load_orders (t : IndexTables) : AppResult (list PersistOrderRow) :=
  collect (fun p =>
    match order_from_json (so_payload p.2) with
    | Some order => Ok {| por_order := order; por_user_address := so_user_address p.2; por_chain_order_id := so_chain_order_id p.2;
                          por_spot_market := so_spot_market p.2; por_size_raw := as_u64 (so_size_raw p.2);
                          por_filled_raw := as_u64 (so_filled_raw p.2); por_status_ts_ms := 0 |}
    | None => Err (Internal "deserialize order")
    end) (map_to_list (sq_orders t)).

Definition load_last_trades (t : IndexTables) : AppResult (list (string * Z)) :=
  collect (fun p => Ok (p.1, as_u64 p.2)) (map_to_list (sq_last_trades t)).

Definition load_book_levels (t : IndexTables) : AppResult (list PersistBookLevel) :=
  collect (fun p => Ok {| pbl_spot_market := p.1.1.1; pbl_side := p.1.1.2; pbl_price_raw := as_u64 p.1.2; pbl_size_raw := as_u64 p.2 |})
    (map_to_list (sq_book_levels t)).

Definition load_book_meta (t : IndexTables) : AppResult (list PersistBookMeta) :=
  collect (fun p => Ok {| pbm_spot_market := p.1; pbm_sequence := as_u64 p.2.1; pbm_last_trade_price := as_u64 <$> p.2.2 |})
    (map_to_list (sq_book_meta t)).

Definition load_vaults (t : IndexTables) : AppResult (list Vault) :=
  collect (fun p => match vault_from_json p.2 with Some v => Ok v | None => Err (Internal "deserialize vault") end)
    (map_to_list (sq_vaults t)).

Definition load_vault_portfolio (t : IndexTables) : AppResult (list PersistVaultPortfolioRow) :=
  collect (fun p => Ok {| pvp_vault_id := p.1.1; pvp_spot_market := p.1.2; pvp_amount_raw := as_u64 p.2 |})
    (map_to_list (sq_vault_portfolio t)).

(** [upsert_order_history]: one row of the history, outside the batches, with
    the time the caller gives, or now. *)
Definition upsert_order_history (now_ms : Z) (s : StateStore) (row : PersistOrderRow) : AppResult StateStore :=
  match order_to_json (por_order row) with
  | None => Err (Internal "serialize order history")
  | Some payload =>
      Ok (with_history (<[uuid_to_string (ord_id (por_order row)) :=
        {| hi_user_address := to_ascii_lowercase (trim (por_user_address row)); hi_chain_order_id := por_chain_order_id row;
           hi_spot_market := normalize_spot_market_key (por_spot_market row); hi_size_raw := as_i64 (por_size_raw row);
           hi_filled_raw := as_i64 (por_filled_raw row); hi_status := ord_status (por_order row); hi_payload := payload;
           hi_status_ts_ms := if decide (0 < por_status_ts_ms row) then as_i64 (por_status_ts_ms row) else now_ms |}]>) s)
  end.

(** ** A checkpoint reads back *)

(** What [load_orders] gives back for a row: the market key normalised and no
    status time. *)
Definition normalized_order (row : PersistOrderRow) : PersistOrderRow :=
  {| por_order := por_order row; por_user_address := por_user_address row; por_chain_order_id := por_chain_order_id row;
     por_spot_market := normalize_spot_market_key (por_spot_market row); por_size_raw := por_size_raw row;
     por_filled_raw := por_filled_raw row; por_status_ts_ms := 0 |}.
Definition normalized_level (l : PersistBookLevel) : PersistBookLevel :=
  {| pbl_spot_market := normalize_spot_market_key (pbl_spot_market l); pbl_side := pbl_side l;
     pbl_price_raw := pbl_price_raw l; pbl_size_raw := pbl_size_raw l |}.
Definition normalized_book_meta (b : PersistBookMeta) : PersistBookMeta :=
  {| pbm_spot_market := normalize_spot_market_key (pbm_spot_market b); pbm_sequence := pbm_sequence b;
     pbm_last_trade_price := pbm_last_trade_price b |}.
Definition normalized_portfolio (r : PersistVaultPortfolioRow) : PersistVaultPortfolioRow :=
  {| pvp_vault_id := pvp_vault_id r; pvp_spot_market := normalize_spot_market_key (pvp_spot_market r);
     pvp_amount_raw := pvp_amount_raw r |}.

(** Every number of the snapshot is a u64. *)
Definition snapshot_u64 (orders : list PersistOrderRow) (last_trades : list (string * Z)) (levels : list PersistBookLevel)
    (metas : list PersistBookMeta) (portfolio : list PersistVaultPortfolioRow) : Prop :=
  Forall (fun r => is_u64 (por_size_raw r) /\ is_u64 (por_filled_raw r)) orders /\
  Forall (fun p => is_u64 p.2) last_trades /\
  Forall (fun l => is_u64 (pbl_price_raw l) /\ is_u64 (pbl_size_raw l)) levels /\
  Forall (fun b => is_u64 (pbm_sequence b) /\ forall p, pbm_last_trade_price b = Some p -> is_u64 p) metas /\
  Forall (fun r => is_u64 (pvp_amount_raw r)) portfolio.

(** A loader gives back a list, whatever the order. *)
Definition reads {A} (r : AppResult (list A)) (l : list A) : Prop := exists out, r = Ok out /\ out ≡ₚ l.

Context {JL : JsonLaws} {IL : IndexJsonLaws}.

Lemma is_ok_bind {A B} (r : AppResult A) (f : A -> AppResult B) :
  is_ok (r ≫= f) = true <-> exists a, r = Ok a /\ is_ok (f a) = true.
Proof. destruct r as [a|e]; simpl; split; try done; [intros; by exists a|by intros (? & [= ->] & ?)|by intros (? & ? & _)]. Qed.

Lemma insert_then {A K V B} `{Countable K} se ie (row : A -> option (K * V)) l (f : gmap K V -> AppResult B) (P : Prop) :
  (forall m, is_ok (f m) = true <-> P) -> (is_ok (insert_rows se ie row l ∅ ≫= f) = true <-> storable row l /\ P).
Proof.
  intros Hf. rewrite is_ok_bind, <- (insert_rows_storable se ie). split.
  - intros (m & -> & Hm). split; [done|]. by apply (Hf m).
  - intros [Hs HP]. destruct (insert_rows se ie row l ∅) as [m|]; [|done]. exists m. split; [done|]. by apply Hf.
Qed.

(** C28: a SQLite checkpoint is all or nothing.  It succeeds exactly when every
    row of the snapshot has a payload and no two rows of a table share their
    normalised key; then the position and all seven tables read back as the
    snapshot, whatever the store held before, numbers beyond i64 and empty
    levels included, with normalised market keys; only the status time of an
    order, which the orders table has no column for, reads back as 0. *)
Theorem sqlite_checkpoint_roundtrip t block_num digest markets orders last_trades levels metas vaults portfolio :
  is_u64 block_num -> snapshot_u64 orders last_trades levels metas portfolio ->
  let r := checkpoint t block_num digest markets orders last_trades levels metas vaults portfolio in
  (is_ok r = true <->
   storable market_row markets /\ storable order_row orders /\ storable last_trade_row last_trades /\ storable level_row levels /\
   storable book_meta_row metas /\ storable vault_row vaults /\ storable portfolio_row portfolio) /\
  (forall t', r = Ok t' ->
     read_meta t' = Ok (Some {| pm_block_num := block_num; pm_digest := digest |}) /\
     reads (load_markets t') markets /\ reads (load_orders t') (normalized_order <$> orders) /\
     reads (load_last_trades t') ((fun p => (normalize_spot_market_key p.1, p.2)) <$> last_trades) /\
     reads (load_book_levels t') (normalized_level <$> levels) /\ reads (load_book_meta t') (normalized_book_meta <$> metas) /\
     reads (load_vaults t') vaults /\ reads (load_vault_portfolio t') (normalized_portfolio <$> portfolio)).
Proof.
  intros Hn (Ho & Hl & Hb & Hm & Hp) r. rewrite Forall_forall in Ho. rewrite Forall_forall in Hl.
  rewrite Forall_forall in Hb. rewrite Forall_forall in Hm. rewrite Forall_forall in Hp. split.
  - unfold r, checkpoint. do 6 (apply insert_then; intros).
    rewrite <- (insert_rows_storable "" "sqlite insert vault_portfolio"). by destruct (insert_rows _ _ portfolio_row _ _).
  - intros t' Hr. unfold r, checkpoint in Hr.
    destruct (insert_rows _ _ market_row markets ∅) as [ms|] eqn:E1; [|done].
    destruct (insert_rows _ _ order_row orders ∅) as [os|] eqn:E2; [|done].
    destruct (insert_rows _ _ last_trade_row last_trades ∅) as [ls|] eqn:E3; [|done].
    destruct (insert_rows _ _ level_row levels ∅) as [bs|] eqn:E4; [|done].
    destruct (insert_rows _ _ book_meta_row metas ∅) as [bm|] eqn:E5; [|done].
    destruct (insert_rows _ _ vault_row vaults ∅) as [vs|] eqn:E6; [|done].
    destruct (insert_rows _ _ portfolio_row portfolio ∅) as [ps|] eqn:E7; [|done].
    injection Hr as <-. unfold load_markets, load_orders, load_last_trades, load_book_levels, load_book_meta, load_vaults,
      load_vault_portfolio. simpl. split_and!.
    + unfold read_meta, put_meta. simpl. rewrite lookup_insert_ne, !lookup_insert_eq by done. by rewrite parse_u64_dec.
    + rewrite <- (list_fmap_id markets). apply (collect_back _ _ _ _ id _ _ E1). intros m [k s] _ Hrow. unfold market_row in Hrow.
      apply bind_Some in Hrow as (payload & Hj & ?). simplify_eq/=. apply market_json in Hj as (v & Hv & Hm').
      unfold market_of_payload. by rewrite Hv, Hm'.
    + apply (collect_back _ _ _ _ _ _ _ E2). intros o [k s] Hin Hrow. unfold order_row in Hrow.
      apply bind_Some in Hrow as (payload & Hj & ?). simplify_eq/=. rewrite (order_json _ _ Hj).
      destruct (Ho o Hin). unfold normalized_order. by rewrite !as_u64_as_i64.
    + apply (collect_back _ _ _ _ _ _ _ E3). intros [k p] kv Hin [= <-]. simpl. rewrite as_u64_as_i64; [done|]. by apply (Hl (k, p)).
    + apply (collect_back _ _ _ _ _ _ _ E4). intros l kv Hin [= <-]. destruct (Hb l Hin). unfold normalized_level. simpl.
      by rewrite !as_u64_as_i64.
    + apply (collect_back _ _ _ _ _ _ _ E5). intros b kv Hin [= <-]. destruct (Hm b Hin) as [Hs Hlt]. unfold normalized_book_meta. simpl.
      rewrite as_u64_as_i64 by done. destruct (pbm_last_trade_price b) as [p|]; [|done]. simpl. by rewrite as_u64_as_i64 by by apply Hlt.
    + rewrite <- (list_fmap_id vaults). apply (collect_back _ _ _ _ id _ _ E6). intros v [k s] _ Hrow. unfold vault_row in Hrow.
      apply bind_Some in Hrow as (payload & Hj & ?). simplify_eq/=. by rewrite (vault_json _ _ Hj).
    + apply (collect_back _ _ _ _ _ _ _ E7). intros p kv Hin [= <-]. unfold normalized_portfolio. simpl. by rewrite as_u64_as_i64 by by apply Hp.
Qed.

End Sqlite.

(** ** A snapshot to look at: two markets, an order, a vault, prices and levels *)

(** A codec given by the table of its values. *)
Definition table_to {A} `{EqDecision A} (tab : list (string * A)) (a : A) : option string := fst <$> head (filter (fun p => p.2 = a) tab).
Definition table_from {A} (tab : list (string * A)) (s : string) : option A := snd <$> head (filter (fun p => p.1 = s) tab).

Lemma table_back {A} `{EqDecision A} (tab : list (string * A)) a s : NoDup tab.*1 -> table_to tab a = Some s -> table_from tab s = Some a.
Proof.
  intros Hnd. unfold table_to, table_from. destruct (filter (fun p => p.2 = a) tab) as [|[k x] l] eqn:E; simpl; [done|]. intros [= ->].
  assert ((s, x) ∈ filter (fun p => p.2 = a) tab) as [Ha Hin]%list_elem_of_filter by (rewrite E; set_solver). simpl in Ha. subst x.
  destruct (filter (fun p => p.1 = s) tab) as [|[k y] l'] eqn:E'.
  - assert ((s, a) ∈ filter (fun p => p.1 = s) tab) as H by (by apply list_elem_of_filter). rewrite E' in H. set_solver.
  - assert ((k, y) ∈ filter (fun p => p.1 = s) tab) as [Hk Hy]%list_elem_of_filter by (rewrite E'; set_solver). simpl in *. subst k.
    f_equal. clear E E' l l'. induction tab as [|[k z] tab IH]; [set_solver|]. csimpl in Hnd. apply NoDup_cons in Hnd as [Hn Hnd].
    apply elem_of_cons in Hin as [Ea|Hin]; apply elem_of_cons in Hy as [Ey|Hy]; simplify_eq; [done| | |by apply IH];
      destruct Hn; apply list_elem_of_fmap; by eexists (_, _).
Qed.

Definition demo_spot : Market := Spot 1%N "Gold" None "c7" "Active" "a1" "c1" "c2".
Definition demo_event : Market :=
  Event 2%N "will-it-rain" "Will it rain?" None "c900" "c1" "c2" "c3" "c7" "c8" "Active" 1800000000 "a1".
Definition demo_order : Order :=
  {| ord_id := 5%N; ord_market_id := 2%N; ord_market_slug := "will-it-rain"; ord_question := "Will it rain?"; ord_outcome := "yes";
     ord_side := "buy"; ord_price := "0.50"; ord_size := "40"; ord_status := "Open"; ord_cloid := None |}.
Definition demo_vault : Vault :=
  {| vlt_id := 6%N; vlt_name := "v"; vlt_vault_address := "c3"; vlt_vault_account := "a4"; vlt_manager := "a1"; vlt_quote_token := "c1";
     vlt_share_token := "c2"; vlt_equity := "0.00"; vlt_user_deposit := ""; vlt_portfolio := []; vlt_allow_deposit := true; vlt_is_closed := false |}.

Definition demo_market_codec : list (string * Market) := [("{spot}"%string, demo_spot); ("{event}"%string, demo_event)].
Definition demo_order_codec : list (string * Order) := [("{order}"%string, demo_order)].
Definition demo_vault_codec : list (string * Vault) := [("{vault}"%string, demo_vault)].

Definition DemoOrderJson : Json := {|
  order_to_json := table_to demo_order_codec; order_from_json := table_from demo_order_codec;
  position_to_json _ := None; position_from_json _ := None
|}.
Definition DemoIndexJson : IndexJson := {|
  JsonValue := string; json_parse := Some;
  market_to_json := table_to demo_market_codec; market_from_value := table_from demo_market_codec; flat_from_value _ := None;
  vault_to_json := table_to demo_vault_codec; vault_from_json := table_from demo_vault_codec
|}.

Lemma DemoIndexJsonLaws : IndexJsonLaws (J := DemoIndexJson).
Proof.
  split; simpl; [intros m s H; exists s; split; [done|]; revert H|intros v s]; apply table_back; apply (bool_decide_unpack _); by vm_compute.
Qed.
Lemma DemoOrderJsonLaws : JsonLaws (J := DemoOrderJson).
Proof. split; simpl; [|done]. intros o s. apply table_back. apply (bool_decide_unpack _); by vm_compute. Qed.

Definition demo_order_row : PersistOrderRow :=
  {| por_order := demo_order; por_user_address := "a9"; por_chain_order_id := "12"; por_spot_market := " C7 "; por_size_raw := 18446744073709551615;
     por_filled_raw := 3; por_status_ts_ms := 77 |}.
Definition demo_prices : list (string * Z) := [("0x0A"%string, 18446744073709551615); ("0x0b"%string, 3)].
Definition demo_levels : list PersistBookLevel :=
  [{| pbl_spot_market := "0x0A"; pbl_side := "bid"; pbl_price_raw := 5; pbl_size_raw := 0 |}].
Definition demo_metas : list PersistBookMeta := [{| pbm_spot_market := "0x0A"; pbm_sequence := 4; pbm_last_trade_price := Some 5 |}].
Definition demo_portfolio : list PersistVaultPortfolioRow := [{| pvp_vault_id := "6"; pvp_spot_market := "c7"; pvp_amount_raw := 12 |}].
Definition demo_checkpoint (prices : list (string * Z)) : AppResult IndexTables :=
  checkpoint (SD := DemoSdk) (J := DemoOrderJson) (IJ := DemoIndexJson) IndexTables_empty 9 "d" [demo_spot; demo_event] [demo_order_row] prices
    demo_levels demo_metas [demo_vault] demo_portfolio.

(** It is taken and reads back, the order without its time; a second price of
    the same market is refused. *)
Lemma sqlite_checkpoint_roundtrip_witness :
  is_ok (demo_checkpoint demo_prices) = true /\
  (forall t', demo_checkpoint demo_prices = Ok t' ->
     read_meta t' = Ok (Some {| pm_block_num := 9; pm_digest := "d" |}) /\
     reads (load_markets (IJ := DemoIndexJson) t') [demo_spot; demo_event] /\
     reads (load_orders (J := DemoOrderJson) t') [normalized_order (SD := DemoSdk) demo_order_row] /\
     reads (load_vaults (IJ := DemoIndexJson) t') [demo_vault]) /\
  por_status_ts_ms (normalized_order (SD := DemoSdk) demo_order_row) = 0 /\
  is_ok (demo_checkpoint ((" 0x0A "%string, 1) :: demo_prices)) = false.
Proof.
  split; [by vm_compute|]. split; [|split; [reflexivity|by vm_compute]]. intros t' Ht.
  destruct (proj2 (sqlite_checkpoint_roundtrip (SD := DemoSdk) (J := DemoOrderJson) (IJ := DemoIndexJson) (JL := DemoOrderJsonLaws) (IL := DemoIndexJsonLaws)
    IndexTables_empty 9 "d" [demo_spot; demo_event] [demo_order_row] demo_prices demo_levels demo_metas [demo_vault] demo_portfolio
    ltac:(mach) ltac:(unfold snapshot_u64, demo_prices, demo_levels, demo_metas, demo_portfolio; rewrite !Forall_cons, !Forall_nil; simpl; split_and!; try mach;
      intros p [= <-]; mach)) t' Ht) as (H1 & H2 & H3 & _ & _ & _ & H4 & _).
  split_and!; [exact H1|exact H2|exact H3|exact H4].
Defined.
