(* ===== verification/ChainClient.v ===== *)
(** * ChainClient: [chain/mod.rs], the calls of a node

    Each call builds an action, puts it into an unsigned transaction that never
    expires, sends it and decodes the answer; each of the four steps has its own
    refusal.  The SDK's builders, its client and bincode are the class
    [NodeSdk]; the calls give the instances of the classes the rest of the
    development asks of a node ([Chain], [InfoChain], [AccountChain]). *)
From Stdlib Require Import Strings.Byte.
From S2P Require Import Prelude Text Errors Sdk Domain Books Hydrate StakeView MarketRoutes.

Local Open Scope list_scope.
Local Open Scope Z_scope.

(** The fields of [GetTokenInfo] used. *)
Record TokenInfo := { ti_total_supply : Z }.

(** [lightpool_sdk], [lightpool_types] and [bincode]: [None] is an error. *)
Class NodeSdk `{!Sdk} := {
  Action : Type;
  CallTx : Type;
  (** [ActionBuilder]. *)
  build_get_balance : ContractAddress -> Address -> option Action;
  build_get_orderbook : ContractAddress -> Z -> bool -> option Action;
  build_get_market_info : ContractAddress -> option Action;
  build_get_token_info : ContractAddress -> option Action;
  build_get_paper_account : ContractAddress -> option Action;
  build_get_paper_lp : ContractAddress -> option Action;
  build_get_paper_queue : ContractAddress -> option Action;
  build_get_paper_market : ContractAddress -> option Action;
  build_get_paper_stake : ContractAddress -> option Action;
  (** [TransactionBuilder]: sender, account, expiration and action. *)
  build_and_without_sign : option Address -> Address -> Z -> Action -> option CallTx;
  (** [LightPoolClient]. *)
  client_call : CallTx -> option (list byte);
  client_health_check : option bool;
  (** [bincode::deserialize] at each answer. *)
  GetPaperQueue : Type;
  decode_balance : list byte -> option TokenBalance;
  decode_book : list byte -> option GetOrderBook;
  decode_market : list byte -> option MarketInfo;
  decode_token : list byte -> option TokenInfo;
  decode_paper_account : list byte -> option GetPaperAccount;
  decode_paper_lp : list byte -> option GetPaperLp;
  decode_paper_queue : list byte -> option GetPaperQueue;
  decode_paper_market : list byte -> option GetPaperMarket;
  decode_paper_stake : list byte -> option GetPaperStake
}.

Section ChainClient.
Context {SD : Sdk} {N : NodeSdk}.

Definition internal {A} (msg : string) (o : option A) : AppResult A := ok_or (Internal msg) o.

Definition health_check : AppResult bool := internal "node health check failed" client_health_check.

Definition get_balance (account : Address) (token_contract : ContractAddress) : AppResult TokenBalance :=
  action ← internal "build get_balance action" (build_get_balance token_contract account);
  call_tx ← internal "build get_balance call tx" (build_and_without_sign None account u64_max action);
  bytes ← internal "call get_balance failed" (client_call call_tx);
  internal "decode GetBalance" (decode_balance bytes).

Definition get_book (account : Address) (spot_market : ContractAddress) (depth : Z) : AppResult GetOrderBook :=
  action ← internal "build get_book action" (build_get_orderbook spot_market depth true);
  call_tx ← internal "build get_book call tx" (build_and_without_sign None account u64_max action);
  bytes ← internal "call get_book failed" (client_call call_tx);
  internal "decode GetOrderBook" (decode_book bytes).

Definition get_market_info (account : Address) (spot_market : ContractAddress) : AppResult MarketInfo :=
  action ← internal "build get_market_info action" (build_get_market_info spot_market);
  call_tx ← internal "build get_market_info call tx" (build_and_without_sign None account u64_max action);
  bytes ← internal "call get_market_info failed" (client_call call_tx);
  internal "decode GetMarket" (decode_market bytes).

Definition get_token_info (account : Address) (token_contract : ContractAddress) : AppResult TokenInfo :=
  action ← internal "build get_token_info action" (build_get_token_info token_contract);
  call_tx ← internal "build get_token_info call tx" (build_and_without_sign None account u64_max action);
  bytes ← internal "call get_token_info failed" (client_call call_tx);
  internal "decode GetTokenInfo" (decode_token bytes).

Definition get_paper_account (user : Address) (paper_market : ContractAddress) : AppResult GetPaperAccount :=
  action ← internal "build get_paper_account action" (build_get_paper_account paper_market);
  call_tx ← internal "build get_paper_account call tx" (build_and_without_sign (Some user) user u64_max action);
  bytes ← internal "call get_acct failed" (client_call call_tx);
  internal "decode GetPaperAccount" (decode_paper_account bytes).

Definition get_paper_lp (paper_market : ContractAddress) : AppResult GetPaperLp :=
  action ← internal "build get_paper_lp action" (build_get_paper_lp paper_market);
  call_tx ← internal "build get_paper_lp call tx" (build_and_without_sign (Some address_zero) address_zero u64_max action);
  bytes ← internal "call get_lp failed" (client_call call_tx);
  internal "decode GetPaperLp" (decode_paper_lp bytes).

Definition get_paper_queue (paper_market : ContractAddress) : AppResult GetPaperQueue :=
  action ← internal "build get_paper_queue action" (build_get_paper_queue paper_market);
  call_tx ← internal "build get_paper_queue call tx" (build_and_without_sign (Some address_zero) address_zero u64_max action);
  bytes ← internal "call get_queue failed" (client_call call_tx);
  internal "decode GetPaperQueue" (decode_paper_queue bytes).

Definition get_paper_market (paper_market : ContractAddress) : AppResult GetPaperMarket :=
  action ← internal "build get_paper_market action" (build_get_paper_market paper_market);
  call_tx ← internal "build get_paper_market call tx" (build_and_without_sign (Some address_zero) address_zero u64_max action);
  bytes ← internal "call get_mkt failed" (client_call call_tx);
  internal "decode GetPaperMarket" (decode_paper_market bytes).

Definition get_paper_stake (user : Address) (paper_market : ContractAddress) : AppResult GetPaperStake :=
  action ← internal "build get_paper_stake action" (build_get_paper_stake paper_market);
  call_tx ← internal "build get_paper_stake call tx" (build_and_without_sign (Some user) user u64_max action);
  bytes ← internal "call get_stake failed" (client_call call_tx);
  internal "decode GetPaperStake" (decode_paper_stake bytes).

(** ** The node as the rest of the development sees it *)

#[export] Instance node_chain : Chain := {|
  Hydrate.get_book := get_book;
  Hydrate.get_market_last_price account spot := mi_last_price <$> get_market_info account spot
|}.

#[export] Instance node_info_chain : InfoChain (C := node_chain) := {|
  MarketRoutes.get_market_info := get_market_info;
  MarketRoutes.get_market_info_price _ _ := eq_refl
|}.

#[export] Instance node_account_chain : AccountChain := {|
  StakeView.get_balance := get_balance;
  StakeView.get_token_supply account token := ti_total_supply <$> get_token_info account token;
  StakeView.get_paper_market := get_paper_market;
  StakeView.get_paper_lp := get_paper_lp;
  StakeView.get_paper_stake := get_paper_stake;
  StakeView.get_paper_account := get_paper_account
|}.

(** ** What a call can answer *)

(** The answer of the node to an action sent for an account. *)
Definition node_answer {A} (action : option Action) (sender : option Address) (account : Address) (decode : list byte -> option A) : option A :=
  a ← action; tx ← build_and_without_sign sender account u64_max a; bytes ← client_call tx; decode bytes.

(** A call returns what the node answers; every refusal is an internal error. *)
Definition relays {A} (r : AppResult A) (answer : option A) : Prop :=
  match answer with Some a => r = Ok a | None => exists msg, r = Err (Internal msg) end.

Lemma call_relays {A} m1 m2 m3 m4 (action : option Action) sender account (decode : list byte -> option A) :
  relays (a ← internal m1 action; tx ← internal m2 (build_and_without_sign sender account u64_max a);
          bytes ← internal m3 (client_call tx); internal m4 (decode bytes))
    (node_answer action sender account decode).
Proof.
  unfold relays, node_answer, internal, ok_or. destruct action as [a|]; simpl; [|by eexists].
  destruct (build_and_without_sign sender account u64_max a) as [tx|]; simpl; [|by eexists].
  destruct (client_call tx) as [bytes|]; simpl; [|by eexists]. destruct (decode bytes); [done|by eexists].
Qed.

(** Every call of the node relays its answer: what comes back is the decoded
    answer to the action of that name, for that contract, account and sender,
    never expiring; anything that goes wrong is status 500, never an answer of
    another kind. *)
Theorem chain_client_relays account spot token user market depth :
  relays (get_balance account token) (node_answer (build_get_balance token account) None account decode_balance) /\
  relays (get_book account spot depth) (node_answer (build_get_orderbook spot depth true) None account decode_book) /\
  relays (get_market_info account spot) (node_answer (build_get_market_info spot) None account decode_market) /\
  relays (get_token_info account token) (node_answer (build_get_token_info token) None account decode_token) /\
  relays (get_paper_account user market) (node_answer (build_get_paper_account market) (Some user) user decode_paper_account) /\
  relays (get_paper_lp market) (node_answer (build_get_paper_lp market) (Some address_zero) address_zero decode_paper_lp) /\
  relays (get_paper_queue market) (node_answer (build_get_paper_queue market) (Some address_zero) address_zero decode_paper_queue) /\
  relays (get_paper_market market) (node_answer (build_get_paper_market market) (Some address_zero) address_zero decode_paper_market) /\
  relays (get_paper_stake user market) (node_answer (build_get_paper_stake market) (Some user) user decode_paper_stake).
Proof. split_and!; apply call_relays. Qed.

End ChainClient.
