(* ===== verification/Mempool.v ===== *)
(** * Mempool: [mempool_client.rs], handing transactions to the mempool

    One task owns the connection and serves the requests of a bounded queue in
    order.  A send that fails on the standing connection is tried once more on
    a new one.  The network is the class [Net]: connecting and sending are
    functions of the state of the world; bincode is a parameter. *)
From Stdlib Require Import Strings.Byte.
From S2P Require Import Prelude Text Errors.

Local Open Scope list_scope.
Local Open Scope Z_scope.

Definition MEMPOOL_SEND_QUEUE_CAPACITY : nat := 1024.

(** [TcpStream::connect] and [Framed::send]: the message of an error, or success. *)
Class Net := {
  World : Type;
  Connection : Type;
  connect : World -> World * (Connection + string);
  send : World -> Connection -> list byte -> World * (unit + string)
}.

Section Mempool.
Context {N : Net}.

(** [if transport.is_none() { .. }]. *)
Definition ensure_connected (w : World) (transport : option Connection) : World * AppResult Connection :=
  match transport with
  | Some c => (w, Ok c)
  | None => match connect w with
            | (w, inl c) => (w, Ok c)
            | (w, inr error) => (w, Err (Internal ("mempool connect failed: " +:+ error)))
            end
  end.

(** [for attempt in 0..2]: the world, the connection kept, the answer. *)
Fixpoint attempts (remaining : nat) (attempt : nat) (w : World) (transport : option Connection) (tx_bytes : list byte) :
    World * option Connection * AppResult unit :=
  match remaining with
  | O => (w, transport, Err (Internal "mempool send failed after reconnect"))
  | S remaining =>
      match ensure_connected w transport with
      | (w, Err e) => (w, None, Err e)
      | (w, Ok c) =>
          match send w c tx_bytes with
          | (w, inl _) => (w, Some c, Ok tt)
          | (w, inr error) =>
              if decide (attempt = 0%nat) then attempts remaining (S attempt) w None tx_bytes
              else (w, Some c, Err (Internal ("mempool send failed: " +:+ error)))
          end
      end
  end.

Definition send_on_connection (w : World) (transport : option Connection) (tx_bytes : list byte) :
    World * option Connection * AppResult unit := attempts 2 0 w transport tx_bytes.

(** [run_mempool_sender]: the requests in order, one answer each. *)
Fixpoint run_mempool_sender (w : World) (transport : option Connection) (requests : list (list byte)) :
    World * option Connection * list (AppResult unit) :=
  match requests with
  | [] => (w, transport, [])
  | tx_bytes :: requests =>
      let '(w, transport, result) := send_on_connection w transport tx_bytes in
      let '(w, transport, results) := run_mempool_sender w transport requests in
      (w, transport, result :: results)
  end.

(** [MempoolClient::submit_transaction]: refused without an encoding or when the
    task is gone, else queued. *)
Definition submit_transaction (queue : option (list (list byte))) (encoded : option (list byte)) : AppResult (list (list byte)) :=
  match encoded with
  | None => Err (Internal "serialize transaction")
  | Some bytes => match queue with
                  | None => Err (ServiceUnavailable "mempool client unavailable")
                  | Some q => Ok (q ++ [bytes])
                  end
  end.

(** ** What was sent *)

(** The bytes went out on a connection that took them, after at most one failed
    send; or both tries failed, or no connection could be made. *)
Inductive delivery (tx : list byte) : World -> option Connection -> AppResult unit -> Prop :=
| deliver_first w c w1 : send w c tx = (w1, inl tt) -> delivery tx w (Some c) (Ok tt)
| deliver_connect w w0 c r : connect w = (w0, inl c) -> delivery tx w0 (Some c) r -> delivery tx w None r
| deliver_refused w w0 msg : connect w = (w0, inr msg) -> delivery tx w None (Err (Internal ("mempool connect failed: " +:+ msg)))
| deliver_retry w c w1 msg r : send w c tx = (w1, inr msg) -> retried tx w1 r -> delivery tx w (Some c) r
with retried (tx : list byte) : World -> AppResult unit -> Prop :=
| retry_ok w w0 c w1 : connect w = (w0, inl c) -> send w0 c tx = (w1, inl tt) -> retried tx w (Ok tt)
| retry_failed w w0 c w1 msg : connect w = (w0, inl c) -> send w0 c tx = (w1, inr msg) ->
    retried tx w (Err (Internal ("mempool send failed: " +:+ msg)))
| retry_refused w w0 msg : connect w = (w0, inr msg) -> retried tx w (Err (Internal ("mempool connect failed: " +:+ msg))).

Lemma attempt_delivery w transport tx : delivery tx w transport (send_on_connection w transport tx).2.
Proof.
  assert (Hretry : forall w, retried tx w (attempts 1 1 w None tx).2).
  { intros w1. simpl. destruct (connect w1) as [w2 [c|msg]] eqn:Ec; simpl; [|by eapply retry_refused].
    destruct (send w2 c tx) as [w3 [[]|msg]] eqn:Es; simpl; [by eapply retry_ok|by eapply retry_failed]. }
  assert (Hsome : forall w c, delivery tx w (Some c) (send_on_connection w (Some c) tx).2).
  { intros w1 c. unfold send_on_connection. cbn [attempts ensure_connected]. destruct (send w1 c tx) as [w2 [[]|msg]] eqn:Es; simpl.
    - by eapply deliver_first.
    - by eapply deliver_retry; [|apply Hretry]. }
  destruct transport as [c|]; [apply Hsome|].
  specialize (Hsome (connect w).1). unfold send_on_connection in *. cbn [attempts ensure_connected] in *.
  destruct (connect w) as [w0 [c|msg]] eqn:Ec; simpl in *; [|by eapply deliver_refused].
  eapply deliver_connect; [done|]. apply Hsome.
Qed.

(** The task answers every request once, in order, and each answer tells how the
    bytes of that request went. *)
Inductive served : World -> option Connection -> list (list byte) -> list (AppResult unit) -> Prop :=
| served_nil w t : served w t [] []
| served_cons w t tx txs r rs : delivery tx w t r ->
    served (send_on_connection w t tx).1.1 (send_on_connection w t tx).1.2 txs rs -> served w t (tx :: txs) (r :: rs).

(** A network on which a new connection can be made and takes what is sent. *)
Definition reconnects : Prop :=
  forall w tx, exists w0 c w1, connect w = (w0, inl c) /\ send w0 c tx = (w1, inl tt).

(** The mempool task answers every request once, in order; the answer says
    how its bytes went out: at most two tries, the second only after a failed
    send and on a new connection.  When connections can be made every request
    succeeds, whatever happened to the standing connection; the answer "failed
    after reconnect" is never given. *)
Theorem mempool_sender_serves w transport requests :
  served w transport requests (run_mempool_sender w transport requests).2 /\
  (reconnects -> Forall (fun r => r = Ok tt) (run_mempool_sender w transport requests).2) /\
  Forall (fun r => r <> Err (Internal "mempool send failed after reconnect")) (run_mempool_sender w transport requests).2.
Proof.
  assert (Hno : forall tx w t r, delivery tx w t r -> r <> Err (Internal "mempool send failed after reconnect")).
  { intros tx w1 t r Hd. induction Hd as [| |w1 w0 msg|w1 c w2 msg r _ Hr]; try done. by destruct Hr. }
  assert (Hok : forall tx w t r, reconnects -> delivery tx w t r -> r = Ok tt).
  { intros tx w1 t r Hrec Hd. induction Hd as [|w1 w0 c r Hc Hd IH|w1 w0 msg Hc|w1 c w2 msg r _ Hr]; try done.
    - destruct (Hrec w1 tx) as (? & ? & ? & E & ?). congruence.
    - destruct Hr as [|w3 w0 c' w4 msg' Hc Hs|w3 w0 msg' Hc]; [done| |];
        destruct (Hrec w3 tx) as (? & ? & ? & E & ?); [|congruence]. rewrite E in Hc. injection Hc as <- <-. congruence. }
  revert w transport. induction requests as [|tx requests IH]; intros w transport; [split_and!; constructor|].
  simpl. pose proof (attempt_delivery w transport tx) as Hd.
  destruct (send_on_connection w transport tx) as [[w1 t1] r] eqn:Es. simpl in Hd.
  destruct (IH w1 t1) as (H1 & H2 & H3). destruct (run_mempool_sender w1 t1 requests) as [[w2 t2] rs]. simpl in *.
  split_and!.
  - constructor; [done|]. by rewrite Es.
  - intros Hrec. constructor; [by eapply Hok|auto].
  - constructor; [by eapply Hno|done].
Qed.

End Mempool.

(** A network whose old connection is dead and whose new ones live; the world
    counts the connections made. *)
Definition DemoNet : Net := {|
  World := nat;
  Connection := bool;
  connect n := (S n, inl true);
  send n alive _ := (n, if alive then inl tt else inr "broken pipe"%string)
|}.

(** Two requests on a dead connection: one reconnection serves both. *)
Lemma mempool_sender_serves_witness :
  Forall (fun r => r = Ok tt) (run_mempool_sender (N := DemoNet) 0%nat (Some false) [[x01]; [x02]]).2 /\
  (run_mempool_sender (N := DemoNet) 0%nat (Some false) [[x01]; [x02]]).1.1 = 1%nat.
Proof.
  split; [|done]. apply (proj1 (proj2 (mempool_sender_serves (N := DemoNet) 0%nat (Some false) [[x01]; [x02]]))).
  intros w tx. by exists (S w), true, (S w).
Defined.
